(* ===== verification/_CoqProject ===== *)
-Q . S2P
Prelude.v
Memory.v
MemorySpec.v
MemoryProps.v
Registers.v
Ir.v
Iced.v
ExampleDecoder.v
Cpu.v
CpuInt.v
CpuSimd.v
Interp.v
CpuInv.v
CpuSafe.v
CpuArith.v
CpuAlu.v
CpuMulDiv.v
CpuStack.v
CpuShift.v
CpuLanes.v
CpuCache.v
CpuBlocks.v
Elf.v
ElfProps.v
Loader.v
LoaderStack.v
LoaderProps.v
LoaderInv.v
HostPath.v
Host.v
ExampleHost.v
Fs.v
FsProps.v
LinuxAbi.v
Terminal.v
Fd.v
Process.v
Syscalls.v
RunLoop.v
FdProps.v
ProcessProps.v
ProcessWait.v
FdInv.v
AbiInv.v
PathInv.v
SyscallInv.v
RunLoopInv.v
SyscallFrame.v
Isolation.v
RunLoopProps.v
SyscallProps.v
SyscallData.v
RunLoopDemo.v
RunLoopLive.v
RunLoopSolo.v
Testing.v
TestsCore.v
TestsCpu.v
TestsLinux.v
