(* ===== verification/Prelude.v ===== *)
(** * RUXEON: a Linux user-mode runtime, modelled and verified

    RUXEON runs x86-64 Linux programs in user mode: it parses an ELF file, maps
    it into a guest address space, builds the initial stack, and then alternates
    between interpreting the program's instructions, one translated block at a
    time, and serving the system calls the blocks end with, for all the
    processes the program forks, in the order of a round-robin scheduler.  This
    library models that program from the Rust sources and proves what makes it
    correct.

    ** The parts and their files

    - Guest memory (crates/ruxeon-core/src/memory.rs).  [Memory.v] has the list
      of regions and one definition per method; [MemorySpec.v] the view the
      guest has of it, one optional cell (permissions, byte) per address, the
      effect of every operation on that view, and the class [ByteStore], the
      contract the stack builder relies on, with [GuestMemory] as its instance;
      [MemoryProps.v] the properties.
    - Registers and flags (crates/ruxeon-cpu/src/registers.rs): [Registers.v].
    - Block metadata and block cache (crates/ruxeon-ir/src/lib.rs): [Ir.v].
    - The interpreter (crates/ruxeon-cpu/src/interpreter.rs).  [Cpu.v] has the
      state, the errors, operands, effective addresses, flags and the cache of
      decoded blocks; [CpuInt.v] the integer instructions, [cpuid] and the
      vsyscall page; [CpuSimd.v] the vector and string instructions;
      [Interp.v] the dispatch, [step], block translation, [step_block] and
      [run].  The other files whose names start with [Cpu] prove properties.
    - The decoder iced_x86, its formatter and the host's clock are not part of
      the sources: class [Iced] of [Iced.v] is their interface, and class
      [IcedLaws] states what the interpreter relies on (field widths, an
      instruction's length and address, and that decoding depends only on the
      bytes of the instruction).  [ExampleDecoder.v] is a small decoder that
      satisfies it and makes the witnesses executable.
    - The ELF parser (crates/ruxeon-elf/src/elf.rs): [Elf.v], [ElfProps.v].
    - The loader (crates/ruxeon-elf/src/loader.rs): [Loader.v],
      [LoaderStack.v], [LoaderProps.v], and [LoaderInv.v] for its invariant.
    - Host services (crates/ruxeon-host/src/lib.rs) and the interface to the
      host: [Host.v].  Class [Host] has the calls of the standard library and of
      crossterm that touch the world (files, directories, links, the standard
      streams, the terminal, the clock) and the order in which a [HashMap] is
      visited; class [HostLaws] states the documented behaviour the runtime
      relies on.  The platform, Unix or Windows, is a field of [Host];
      [HostPath.v] writes out the methods of [std::path] the sources use (the
      prefixes, components, [push], [strip_prefix] and the like) for both.
      [ExampleHost.v] is a host that satisfies the laws on either platform: a map
      from paths to files, directories and links.
    - The guest file system (crates/ruxeon-fs/src/lib.rs): [Fs.v] has guest
      paths, the root directory, the expansion of links and the virtual files;
      [FsProps.v] its properties, [PathInv.v] that paths are bytes.
    - The system calls (crates/ruxeon-linux/src/lib.rs).  [LinuxAbi.v] has the
      numbers, errors and structures exchanged with the guest; [Terminal.v] the
      terminal; [Fd.v] descriptors, pipes and directories; [Process.v] the
      process table, wait queues, fork, exit, wait and the scheduler;
      [Syscalls.v] one definition per call and the dispatch, on a [Kernel]: the
      calling process, its memory, what processes share (the host and the
      buffers of pipes) and the table of the other processes.  [FdProps.v],
      [ProcessProps.v], [ProcessWait.v], [SyscallProps.v] and [SyscallData.v]
      have properties, [FdInv.v], [AbiInv.v] and [SyscallInv.v] the invariant of
      the kernel, [SyscallFrame.v] what no call changes of its caller.
    - The command line (crates/ruxeon-cli/src/main.rs): [RunLoop.v] has loading
      through the root directory, the rounds of the run loop on a [System] (the
      table, the scheduler, a cache per process), execve and the commands;
      [RunLoopInv.v] the invariant of the whole system, [Isolation.v] what a
      round leaves alone, [RunLoopSolo.v] the machine the loop implements for
      one process, [RunLoopLive.v] progress and the result of a run,
      [RunLoopProps.v] how a round ends, [RunLoopDemo.v] a program that forks,
      executed from start to exit.
    - The tests of all crates: [TestsCore.v], [TestsCpu.v] and [TestsLinux.v]
      have them as programs in the monad of the code they call ([Testing.v]),
      evaluated on the example host and on a decoder for the encodings they
      contain.  They pass, so that the models return what the authors of the
      code observed; those of the file system run on both platforms, and the one
      about Windows prefixes, which is built everywhere, passes on Windows only.

    ** How the code is modelled

    A fallible function returns [res E A] below: [Ok], [Err] with the error of
    the source's enum, or [Panic].  [Panic] stands for a Rust panic: an index
    or slice out of range, [expect] on [None], and the overflow of a plain
    [+], [-], [*], [<<] or [>>], which the development profile checks, and the
    allocation of more than [isize::MAX] bytes.  A method on [&mut self] is a
    function of type [ST S E A] that returns the new state on every exit,
    because the object keeps what was changed before an error.  Integers are
    [Z] with the wrap-around or the check written out at each operation
    ([wrap], [checked_add], [wrapping_add], [add64], ...); [usize] is 64 bits
    wide.  Byte strings, Rust strings and paths are lists of bytes.  The
    theorems hold on a Unix and on a Windows host, except where they name the
    platform (C9); the witnesses use a Unix host.  A [HashMap] is a [gmap]; where the order of visiting it matters it is the
    function [visit] of the host, of which only that it lists the entries once
    is known.  A pipe's buffer, which the source shares by [Arc<Mutex<_>>],
    is an index into the list of buffers of [Shared], so that all descriptors
    on it, of all processes, see the same bytes.  Closing a host file when the
    last descriptor on it goes away and running out of host memory are not
    modelled: an allocation of up to [isize::MAX] bytes succeeds, and the buffer
    of a pipe, which holds only bytes that were in memory, does not reach that
    bound.

    ** What is shown

    - Memory: the operations on regions implement the address-indexed memory
      and panic only when a free range of 2^63 bytes or more, too long for a
      vector, is mapped (C1); when reads succeed (C34); every reachable map is
      well-formed ([memory_reachable_wf]), words read back
      ([write_u64_roundtrip]).
    - The whole system: whatever program is started and however long it runs,
      all processes keep one invariant (C2).  It is proved from the parts: the
      loader ([LoaderInv.v]), the interpreter, every system call (C11) and the
      steps of the loop.  [guarded] of [FdInv.v] is the triple it uses: with a
      false guard it says that the invariant is kept on every exit, with a true
      one also that the call does not panic.  So the same proofs give that a
      call in the envelope [call_ok] returns (C12).  The envelope excludes
      arguments that do make the runtime panic: lengths no buffer and no mapping
      can have (a [brk] or an [mmap] of 2^63 bytes), descriptor numbers at the end
      of [i32], addresses in the last page; and
      [readv], which allocates before it looks at a length the guest holds in
      its memory.
    - Processes among each other: a round of one process leaves the memory,
      registers, descriptors and cache of all others alone (C3); to a program
      that does not fork the loop is invisible, it implements a plain machine
      that alternates blocks and calls (C4, [RunLoopSolo.v]); every thread
      that can run is in the queue and gets its turn (C16); the code a run ends
      with is the one its first process exited with, when nothing can run any
      more (C17).  C3, C16 and C17 use another invariant: the records are filed
      under their own numbers, below the next one.
    - Execution, whatever the decoder returns: however [run] ends, the map and
      the permissions are unchanged, memory the guest may not write keeps its
      bytes and every register stays in range (C5, by a small program logic,
      [spec] below, applied to every instruction in [CpuInv.v] and
      [CpuSafe.v]).
    - The block cache: executing a block is executing its instructions one at a
      time (C6, [CpuBlocks.v]; for code the guest cannot write, outside the
      vsyscall page); looking up is translating (C7), operand stores
      keep the cache coherent (C36), pushes do not ([push_leaves_stale_block]),
      in [CpuCache.v].
    - Instructions compute what they should: comparisons and the 48 conditional
      mnemonics ([CpuArith.v], C27), the arithmetic and logic instructions
      ([CpuAlu.v], C28), multiplication and division ([CpuMulDiv.v], C29, C30),
      call and return ([CpuStack.v], C31), shifts ([CpuShift.v], C32), packed
      instructions ([CpuLanes.v], C33); writes through every register name, with
      the instruction pointer stored whole (C35).  Rotations, double shifts, [adc] and shuffles are in the
      same files.
    - Paths: resolution is the iterated expansion of the first link (C8), stays
      inside the root directory (C9) and ends (C10).  C9 is unconditional on a
      Unix host; on a Windows host it needs that no component names a drive,
      because the check for prefixes looks at the start of the path only and
      [push] of a drive replaces the root ([drive_replaces_root] and
      [windows_escape] of [FsProps.v]).  A path relative to an open
      directory is not resolved this way: [dirfd_path_escapes] of
      [SyscallProps.v].
    - Descriptors: a pipe is a queue under every interleaving (C13) and carries
      bytes from the memory of one process to that of another (C14); fork and
      exec (C37), directory listings decode to the entries (C38).
    - The process table: an exit status reaches the parent once, in every
      history of forks, exits and waits (C15, a step relation); what a fork
      makes (C18).
    - Single calls: [mmap] of files and of anonymous memory (C19), [munmap] after
      an anonymous one without [MAP_FIXED] (C20) and [brk] (C21) on the guest's bytes, the terminal structure (C39).
      [RunLoopProps.v] shows that a blocked [wait4] is not made again and that a
      failing execve ends the run.
    - The ELF parser is total and exact (C22) and inverts the layout (C40).
    - The loader: the loaded program (C23), the initial stack byte for byte and
      what a process reads from it (C24, C25), its alignment
      ([initial_stack_alignment]), segments (C26); files that make it panic
      ([load_can_panic], [large_segment_panics]).

    ** Bounds and fuel

    Most loops of the sources are structural here: [translate_loop] has the
    source's own bound of 64 instructions, [run_loop] the caller's step limit,
    [rounds] the source's DEFAULT_MAX_STEPS, the string instructions the count
    register, reading a C string its 4096 bytes; the hexadecimal number in a
    segment's name has 16 digits, enough for 64 bits.  Five loops have fuel, and
    the theorems show that it does not run out: the expansion of links with 41
    passes, one more than the source allows expansions (C10); the search for a
    free descriptor and for a free process number with one more step than the
    table has entries, since one of as many consecutive numbers is free (part of
    C12, where running out would be a panic); and the two loops of [sendfile]
    with one step per byte left to send ([sendfile_loop_enough] and
    [write_chunk_enough] of [SyscallProps.v]).

    ** What is not modelled, and the plan

    The parser of the command line (clap), what only prints (traces, summaries)
    and the [Debug] and [Display] texts of errors; the dynamic-linker stub, which has no logic.  Next: what
    [readv], [writev] and [sendfile] move between the guest and the host; [stat]
    and [uname] structures as round trips; the loop for several processes as an
    interleaving of the machines of [RunLoopSolo.v]. *)

From Stdlib Require Export ZArith Lia Bool List Sorting.
From stdpp Require Export base numbers tactics sets gmap list.

Open Scope Z_scope.

(** ** Results: Rust's [Result], with panics as a third outcome

    [Panic] is a Rust panic: an arithmetic overflow of a plain [+], [-], [*],
    [<<] in the development profile, an index or slice out of range, an
    [expect] on [None] or an [unreachable!]. *)

Inductive res (E A : Type) : Type :=
| Ok (a : A)
| Err (e : E)
| Panic.

Arguments Ok {E A} a.
Arguments Err {E A} e.
Arguments Panic {E A}.

#[export] Instance res_ret E : MRet (res E) := fun A a => Ok a.
#[export] Instance res_bind E : MBind (res E) := fun A B f m =>
  match m with Ok a => f a | Err e => Err e | Panic => Panic end.
#[export] Instance res_fmap E : FMap (res E) := fun A B f m =>
  match m with Ok a => Ok (f a) | Err e => Err e | Panic => Panic end.

(** [Result::map_err], used for the [#[from]] conversions of [?]. *)
Definition map_err {E E' A} (f : E -> E') (m : res E A) : res E' A :=
  match m with Ok a => Ok a | Err e => Err (f e) | Panic => Panic end.

(** [Option::ok_or]. *)
Definition ok_or {E A} (o : option A) (e : E) : res E A :=
  match o with Some a => Ok a | None => Err e end.

(** [Option::expect], an indexing expression, a value that must be there. *)
Definition expect {E A} (o : option A) : res E A :=
  match o with Some a => Ok a | None => Panic end.

Definition is_ok {E A} (m : res E A) : bool :=
  match m with Ok _ => true | _ => false end.

(** ** Methods on [&mut self]: state passing that keeps the state on errors

    A method on [&mut self] may have changed the object before it returns
    [Err], so the state comes back on every exit. *)

Definition ST (S E A : Type) : Type := S -> res E A * S.

#[export] Instance st_ret S E : MRet (ST S E) := fun A a s => (Ok a, s).
#[export] Instance st_bind S E : MBind (ST S E) := fun A B f m s =>
  match m s with
  | (Ok a, s') => f a s'
  | (Err e, s') => (Err e, s')
  | (Panic, s') => (Panic, s')
  end.

Section Monad.
Context {S E : Type}.

Definition raise {A} (e : E) : ST S E A := fun s => (Err e, s).
Definition panic {A} : ST S E A := fun s => (Panic, s).
Definition gets {A} (f : S -> A) : ST S E A := fun s => (Ok (f s), s).
Definition modify (f : S -> S) : ST S E unit := fun s => (Ok tt, f s).

(** A computation that reads nothing of the state. *)
Definition lift {A} (m : res E A) : ST S E A := fun s => (m, s).

(** A method on [&self]: it reads the state and cannot change it. *)
Definition reads {A} (f : S -> res E A) : ST S E A := fun s => (f s, s).

(** A method called on a field of the object, with its errors converted. *)
Definition zoom {T E' A} (get : S -> T) (set : T -> S -> S) (conv : E' -> E)
    (m : ST T E' A) : ST S E A :=
  fun s => let '(r, t) := m (get s) in (map_err conv r, set t s).
End Monad.

(** ** Machine integers *)

(** A [w]-bit unsigned integer. *)
Definition fits (w x : Z) : Prop := 0 <= x < 2 ^ w.

Abbreviation u8 := (fits 8).
Abbreviation u16 := (fits 16).
Abbreviation u32 := (fits 32).
Abbreviation u64 := (fits 64).
Abbreviation u128 := (fits 128).

Definition u64_max : Z := 2 ^ 64 - 1.

(** [x as uN]: the low [w] bits. *)
Definition wrap (w x : Z) : Z := x mod 2 ^ w.

(** [x as iN]: the low [w] bits read in two's complement. *)
Definition signed (w x : Z) : Z :=
  let y := x mod 2 ^ w in if y <? 2 ^ (w - 1) then y else y - 2 ^ w.

Definition wrapping_add (a b : Z) : Z := wrap 64 (a + b).
Definition wrapping_sub (a b : Z) : Z := wrap 64 (a - b).
Definition wrapping_mul (a b : Z) : Z := wrap 64 (a * b).

Definition checked_add (a b : Z) : option Z :=
  if a + b <? 2 ^ 64 then Some (a + b) else None.
Definition checked_mul (a b : Z) : option Z :=
  if a * b <? 2 ^ 64 then Some (a * b) else None.
Definition checked_sub (a b : Z) : option Z :=
  if b <=? a then Some (a - b) else None.
Definition saturating_add (a b : Z) : Z := Z.min (a + b) u64_max.
Definition saturating_sub (a b : Z) : Z := Z.max (a - b) 0.

(** The plain operators on [u64]/[usize]: a panic on overflow. *)
Definition add64 {E} (a b : Z) : res E Z := expect (checked_add a b).
Definition sub64 {E} (a b : Z) : res E Z := expect (checked_sub a b).
Definition mul64 {E} (a b : Z) : res E Z := expect (checked_mul a b).

(** [a << n] and [a >> n] on a [w]-bit unsigned integer. *)
Definition shl {E} (w a n : Z) : res E Z :=
  if n <? w then Ok (wrap w (Z.shiftl a n)) else Panic.
Definition shr {E} (w a n : Z) : res E Z :=
  if n <? w then Ok (Z.shiftr a n) else Panic.

(** [!a] on a [w]-bit unsigned integer. *)
Definition lnotw (w a : Z) : Z := wrap w (Z.lnot a).

(** ** Byte strings and slices *)

Definition len {A} (l : list A) : Z := Z.of_nat (length l).

(** [to_le_bytes] of an integer of [n] bytes. *)
Fixpoint to_le (n : nat) (x : Z) : list Z :=
  match n with
  | O => []
  | S n => x mod 256 :: to_le n (x / 256)
  end.

(** [from_le_bytes]. *)
Fixpoint of_le (bs : list Z) : Z :=
  match bs with
  | [] => 0
  | b :: bs => b + 256 * of_le bs
  end.

(** [Vec::with_capacity(n)] of bytes: a capacity above [isize::MAX] panics. *)
Definition capacity {E} (n : Z) : res E unit := if n <? 2 ^ 63 then Ok tt else Panic.

(** [vec![0; n]] of bytes. *)
Definition zeroed {E} (n : Z) : res E (list Z) :=
  capacity n ;; Ok (replicate (Z.to_nat n) 0).

(** [&l[i..j]]. *)
Definition slice {E A} (l : list A) (i j : Z) : res E (list A) :=
  if (0 <=? i) && (i <=? j) && (j <=? len l)
  then Ok (take (Z.to_nat (j - i)) (drop (Z.to_nat i) l))
  else Panic.

(** [l.get(i..j)]. *)
Definition slice_opt {A} (l : list A) (i j : Z) : option (list A) :=
  if (0 <=? i) && (i <=? j) && (j <=? len l)
  then Some (take (Z.to_nat (j - i)) (drop (Z.to_nat i) l))
  else None.

(** [l[i..i + bs.len()].copy_from_slice(bs)]. *)
Definition splice {E A} (l : list A) (i : Z) (bs : list A) : res E (list A) :=
  if (0 <=? i) && (i + len bs <=? len l)
  then Ok (take (Z.to_nat i) l ++ bs ++ drop (Z.to_nat (i + len bs)) l)
  else Panic.

(** [l[i]]. *)
Definition index {E A} (l : list A) (i : Z) : res E A :=
  if 0 <=? i then expect (l !! Z.to_nat i) else Panic.

(** [iter().position(f)]. *)
Fixpoint position {A} (f : A -> bool) (l : list A) : option nat :=
  match l with
  | [] => None
  | x :: l => if f x then Some O else option_map S (position f l)
  end.

(** [iter().find(f)]. *)
Fixpoint find_first {A} (f : A -> bool) (l : list A) : option A :=
  match l with
  | [] => None
  | x :: l => if f x then Some x else find_first f l
  end.

(** [sort_by_key]: the stable sort, as an insertion sort. *)
Fixpoint insert_by {A} (key : A -> Z) (x : A) (l : list A) : list A :=
  match l with
  | [] => [x]
  | y :: l => if key x <=? key y then x :: y :: l else y :: insert_by key x l
  end.

Fixpoint sort_by {A} (key : A -> Z) (l : list A) : list A :=
  match l with
  | [] => []
  | x :: l => insert_by key x (sort_by key l)
  end.

(** [for x in l { body }] over a state with an early return by [?]. *)
Fixpoint for_each {S E A} (l : list A) (body : A -> ST S E unit) : ST S E unit :=
  match l with
  | [] => mret tt
  | x :: l => body x ;; for_each l body
  end.

(** [for i in 0..n]: the indices of a counted loop. *)
Definition upto (n : nat) : list Z := Z.of_nat <$> seq 0 n.

(** ** Automation *)

(** Case analysis on every integer comparison of the goal and hypotheses. *)
Ltac zbool :=
  repeat match goal with
  | H : context [?a =? ?b] |- _ => destruct (Z.eqb_spec a b)
  | H : context [?a <? ?b] |- _ => destruct (Z.ltb_spec a b)
  | H : context [?a <=? ?b] |- _ => destruct (Z.leb_spec a b)
  | |- context [?a =? ?b] => destruct (Z.eqb_spec a b)
  | |- context [?a <? ?b] => destruct (Z.ltb_spec a b)
  | |- context [?a <=? ?b] => destruct (Z.leb_spec a b)
  end; simpl in *; try discriminate.

(** Take apart a successful run of a chain of binds, one step at a time. *)
Ltac res_inv :=
  repeat (match goal with
  | H : Ok _ = Ok _ |- _ => injection H as H; subst
  | H : Err _ = Err _ |- _ => injection H as H; subst
  | H : (_, _) = (_, _) |- _ => injection H as H; subst
  | H : Ok _ = Err _ |- _ => discriminate H
  | H : Err _ = Ok _ |- _ => discriminate H
  | H : Ok _ = Panic |- _ => discriminate H
  | H : Panic = Ok _ |- _ => discriminate H
  | H : Err _ = Panic |- _ => discriminate H
  | H : Panic = Err _ |- _ => discriminate H
  | H : Some _ = Some _ |- _ => injection H as H; subst
  | H : Some _ = None |- _ => discriminate H
  | H : None = Some _ |- _ => discriminate H
  end; simplify_eq/=).

(** ** Machine integers: ranges and bits *)

Create HintDb fits.

Section Fits.
Implicit Types a b w x : Z.

Lemma wrap_fits w x : 0 <= w -> fits w (wrap w x).
Proof. intros. unfold fits, wrap. apply Z.mod_pos_bound. lia. Qed.

Lemma wrap_small w x : fits w x -> wrap w x = x.
Proof. apply Z.mod_small. Qed.

Lemma fits_le w w' x : w <= w' -> fits w x -> fits w' x.
Proof.
  unfold fits. intros Hw [H0 H1]. split; [done|].
  eapply Z.lt_le_trans; [exact H1|]. apply Z.pow_le_mono_r; lia.
Qed.

(** A number fits [w] bits when no bit at or above [w] is set. *)
Lemma fits_testbit w x : 0 <= w -> fits w x <->
  0 <= x /\ forall i, w <= i -> Z.testbit x i = false.
Proof.
  intros Hw. split.
  - intros [H0 H1]. split; [done|]. intros i Hi.
    rewrite <- (Z.mod_small x (2 ^ w)) by done.
    by apply Z.mod_pow2_bits_high.
  - intros [H0 Hb]. split; [done|].
    assert (x = x mod 2 ^ w) as ->; [|apply Z.mod_pos_bound; lia].
    apply Z.bits_inj'. intros i Hi. rewrite Z.testbit_mod_pow2 by done.
    destruct (Z.ltb_spec i w); [done|]. by rewrite Hb.
Qed.

Lemma testbit_fits w x i : 0 <= w -> fits w x -> w <= i -> Z.testbit x i = false.
Proof. intros Hw Hx. by apply fits_testbit. Qed.

Lemma land_fits_l w a b : 0 <= w -> fits w a -> fits w (Z.land a b).
Proof.
  intros Hw Ha. apply fits_testbit; [done|]. split.
  - apply Z.land_nonneg. left. apply Ha.
  - intros i Hi. by rewrite Z.land_spec, (testbit_fits w a).
Qed.

Lemma land_fits_r w a b : 0 <= w -> fits w b -> fits w (Z.land a b).
Proof. intros. rewrite Z.land_comm. by apply land_fits_l. Qed.

Lemma lor_fits w a b : 0 <= w -> fits w a -> fits w b -> fits w (Z.lor a b).
Proof.
  intros Hw Ha Hb. apply fits_testbit; [done|]. split.
  - apply Z.lor_nonneg. split; [apply Ha|apply Hb].
  - intros i Hi. by rewrite Z.lor_spec, (testbit_fits w a), (testbit_fits w b).
Qed.

Lemma lxor_fits w a b : 0 <= w -> fits w a -> fits w b -> fits w (Z.lxor a b).
Proof.
  intros Hw Ha Hb. apply fits_testbit; [done|]. split.
  - apply Z.lxor_nonneg. split; intros _; [apply Hb|apply Ha].
  - intros i Hi. by rewrite Z.lxor_spec, (testbit_fits w a), (testbit_fits w b).
Qed.

Lemma shiftr_fits w a n : 0 <= w -> 0 <= n -> fits w a -> fits w (Z.shiftr a n).
Proof.
  intros Hw Hn [H0 H1]. rewrite Z.shiftr_div_pow2 by done. split.
  - apply Z.div_pos; lia.
  - apply Z.le_lt_trans with a; [|done]. apply Z.div_le_upper_bound; nia.
Qed.

Lemma lnotw_fits w a : 0 <= w -> fits w (lnotw w a).
Proof. apply wrap_fits. Qed.

Lemma lnotw_spec w a i : 0 <= w -> 0 <= i ->
  Z.testbit (lnotw w a) i = (i <? w) && negb (Z.testbit a i).
Proof.
  intros Hw Hi. unfold lnotw, wrap. rewrite Z.testbit_mod_pow2, Z.lnot_spec by done.
  by destruct (i <? w).
Qed.

Lemma wrap_spec w a i : 0 <= w ->
  Z.testbit (wrap w a) i = (i <? w) && Z.testbit a i.
Proof. intros Hw. unfold wrap. by rewrite Z.testbit_mod_pow2. Qed.

(** [x & (2^w - 1)] keeps the low [w] bits. *)
Lemma land_ones_wrap w x : 0 <= w -> Z.land x (2 ^ w - 1) = wrap w x.
Proof.
  intros. unfold wrap. rewrite <- Z.land_ones by done.
  by rewrite Z.ones_equiv, Z.sub_1_r.
Qed.

Lemma shl_fits {E} w a n r : 0 <= w -> @shl E w a n = Ok r -> fits w r.
Proof. unfold shl. intros. zbool. res_inv. by apply wrap_fits. Qed.

Lemma shr_fits {E} w a n r : 0 <= w -> 0 <= n -> fits w a ->
  @shr E w a n = Ok r -> fits w r.
Proof. unfold shr. intros. zbool. res_inv. by apply shiftr_fits. Qed.

Lemma signed_range w x : 0 < w -> - 2 ^ (w - 1) <= signed w x < 2 ^ (w - 1).
Proof.
  intros Hw. unfold signed.
  assert (2 ^ w = 2 * 2 ^ (w - 1)) as Hp
    by (rewrite <- Z.pow_succ_r by lia; f_equal; lia).
  pose proof (Z.mod_pos_bound x (2 ^ w) ltac:(lia)). zbool; lia.
Qed.

(** The two readings of a machine word agree modulo [2^w]. *)
Lemma signed_mod w x : 0 < w -> signed w x mod 2 ^ w = x mod 2 ^ w.
Proof.
  intros Hw. unfold signed. destruct (_ <? _).
  - by rewrite Z.mod_mod by lia.
  - rewrite Zminus_mod, Z.mod_mod, Z_mod_same_full, Z.sub_0_r by lia.
    by apply Z.mod_mod; lia.
Qed.

Lemma add64_Ok {E} a b r : @add64 E a b = Ok r <-> r = a + b /\ a + b < 2 ^ 64.
Proof.
  unfold add64, checked_add. destruct (Z.ltb_spec (a + b) (2 ^ 64)); simpl; split.
  - by intros [= <-].
  - by intros [-> _].
  - done.
  - lia.
Qed.

Lemma sub64_Ok {E} a b r : @sub64 E a b = Ok r <-> r = a - b /\ b <= a.
Proof.
  unfold sub64, checked_sub. destruct (Z.leb_spec b a); simpl; split.
  - by intros [= <-].
  - by intros [-> _].
  - done.
  - lia.
Qed.
End Fits.

#[export] Hint Resolve wrap_fits land_fits_l lor_fits lxor_fits lnotw_fits : fits.
#[export] Hint Extern 4 (0 <= _) => lia : fits.

(** ** Little-endian encodings *)

Lemma length_to_le n x : length (to_le n x) = n.
Proof. revert x. induction n; intros x; simpl; auto. Qed.

Lemma to_le_u8 n x : Forall (fits 8) (to_le n x).
Proof.
  revert x. induction n; intros x; simpl; constructor; [|done].
  unfold fits. apply Z.mod_pos_bound. lia.
Qed.

Lemma of_le_fits bs : Forall (fits 8) bs -> fits (8 * len bs) (of_le bs).
Proof.
  unfold fits, len. induction 1 as [|b bs Hb _ IH]; [simpl; lia|].
  cbn [of_le length].
  replace (8 * Z.of_nat (S (length bs))) with (8 + 8 * Z.of_nat (length bs)) by lia.
  rewrite Z.pow_add_r by lia. change (2 ^ 8) with 256 in *. lia.
Qed.

Lemma of_le_to_le n x : of_le (to_le n x) = x mod 2 ^ (8 * Z.of_nat n).
Proof.
  revert x. induction n as [|n IH]; intros x.
  - simpl. by rewrite Z.mod_1_r.
  - cbn [to_le of_le]. rewrite IH.
    replace (8 * Z.of_nat (S n)) with (8 + 8 * Z.of_nat n) by lia.
    rewrite Z.pow_add_r, (Z.rem_mul_r x) by lia. done.
Qed.

Lemma to_le_of_le bs : Forall (fits 8) bs -> to_le (length bs) (of_le bs) = bs.
Proof.
  unfold fits. induction 1 as [|b bs Hb _ IH]; [done|]. cbn [to_le of_le length].
  rewrite (Z.mul_comm 256), Z_mod_plus_full, Z_div_plus_full by lia.
  by rewrite Z.mod_small, Z.div_small, Z.add_0_l, IH by lia.
Qed.

Lemma of_le_to_le_id n x : fits (8 * Z.of_nat n) x -> of_le (to_le n x) = x.
Proof. intros. rewrite of_le_to_le. by apply Z.mod_small. Qed.

(** ** Slices *)

Lemma len_app {A} (l k : list A) : len (l ++ k) = len l + len k.
Proof. unfold len. rewrite length_app. lia. Qed.

Lemma len_nonneg {A} (l : list A) : 0 <= len l.
Proof. unfold len. lia. Qed.

Lemma slice_Ok {E A} (l k : list A) i j : @slice E A l i j = Ok k <->
  0 <= i <= j /\ j <= len l /\ k = take (Z.to_nat (j - i)) (drop (Z.to_nat i) l).
Proof.
  unfold slice. zbool; split; try (intros [= <-]); intuition (subst; auto; lia).
Qed.

Lemma slice_len {E A} (l k : list A) i j : @slice E A l i j = Ok k -> len k = j - i.
Proof.
  rewrite slice_Ok. unfold len. intros (?&?&->).
  rewrite length_take, length_drop. lia.
Qed.

Lemma slice_lookup {E A} (l k : list A) i j n : @slice E A l i j = Ok k ->
  0 <= n < j - i -> k !! Z.to_nat n = l !! Z.to_nat (i + n).
Proof.
  rewrite slice_Ok. intros (?&?&->) Hn.
  rewrite lookup_take_lt, lookup_drop by lia. f_equal. lia.
Qed.

Lemma slice_Forall {E A} (P : A -> Prop) (l k : list A) i j :
  @slice E A l i j = Ok k -> Forall P l -> Forall P k.
Proof. rewrite slice_Ok. intros (_&_&->) ?. by apply Forall_take, Forall_drop. Qed.

Lemma splice_Ok {E A} (l k bs : list A) i : @splice E A l i bs = Ok k <->
  0 <= i /\ i + len bs <= len l /\
  k = take (Z.to_nat i) l ++ bs ++ drop (Z.to_nat (i + len bs)) l.
Proof.
  unfold splice. zbool; split; try (intros [= <-]); intuition (subst; auto; lia).
Qed.

Lemma splice_len {E A} (l k bs : list A) i : @splice E A l i bs = Ok k -> len k = len l.
Proof.
  rewrite splice_Ok. unfold len. intros (?&?&->).
  rewrite !length_app, length_take, length_drop. lia.
Qed.

Lemma splice_Forall {E A} (P : A -> Prop) (l k bs : list A) i :
  @splice E A l i bs = Ok k -> Forall P l -> Forall P bs -> Forall P k.
Proof.
  rewrite splice_Ok. intros (_&_&->) ??.
  apply Forall_app; split; [by apply Forall_take|].
  apply Forall_app; split; [done|by apply Forall_drop].
Qed.

(** Reading a spliced list: the written bytes inside, the old ones outside. *)
Lemma splice_lookup {E A} (l k bs : list A) i n : @splice E A l i bs = Ok k -> 0 <= n ->
  k !! Z.to_nat n =
    if (i <=? n) && (n <? i + len bs) then bs !! Z.to_nat (n - i) else l !! Z.to_nat n.
Proof.
  rewrite splice_Ok. unfold len. intros (?&?&->) Hn.
  destruct (Z.leb_spec i n), (Z.ltb_spec n (i + Z.of_nat (length bs))); simpl.
  - rewrite lookup_app_r by (rewrite length_take; lia).
    rewrite lookup_app_l by (rewrite length_take; lia).
    f_equal. rewrite length_take. lia.
  - rewrite lookup_app_r by (rewrite length_take; lia).
    rewrite lookup_app_r by (rewrite length_take; lia).
    rewrite lookup_drop, length_take. f_equal. lia.
  - rewrite lookup_app_l by (rewrite length_take; lia). by rewrite lookup_take_lt by lia.
  - lia.
Qed.

(** What is spliced in reads back. *)
Lemma slice_splice {E E' A} (l k bs : list A) i :
  @splice E A l i bs = Ok k -> @slice E' A k i (i + len bs) = Ok bs.
Proof.
  intros Hs. pose proof (splice_len _ _ _ _ Hs) as Hl.
  apply splice_Ok in Hs as (?&?&->). apply slice_Ok. split; [unfold len; lia|].
  split; [lia|]. rewrite drop_app_length' by (rewrite length_take; unfold len in *; lia).
  by rewrite take_app_length' by (unfold len; lia).
Qed.

(** ** Searching *)

Lemma position_Some {A} (f : A -> bool) l i : position f l = Some i ->
  exists x, l !! i = Some x /\ f x = true.
Proof.
  revert i. induction l as [|y l IH]; intros i; simpl; [done|].
  destruct (f y) eqn:Hy; [intros [= <-]; eauto|].
  destruct (position f l) as [j|]; [|done]. intros [= <-]. by apply IH.
Qed.

Lemma position_None {A} (f : A -> bool) l : position f l = None ->
  forall x, x ∈ l -> f x = false.
Proof.
  induction l as [|y l IH]; simpl; intros H x Hx; [by apply elem_of_nil in Hx|].
  destruct (f y) eqn:Hy; [done|]. destruct (position f l); [done|].
  apply elem_of_cons in Hx as [->|Hx]; auto.
Qed.

Lemma position_is_Some {A} (f : A -> bool) l x : x ∈ l -> f x = true ->
  exists i, position f l = Some i.
Proof.
  destruct (position f l) eqn:H; [eauto|].
  intros Hx Hf. rewrite (position_None f l H x Hx) in Hf. done.
Qed.

Lemma find_first_Some {A} (f : A -> bool) l x : find_first f l = Some x ->
  x ∈ l /\ f x = true.
Proof.
  induction l as [|y l IH]; simpl; [done|].
  destruct (f y) eqn:Hy; [intros [= <-]|intros H]; set_solver.
Qed.

Lemma find_first_None {A} (f : A -> bool) l : find_first f l = None ->
  forall x, x ∈ l -> f x = false.
Proof.
  induction l as [|y l IH]; simpl; intros H x Hx; [by apply elem_of_nil in Hx|].
  destruct (f y) eqn:Hy; [done|]. apply elem_of_cons in Hx as [->|Hx]; auto.
Qed.

(** ** The sort *)

Lemma insert_by_perm {A} (key : A -> Z) x l : insert_by key x l ≡ₚ x :: l.
Proof.
  induction l as [|y l IH]; simpl; [done|].
  destruct (key x <=? key y); [done|]. rewrite IH. constructor.
Qed.

Lemma sort_by_perm {A} (key : A -> Z) l : sort_by key l ≡ₚ l.
Proof. induction l as [|x l IH]; simpl; [done|]. by rewrite insert_by_perm, IH. Qed.

(** ** A small program logic for [ST]

    [spec I m Q]: from a state that satisfies [I], [m] ends in a state that
    satisfies [I] on every exit (success, error or panic), and a value it
    returns satisfies [Q]. *)

Definition spec {S E A} (I : S -> Prop) (m : ST S E A) (Q : A -> Prop) : Prop :=
  forall s, I s -> I (m s).2 /\ forall a, (m s).1 = Ok a -> Q a.

Abbreviation preserves I m := (spec I m (fun _ => True)).

Section Spec.
Context {S E : Type} (I : S -> Prop).

Lemma spec_ret {A} (a : A) (Q : A -> Prop) : Q a -> spec I (mret a : ST S E A) Q.
Proof. intros HQ s Hs. split; [done|]. by intros ? [= <-]. Qed.

Lemma spec_bind {A B} (m : ST S E A) (f : A -> ST S E B) Q R :
  spec I m Q -> (forall a, Q a -> spec I (f a) R) -> spec I (m ≫= f) R.
Proof.
  intros Hm Hf s Hs. unfold mbind, st_bind.
  destruct (Hm s Hs) as [H1 H2]. destruct (m s) as [[a|e|] s']; simpl in *.
  - apply (Hf a (H2 a eq_refl) s' H1).
  - split; [done|]. discriminate.
  - split; [done|]. discriminate.
Qed.

Lemma spec_weaken {A} (m : ST S E A) (Q R : A -> Prop) :
  spec I m Q -> (forall a, Q a -> R a) -> spec I m R.
Proof. intros Hm HQ s Hs. destruct (Hm s Hs). split; auto. Qed.

Lemma spec_raise {A} e (Q : A -> Prop) : spec I (raise (S:=S) (E:=E) e) Q.
Proof. intros s Hs. split; [done|]. discriminate. Qed.

Lemma spec_panic {A} (Q : A -> Prop) : spec I (panic (S:=S) (E:=E)) Q.
Proof. intros s Hs. split; [done|]. discriminate. Qed.

Lemma spec_gets {A} (f : S -> A) (Q : A -> Prop) :
  (forall s, I s -> Q (f s)) -> spec I (gets (E:=E) f) Q.
Proof. intros HQ s Hs. split; [done|]. intros a [= <-]. auto. Qed.

Lemma spec_modify (f : S -> S) :
  (forall s, I s -> I (f s)) -> preserves I (modify (E:=E) f).
Proof. intros Hf s Hs. split; [by apply Hf|done]. Qed.

Lemma spec_lift {A} (r : res E A) (Q : A -> Prop) :
  (forall a, r = Ok a -> Q a) -> spec I (lift r) Q.
Proof. intros HQ s Hs. split; [done|]. exact HQ. Qed.

Lemma spec_reads {A} (f : S -> res E A) (Q : A -> Prop) :
  (forall s a, I s -> f s = Ok a -> Q a) -> spec I (reads f) Q.
Proof. intros HQ s Hs. split; [done|]. intros a. by apply HQ. Qed.

Lemma spec_for_each {A} (l : list A) (body : A -> ST S E unit) :
  (forall x, x ∈ l -> preserves I (body x)) -> preserves I (for_each l body).
Proof.
  induction l as [|x l IH]; intros Hb; simpl; [by apply spec_ret|].
  eapply spec_bind; [apply Hb; set_solver|]. intros _ _. apply IH. set_solver.
Qed.
End Spec.

Lemma spec_zoom {S T E E' A} (I : S -> Prop) (J : T -> Prop) (get : S -> T) set
    (conv : E' -> E) (m : ST T E' A) Q :
  spec J m Q -> (forall s, I s -> J (get s)) -> (forall s t, I s -> J t -> I (set t s)) ->
  spec I (zoom get set conv m) Q.
Proof.
  intros Hm Hg Hset s Hs. unfold zoom. destruct (Hm (get s) (Hg s Hs)) as [H1 H2].
  destruct (m (get s)) as [r t]; simpl in *. split; [auto|].
  destruct r; simpl; intros ? [= <-]; auto.
Qed.

(** [safe m Q]: [m] does not panic, and a value it returns satisfies [Q]. *)
Definition safe {E A} (m : res E A) (Q : A -> Prop) : Prop :=
  match m with Ok a => Q a | Err _ => True | Panic => False end.

Section Safe.
Context {E : Type}.

Lemma safe_bind {A B} (m : res E A) (f : A -> res E B) (Q : A -> Prop) (R : B -> Prop) :
  safe m Q -> (forall a, Q a -> safe (f a) R) -> safe (m ≫= f) R.
Proof. destruct m; simpl; auto. Qed.

Lemma safe_weaken {A} (m : res E A) (Q R : A -> Prop) :
  safe m Q -> (forall a, Q a -> R a) -> safe m R.
Proof. destruct m; simpl; auto. Qed.

Lemma safe_ok_or {A} (o : option A) (e : E) (Q : A -> Prop) :
  (forall a, o = Some a -> Q a) -> safe (ok_or o e) Q.
Proof. destruct o; simpl; auto. Qed.

Lemma safe_map_err {E' A} (f : E -> E') (m : res E A) (Q : A -> Prop) :
  safe m Q -> safe (map_err f m) Q.
Proof. by destruct m. Qed.

Lemma safe_add64 a b : a + b < 2 ^ 64 -> safe (E:=E) (add64 a b) (fun r => r = a + b).
Proof. intros H. by rewrite (proj2 (add64_Ok a b (a + b))). Qed.

Lemma safe_sub64 a b : b <= a -> safe (E:=E) (sub64 a b) (fun r => r = a - b).
Proof. intros H. by rewrite (proj2 (sub64_Ok a b (a - b))). Qed.

Lemma safe_slice {A} (l : list A) i j : 0 <= i <= j -> j <= len l ->
  safe (E:=E) (slice l i j) (fun k => k = take (Z.to_nat (j - i)) (drop (Z.to_nat i) l)).
Proof. intros. by rewrite (proj2 (slice_Ok l _ i j)) by eauto. Qed.

Lemma safe_Ok {A} (m : res E A) (Q : A -> Prop) a : safe m Q -> m = Ok a -> Q a.
Proof. intros H ->. exact H. Qed.

Lemma safe_no_panic {A} (m : res E A) (Q : A -> Prop) : safe m Q -> m <> Panic.
Proof. by destruct m. Qed.
End Safe.

Lemma slice_opt_Some {A} (l k : list A) i j : slice_opt l i j = Some k <->
  0 <= i <= j /\ j <= len l /\ k = take (Z.to_nat (j - i)) (drop (Z.to_nat i) l).
Proof.
  unfold slice_opt. zbool; split; try (intros [= <-]); intuition (subst; auto; lia).
Qed.

Lemma checked_add_Some a b r : checked_add a b = Some r <-> r = a + b /\ a + b < 2 ^ 64.
Proof. unfold checked_add. zbool; split; try (intros [= <-]); intuition (subst; auto; lia). Qed.

Lemma checked_mul_Some a b r : checked_mul a b = Some r <-> r = a * b /\ a * b < 2 ^ 64.
Proof. unfold checked_mul. zbool; split; try (intros [= <-]); intuition (subst; auto; lia). Qed.

(** [ends p s Q]: from [s], [p] does not panic, and when it returns a value,
    the value and the state satisfy [Q]. *)
Definition ends {S E A} (p : ST S E A) (s : S) (Q : A -> S -> Prop) : Prop :=
  match p s with
  | (Ok a, s') => Q a s'
  | (Err _, _) => True
  | (Panic, _) => False
  end.

Section Ends.
Context {S E : Type}.

Lemma ends_bind {A B} (p : ST S E A) (f : A -> ST S E B) s Q :
  ends p s (fun a s' => ends (f a) s' Q) -> ends (p ≫= f) s Q.
Proof. unfold ends, mbind, st_bind. by destruct (p s) as [[a|e|] s']. Qed.

Lemma ends_weaken {A} (p : ST S E A) s (Q R : A -> S -> Prop) :
  ends p s Q -> (forall a s', Q a s' -> R a s') -> ends p s R.
Proof. unfold ends. destruct (p s) as [[a|e|] s']; auto. Qed.

Lemma ends_ret {A} (a : A) s (Q : A -> S -> Prop) : Q a s -> ends (mret a : ST S E A) s Q.
Proof. done. Qed.

Lemma ends_gets {A} (f : S -> A) s (Q : A -> S -> Prop) : Q (f s) s -> ends (gets (E:=E) f) s Q.
Proof. done. Qed.

Lemma ends_raise {A} (e : E) s (Q : A -> S -> Prop) : ends (raise e) s Q.
Proof. done. Qed.

Lemma ends_lift {A} (r : res E A) s (R : A -> Prop) (Q : A -> S -> Prop) :
  safe r R -> (forall a, R a -> Q a s) -> ends (lift r) s Q.
Proof. destruct r; simpl; unfold ends; simpl; auto. Qed.
End Ends.

(** ** Free keys *)

(** A run of consecutive keys of a map is no longer than the map. *)
Lemma consecutive_keys {A} (m : gmap Z A) x n :
  (forall i, 0 <= i < Z.of_nat n -> is_Some (m !! (x + i))) -> (n <= size m)%nat.
Proof.
  intros Hm. set (ks := (fun i => x + Z.of_nat i) <$> seq 0 n).
  assert (NoDup ks) as Hnd.
  { apply NoDup_fmap_2_strong; [|apply NoDup_seq]. intros a b _ _ ?. lia. }
  assert (list_to_set ks ⊆@{gset Z} dom m) as Hsub.
  { intros k Hk%elem_of_list_to_set. apply elem_of_dom. unfold ks in Hk.
    apply list_elem_of_fmap in Hk as (i & -> & Hi%elem_of_seq). apply Hm. lia. }
  apply subseteq_size in Hsub. rewrite size_list_to_set, size_dom in Hsub by done.
  unfold ks in Hsub. by rewrite length_fmap, length_seq in Hsub.
Qed.
