(* ===== verification/Memory.v ===== *)
(** * Guest memory: crates/ruxeon-core/src/memory.rs

    The guest address space is a list of regions kept sorted by base.  This
    file holds the data, one definition per method, the well-formedness
    invariant and its preservation.  MemorySpec.v relates the regions to the
    address-indexed view a guest has of its memory. *)

From S2P Require Import Prelude.

Open Scope Z_scope.

(** ** Data *)

Definition PAGE_SIZE : Z := 4096.

(** [MemoryPermission], a bitflags [u8]. *)
Definition READ : Z := 1.
Definition WRITE : Z := 2.
Definition EXECUTE : Z := 4.

(** [contains] of bitflags: every bit of [q] is set in [p]. *)
Definition contains (p q : Z) : bool := Z.land p q =? q.

Definition readable (p : Z) : bool := contains p READ.
Definition writable (p : Z) : bool := contains p WRITE.
Definition executable (p : Z) : bool := contains p EXECUTE.

Inductive GuestMemoryError : Type :=
| OverlappingMapping (base size : Z)
| Unmapped (addr size : Z)
| Permission (addr size required : Z)
| AddressOverflow (base size : Z)
| EmptyMapping.

(** A Rust [String] is the list of its bytes. *)
Record MemoryRegion : Type := mkRegion {
  r_base : Z;
  r_size : Z;
  r_permissions : Z;
  r_name : option (list Z);
  r_data : list Z
}.

(** [MemoryRegion::end], whose [+] never overflows on the regions the code
    builds ([wf_region] below). *)
Definition r_end (r : MemoryRegion) : Z := r_base r + r_size r.

Definition contains_range (r : MemoryRegion) (addr size : Z) : bool :=
  match checked_add addr size with
  | None => false
  | Some e => (r_base r <=? addr) && (e <=? r_end r)
  end.

(** [MemoryMap], a [Vec] of regions; [GuestMemory] wraps it. *)
Record GuestMemory : Type := mkMemory { regions : list MemoryRegion }.

Definition new : GuestMemory := mkMemory [].

Abbreviation MemM := (ST GuestMemory GuestMemoryError).

(** [MemoryMap::push]: append, then the stable sort by base. *)
Definition push (r : MemoryRegion) (m : GuestMemory) : GuestMemory :=
  mkMemory (sort_by r_base (regions m ++ [r])).

Definition find_index (m : GuestMemory) (addr size : Z) : option nat :=
  position (fun r => contains_range r addr size) (regions m).

(** [ranges_overlap] of two half-open ranges. *)
Definition ranges_overlap (ls le rs re : Z) : bool := (ls <? re) && (rs <? le).

Definition overlaps (m : GuestMemory) (base size : Z) : bool :=
  existsb (fun r => ranges_overlap base (base + size) (r_base r) (r_end r)) (regions m).

(** ** Operations *)

Definition map_region (base size permissions : Z) (name : option (list Z)) : MemM unit :=
  fun m =>
    if size =? 0 then (Err EmptyMapping, m)
    else match checked_add base size with
    | None => (Err (AddressOverflow base size), m)
    | Some _ =>
      if overlaps m base size then (Err (OverlappingMapping base size), m)
      else match zeroed size with
           | Ok data => (Ok tt, push (mkRegion base size permissions name data) m)
           | Err e => (Err e, m)
           | Panic => (Panic, m)
           end
    end.

Definition region (m : GuestMemory) (addr size : Z) : res GuestMemoryError MemoryRegion :=
  i ← ok_or (find_index m addr size) (Unmapped addr size);
  expect (regions m !! i).

(** Write [bytes] into the data of one region, at [addr - r_base]. *)
Definition store_in (r : MemoryRegion) (addr : Z) (bytes : list Z)
    : res GuestMemoryError MemoryRegion :=
  offset ← sub64 addr (r_base r);
  data ← splice (r_data r) offset bytes;
  Ok (mkRegion (r_base r) (r_size r) (r_permissions r) (r_name r) data).

Definition load_bytes (addr : Z) (bytes : list Z) : MemM unit :=
  fun m =>
    match find_index m addr (len bytes) with
    | None => (Err (Unmapped addr (len bytes)), m)
    | Some i =>
      match regions m !! i with
      | None => (Panic, m)
      | Some r =>
        match store_in r addr bytes with
        | Ok r' => (Ok tt, mkMemory (<[i := r']> (regions m)))
        | Err e => (Err e, m)
        | Panic => (Panic, m)
        end
      end
    end.

Definition map_with_data (base size permissions data_offset : Z) (data : list Z)
    (name : option (list Z)) : MemM unit :=
  map_region base size permissions name ;;
  addr ← lift (add64 base data_offset);
  load_bytes addr data.

(** The part [data[from..to]] of a region, as a region of its own. *)
Definition sub_region (r : MemoryRegion) (base size permissions from to : Z)
    : res GuestMemoryError MemoryRegion :=
  data ← slice (r_data r) from to;
  Ok (mkRegion base size permissions (r_name r) data).

(** [if size > 0 { push(part) }]: the part of a region, if it is not empty. *)
Definition piece (r : MemoryRegion) (base size permissions from to : Z)
    : res GuestMemoryError (list MemoryRegion) :=
  if 0 <? size
  then r' ← sub_region r base size permissions from to; Ok [r']
  else Ok [].

Definition push_all (rs : list MemoryRegion) : MemM unit :=
  for_each rs (fun r => modify (push r)).

Definition protect (base size permissions : Z) : MemM unit :=
  fun m =>
    if size =? 0 then (Ok tt, m)
    else match find_index m base size with
    | None => (Err (Unmapped base size), m)
    | Some i =>
      match regions m !! i with
      | None => (Panic, m)
      | Some r =>
        let removed := mkMemory (delete i (regions m)) in
        match checked_add base size with
        | None => (Err (AddressOverflow base size), removed)
        | Some protect_end =>
          (before_size ← lift (sub64 base (r_base r));
           after_size ← lift (sub64 (r_end r) protect_end);
           before ← lift (piece r (r_base r) before_size (r_permissions r) 0 before_size);
           push_all before ;;
           protected ← lift (sub_region r base size permissions
                               before_size (before_size + size));
           modify (push protected) ;;
           after ← lift (piece r protect_end after_size (r_permissions r)
                           (before_size + size) (len (r_data r)));
           push_all after) removed
        end
      end
    end.

Definition unmap_region (base size : Z) : MemM unit :=
  fun m =>
    if size =? 0 then (Err EmptyMapping, m)
    else match position (fun r => (r_base r =? base) && (r_size r =? size)) (regions m) with
    | None => (Err (Unmapped base size), m)
    | Some i => (Ok tt, mkMemory (delete i (regions m)))
    end.

(** The loop body of [unmap_range]: what is left of one region. *)
Definition unmap_one (base e : Z) (r : MemoryRegion)
    : res GuestMemoryError (list MemoryRegion) :=
  let overlap_start := Z.max (r_base r) base in
  let overlap_end := Z.min (r_end r) e in
  if overlap_end <=? overlap_start then Ok [r]
  else
    let before_size := overlap_start - r_base r in
    before ← piece r (r_base r) before_size (r_permissions r) 0 before_size;
    let after_size := r_end r - overlap_end in
    after ← piece r overlap_end after_size (r_permissions r)
              (overlap_end - r_base r) (len (r_data r));
    Ok (before ++ after).

Fixpoint unmap_all (base e : Z) (rs : list MemoryRegion)
    : res GuestMemoryError (list MemoryRegion) :=
  match rs with
  | [] => Ok []
  | r :: rs =>
    left ← unmap_one base e r;
    rest ← unmap_all base e rs;
    Ok (left ++ rest)
  end.

Definition unmap_range (base size : Z) : MemM unit :=
  fun m =>
    if size =? 0 then (Err EmptyMapping, m)
    else match checked_add base size with
    | None => (Err (AddressOverflow base size), m)
    | Some e =>
      match unmap_all base e (regions m) with
      | Ok updated => (Ok tt, mkMemory (sort_by r_base updated))
      | Err x => (Err x, mkMemory [])
      | Panic => (Panic, mkMemory [])
      end
    end.

Definition permissions_at (m : GuestMemory) (addr : Z) : option Z :=
  option_map r_permissions (find_first (fun r => contains_range r addr 1) (regions m)).

Definition check_permission (m : GuestMemory) (addr size required : Z)
    : res GuestMemoryError unit :=
  r ← region m addr size;
  if contains (r_permissions r) required then Ok tt
  else Err (Permission addr size required).

(** [region.data[offset..offset + size].to_vec()] of the region found. *)
Definition region_bytes (m : GuestMemory) (addr size : Z) : res GuestMemoryError (list Z) :=
  r ← region m addr size;
  offset ← sub64 addr (r_base r);
  e ← add64 offset size;
  slice (r_data r) offset e.

Definition read_bytes (m : GuestMemory) (addr size : Z) : res GuestMemoryError (list Z) :=
  check_permission m addr size READ ;; region_bytes m addr size.

Definition fetch_bytes (m : GuestMemory) (addr size : Z) : res GuestMemoryError (list Z) :=
  check_permission m addr 1 EXECUTE ;; region_bytes m addr size.

Definition write_bytes (addr : Z) (bytes : list Z) : MemM unit :=
  reads (fun m => check_permission m addr (len bytes) WRITE) ;;
  load_bytes addr bytes.

Definition read_u8 (m : GuestMemory) (addr : Z) : res GuestMemoryError Z :=
  bs ← read_bytes m addr 1; index bs 0.

(** [read_u16], [read_u32] and [read_u64]: [n] bytes, little-endian. *)
Definition read_le (n : nat) (m : GuestMemory) (addr : Z) : res GuestMemoryError Z :=
  bs ← read_bytes m addr (Z.of_nat n);
  if len bs =? Z.of_nat n then Ok (of_le bs) else Panic.

Definition read_u16 : GuestMemory -> Z -> res GuestMemoryError Z := read_le 2.
Definition read_u32 : GuestMemory -> Z -> res GuestMemoryError Z := read_le 4.
Definition read_u64 : GuestMemory -> Z -> res GuestMemoryError Z := read_le 8.

Definition write_u8 (addr value : Z) : MemM unit := write_bytes addr [value].
Definition write_u16 (addr value : Z) : MemM unit := write_bytes addr (to_le 2 value).
Definition write_u32 (addr value : Z) : MemM unit := write_bytes addr (to_le 4 value).
Definition write_u64 (addr value : Z) : MemM unit := write_bytes addr (to_le 8 value).

(** ** The well-formedness invariant *)

(** [r] ends at or before the start of [r']. *)
Definition before (r r' : MemoryRegion) : Prop := r_end r <= r_base r'.

Definition disj (r r' : MemoryRegion) : Prop := before r r' \/ before r' r.

(** A region is non-empty, ends inside the 64-bit address space and holds one
    byte of data per address. *)
Record wf_region (r : MemoryRegion) : Prop := {
  wf_base : 0 <= r_base r;
  wf_size : 0 < r_size r;
  wf_end : r_end r < 2 ^ 64;
  wf_data : len (r_data r) = r_size r;
  wf_bytes : Forall (fits 8) (r_data r)
}.

(** The regions are well-formed, sorted by base and disjoint. *)
Definition wf (m : GuestMemory) : Prop :=
  Forall wf_region (regions m) /\ StronglySorted before (regions m).

(** [r] lies inside [r']. *)
Definition within (r r' : MemoryRegion) : Prop :=
  r_base r' <= r_base r /\ r_end r <= r_end r'.

(** ** Lemmas on sorted and disjoint regions *)

Lemma disj_sym r r' : disj r r' -> disj r' r.
Proof. unfold disj. tauto. Qed.

Lemma disj_within r r' x : within r r' -> disj r' x -> disj r x.
Proof. unfold within, disj, before. lia. Qed.

Lemma SS_perm {A} (R : A -> A -> Prop) (l l' : list A) :
  (forall x y, R x y -> R y x) -> l ≡ₚ l' -> StronglySorted R l -> StronglySorted R l'.
Proof.
  intros Hsym. induction 1 as [|x l l' Hp IH|x y l|l l' l'' H1 IH1 H2 IH2]; intros Hs; auto.
  - apply StronglySorted_inv in Hs as [Hs Hf]. constructor; [auto|].
    by rewrite <- Hp.
  - apply StronglySorted_inv in Hs as [Hs Hf].
    apply StronglySorted_inv in Hs as [Hs Hf'].
    apply Forall_cons in Hf as [Hxy Hf]. by repeat constructor; auto.
Qed.

Lemma SS_sublist {A} (R : A -> A -> Prop) (l k : list A) :
  sublist l k -> StronglySorted R k -> StronglySorted R l.
Proof.
  induction 1 as [|x l k Hs IH|x l k Hs IH]; intros Hk; auto;
    apply StronglySorted_inv in Hk as [Hk Hf]; auto.
  constructor; [auto|]. rewrite Forall_forall in Hf |- *. intros y Hy. apply Hf.
  by eapply elem_of_sublist.
Qed.

Lemma SS_before_disj rs : StronglySorted before rs -> StronglySorted disj rs.
Proof.
  induction 1 as [|r rs _ IH Hf]; constructor; [done|].
  eapply Forall_impl; [exact Hf|]. by left.
Qed.

Lemma insert_by_sorted x rs : 0 < r_size x -> Forall (fun r => 0 < r_size r) rs ->
  Forall (disj x) rs -> StronglySorted before rs ->
  StronglySorted before (insert_by r_base x rs).
Proof.
  intros Hx Hp Hd Hs. induction Hs as [|y rs Hs IH Hf]; simpl; [by repeat constructor|].
  apply Forall_cons in Hp as [Hy Hp]. apply Forall_cons in Hd as [Hxy Hd].
  destruct (Z.leb_spec (r_base x) (r_base y)).
  - constructor; [by constructor|]. apply Forall_cons. split.
    + destruct Hxy as [|Hxy]; [done|]. unfold before, r_end in *. lia.
    + rewrite Forall_forall in Hf, Hd, Hp |- *. intros z Hz.
      specialize (Hf z Hz). specialize (Hp z Hz).
      destruct (Hd z Hz) as [|Hz']; [done|]. unfold before, r_end in *. lia.
  - constructor; [by auto|]. rewrite insert_by_perm. apply Forall_cons. split; [|done].
    destruct Hxy as [Hxy|]; [|done]. unfold before, r_end in *. lia.
Qed.

Lemma sort_by_sorted rs : Forall (fun r => 0 < r_size r) rs ->
  StronglySorted disj rs -> StronglySorted before (sort_by r_base rs).
Proof.
  intros Hp Hs. induction Hs as [|x rs Hs IH Hf]; simpl; [constructor|].
  apply Forall_cons in Hp as [Hx Hp].
  apply insert_by_sorted; rewrite ?sort_by_perm; auto.
Qed.

Lemma wf_sizes rs : Forall wf_region rs -> Forall (fun r => 0 < r_size r) rs.
Proof. intros H. eapply Forall_impl; [exact H|]. by intros r []. Qed.

Lemma wf_disj m : wf m -> StronglySorted disj (regions m).
Proof. intros [_ H]. by apply SS_before_disj. Qed.

(** Disjoint well-formed regions, in any order, sort to a well-formed map. *)
Lemma wf_sort rs : Forall wf_region rs -> StronglySorted disj rs ->
  wf (mkMemory (sort_by r_base rs)).
Proof.
  intros Hw Hs. split; simpl; [by rewrite sort_by_perm|].
  apply sort_by_sorted; [by apply wf_sizes|done].
Qed.

Lemma push_regions r m : regions (push r m) ≡ₚ r :: regions m.
Proof. simpl. rewrite sort_by_perm. symmetry. apply Permutation_cons_append. Qed.

Lemma push_wf r m : wf m -> wf_region r -> Forall (disj r) (regions m) -> wf (push r m).
Proof.
  intros Hm Hr Hd. apply wf_sort.
  - apply Forall_app. split; [apply Hm|by apply Forall_singleton].
  - eapply SS_perm; [apply disj_sym|apply Permutation_cons_append|].
    constructor; [by apply wf_disj|done].
Qed.

Lemma wf_lookup m i r : wf m -> regions m !! i = Some r -> wf_region r.
Proof. intros [Hw _] Hi. rewrite Forall_lookup in Hw. eauto. Qed.

Lemma wf_elem m r : wf m -> r ∈ regions m -> wf_region r.
Proof. intros [Hw _]. rewrite Forall_forall in Hw. eauto. Qed.

Lemma delete_wf m i : wf m -> wf (mkMemory (delete i (regions m))).
Proof.
  intros [Hw Hs]. split; simpl; [by apply Forall_delete|].
  eapply SS_sublist; [apply sublist_delete|done].
Qed.

(** The regions beside region [i] are disjoint from it. *)
Lemma delete_disj m i r : wf m -> regions m !! i = Some r ->
  Forall (disj r) (delete i (regions m)).
Proof.
  intros Hm Hi. apply wf_disj in Hm.
  eapply SS_perm in Hm; [|apply disj_sym|by apply delete_Permutation].
  by apply StronglySorted_inv in Hm as [_ ?].
Qed.

Lemma insert_sorted_same rs i r r' : rs !! i = Some r ->
  r_base r' = r_base r -> r_size r' = r_size r ->
  StronglySorted before rs -> StronglySorted before (<[i := r']> rs).
Proof.
  intros Hi Hb Hz Hs. revert i Hi. induction Hs as [|y rs Hs IH Hf]; intros i Hi; [done|].
  destruct i as [|i]; simpl in *.
  - injection Hi as ->. constructor; [done|]. eapply Forall_impl; [exact Hf|].
    unfold before, r_end. intros. lia.
  - constructor; [by apply IH|]. apply Forall_insert; [done|].
    rewrite Forall_lookup in Hf. specialize (Hf i r Hi). unfold before, r_end in *. lia.
Qed.

(** ** Lemmas on the ranges a region contains *)

Lemma contains_range_spec r addr size : contains_range r addr size = true <->
  addr + size < 2 ^ 64 /\ r_base r <= addr /\ addr + size <= r_end r.
Proof.
  unfold contains_range, checked_add. zbool; rewrite ?andb_true_iff; zbool; intuition lia.
Qed.

Lemma find_index_Some m addr size i : find_index m addr size = Some i ->
  exists r, regions m !! i = Some r /\ addr + size < 2 ^ 64 /\
            r_base r <= addr /\ addr + size <= r_end r.
Proof.
  intros (r&Hr&Hc)%position_Some. exists r. by rewrite contains_range_spec in Hc.
Qed.

Lemma region_Ok m addr size r : region m addr size = Ok r ->
  r ∈ regions m /\ addr + size < 2 ^ 64 /\ r_base r <= addr /\ addr + size <= r_end r.
Proof.
  unfold region. destruct (find_index m addr size) as [i|] eqn:Hf; simpl; [|done].
  apply find_index_Some in Hf as (r'&Hr&?). rewrite Hr. intros [= <-].
  split; [|done]. by eapply list_elem_of_lookup_2.
Qed.

(** Two regions of a well-formed map that share an address are the same. *)
Lemma wf_unique m r r' a : wf m -> r ∈ regions m -> r' ∈ regions m ->
  r_base r <= a < r_end r -> r_base r' <= a < r_end r' -> r = r'.
Proof.
  intros Hm Hr Hr' Ha Ha'. apply wf_disj in Hm.
  induction Hm as [|x rs Hs IH Hf]; [by apply elem_of_nil in Hr|].
  rewrite Forall_forall in Hf.
  apply elem_of_cons in Hr as [->|Hr], Hr' as [->|Hr']; auto.
  - specialize (Hf _ Hr'). unfold disj, before in Hf. lia.
  - specialize (Hf _ Hr). unfold disj, before in Hf. lia.
Qed.
