(* ===== verification/MemorySpec.v ===== *)
(** * The guest's view of memory, and what the memory operations do to it

    [cell m a] is what the guest has at address [a]: the permissions and the
    byte, or nothing.  Every operation of Memory.v is related to its effect on
    cells, and keeps the map of regions well-formed. *)

From S2P Require Import Prelude Memory.

Open Scope Z_scope.

(** ** The address-indexed view *)

Definition in_range (base size a : Z) : bool := (base <=? a) && (a <? base + size).

Definition region_cell (r : MemoryRegion) (a : Z) : option (Z * Z) :=
  if in_range (r_base r) (r_size r) a
  then b ← r_data r !! Z.to_nat (a - r_base r); Some (r_permissions r, b)
  else None.

Fixpoint cells (rs : list MemoryRegion) (a : Z) : option (Z * Z) :=
  match rs with
  | [] => None
  | r :: rs => match region_cell r a with Some c => Some c | None => cells rs a end
  end.

Definition cell (m : GuestMemory) : Z -> option (Z * Z) := cells (regions m).

(** The abstract memory: a partial map from addresses, and the effect of each
    operation on it. *)
Definition amap : Type := Z -> option (Z * Z).

Definition a_map (base size p : Z) (f : amap) : amap :=
  fun a => if in_range base size a then Some (p, 0) else f a.
Definition a_unmap (base size : Z) (f : amap) : amap :=
  fun a => if in_range base size a then None else f a.
Definition a_protect (base size p : Z) (f : amap) : amap :=
  fun a => if in_range base size a then option_map (fun c => (p, c.2)) (f a) else f a.
Definition a_store (addr : Z) (bytes : list Z) (f : amap) : amap :=
  fun a => if in_range addr (len bytes) a
           then c ← f a; b ← bytes !! Z.to_nat (a - addr); Some (c.1, b)
           else f a.

(** ** Lemmas on cells *)

Lemma in_range_true base size a : in_range base size a = true <-> base <= a < base + size.
Proof. unfold in_range. rewrite andb_true_iff, Z.leb_le, Z.ltb_lt. done. Qed.

Lemma in_range_false base size a : in_range base size a = false <-> ~ base <= a < base + size.
Proof. rewrite <- in_range_true. by destruct (in_range base size a). Qed.

Ltac case_range :=
  match goal with
  | |- context [in_range ?b ?s ?a] =>
      let H := fresh "Hr" in
      destruct (in_range b s a) eqn:H;
      [apply in_range_true in H | apply in_range_false in H]
  end.

Lemma region_cell_Some r a c : region_cell r a = Some c ->
  r_base r <= a < r_end r /\ c.1 = r_permissions r /\
  r_data r !! Z.to_nat (a - r_base r) = Some c.2.
Proof.
  unfold region_cell. case_range; [|done].
  destruct (r_data r !! _) as [b|] eqn:Hb; simpl; [|done]. intros [= <-].
  unfold r_end. auto.
Qed.

Lemma region_cell_is_Some r a : wf_region r -> r_base r <= a < r_end r ->
  exists b, r_data r !! Z.to_nat (a - r_base r) = Some b /\
            region_cell r a = Some (r_permissions r, b).
Proof.
  intros Hr Ha. destruct (lookup_lt_is_Some_2 (r_data r) (Z.to_nat (a - r_base r))) as [b Hb].
  { pose proof (wf_data r Hr). unfold len, r_end in *. lia. }
  exists b. split; [done|]. unfold region_cell.
  rewrite (proj2 (in_range_true _ _ _)) by done. by rewrite Hb.
Qed.

Lemma region_cell_None r a : ~ r_base r <= a < r_end r -> region_cell r a = None.
Proof. intros. unfold region_cell. by rewrite (proj2 (in_range_false _ _ _)). Qed.

Lemma cells_app l k a :
  cells (l ++ k) a = match cells l a with Some c => Some c | None => cells k a end.
Proof. induction l as [|r l IH]; simpl; [done|]. by destruct (region_cell r a). Qed.

Lemma cells_None rs a : (forall r, r ∈ rs -> region_cell r a = None) -> cells rs a = None.
Proof.
  induction rs as [|r rs IH]; simpl; intros H; [done|].
  rewrite (H r) by set_solver. apply IH. set_solver.
Qed.

Lemma disj_cell r r' a c : disj r r' -> region_cell r a = Some c -> region_cell r' a = None.
Proof.
  intros Hd Hc. apply region_cell_Some in Hc as [Ha _].
  apply region_cell_None. unfold disj, before in Hd. lia.
Qed.

(** On disjoint regions the cell at an address is that of any region with one. *)
Lemma cells_elem rs a c r : StronglySorted disj rs -> r ∈ rs ->
  region_cell r a = Some c -> cells rs a = Some c.
Proof.
  intros Hs. induction Hs as [|x rs Hs IH Hf]; intros Hr Hc; [by apply elem_of_nil in Hr|].
  simpl. apply elem_of_cons in Hr as [->|Hr]; [by rewrite Hc|].
  rewrite Forall_forall in Hf.
  by rewrite (disj_cell r x a c) by auto using disj_sym; apply IH.
Qed.

Lemma cells_Some_elem rs a c : cells rs a = Some c -> exists r, r ∈ rs /\ region_cell r a = Some c.
Proof.
  induction rs as [|r rs IH]; simpl; [done|].
  destruct (region_cell r a) eqn:Hr; [intros [= ->]; exists r; set_solver|].
  intros (r'&?&?)%IH. exists r'. set_solver.
Qed.

(** Cells do not depend on the order of disjoint regions. *)
Lemma cells_perm rs rs' a : rs ≡ₚ rs' -> StronglySorted disj rs -> cells rs a = cells rs' a.
Proof.
  intros Hp Hs. pose proof (SS_perm _ _ _ disj_sym Hp Hs) as Hs'.
  destruct (cells rs a) as [c|] eqn:Hc.
  - apply cells_Some_elem in Hc as (r&Hr&Hc). symmetry.
    apply cells_elem with r; [done| |done]. by rewrite <- Hp.
  - destruct (cells rs' a) as [c|] eqn:Hc'; [|done].
    apply cells_Some_elem in Hc' as (r&Hr&Hc').
    rewrite <- Hc. apply cells_elem with r; [done| |done]. by rewrite Hp.
Qed.

Lemma push_cell r m a : wf (push r m) ->
  cell (push r m) a = match region_cell r a with Some c => Some c | None => cell m a end.
Proof.
  intros Hw. unfold cell. rewrite (cells_perm _ (r :: regions m)); [done|apply push_regions|].
  by apply wf_disj.
Qed.

(** ** Parts of a region *)

(** [sub_region] succeeds inside the region and keeps its bytes. *)
Lemma sub_region_spec r b s p from to : wf_region r -> 0 <= from < to -> to <= r_size r ->
  b = r_base r + from -> s = to - from ->
  exists r', sub_region r b s p from to = Ok r' /\ wf_region r' /\ within r' r /\
    r_base r' = b /\ r_size r' = s /\
    forall a, region_cell r' a =
      if in_range b s a then option_map (fun c => (p, c.2)) (region_cell r a) else None.
Proof.
  intros Hr Hft Hto -> ->. pose proof Hr as [H1 H2 H3 H4 H5]. unfold sub_region.
  assert (@slice GuestMemoryError _ (r_data r) from to =
    Ok (take (Z.to_nat (to - from)) (drop (Z.to_nat from) (r_data r)))) as Hs
    by (apply slice_Ok; unfold len in *; repeat split; lia).
  rewrite Hs. eexists. split; [done|]. split.
  { split; simpl; [lia|lia|unfold r_end in *; simpl; lia| |].
    - by rewrite (slice_len _ _ _ _ Hs).
    - by eapply slice_Forall. }
  split; [unfold within, r_end; simpl; lia|]. split; [done|]. split; [done|].
  intros a. unfold region_cell at 1; simpl. case_range; [|done].
  rewrite (slice_lookup _ _ _ _ _ Hs) by lia.
  unfold region_cell. rewrite (proj2 (in_range_true _ _ _)) by lia.
  replace (from + (a - (r_base r + from))) with (a - r_base r) by lia.
  by destruct (r_data r !! _).
Qed.

(** ** Operations: success, state and cells *)

(** The regions that overlap a new range, decided by [overlaps]. *)
Lemma overlaps_false m base size : wf m -> overlaps m base size = false -> 0 < size ->
  Forall (fun r => base + size <= r_base r \/ r_end r <= base) (regions m).
Proof.
  intros Hw Ho Hs. rewrite Forall_forall. intros r Hr. unfold overlaps in Ho.
  destruct (ranges_overlap base (base + size) (r_base r) (r_end r)) eqn:Hov.
  - rewrite <- not_true_iff_false, existsb_exists in Ho. destruct Ho.
    exists r. by rewrite <- list_elem_of_In.
  - unfold ranges_overlap in Hov. rewrite andb_false_iff, !Z.ltb_ge in Hov. lia.
Qed.

Lemma zero_region_wf base size p name : 0 <= base -> 0 < size -> base + size < 2 ^ 64 ->
  wf_region (mkRegion base size p name (replicate (Z.to_nat size) 0)).
Proof.
  intros. split; unfold r_end; simpl; [lia|lia|lia| |].
  - unfold len. rewrite length_replicate. lia.
  - apply Forall_replicate. unfold fits. lia.
Qed.

Lemma zero_region_cell base size p name a : 0 < size ->
  region_cell (mkRegion base size p name (replicate (Z.to_nat size) 0)) a =
  if in_range base size a then Some (p, 0) else None.
Proof.
  intros. unfold region_cell; simpl. case_range; [|done].
  by rewrite lookup_replicate_2 by lia.
Qed.

(** A mapping is refused as overlapping exactly when an address is taken. *)
Lemma overlaps_iff m base size : wf m -> 0 < size ->
  (overlaps m base size = true /\ exists a, base <= a < base + size /\ cell m a <> None) \/
  (overlaps m base size = false /\ forall a, base <= a < base + size -> cell m a = None).
Proof.
  intros Hw Hs. destruct (overlaps m base size) eqn:Ho; [left|right]; (split; [done|]).
  - unfold overlaps in Ho. apply existsb_exists in Ho as (r&Hr&Hov).
    apply list_elem_of_In in Hr. pose proof (wf_elem m r Hw Hr) as Hwr.
    unfold ranges_overlap in Hov. rewrite andb_true_iff, !Z.ltb_lt in Hov.
    pose proof (wf_size r Hwr). unfold r_end in *.
    destruct (region_cell_is_Some r (Z.max base (r_base r)) Hwr) as (b&_&Hc); [unfold r_end; lia|].
    exists (Z.max base (r_base r)). split; [lia|].
    assert (cell m (Z.max base (r_base r)) = Some (r_permissions r, b)) as ->; [|done].
    eapply cells_elem; [by apply wf_disj|exact Hr|exact Hc].
  - intros a Ha. apply overlaps_false in Ho; [|done|done]. apply cells_None. intros r Hr.
    apply region_cell_None. rewrite Forall_forall in Ho. specialize (Ho r Hr). lia.
Qed.

(** Every address from [lo] up to [hi] is unmapped. *)
Definition free (m : GuestMemory) (lo hi : Z) : Prop := forall a, lo <= a < hi -> cell m a = None.

(** A free range that is in the address space but longer than a vector may be:
    the allocation of its bytes panics. *)
Definition oversized (m : GuestMemory) (base size : Z) : Prop :=
  2 ^ 63 <= size /\ base + size < 2 ^ 64 /\ free m base (base + size).

Lemma small_not_oversized m base size : size < 2 ^ 63 -> ~ oversized m base size.
Proof. intros ? [? _]. lia. Qed.

(** [map_region] refuses and changes nothing, or panics in the allocation and
    changes nothing, or maps zeros. *)
Lemma map_region_cases base size p name m : wf m -> u64 base -> u64 size ->
  (exists e, ~ oversized m base size /\ map_region base size p name m = (Err e, m)) \/
  (oversized m base size /\ map_region base size p name m = (Panic, m)) \/
  (0 < size < 2 ^ 63 /\ base + size < 2 ^ 64 /\ (forall a, base <= a < base + size -> cell m a = None) /\
   exists m', map_region base size p name m = (Ok tt, m') /\ wf m' /\
     (exists r, r ∈ regions m' /\ r_base r = base /\ r_size r = size /\ r_permissions r = p) /\
     forall a, cell m' a = a_map base size p (cell m) a).
Proof.
  intros Hw Hb Hs. unfold map_region, checked_add, fits in *.
  destruct (Z.eqb_spec size 0).
  { left. eexists. split; [|done]. intros [? _]. lia. }
  destruct (Z.ltb_spec (base + size) (2 ^ 64)).
  2:{ left. eexists. split; [|done]. intros (_&?&_). lia. }
  destruct (overlaps_iff m base size Hw) as [[Ho (a&Ha&Hc)]|[Ho Hfree]]; [lia|..]; rewrite Ho.
  { left. eexists. split; [|done]. intros (_&_&Hf). by apply Hc, Hf. }
  right. unfold zeroed, capacity. destruct (Z.ltb_spec size (2 ^ 63)); simpl.
  2:{ left. split; [|done]. by split. }
  right. apply overlaps_false in Ho; [|done|lia].
  split; [lia|]. split; [done|]. split; [done|]. eexists. split; [done|].
  assert (wf (push (mkRegion base size p name (replicate (Z.to_nat size) 0)) m)) as Hw'.
  { apply push_wf; [done|apply zero_region_wf; lia|]. eapply Forall_impl; [exact Ho|].
    intros r Hr. unfold disj, before, r_end in *. simpl. lia. }
  split; [done|]. split.
  { eexists. rewrite push_regions. split; [apply elem_of_cons; by left|done]. }
  intros a. rewrite push_cell, zero_region_cell by (done || lia).
  unfold a_map. by destruct (in_range base size a).
Qed.

(** Mapping a range of the address space is refused, changing nothing, exactly
    when an address of it is taken; a free range is mapped to zeros unless it is
    too long for a vector. *)
Lemma map_region_decided m base size p name : wf m -> 0 <= base -> 0 < size ->
  base + size < 2 ^ 64 ->
  (exists a e, base <= a < base + size /\ cell m a <> None /\
     map_region base size p name m = (Err e, m)) \/
  (oversized m base size /\ map_region base size p name m = (Panic, m)) \/
  (size < 2 ^ 63 /\ free m base (base + size) /\
   exists m', map_region base size p name m = (Ok tt, m') /\ wf m' /\
     forall a, cell m' a = a_map base size p (cell m) a).
Proof.
  intros Hm Hb Hs He. assert (u64 base /\ u64 size) as [Hub Hus] by (unfold fits; lia).
  destruct (map_region_cases base size p name m Hm Hub Hus)
    as [(e&Hno&Herr)|[?|(?&_&Hf&m'&?&?&_&?)]]; [|by right; left|].
  - destruct (overlaps_iff m base size Hm Hs) as [[Ho (a&Ha&Hc)]|[Ho Hfree]].
    + left. by exists a, e.
    + exfalso. revert Herr. unfold map_region, checked_add. rewrite Ho.
      rewrite (proj2 (Z.eqb_neq _ _)), (proj2 (Z.ltb_lt _ _)) by lia.
      unfold zeroed, capacity. by destruct (size <? 2 ^ 63).
  - right. right. split; [lia|]. split; [done|]. by exists m'.
Qed.

(** A piece of a region is empty, or one region inside its range. *)
Lemma piece_spec r b s p from to : wf_region r -> 0 <= from <= to -> to <= r_size r ->
  b = r_base r + from -> s = to - from ->
  exists l, piece r b s p from to = Ok l /\ Forall wf_region l /\ StronglySorted disj l /\
    Forall (fun x => within x r /\ b <= r_base x /\ r_end x <= b + s) l /\
    forall a, cells l a =
      if in_range b s a then option_map (fun c => (p, c.2)) (region_cell r a) else None.
Proof.
  intros Hr Hft Hto Hb Hs. unfold piece. destruct (Z.ltb_spec 0 s).
  - destruct (sub_region_spec r b s p from to) as (r'&->&Hw&Hin&Hb'&Hs'&Hc); [done|lia..|].
    exists [r']. split; [done|]. split; [by apply Forall_singleton|].
    split; [by repeat constructor|]. split.
    + apply Forall_singleton. unfold r_end in *. rewrite Hb', Hs'. by split; [|lia].
    + intros a. simpl. rewrite Hc. case_range; [|done]. by destruct (region_cell r a).
  - exists []. split; [done|]. split; [done|]. split; [constructor|]. split; [done|].
    intros a. case_range; [lia|done].
Qed.

Lemma SS_disj_app l k : StronglySorted disj l -> StronglySorted disj k ->
  (forall x y, x ∈ l -> y ∈ k -> disj x y) -> StronglySorted disj (l ++ k).
Proof.
  intros Hl Hk. induction Hl as [|x l Hl IH Hf]; simpl; intros Hd; [done|].
  constructor; [apply IH; set_solver|]. apply Forall_app. split; [done|].
  apply Forall_forall. intros y Hy. apply Hd; set_solver.
Qed.

(** [unmap_one] leaves disjoint pieces of the region, with its bytes. *)
Lemma unmap_one_spec base e r : wf_region r -> base < e ->
  exists l, unmap_one base e r = Ok l /\ Forall wf_region l /\ StronglySorted disj l /\
    Forall (fun x => within x r) l /\
    forall a, cells l a = if in_range base (e - base) a then None else region_cell r a.
Proof.
  intros Hr He. pose proof Hr as [H1 H2 H3 H4 _]. unfold unmap_one.
  destruct (Z.leb_spec (Z.min (r_end r) e) (Z.max (r_base r) base)).
  { exists [r]. split; [done|]. split; [by apply Forall_singleton|].
    split; [by repeat constructor|]. split; [apply Forall_singleton; unfold within; lia|].
    intros a. simpl. destruct (region_cell r a) as [c|] eqn:Hc; case_range; try done.
    apply region_cell_Some in Hc. lia. }
  set (os := Z.max (r_base r) base) in *. set (oe := Z.min (r_end r) e) in *.
  destruct (piece_spec r (r_base r) (os - r_base r) (r_permissions r) 0 (os - r_base r))
    as (lb&Hb&Wb&Sb&Ib&Cb); [done|unfold r_end in *; lia..|].
  destruct (piece_spec r oe (r_end r - oe) (r_permissions r) (oe - r_base r) (len (r_data r)))
    as (la&Ha&Wa&Sa&Ia&Ca); [done|unfold r_end in *; lia..|].
  rewrite Hb. simpl. rewrite Ha. simpl. exists (lb ++ la). split; [done|].
  rewrite Forall_forall in Ib, Ia.
  split; [by apply Forall_app|]. split.
  { apply SS_disj_app; [done..|]. intros x y Hx Hy. left. unfold before.
    specialize (Ib x Hx). specialize (Ia y Hy). lia. }
  split; [apply Forall_app; split; apply Forall_forall; intros x Hx; [apply (Ib x Hx)|apply (Ia x Hx)]|].
  intros a. rewrite cells_app, Cb, Ca.
  destruct (region_cell r a) as [[p b]|] eqn:Hc; [|by repeat case_range].
  apply region_cell_Some in Hc as (Hin&Hp&_). simpl in *. subst p.
  repeat case_range; done || (unfold r_end in *; lia).
Qed.

Lemma unmap_all_spec base e rs : Forall wf_region rs -> StronglySorted disj rs -> base < e ->
  exists l, unmap_all base e rs = Ok l /\ Forall wf_region l /\ StronglySorted disj l /\
    (forall x, x ∈ l -> exists r, r ∈ rs /\ within x r) /\
    forall a, cells l a = if in_range base (e - base) a then None else cells rs a.
Proof.
  intros Hw Hs He. induction Hs as [|r rs Hs IH Hf].
  { exists []. split; [done|]. split; [done|]. split; [constructor|].
    split; [set_solver|]. intros a. by destruct (in_range _ _ _). }
  apply Forall_cons in Hw as [Hr Hw]. simpl.
  destruct (unmap_one_spec base e r Hr He) as (l1&->&W1&S1&I1&C1). simpl.
  destruct (IH Hw) as (l2&->&W2&S2&I2&C2). simpl. exists (l1 ++ l2).
  rewrite Forall_forall in I1, Hf. split; [done|]. split; [by apply Forall_app|]. split.
  { apply SS_disj_app; [done..|]. intros x y Hx Hy. destruct (I2 y Hy) as (r'&Hr'&Hin).
    apply disj_within with r; [by apply I1|]. apply disj_sym.
    by apply disj_within with r'; [|apply disj_sym, Hf]. }
  split.
  { intros x [Hx|Hx]%elem_of_app; [exists r; split; [left|auto]|].
    destruct (I2 x Hx) as (r'&?&?). exists r'. split; [by right|done]. }
  intros a. rewrite cells_app, C1, C2. by destruct (in_range _ _ _).
Qed.

Lemma unmap_range_cases base size m : wf m -> u64 base -> u64 size ->
  (exists e, unmap_range base size m = (Err e, m) /\ (size = 0 \/ 2 ^ 64 <= base + size)) \/
  (0 < size /\ base + size < 2 ^ 64 /\ exists m',
    unmap_range base size m = (Ok tt, m') /\ wf m' /\
    forall a, cell m' a = a_unmap base size (cell m) a).
Proof.
  intros Hw Hb Hs. unfold fits in *. unfold unmap_range, checked_add.
  destruct (Z.eqb_spec size 0); [eauto|]. destruct (Z.ltb_spec (base + size) (2 ^ 64)); [|eauto].
  right. split; [lia|]. split; [done|].
  destruct (unmap_all_spec base (base + size) (regions m)) as (l&->&Wl&Sl&_&Cl);
    [apply Hw|by apply wf_disj|lia|].
  eexists. split; [done|]. split; [by apply wf_sort|].
  intros a. unfold cell, a_unmap. simpl.
  rewrite <- (cells_perm l) by (done || (symmetry; apply sort_by_perm)).
  rewrite Cl. by replace (base + size - base) with size by lia.
Qed.

Lemma push_all_spec rs m : wf m -> Forall wf_region rs -> StronglySorted disj rs ->
  (forall x y, x ∈ rs -> y ∈ regions m -> disj x y) ->
  exists m', push_all rs m = (Ok tt, m') /\ wf m' /\ regions m' ≡ₚ rs ++ regions m.
Proof.
  intros Hm Hw Hs. revert m Hm. induction Hs as [|r rs Hs IH Hf]; intros m Hm Hd.
  { exists m. by split. }
  apply Forall_cons in Hw as [Hr Hw].
  assert (wf (push r m)) as Hm'.
  { apply push_wf; [done..|]. apply Forall_forall. intros y Hy. apply Hd; set_solver. }
  destruct (IH Hw (push r m) Hm') as (m'&He&Hwf&Hp).
  { intros x y Hx. rewrite push_regions. intros [->|Hy]%elem_of_cons; [|apply Hd; set_solver].
    apply disj_sym. rewrite Forall_forall in Hf. auto. }
  exists m'. split; [exact He|]. split; [done|].
  rewrite Hp, push_regions. by rewrite <- Permutation_middle.
Qed.

(** The pushes of [protect]: a region is replaced by parts of itself. *)
Lemma push_parts m i r lb rp la : wf m -> regions m !! i = Some r ->
  Forall wf_region lb -> StronglySorted disj lb -> wf_region rp -> within rp r ->
  Forall wf_region la -> StronglySorted disj la ->
  (forall x, x ∈ lb -> within x r /\ r_end x <= r_base rp) ->
  (forall x, x ∈ la -> within x r /\ r_end rp <= r_base x) ->
  exists m1 m3, push_all lb (mkMemory (delete i (regions m))) = (Ok tt, m1) /\
    push_all la (push rp m1) = (Ok tt, m3) /\ wf m3 /\
    regions m3 ≡ₚ la ++ rp :: lb ++ delete i (regions m).
Proof.
  intros Hm Hi Wb Sb Wp Ip Wa Sa Ib Ia.
  pose proof (delete_disj m i r Hm Hi) as Hd. rewrite Forall_forall in Hd.
  destruct (push_all_spec lb (mkMemory (delete i (regions m)))) as (m1&E1&W1&R1);
    [by apply delete_wf|done|done| |].
  { intros x y Hx Hy. apply disj_within with r; [apply (Ib x Hx)|by apply Hd]. }
  simpl in R1. pose proof (wf_size rp Wp).
  assert (wf (push rp m1)) as W2.
  { apply push_wf; [done..|]. apply Forall_forall. intros y. rewrite R1.
    intros [Hy|Hy]%elem_of_app; [by right; apply Ib|].
    apply disj_within with r; [done|by apply Hd]. }
  destruct (push_all_spec la (push rp m1)) as (m3&E3&W3&R3); [done..| |].
  { intros x y Hx. rewrite push_regions, R1. destruct (Ia x Hx) as [Hin ?].
    intros [->|[Hy|Hy]%elem_of_app]%elem_of_cons; [by right|right|].
    - destruct (Ib y Hy) as [_ ?]. unfold before, r_end in *. lia.
    - apply disj_within with r; [done|by apply Hd]. }
  exists m1, m3. split; [done|]. split; [done|]. split; [done|]. by rewrite R3, push_regions, R1.
Qed.

(** [protect] on a range inside one region changes exactly its permissions. *)
Lemma protect_inside base size p m i r : wf m -> 0 < size ->
  find_index m base size = Some i -> regions m !! i = Some r ->
  exists m', protect base size p m = (Ok tt, m') /\ wf m' /\
    forall a, cell m' a = a_protect base size p (cell m) a.
Proof.
  intros Hm Hs Hf Hi. pose proof Hf as Hf'.
  apply find_index_Some in Hf' as (r'&Hi'&Ho&Hb&He).
  assert (r' = r) as -> by congruence. clear Hi'.
  pose proof (wf_lookup m i r Hm Hi) as Hr. pose proof Hr as [H1 H2 H3 H4 _].
  unfold protect. rewrite Hf, Hi. destruct (Z.eqb_spec size 0); [lia|].
  unfold checked_add. destruct (Z.ltb_spec (base + size) (2 ^ 64)); [|lia].
  set (bs := base - r_base r).
  assert (@sub64 GuestMemoryError base (r_base r) = Ok bs) as Hs1 by (apply sub64_Ok; lia).
  assert (@sub64 GuestMemoryError (r_end r) (base + size) = Ok (r_end r - (base + size)))
    as Hs2 by (apply sub64_Ok; lia).
  destruct (piece_spec r (r_base r) bs (r_permissions r) 0 bs)
    as (lb&Pb&Wb&Sb&Ib&Cb); [done|unfold r_end in *; lia..|].
  destruct (sub_region_spec r base size p bs (bs + size))
    as (rp&Pp&Wp&Ip&Bp&Sp&Cp); [done|unfold r_end in *; lia..|].
  destruct (piece_spec r (base + size) (r_end r - (base + size)) (r_permissions r) (bs + size)
    (len (r_data r))) as (la&Pa&Wa&Sa&Ia&Ca); [done|unfold r_end in *; lia..|].
  rewrite Forall_forall in Ib, Ia.
  destruct (push_parts m i r lb rp la) as (m1&m3&E1&E3&W3&R3); [done..| | |].
  { intros x Hx. destruct (Ib x Hx) as (?&?&?). split; [done|lia]. }
  { intros x Hx. destruct (Ia x Hx) as (?&?&?). split; [done|]. unfold r_end in *. lia. }
  exists m3. split; [|split; [done|]].
  { unfold mbind, st_bind, lift, modify.
    rewrite Hs1, Hs2, Pb, E1, Pp, Pa. exact E3. }
  intros a. unfold cell, a_protect.
  rewrite (cells_perm (regions m3) (la ++ rp :: lb ++ delete i (regions m)))
    by (done || by apply wf_disj).
  rewrite (cells_perm (regions m) (r :: delete i (regions m)))
    by (by apply wf_disj || by apply delete_Permutation).
  rewrite cells_app; simpl. rewrite cells_app, Ca, Cb, Cp.
  destruct (region_cell r a) as [[p' b]|] eqn:Hc.
  - apply region_cell_Some in Hc as (Hin&Hp'&_). simpl in *. subst p'.
    repeat case_range; done || (unfold bs, r_end in *; lia).
  - repeat case_range; try done; try (unfold bs, r_end in *; lia).
    all: destruct (region_cell_is_Some r a Hr) as (?&?&?); [unfold bs, r_end in *; lia|congruence].
Qed.

(** [protect] outside every single region is refused. *)
Lemma protect_outside base size p m : 0 < size -> find_index m base size = None ->
  protect base size p m = (Err (Unmapped base size), m).
Proof. intros Hs Hf. unfold protect. rewrite Hf. by destruct (Z.eqb_spec size 0); [lia|]. Qed.

Lemma unmap_region_cases base size m : wf m ->
  (exists e, unmap_region base size m = (Err e, m)) \/
  (exists m', unmap_region base size m = (Ok tt, m') /\ wf m' /\
     forall a, cell m' a = a_unmap base size (cell m) a).
Proof.
  intros Hm. unfold unmap_region. destruct (size =? 0); [eauto|].
  destruct (position _ (regions m)) as [i|] eqn:Hp; [|eauto]. right.
  apply position_Some in Hp as (r&Hi&Hb).
  rewrite andb_true_iff, !Z.eqb_eq in Hb. destruct Hb as [<- <-].
  eexists. split; [done|]. split; [by apply delete_wf|].
  intros a. unfold cell, a_unmap. simpl.
  rewrite (cells_perm (regions m) (r :: delete i (regions m)))
    by (by apply wf_disj || by apply delete_Permutation). simpl.
  case_range; [|by rewrite region_cell_None by (unfold r_end; lia)].
  destruct (region_cell_is_Some r a (wf_lookup m i r Hm Hi) Hr) as (b&_&Hc).
  apply cells_None. intros r' Hr'. apply disj_cell with r (r_permissions r, b); [|done].
  pose proof (delete_disj m i r Hm Hi) as Hd. rewrite Forall_forall in Hd. auto.
Qed.

(** [load_bytes] stores into the one region that holds the whole range. *)
Lemma load_bytes_inside addr bytes m i r : wf m -> Forall (fits 8) bytes ->
  find_index m addr (len bytes) = Some i -> regions m !! i = Some r ->
  exists r', load_bytes addr bytes m = (Ok tt, mkMemory (<[i := r']> (regions m))) /\
    r_base r' = r_base r /\ r_size r' = r_size r /\ r_permissions r' = r_permissions r /\
    wf_region r' /\ @splice GuestMemoryError _ (r_data r) (addr - r_base r) bytes = Ok (r_data r').
Proof.
  intros Hm Hb Hf Hi. pose proof Hf as Hf'.
  apply find_index_Some in Hf' as (r'&Hi'&Ho&Hlo&Hhi).
  assert (r' = r) as -> by congruence. clear Hi'.
  pose proof (wf_lookup m i r Hm Hi) as Hr. pose proof Hr as [H1 H2 H3 H4 H5].
  assert (@sub64 GuestMemoryError addr (r_base r) = Ok (addr - r_base r)) as Hs
    by (apply sub64_Ok; lia).
  assert (exists d, @splice GuestMemoryError _ (r_data r) (addr - r_base r) bytes = Ok d) as [d Hd].
  { eexists. apply splice_Ok. split; [lia|]. split; [unfold r_end in *; lia|done]. }
  unfold load_bytes, store_in. rewrite Hf, Hi, Hs. simpl. rewrite Hd. simpl.
  eexists. split; [done|]. simpl. split; [done|]. split; [done|]. split; [done|]. split; [|done].
  split; simpl; [done|done|done| |].
  - by rewrite (splice_len _ _ _ _ Hd).
  - by eapply splice_Forall.
Qed.

Lemma insert_region_wf m i r r' : wf m -> regions m !! i = Some r -> wf_region r' ->
  r_base r' = r_base r -> r_size r' = r_size r -> wf (mkMemory (<[i := r']> (regions m))).
Proof.
  intros [Hw Hs] Hi Hr' Hb Hz. split; simpl; [by apply Forall_insert|].
  by eapply insert_sorted_same.
Qed.

(** Replacing region [i] changes cells only inside that region. *)
Lemma insert_region_cell m i r r' a : wf m -> regions m !! i = Some r -> wf_region r' ->
  r_base r' = r_base r -> r_size r' = r_size r ->
  cell (mkMemory (<[i := r']> (regions m))) a =
    if in_range (r_base r) (r_size r) a then region_cell r' a else cell m a.
Proof.
  intros Hm Hi Hr' Hb Hz. pose proof (insert_region_wf m i r r' Hm Hi Hr' Hb Hz) as Hm'.
  pose proof (lookup_lt_Some _ _ _ Hi) as Hlt. unfold cell; simpl.
  case_range.
  - destruct (region_cell_is_Some r' a Hr') as (b&_&Hc); [unfold r_end; lia|].
    rewrite Hc. apply cells_elem with r'; [by apply (wf_disj _ Hm')| |done].
    eapply list_elem_of_lookup_2. by apply list_lookup_insert_eq.
  - assert (forall l : list MemoryRegion, l !! i = Some r ->
      cells (<[i := r']> l) a = cells l a) as Hgo; [|by apply Hgo].
    clear Hi Hm' Hlt. revert i. intros i l. revert i.
    induction l as [|x l IH]; intros [|i] Hl; simpl in *; [done..| |].
    + injection Hl as ->. rewrite !region_cell_None; [done|unfold r_end; lia..].
    + destruct (region_cell x a); [done|by apply IH].
Qed.

(** ** Lookups of whole ranges *)

(** [region] succeeds or reports [Unmapped]; it never panics. *)
Lemma region_total m addr n :
  (exists r, region m addr n = Ok r) \/ region m addr n = Err (Unmapped addr n).
Proof.
  unfold region. destruct (find_index m addr n) as [i|] eqn:Hf; [|by right].
  apply find_index_Some in Hf as (r&Hr&_). left. exists r. simpl. by rewrite Hr.
Qed.

Lemma region_find m addr n r : region m addr n = Ok r ->
  exists i, find_index m addr n = Some i /\ regions m !! i = Some r.
Proof.
  unfold region. destruct (find_index m addr n) as [i|]; simpl; [|done].
  intros Hi. exists i. split; [done|]. by destruct (regions m !! i); simplify_eq/=.
Qed.

Lemma region_Ok_iff m addr n r : wf m -> 0 < n -> region m addr n = Ok r <->
  r ∈ regions m /\ addr + n < 2 ^ 64 /\ r_base r <= addr /\ addr + n <= r_end r.
Proof.
  intros Hm Hn. split; [apply region_Ok|]. intros (Hr&Ho&Hb&He).
  destruct (region_total m addr n) as [[r' Hr']|Herr].
  - pose proof (region_Ok _ _ _ _ Hr') as (Hin&_&?&?). rewrite Hr'. f_equal.
    by apply (wf_unique m r' r addr); try lia.
  - unfold region in Herr. destruct (find_index m addr n) as [i|] eqn:Hf; simpl in Herr.
    { by destruct (regions m !! i). }
    eapply position_None in Hf; [|exact Hr].
    assert (contains_range r addr n = true) by (apply contains_range_spec; lia). congruence.
Qed.

(** The bytes of a range inside one region. *)
Lemma region_bytes_spec m addr n r : wf m -> 0 <= n -> region m addr n = Ok r ->
  exists bs, region_bytes m addr n = Ok bs /\ len bs = n /\ Forall (fits 8) bs /\
    @slice GuestMemoryError _ (r_data r) (addr - r_base r) (addr - r_base r + n) = Ok bs.
Proof.
  intros Hm Hn Hr. unfold region_bytes. rewrite Hr. simpl.
  apply region_Ok in Hr as (Hin&Ho&Hb&He).
  pose proof (wf_elem m r Hm Hin) as [H1 H2 H3 H4 H5].
  assert (@sub64 GuestMemoryError addr (r_base r) = Ok (addr - r_base r)) as ->
    by (apply sub64_Ok; lia). simpl.
  assert (@add64 GuestMemoryError (addr - r_base r) n = Ok (addr - r_base r + n)) as ->
    by (apply add64_Ok; unfold r_end in *; lia). simpl.
  destruct (@slice GuestMemoryError _ (r_data r) (addr - r_base r) (addr - r_base r + n))
    as [bs|e|] eqn:Hs.
  - exists bs. split; [done|]. split; [|by split; [eapply slice_Forall|]].
    rewrite (slice_len _ _ _ _ Hs). lia.
  - unfold slice in Hs. by destruct (_ && _ && _).
  - exfalso. unfold slice in Hs. unfold r_end in *. zbool; lia.
Qed.

Lemma read_bytes_inv m addr n bs : wf m -> 0 <= n -> read_bytes m addr n = Ok bs ->
  exists r, region m addr n = Ok r /\ contains (r_permissions r) READ = true /\
    len bs = n /\ Forall (fits 8) bs /\
    @slice GuestMemoryError _ (r_data r) (addr - r_base r) (addr - r_base r + n) = Ok bs.
Proof.
  intros Hm Hn. unfold read_bytes, check_permission.
  destruct (region m addr n) as [r|e|] eqn:Hr; simpl; [|done..].
  destruct (contains _ READ) eqn:Hc; simpl; [|done].
  destruct (region_bytes_spec m addr n r Hm Hn Hr) as (bs'&->&?&?&?).
  intros [= <-]. eauto 10.
Qed.

(** What a successful read returns is what the guest has in its cells. *)
Lemma read_bytes_cells m addr n bs i : wf m -> 0 <= i < n -> read_bytes m addr n = Ok bs ->
  exists p b, cell m (addr + i) = Some (p, b) /\ bs !! Z.to_nat i = Some b /\
    contains p READ = true.
Proof.
  intros Hm Hi Hrd. apply read_bytes_inv in Hrd as (r&Hr&Hc&Hl&_&Hs); [|done|lia].
  apply region_Ok in Hr as (Hin&Ho&Hb&He).
  destruct (region_cell_is_Some r (addr + i)) as (b&Hd&Hcell);
    [by eapply wf_elem|lia|].
  exists (r_permissions r), b. split; [|split; [|done]].
  - eapply cells_elem; [by apply wf_disj|exact Hin|done].
  - rewrite (slice_lookup _ _ _ _ _ Hs) by lia. rewrite <- Hd. do 2 f_equal. lia.
Qed.

(** The bounds and permissions of the regions, without their data. *)
Definition shape (m : GuestMemory) : list (Z * Z * Z) :=
  (fun r => (r_base r, r_size r, r_permissions r)) <$> regions m.

Lemma shape_find_index m m' addr n : shape m = shape m' ->
  find_index m addr n = find_index m' addr n.
Proof.
  unfold shape, find_index. destruct m as [rs], m' as [rs']; simpl. revert rs'.
  induction rs as [|r rs IH]; intros [|r' rs'] H; [done..|].
  injection H as Hb Hs _ Hrs. simpl. rewrite (IH rs' Hrs).
  by replace (contains_range r addr n) with (contains_range r' addr n)
    by (unfold contains_range, r_end; by rewrite Hb, Hs).
Qed.

Lemma shape_region m m' addr n r : shape m = shape m' -> region m addr n = Ok r ->
  exists r', region m' addr n = Ok r' /\ r_base r' = r_base r /\ r_size r' = r_size r /\
    r_permissions r' = r_permissions r.
Proof.
  intros Hs. unfold region. rewrite <- (shape_find_index m m') by done.
  destruct (find_index m addr n) as [i|]; simpl; [|done].
  destruct (regions m !! i) as [r0|] eqn:Hi; simpl; [|done]. intros [= <-].
  assert (shape m' !! i = Some (r_base r0, r_size r0, r_permissions r0)) as Hi'.
  { rewrite <- Hs. unfold shape. by rewrite list_lookup_fmap, Hi. }
  unfold shape in Hi'. rewrite list_lookup_fmap in Hi'.
  destruct (regions m' !! i) as [r'|]; simplify_eq/=. by exists r'.
Qed.

Lemma shape_insert m i r r' : regions m !! i = Some r -> r_base r' = r_base r ->
  r_size r' = r_size r -> r_permissions r' = r_permissions r ->
  shape (mkMemory (<[i := r']> (regions m))) = shape m.
Proof.
  intros Hi Hb Hs Hp. unfold shape; simpl. rewrite list_fmap_insert.
  apply list_insert_id. rewrite list_lookup_fmap, Hi. simpl. by rewrite Hb, Hs, Hp.
Qed.

(** ** Stores *)

(** [load_bytes] refuses and changes nothing, or stores exactly the bytes. *)
Lemma load_bytes_cases addr bytes m : wf m -> Forall (fits 8) bytes ->
  load_bytes addr bytes m = (Err (Unmapped addr (len bytes)), m) \/
  exists m' r, load_bytes addr bytes m = (Ok tt, m') /\ wf m' /\ shape m' = shape m /\
    region m addr (len bytes) = Ok r /\ region_bytes m' addr (len bytes) = Ok bytes /\
    forall a, cell m' a = a_store addr bytes (cell m) a.
Proof.
  intros Hm Hb. destruct (find_index m addr (len bytes)) as [i|] eqn:Hf;
    [right|left; unfold load_bytes; by rewrite Hf].
  destruct (find_index_Some _ _ _ _ Hf) as (r&Hi&Ho&Hlo&Hhi).
  destruct (load_bytes_inside addr bytes m i r Hm Hb Hf Hi) as (r'&Hl&Hb'&Hs'&Hp'&Hw'&Hsp).
  pose proof (insert_region_wf m i r r' Hm Hi Hw' Hb' Hs') as Hm'.
  pose proof (shape_insert m i r r' Hi Hb' Hs' Hp') as Hsh.
  assert (region m addr (len bytes) = Ok r) as Hr by (unfold region; rewrite Hf; simpl; by rewrite Hi).
  eexists _, r. split; [exact Hl|]. split; [done|]. split; [done|]. split; [done|]. split.
  - unfold region_bytes, region. rewrite (shape_find_index _ m) by done. rewrite Hf. simpl.
    rewrite list_lookup_insert_eq by (by eapply lookup_lt_Some). simpl.
    assert (@sub64 GuestMemoryError addr (r_base r') = Ok (addr - r_base r')) as ->
      by (apply sub64_Ok; lia). simpl.
    assert (@add64 GuestMemoryError (addr - r_base r') (len bytes) =
      Ok (addr - r_base r' + len bytes)) as ->
      by (apply add64_Ok; pose proof (wf_base r (wf_lookup m i r Hm Hi)); lia). simpl.
    rewrite Hb'. by eapply slice_splice.
  - intros a. rewrite (insert_region_cell m i r r') by done. unfold a_store.
    pose proof (wf_lookup m i r Hm Hi) as Hwr.
    case_range; [|case_range; [unfold r_end in *; lia|done]].
    destruct (region_cell_is_Some r a Hwr) as (b&Hd&Hc); [unfold r_end; lia|].
    assert (cell m a = Some (r_permissions r, b)) as ->.
    { eapply cells_elem; [by apply wf_disj|by eapply list_elem_of_lookup_2|done]. }
    unfold region_cell. rewrite (proj2 (in_range_true _ _ _)) by lia. rewrite Hb', Hp'.
    rewrite (splice_lookup _ _ _ _ _ Hsp) by lia. unfold in_range.
    replace (addr - r_base r <=? a - r_base r) with (addr <=? a) by (zbool; lia).
    replace (a - r_base r <? addr - r_base r + len bytes) with (a <? addr + len bytes)
      by (zbool; lia).
    destruct (_ && _); simpl; [|by rewrite Hd].
    by replace (a - r_base r - (addr - r_base r)) with (a - addr) by lia.
Qed.

Lemma load_bytes_spec addr bytes : Forall (fits 8) bytes -> preserves wf (load_bytes addr bytes).
Proof.
  intros Hb m Hm. destruct (load_bytes_cases addr bytes m Hm Hb) as [->|(m'&r&->&?&_)]; auto.
Qed.

(** [write_bytes] checks [WRITE] on the region first. *)
Lemma write_bytes_cases addr bytes m : wf m -> Forall (fits 8) bytes ->
  (exists e, write_bytes addr bytes m = (Err e, m)) \/
  exists m' r, write_bytes addr bytes m = (Ok tt, m') /\ wf m' /\ shape m' = shape m /\
    region m addr (len bytes) = Ok r /\ contains (r_permissions r) WRITE = true /\
    region_bytes m' addr (len bytes) = Ok bytes /\
    forall a, cell m' a = a_store addr bytes (cell m) a.
Proof.
  intros Hm Hb. unfold write_bytes, mbind, st_bind, reads, check_permission.
  destruct (region_total m addr (len bytes)) as [[r Hr]|Hr]; rewrite Hr; simpl; [|eauto].
  destruct (contains (r_permissions r) WRITE) eqn:Hc; simpl; [|eauto].
  destruct (load_bytes_cases addr bytes m Hm Hb) as [->|(m'&r'&->&?&?&Hr'&?&?)]; [eauto|].
  right. exists m', r. rewrite Hr in Hr'. simplify_eq. done.
Qed.

Lemma write_bytes_spec addr bytes : Forall (fits 8) bytes ->
  preserves wf (write_bytes addr bytes).
Proof.
  intros Hb m Hm. destruct (write_bytes_cases addr bytes m Hm Hb) as [[e ->]|(m'&r&->&?&_)]; auto.
Qed.

(** [map_with_data] on a free range maps zeros with the data in them, or panics
    when the range is too long for a vector; on a taken or empty range it changes
    nothing. *)
Lemma map_with_data_cases base size p off data name m : wf m -> u64 base -> u64 size ->
  Forall (fits 8) data -> 0 <= off -> off + len data <= size -> base + size < 2 ^ 64 ->
  ((0 < size < 2 ^ 63 /\ free m base (base + size)) /\
   exists m', map_with_data base size p off data name m = (Ok tt, m') /\ wf m' /\
     forall a, cell m' a =
       if in_range base size a
       then Some (p, if in_range (base + off) (len data) a
                     then default 0 (data !! Z.to_nat (a - (base + off))) else 0)
       else cell m a) \/
  (oversized m base size /\ map_with_data base size p off data name m = (Panic, m)) \/
  (~ (0 < size /\ free m base (base + size)) /\
   exists e, map_with_data base size p off data name m = (Err e, m)).
Proof.
  intros Hm Hb Hs Hd Ho Hl Hend. unfold map_with_data, mbind, st_bind.
  destruct (map_region_cases base size p name m Hm Hb Hs)
    as [(e&_&He)|[[? ->]|(H0&_&Hfree&m1&->&Hm1&(r&Hr&Hrb&Hrs&_)&Hc)]]; [|by right; left|].
  - right. right. rewrite He. split; [|eauto]. intros [H0 Hfree]. unfold fits in *.
    destruct (map_region_decided m base size p name Hm) as [(a&_&Ha&Hne&_)|[[_ Hp]|(_&_&m1&H1&_)]];
      try lia; [by apply Hne, Hfree|by rewrite He in Hp|by rewrite He in H1].
  - left. split; [done|]. unfold lift. rewrite (proj2 (add64_Ok base off (base + off)))
      by (pose proof (len_nonneg data); lia).
    destruct (load_bytes_cases (base + off) data m1 Hm1 Hd) as [Hf|(m2&r'&->&Hm2&_&_&_&Hc2)].
    + exfalso. revert Hf. unfold load_bytes.
      destruct (position_is_Some (fun r => contains_range r (base + off) (len data)) (regions m1) r Hr)
        as [i Hi].
      { apply contains_range_spec. unfold r_end. rewrite Hrb, Hrs. lia. }
      unfold find_index. rewrite Hi. destruct (regions m1 !! i) as [r0|] eqn:Hr0; [|done].
      destruct (load_bytes_inside (base + off) data m1 i r0 Hm1 Hd) as (r1&Hl1&_); [done|done|].
      unfold load_bytes, find_index in Hl1. rewrite Hi, Hr0 in Hl1. by rewrite Hl1.
    + exists m2. split; [done|]. split; [done|]. intros a. rewrite Hc2. unfold a_store. rewrite !Hc.
      unfold a_map. case_range; [|done]. rewrite (proj2 (in_range_true _ _ _)) by lia. simpl.
      destruct (lookup_lt_is_Some_2 data (Z.to_nat (a - (base + off)))) as [x ->];
        [unfold len in *; lia|done].
Qed.

(** The byte at an offset of a region is the cell at its address. *)
Lemma data_cell m r a v : wf m -> r ∈ regions m -> r_base r <= a < r_end r ->
  r_data r !! Z.to_nat (a - r_base r) = Some v -> cell m a = Some (r_permissions r, v).
Proof.
  intros Hm Hr Ha Hv. eapply cells_elem; [by apply wf_disj|exact Hr|].
  unfold region_cell. rewrite (proj2 (in_range_true _ _ _)) by (unfold r_end in *; lia).
  by rewrite Hv.
Qed.

(** ** Growing memories *)

(** One region with permissions [p] covers a range. *)
Definition covers (m : GuestMemory) (a n p : Z) : Prop :=
  exists r, r ∈ regions m /\ r_base r <= a /\ a + n <= r_end r /\ r_permissions r = p.

(** [m'] has everything [m] has, in regions that cover as much. *)
Definition keeps (m m' : GuestMemory) : Prop :=
  (forall a c, cell m a = Some c -> cell m' a = Some c) /\
  forall a n p, covers m a n p -> covers m' a n p.

#[export] Instance keeps_preorder : PreOrder keeps.
Proof.
  split; [by split|]. intros m1 m2 m3 [H1 H2] [H3 H4]. split; auto.
Qed.

Lemma shape_covers m m' a n p : shape m = shape m' -> covers m a n p -> covers m' a n p.
Proof.
  intros Hs (r&Hr&Hb&He&Hp).
  assert ((r_base r, r_size r, r_permissions r) ∈ shape m') as Hin.
  { rewrite <- Hs. unfold shape. apply list_elem_of_fmap. by exists r. }
  unfold shape in Hin. apply list_elem_of_fmap in Hin as (r'&[= Eb Es Ep]&Hr').
  exists r'. unfold r_end in *. split; [done|]. split; [lia|]. split; [lia|]. congruence.
Qed.

Lemma map_region_keeps base size p name m m' : wf m -> u64 base -> u64 size ->
  map_region base size p name m = (Ok tt, m') -> keeps m m' /\ covers m' base size p.
Proof.
  intros Hm Hb Hs Hok.
  destruct (map_region_cases base size p name m Hm Hb Hs)
    as [(e&_&He)|[[_ He]|(_&_&Hfree&m1&Hm1&_&(r&Hr&Hrb&Hrs&Hrp)&Hc)]];
    [by rewrite He in Hok|by rewrite He in Hok|]. rewrite Hok in Hm1. injection Hm1 as <-. split; [split|].
  - intros a c Ha. rewrite Hc. unfold a_map. case_range; [|done].
    by rewrite Hfree in Ha.
  - intros a n q (x&Hx&?). exists x. split; [|done]. unfold map_region in Hok.
    destruct (size =? 0); [done|]. destruct (checked_add base size); [|done].
    destruct (overlaps m base size); [done|].
    destruct (zeroed size); [|done..]. injection Hok as <-.
    rewrite push_regions. by apply elem_of_cons; right.
  - exists r. unfold r_end. split; [done|]. split; [lia|]. split; [lia|done].
Qed.

Lemma map_with_data_keeps base size p off data name m m' : wf m -> u64 base -> u64 size ->
  Forall (fits 8) data -> 0 <= off -> off + len data <= size -> base + size < 2 ^ 64 ->
  map_with_data base size p off data name m = (Ok tt, m') ->
  keeps m m' /\ covers m' base size p.
Proof.
  intros Hm Hb Hs Hd Ho Hl Hend Hok.
  destruct (map_with_data_cases base size p off data name m) 
    as [[[_ Hfree] (m1&H1&_&Hc)]|[[_ He]|[_ [e He]]]];
    try done; [|by rewrite He in Hok|by rewrite He in Hok]. rewrite Hok in H1. injection H1 as <-.
  unfold map_with_data, mbind, st_bind in Hok.
  destruct (map_region base size p name m) as [[[]|e|] m1] eqn:Hmap; [|done..].
  destruct (map_region_keeps base size p name m m1 Hm Hb Hs Hmap) as [[_ Hk] Hcov].
  assert (wf m1) as Hm1.
  { destruct (map_region_cases base size p name m Hm Hb Hs) 
      as [(e&_&He)|[[_ He]|(_&_&_&m2&H2&Hw&_)]]; rewrite Hmap in *; [done|done|]. by injection H2 as <-. }
  unfold lift in Hok. rewrite (proj2 (add64_Ok base off (base + off))) in Hok
    by (pose proof (len_nonneg data); lia).
  destruct (load_bytes_cases (base + off) data m1 Hm1 Hd) as [Hf|(m2&r&H2&_&Hsh&_)];
    [by rewrite Hf in Hok|]. rewrite H2 in Hok. injection Hok as <-. split; [split|].
  - intros a c Ha. rewrite Hc. case_range; [by rewrite Hfree in Ha|done].
  - intros a n q Hq. eapply shape_covers; [symmetry; exact Hsh|]. by apply Hk.
  - eapply shape_covers; [symmetry; exact Hsh|done].
Qed.

(** A readable region that covers a range gives the bytes of its cells. *)
Lemma read_covered m a n p bs : wf m -> 0 < n -> len bs = n -> a + n < 2 ^ 64 ->
  covers m a n p -> contains p READ = true ->
  (forall i, 0 <= i < n -> exists q b, cell m (a + i) = Some (q, b) /\ bs !! Z.to_nat i = Some b) ->
  read_bytes m a n = Ok bs.
Proof.
  intros Hm Hn Hl Ho (r&Hr&Hb&He&Hp) HR Hc.
  assert (region m a n = Ok r) as Hreg by (apply region_Ok_iff; done).
  destruct (region_bytes_spec m a n r Hm ltac:(lia) Hreg) as (bs'&Hbs&Hl'&_).
  assert (read_bytes m a n = Ok bs') as Hrd.
  { unfold read_bytes, check_permission. rewrite Hreg. simpl. by rewrite Hp, HR. }
  rewrite Hrd. f_equal. apply list_eq_same_length with (length bs'); [unfold len in *; lia|done|].
  intros i x y Hi Hx Hy. assert (0 <= Z.of_nat i < n) as Hi' by (unfold len in *; lia).
  destruct (read_bytes_cells m a n bs' (Z.of_nat i) Hm Hi' Hrd) as (q1&b1&Hc1&Hb1&_).
  destruct (Hc (Z.of_nat i) Hi') as (q2&b2&Hc2&Hb2). rewrite Nat2Z.id in *. congruence.
Qed.

(** Reads of two memories with the same shape and the same cells agree. *)
Lemma region_bytes_ext m m' addr n : wf m -> wf m' -> 0 <= n -> shape m = shape m' ->
  (forall a, addr <= a < addr + n -> cell m a = cell m' a) ->
  region_bytes m addr n = region_bytes m' addr n.
Proof.
  intros Hm Hm' Hn Hs Hc.
  destruct (region_total m addr n) as [[r Hr]|Hr].
  - destruct (shape_region m m' addr n r Hs Hr) as (r'&Hr'&Hb&Hz&Hp).
    destruct (region_bytes_spec m addr n r Hm Hn Hr) as (bs&->&Hl&_&Hsl).
    destruct (region_bytes_spec m' addr n r' Hm' Hn Hr') as (bs'&->&Hl'&_&Hsl').
    f_equal. apply list_eq_same_length with (length bs); [unfold len in *; lia|done|].
    intros i x y Hi Hx Hy. apply region_Ok in Hr as (Hin&_&H1&H2), Hr' as (Hin'&_&H1'&H2').
    assert (0 <= Z.of_nat i < n) as Hi' by (unfold len in *; lia).
    pose proof (slice_lookup _ _ _ _ (Z.of_nat i) Hsl ltac:(lia)) as Hxi.
    pose proof (slice_lookup _ _ _ _ (Z.of_nat i) Hsl' ltac:(lia)) as Hyi.
    rewrite Nat2Z.id, Hx in Hxi. rewrite Nat2Z.id, Hy in Hyi.
    assert (cell m (addr + Z.of_nat i) = Some (r_permissions r, x)) as Hx'.
    { apply data_cell; [done..|lia|]. rewrite Hxi. f_equal. lia. }
    assert (cell m' (addr + Z.of_nat i) = Some (r_permissions r', y)) as Hy'.
    { apply data_cell; [done..|lia|]. rewrite Hyi. f_equal. lia. }
    rewrite (Hc (addr + Z.of_nat i)), Hy' in Hx' by lia. by simplify_eq.
  - unfold region_bytes. rewrite Hr.
    destruct (region_total m' addr n) as [[r' Hr']| ->]; [|done].
    destruct (shape_region m' m addr n r') as (r&Hr2&_); [done..|]. congruence.
Qed.

(** A part of a range is read from the same region. *)
Lemma region_bytes_sub m a n k j bs : wf m -> 0 <= k -> 0 < j -> k + j <= n ->
  region_bytes m a n = Ok bs ->
  region_bytes m (a + k) j = Ok (take (Z.to_nat j) (drop (Z.to_nat k) bs)).
Proof.
  intros Hm Hk Hj Hn Hb. destruct (region_total m a n) as [[r Hr]|Hr];
    [|unfold region_bytes in Hb; by rewrite Hr in Hb].
  destruct (region_bytes_spec m a n r Hm ltac:(lia) Hr) as (bs'&Hb'&_&_&Hs).
  rewrite Hb in Hb'. injection Hb' as <-.
  assert (region m (a + k) j = Ok r) as Hrk.
  { apply region_Ok in Hr as (?&?&?&?). apply region_Ok_iff; [done|lia|]. repeat split; done || lia. }
  apply region_Ok in Hr as (_&_&?&_).
  destruct (region_bytes_spec m (a + k) j r Hm ltac:(lia) Hrk) as (bk&->&_&_&Hsk). f_equal.
  apply slice_Ok in Hs as (_&_&->). apply slice_Ok in Hsk as (_&_&->).
  rewrite skipn_firstn_comm, take_take, drop_drop. f_equal; [lia|]. f_equal. lia.
Qed.

(** ** What memory promises to the code that stores words in it

    The initial stack of the loader and the push and pop of the interpreter
    use memory only through reads and writes of ranges that are readable and
    writable.  [ByteStore] is that contract. *)

Class ByteStore (M E : Type) : Type := {
  bs_ok : M -> Prop;
  bs_rw : M -> Z -> Z -> Prop;
  bs_read : M -> Z -> Z -> res E (list Z);
  bs_write : Z -> list Z -> ST M E unit;
  bs_rw_sub : forall m a n a' n', bs_ok m -> bs_rw m a n -> 0 < n' -> a <= a' ->
    a' + n' <= a + n -> bs_rw m a' n';
  bs_write_ok : forall m a bytes, bs_ok m -> Forall (fits 8) bytes -> 0 < len bytes ->
    bs_rw m a (len bytes) ->
    exists m', bs_write a bytes m = (Ok tt, m') /\ bs_ok m' /\
      (forall a' n', bs_rw m a' n' -> bs_rw m' a' n') /\
      bs_read m' a (len bytes) = Ok bytes /\
      (forall a' n', 0 <= n' -> a' + n' <= a \/ a + len bytes <= a' ->
        bs_read m' a' n' = bs_read m a' n');
  bs_read_rw : forall m a n, bs_ok m -> bs_rw m a n -> 0 < n ->
    exists bytes, bs_read m a n = Ok bytes /\ len bytes = n;
  bs_read_sub : forall m a n k j bytes, bs_ok m -> bs_rw m a n -> 0 <= k -> 0 < j -> k + j <= n ->
    bs_read m a n = Ok bytes ->
    bs_read m (a + k) j = Ok (take (Z.to_nat j) (drop (Z.to_nat k) bytes))
}.

(** Adjacent ranges read as one. *)
Lemma bs_read_app `{ByteStore M E} m a n1 n2 b1 b2 : bs_ok m -> bs_rw m a (n1 + n2) ->
  0 < n1 -> 0 < n2 -> bs_read m a n1 = Ok b1 -> bs_read m (a + n1) n2 = Ok b2 ->
  bs_read m a (n1 + n2) = Ok (b1 ++ b2).
Proof.
  intros Hm Hrw H1 H2 Hb1 Hb2. destruct (bs_read_rw m a (n1 + n2) Hm Hrw ltac:(lia)) as (bs&Hbs&Hl).
  pose proof (bs_read_sub m a (n1 + n2) 0 n1 bs Hm Hrw ltac:(lia) H1 ltac:(lia) Hbs) as E1.
  pose proof (bs_read_sub m a (n1 + n2) n1 n2 bs Hm Hrw ltac:(lia) H2 ltac:(lia) Hbs) as E2.
  rewrite Z.add_0_r, Hb1 in E1. rewrite Hb2 in E2. injection E1 as ->. injection E2 as ->.
  rewrite Hbs, drop_0. f_equal. rewrite (take_ge (drop _ _)).
  - by rewrite take_drop.
  - rewrite length_drop. unfold len in Hl. lia.
Qed.

Definition rw_range (m : GuestMemory) (a n : Z) : Prop :=
  exists r, region m a n = Ok r /\ contains (r_permissions r) READ = true /\
    contains (r_permissions r) WRITE = true.

Lemma rw_range_sub m a n a' n' : wf m -> rw_range m a n -> 0 < n' -> a <= a' ->
  a' + n' <= a + n -> rw_range m a' n'.
Proof.
  intros Hm (r&Hr&HR&HW) ???. exists r. split; [|done].
  apply region_Ok in Hr as (?&?&?&?). apply region_Ok_iff; [done..|]. repeat split; done || lia.
Qed.

Lemma rw_range_shape m m' a n : shape m = shape m' -> rw_range m a n -> rw_range m' a n.
Proof.
  intros Hs (r&Hr&HR&HW). destruct (shape_region m m' a n r Hs Hr) as (r'&Hr'&_&_&Hp).
  exists r'. by rewrite Hp.
Qed.

Lemma check_permission_shape m m' a n q : shape m = shape m' ->
  check_permission m a n q = check_permission m' a n q.
Proof.
  intros Hs. unfold check_permission. destruct (region_total m a n) as [[r Hr]|Hr]; rewrite Hr; simpl.
  - destruct (shape_region m m' a n r Hs Hr) as (r'&->&_&_&Hp). simpl. by rewrite Hp.
  - destruct (region_total m' a n) as [[r' Hr']|Hr']; rewrite Hr'; simpl; [|done].
    destruct (shape_region m' m a n r') as (r&Hr2&_); [done..|]. congruence.
Qed.

Lemma read_bytes_ext m m' addr n : wf m -> wf m' -> 0 <= n -> shape m = shape m' ->
  (forall a, addr <= a < addr + n -> cell m a = cell m' a) ->
  read_bytes m addr n = read_bytes m' addr n.
Proof.
  intros. unfold read_bytes. rewrite (check_permission_shape m m') by done.
  by rewrite (region_bytes_ext m m').
Qed.

(** A write where reading and writing is allowed succeeds, reads back, and
    leaves every range it does not touch. *)
Lemma write_bytes_rw m a bytes : wf m -> Forall (fits 8) bytes -> rw_range m a (len bytes) ->
  exists m', write_bytes a bytes m = (Ok tt, m') /\ wf m' /\ shape m' = shape m /\
    read_bytes m' a (len bytes) = Ok bytes /\
    (forall a' n', 0 <= n' -> a' + n' <= a \/ a + len bytes <= a' ->
      read_bytes m' a' n' = read_bytes m a' n') /\
    forall x, cell m' x = a_store a bytes (cell m) x.
Proof.
  intros Hm Hb (r&Hr&HR&HW).
  destruct (write_bytes_cases a bytes m Hm Hb) as [[e He]|(m'&r'&Hwr&Hm'&Hs&Hr'&_&Hrb&Hc)].
  { exfalso. unfold write_bytes, mbind, st_bind, reads, check_permission in He.
    rewrite Hr in He. simpl in He. rewrite HW in He.
    destruct (region_find m a (len bytes) r Hr) as (i&Hf&Hi).
    by destruct (load_bytes_inside a bytes m i r Hm Hb Hf Hi) as (r'&Hl&_); rewrite Hl in He. }
  exists m'. split; [done|]. split; [done|]. split; [done|]. split; [|split; [|done]].
  - unfold read_bytes. rewrite (check_permission_shape m' m) by done.
    unfold check_permission. rewrite Hr. simpl. rewrite HR. exact Hrb.
  - intros a' n' Hn Hd. apply read_bytes_ext; [done..|]. intros x Hx. rewrite Hc.
    unfold a_store. by rewrite (proj2 (in_range_false _ _ _)) by lia.
Qed.

#[export] Program Instance guest_memory_store : ByteStore GuestMemory GuestMemoryError := {|
  bs_ok := wf;
  bs_rw := rw_range;
  bs_read := read_bytes;
  bs_write := write_bytes
|}.
Next Obligation. intros. by eapply rw_range_sub. Qed.
Next Obligation.
  intros m a bytes Hm Hb _ Hr.
  destruct (write_bytes_rw m a bytes Hm Hb Hr) as (m'&?&?&?&?&?&_).
  exists m'. split; [done|]. split; [done|]. split; [|done].
  intros. by eapply rw_range_shape.
Qed.
Next Obligation.
  intros m a n Hm (r&Hr&HR&_) Hn. unfold read_bytes, check_permission. rewrite Hr. simpl. rewrite HR.
  destruct (region_bytes_spec m a n r Hm ltac:(lia) Hr) as (bs&Hb&Hl&_). by exists bs.
Qed.
Next Obligation.
  intros m a n k j bs Hm (r&Hr&HR&HW) Hk Hj Hn. unfold read_bytes, check_permission. rewrite Hr.
  simpl. rewrite HR. intros Hb.
  destruct (rw_range_sub m a n (a + k) j Hm) as (r'&Hr'&HR'&_); [by exists r|lia..|].
  rewrite Hr'. simpl. rewrite HR'. by eapply region_bytes_sub.
Qed.
