(* ===== verification/MemoryProps.v ===== *)
(** * Properties of guest memory

    The operations refine a partial map from addresses; every reachable map of
    regions is well-formed; reads, writes and their failures. *)

From S2P Require Import Prelude Memory MemorySpec.

Open Scope Z_scope.

(** ** The operations that change the map, as data *)

Inductive mem_op : Type :=
| OpMap (base size permissions : Z) (name : option (list Z))
| OpProtect (base size permissions : Z)
| OpUnmapRegion (base size : Z)
| OpUnmapRange (base size : Z)
| OpLoad (addr : Z) (bytes : list Z)
| OpWrite (addr : Z) (bytes : list Z).

Definition exec_op (o : mem_op) : MemM unit :=
  match o with
  | OpMap b s p n => map_region b s p n
  | OpProtect b s p => protect b s p
  | OpUnmapRegion b s => unmap_region b s
  | OpUnmapRange b s => unmap_range b s
  | OpLoad a bs => load_bytes a bs
  | OpWrite a bs => write_bytes a bs
  end.

(** What each operation does to the abstract memory. *)
Definition abs_op (o : mem_op) : amap -> amap :=
  match o with
  | OpMap b s p _ => a_map b s p
  | OpProtect b s p => a_protect b s p
  | OpUnmapRegion b s | OpUnmapRange b s => a_unmap b s
  | OpLoad a bs | OpWrite a bs => a_store a bs
  end.

(** The arguments have their Rust types. *)
Definition typed_op (o : mem_op) : Prop :=
  match o with
  | OpMap b s _ _ | OpProtect b s _ | OpUnmapRegion b s | OpUnmapRange b s => u64 b /\ u64 s
  | OpLoad a bs | OpWrite a bs => u64 a /\ Forall (fits 8) bs
  end.

(** One call on a memory, whatever it returns. *)
Inductive mem_step : GuestMemory -> GuestMemory -> Prop :=
| mem_step_op o m : typed_op o -> mem_step m (exec_op o m).2.

(** A mapping whose bytes cannot be allocated. *)
Definition op_oversized (m : GuestMemory) (o : mem_op) : Prop :=
  match o with OpMap b s _ _ => oversized m b s | _ => False end.

Lemma exec_op_cases o m : wf m -> typed_op o ->
  (op_oversized m o /\ exec_op o m = (Panic, m)) \/
  (~ op_oversized m o /\
   ((exists e, exec_op o m = (Err e, m)) \/
    (exists m', exec_op o m = (Ok tt, m') /\ wf m' /\ forall a, cell m' a = abs_op o (cell m) a))).
Proof.
  intros Hm Ht. destruct o as [b s p n|b s p|b s|b s|a bs|a bs]; simpl in *;
    [|right; (split; [tauto|])..].
  - destruct Ht as [Hb Hs].
    destruct (map_region_cases b s p n m Hm Hb Hs) as [(e&?&?)|[?|(Hlt&_&_&m'&?&?&_&?)]];
      [right; eauto|by left|]. right. split; [apply small_not_oversized; lia|eauto].
  - destruct Ht as [Hb Hs]. destruct (Z.eq_dec s 0) as [->|Hne].
    { right. exists m. unfold protect. simpl. split; [done|]. split; [done|].
      intros a. unfold a_protect. by rewrite (proj2 (in_range_false _ _ _)) by lia. }
    unfold fits in Hs. destruct (find_index m b s) as [i|] eqn:Hf.
    + destruct (find_index_Some _ _ _ _ Hf) as (r&Hi&_). right.
      by apply (protect_inside b s p m i r); try lia.
    + left. eexists. apply protect_outside; [lia|done].
  - by apply unmap_region_cases.
  - destruct Ht as [Hb Hs].
    destruct (unmap_range_cases b s m Hm Hb Hs) as [(e&?&_)|(_&_&m'&?&?&?)]; eauto.
  - destruct (load_bytes_cases a bs m) as [?|(m'&r&?&?&_&_&_&?)]; eauto; apply Ht.
  - destruct (write_bytes_cases a bs m) as [?|(m'&r&?&?&_&_&_&_&?)]; eauto; apply Ht.
Qed.

(** C1: the operations on regions implement the address-indexed memory.  Called
    on a well-formed memory with well-typed arguments, an operation panics in
    exactly one case, a mapping of a free range of 2^63 bytes or more, whose
    vector cannot be allocated, and then the memory is unchanged.  In every other
    case it returns an error and the memory is unchanged, or it succeeds, the
    memory stays well-formed and the cell of every address is the one the
    abstract operation gives. *)
Theorem memory_refines_cells (o : mem_op) (m : GuestMemory) (Hm : wf m) (Ho : typed_op o) :
  (op_oversized m o /\ exec_op o m = (Panic, m)) \/
  (~ op_oversized m o /\
   ((exists e, exec_op o m = (Err e, m)) \/
    (exists m', exec_op o m = (Ok tt, m') /\ wf m' /\ forall a, cell m' a = abs_op o (cell m) a))).
Proof. by apply exec_op_cases. Qed.

Definition demo_mem : GuestMemory := mkMemory
  [mkRegion 4096 8 (READ + WRITE) None [1; 2; 3; 4; 5; 6; 7; 8];
   mkRegion 4104 4 READ None [9; 10; 11; 12]].

Lemma demo_mem_wf : wf demo_mem.
Proof.
  split.
  - repeat constructor; vm_compute; congruence.
  - repeat constructor; vm_compute; congruence.
Qed.

Lemma memory_refines_cells_witness :
  exists m', protect 4098 4 READ demo_mem = (Ok tt, m') /\ cell m' 4099 = Some (READ, 4) /\
    cell m' 4097 = Some (READ + WRITE, 2).
Proof.
  assert (typed_op (OpProtect 4098 4 READ)) as Ho by (vm_compute; repeat split; congruence).
  destruct (memory_refines_cells (OpProtect 4098 4 READ) demo_mem demo_mem_wf Ho)
    as [[[] _]|[_ [[e He]|(m'&Hx&_&Hc)]]].
  - exfalso. vm_compute in He. discriminate He.
  - exists m'. split; [exact Hx|]. rewrite !Hc. by split; vm_compute.
Defined.

(** Every memory reachable from the empty one by calls of the operations,
    successful or not, is well-formed: regions sorted by base, pairwise
    disjoint, non-empty, inside the 64-bit space and with one byte of data per
    address. *)
Theorem memory_reachable_wf (m : GuestMemory) (Hr : rtc mem_step new m) : wf m.
Proof.
  assert (forall m0, rtc mem_step m0 m -> wf m0 -> wf m) as Hgo.
  { clear Hr. induction 1 as [|x y z Hxy _ IH]; intros Hw; [done|]. apply IH. destruct Hxy as [o x0 Ht].
    destruct (exec_op_cases o x0 Hw Ht) as [[_ He]|[_ [[e He]|(m'&He&?&_)]]]; by rewrite He. }
  apply (Hgo new Hr). split; constructor.
Qed.

Lemma memory_reachable_wf_witness : wf (map_region 4096 4096 READ None new).2.
Proof.
  apply memory_reachable_wf. apply rtc_once.
  apply (mem_step_op (OpMap 4096 4096 READ None)). vm_compute. repeat split; congruence.
Defined.

(** A 64-bit word written where the guest may read and write is stored and
    reads back, and no read of a range disjoint from the eight bytes changes. *)
Theorem write_u64_roundtrip (m : GuestMemory) (addr v : Z) (Hm : wf m) (Hv : u64 v)
    (Hrw : rw_range m addr 8) :
  exists m', write_u64 addr v m = (Ok tt, m') /\ wf m' /\ read_u64 m' addr = Ok v /\
    forall a n, 0 <= n -> a + n <= addr \/ addr + 8 <= a ->
      read_bytes m' a n = read_bytes m a n.
Proof.
  destruct (write_bytes_rw m addr (to_le 8 v)) as (m'&Hw&Hm'&_&Hr&Hf&_);
    [done|apply to_le_u8|done|].
  exists m'. split; [exact Hw|]. split; [done|]. split; [|exact Hf].
  unfold read_u64, read_le. change (len (to_le 8 v)) with 8 in Hr.
  change (Z.of_nat 8) with 8. rewrite Hr. cbn -[to_le of_le].
  by rewrite of_le_to_le_id.
Qed.

Lemma write_u64_roundtrip_witness :
  exists m', write_u64 4096 0xfeedfacecafebeef demo_mem = (Ok tt, m') /\
    read_u64 m' 4096 = Ok 0xfeedfacecafebeef.
Proof.
  destruct (write_u64_roundtrip demo_mem 4096 0xfeedfacecafebeef) as (m'&?&_&?&_).
  - exact demo_mem_wf.
  - vm_compute. split; congruence.
  - eexists. vm_compute. repeat split.
  - by exists m'.
Defined.

(** C34: what decides a non-empty read: it succeeds exactly when one region
    covers the whole range and is readable, and then it returns the bytes the
    guest has in its cells. *)
Theorem read_bytes_characterised (m : GuestMemory) (addr n : Z) (Hm : wf m) (Hn : 0 < n) :
  ((exists bs, read_bytes m addr n = Ok bs) <->
   (exists r, r ∈ regions m /\ addr + n < 2 ^ 64 /\ r_base r <= addr /\ addr + n <= r_end r /\
      contains (r_permissions r) READ = true)) /\
  (forall bs, read_bytes m addr n = Ok bs -> len bs = n /\
    forall i, 0 <= i < n -> exists p b, cell m (addr + i) = Some (p, b) /\
      bs !! Z.to_nat i = Some b /\ contains p READ = true).
Proof.
  split; [split|].
  - intros [bs Hb]. apply read_bytes_inv in Hb as (r&Hr&Hc&_); [|done|lia].
    apply region_Ok in Hr as (?&?&?&?). by exists r.
  - intros (r&Hr&Ho&Hb&He&Hc). assert (region m addr n = Ok r) as Hreg by by apply region_Ok_iff.
    destruct (region_bytes_spec m addr n r) as (bs&Hbs&_); [done|lia|done|].
    exists bs. unfold read_bytes, check_permission. rewrite Hreg. simpl. by rewrite Hc.
  - intros bs Hb. split; [by apply read_bytes_inv in Hb as (?&_&_&?&_); [|done|lia]|].
    intros i Hi. by eapply read_bytes_cells.
Qed.

Lemma read_bytes_characterised_witness :
  exists bs, read_bytes demo_mem 4097 3 = Ok bs /\ len bs = 3.
Proof.
  destruct (read_bytes_characterised demo_mem 4097 3) as [[_ H1] H2];
    [exact demo_mem_wf|lia|].
  destruct H1 as [bs Hbs].
  - eexists. split; [left|]. vm_compute. repeat split; congruence.
  - exists bs. split; [exact Hbs|]. apply (H2 bs Hbs).
Defined.

(** An access that crosses the boundary of two adjacent regions is refused
    as unmapped, even when every byte of it is mapped and readable: the map
    finds a single region for the whole range or none.  Two regions become
    adjacent whenever [protect] splits one. *)
Theorem read_across_regions_refused (m : GuestMemory) (r1 r2 : MemoryRegion) (addr n : Z)
    (Hm : wf m) (H1 : r1 ∈ regions m) (H2 : r2 ∈ regions m) (Hadj : r_end r1 = r_base r2)
    (Ha : r_base r1 <= addr < r_end r1) (Hn : r_base r2 < addr + n <= r_end r2) :
  read_bytes m addr n = Err (Unmapped addr n) /\
  forall a, addr <= a < addr + n -> exists c, cell m a = Some c.
Proof.
  split.
  - unfold read_bytes, check_permission.
    destruct (region_total m addr n) as [[r Hr]| ->]; [|done]. exfalso.
    apply region_Ok in Hr as (Hin&_&Hlo&Hhi).
    assert (r = r1) as -> by (apply (wf_unique m r r1 addr); done || lia).
    unfold r_end in *. lia.
  - intros a Hr. destruct (Z.lt_ge_cases a (r_end r1)).
    + destruct (region_cell_is_Some r1 a) as (b&_&Hc); [by eapply wf_elem|lia|].
      eexists. eapply cells_elem; [by apply wf_disj| |exact Hc]; done.
    + destruct (region_cell_is_Some r2 a) as (b&_&Hc); [by eapply wf_elem|lia|].
      eexists. eapply cells_elem; [by apply wf_disj| |exact Hc]; done.
Qed.

Lemma read_across_regions_refused_witness :
  read_bytes demo_mem 4102 4 = Err (Unmapped 4102 4) /\
  forall a, 4102 <= a < 4102 + 4 -> exists c, cell demo_mem a = Some c.
Proof.
  apply (read_across_regions_refused demo_mem
    (mkRegion 4096 8 (READ + WRITE) None [1; 2; 3; 4; 5; 6; 7; 8])
    (mkRegion 4104 4 READ None [9; 10; 11; 12])).
  - exact demo_mem_wf.
  - left.
  - right. left.
  - reflexivity.
  - vm_compute. split; congruence.
  - vm_compute. split; congruence.
Defined.

(** The refusals of [map_region] and its success.  A mapping is refused as
    empty, as running past the address space, or, exactly when the guest has
    something at one of its addresses, as overlapping; otherwise it succeeds, up
    to [isize::MAX] bytes, above which the allocation panics. *)
Theorem map_region_outcome (m : GuestMemory) (base size p : Z) (name : option (list Z))
    (Hm : wf m) (Hb : u64 base) (Hs : u64 size) :
  let r := (map_region base size p name m).1 in
  (size = 0 /\ r = Err EmptyMapping) \/
  (0 < size /\ 2 ^ 64 <= base + size /\ r = Err (AddressOverflow base size)) \/
  (0 < size /\ base + size < 2 ^ 64 /\
   (exists a, base <= a < base + size /\ cell m a <> None) /\
   r = Err (OverlappingMapping base size)) \/
  (0 < size /\ base + size < 2 ^ 64 /\
   free m base (base + size) /\ r = if size <? 2 ^ 63 then Ok tt else Panic).
Proof.
  unfold map_region, checked_add. destruct (Z.eqb_spec size 0); [by left|right].
  assert (0 < size) by (unfold fits in *; lia).
  destruct (Z.ltb_spec (base + size) (2 ^ 64)); simpl; [right|by left].
  destruct (overlaps_iff m base size Hm) as [[-> ?]|[-> ?]]; [done|by left|right].
  unfold zeroed, capacity. by destruct (size <? 2 ^ 63).
Qed.

Lemma map_region_outcome_witness :
  (map_region 4100 4096 READ None demo_mem).1 = Err (OverlappingMapping 4100 4096).
Proof.
  destruct (map_region_outcome demo_mem 4100 4096 READ None demo_mem_wf)
    as [[H _]|[(_&H&_)|[(_&_&_&H)|(_&_&H&_)]]].
  - vm_compute. split; congruence.
  - vm_compute. split; congruence.
  - discriminate H.
  - vm_compute in H. destruct H. reflexivity.
  - exact H.
  - discriminate (H 4100). split; reflexivity || discriminate.
Defined.
