(* ===== verification/Registers.v ===== *)
(** * The register file

    Model of [crates/ruxeon-cpu/src/registers.rs]: the registers of the guest
    CPU, reading and writing them through the architectural names of their
    parts, and the flags. *)

From S2P Require Import Prelude.

Open Scope Z_scope.

Definition FLAG_CF : Z := Z.shiftl 1 0.
Definition FLAG_PF : Z := Z.shiftl 1 2.
Definition FLAG_ZF : Z := Z.shiftl 1 6.
Definition FLAG_SF : Z := Z.shiftl 1 7.
Definition FLAG_DF : Z := Z.shiftl 1 10.
Definition FLAG_OF : Z := Z.shiftl 1 11.

(** The variants of [iced_x86::Register] that the program names; every other
    register of the decoder is [OtherRegister], distinguished by its number. *)
Inductive Register : Type :=
| NoRegister
| RAX | EAX | AX | AL | AH
| RBX | EBX | BX | BL | BH
| RCX | ECX | CX | CL | CH
| RDX | EDX | DX | DL | DH
| RSI | ESI | SI | SIL
| RDI | EDI | DI | DIL
| RBP | EBP | BP | BPL
| RSP | ESP | SP | SPL
| R8 | R8D | R8W | R8L
| R9 | R9D | R9W | R9L
| R10 | R10D | R10W | R10L
| R11 | R11D | R11W | R11L
| R12 | R12D | R12W | R12L
| R13 | R13D | R13W | R13L
| R14 | R14D | R14W | R14L
| R15 | R15D | R15W | R15L
| RIP | EIP | FS | GS
| XMM0 | XMM1 | XMM2 | XMM3 | XMM4 | XMM5 | XMM6 | XMM7
| XMM8 | XMM9 | XMM10 | XMM11 | XMM12 | XMM13 | XMM14 | XMM15
| OtherRegister (number : Z).

#[export] Instance Register_eq_dec : EqDecision Register.
Proof. solve_decision. Defined.

Inductive RegisterError : Type :=
| UnsupportedRegister (register : Register).

(** ** The state *)

Record Registers : Type := mkRegisters {
  rax : Z;
  rbx : Z;
  rcx : Z;
  rdx : Z;
  rsi : Z;
  rdi : Z;
  rbp : Z;
  rsp : Z;
  r8 : Z;
  r9 : Z;
  r10 : Z;
  r11 : Z;
  r12 : Z;
  r13 : Z;
  r14 : Z;
  r15 : Z;
  xmm : list Z;
  fs_base : Z;
  gs_base : Z;
  rip : Z;
  rflags : Z
}.

(** [Registers::default]. *)
Definition default_registers : Registers :=
  mkRegisters 0 0 0 0 0 0 0 0 0 0 0 0 0 0 0 0 (replicate 16 0) 0 0 0 0x2.

(** Assignments to one field. *)
Definition set_rax (v : Z) (r : Registers) : Registers :=
  mkRegisters v (rbx r) (rcx r) (rdx r) (rsi r) (rdi r) (rbp r) (rsp r) (r8 r) (r9 r)
    (r10 r) (r11 r) (r12 r) (r13 r) (r14 r) (r15 r) (xmm r) (fs_base r) (gs_base r)
    (rip r) (rflags r).
Definition set_rbx (v : Z) (r : Registers) : Registers :=
  mkRegisters (rax r) v (rcx r) (rdx r) (rsi r) (rdi r) (rbp r) (rsp r) (r8 r) (r9 r)
    (r10 r) (r11 r) (r12 r) (r13 r) (r14 r) (r15 r) (xmm r) (fs_base r) (gs_base r)
    (rip r) (rflags r).
Definition set_rcx (v : Z) (r : Registers) : Registers :=
  mkRegisters (rax r) (rbx r) v (rdx r) (rsi r) (rdi r) (rbp r) (rsp r) (r8 r) (r9 r)
    (r10 r) (r11 r) (r12 r) (r13 r) (r14 r) (r15 r) (xmm r) (fs_base r) (gs_base r)
    (rip r) (rflags r).
Definition set_rdx (v : Z) (r : Registers) : Registers :=
  mkRegisters (rax r) (rbx r) (rcx r) v (rsi r) (rdi r) (rbp r) (rsp r) (r8 r) (r9 r)
    (r10 r) (r11 r) (r12 r) (r13 r) (r14 r) (r15 r) (xmm r) (fs_base r) (gs_base r)
    (rip r) (rflags r).
Definition set_rsi (v : Z) (r : Registers) : Registers :=
  mkRegisters (rax r) (rbx r) (rcx r) (rdx r) v (rdi r) (rbp r) (rsp r) (r8 r) (r9 r)
    (r10 r) (r11 r) (r12 r) (r13 r) (r14 r) (r15 r) (xmm r) (fs_base r) (gs_base r)
    (rip r) (rflags r).
Definition set_rdi (v : Z) (r : Registers) : Registers :=
  mkRegisters (rax r) (rbx r) (rcx r) (rdx r) (rsi r) v (rbp r) (rsp r) (r8 r) (r9 r)
    (r10 r) (r11 r) (r12 r) (r13 r) (r14 r) (r15 r) (xmm r) (fs_base r) (gs_base r)
    (rip r) (rflags r).
Definition set_rbp (v : Z) (r : Registers) : Registers :=
  mkRegisters (rax r) (rbx r) (rcx r) (rdx r) (rsi r) (rdi r) v (rsp r) (r8 r) (r9 r)
    (r10 r) (r11 r) (r12 r) (r13 r) (r14 r) (r15 r) (xmm r) (fs_base r) (gs_base r)
    (rip r) (rflags r).
Definition set_rsp (v : Z) (r : Registers) : Registers :=
  mkRegisters (rax r) (rbx r) (rcx r) (rdx r) (rsi r) (rdi r) (rbp r) v (r8 r) (r9 r)
    (r10 r) (r11 r) (r12 r) (r13 r) (r14 r) (r15 r) (xmm r) (fs_base r) (gs_base r)
    (rip r) (rflags r).
Definition set_r8 (v : Z) (r : Registers) : Registers :=
  mkRegisters (rax r) (rbx r) (rcx r) (rdx r) (rsi r) (rdi r) (rbp r) (rsp r) v (r9 r)
    (r10 r) (r11 r) (r12 r) (r13 r) (r14 r) (r15 r) (xmm r) (fs_base r) (gs_base r)
    (rip r) (rflags r).
Definition set_r9 (v : Z) (r : Registers) : Registers :=
  mkRegisters (rax r) (rbx r) (rcx r) (rdx r) (rsi r) (rdi r) (rbp r) (rsp r) (r8 r) v
    (r10 r) (r11 r) (r12 r) (r13 r) (r14 r) (r15 r) (xmm r) (fs_base r) (gs_base r)
    (rip r) (rflags r).
Definition set_r10 (v : Z) (r : Registers) : Registers :=
  mkRegisters (rax r) (rbx r) (rcx r) (rdx r) (rsi r) (rdi r) (rbp r) (rsp r) (r8 r)
    (r9 r) v (r11 r) (r12 r) (r13 r) (r14 r) (r15 r) (xmm r) (fs_base r) (gs_base r)
    (rip r) (rflags r).
Definition set_r11 (v : Z) (r : Registers) : Registers :=
  mkRegisters (rax r) (rbx r) (rcx r) (rdx r) (rsi r) (rdi r) (rbp r) (rsp r) (r8 r)
    (r9 r) (r10 r) v (r12 r) (r13 r) (r14 r) (r15 r) (xmm r) (fs_base r) (gs_base r)
    (rip r) (rflags r).
Definition set_r12 (v : Z) (r : Registers) : Registers :=
  mkRegisters (rax r) (rbx r) (rcx r) (rdx r) (rsi r) (rdi r) (rbp r) (rsp r) (r8 r)
    (r9 r) (r10 r) (r11 r) v (r13 r) (r14 r) (r15 r) (xmm r) (fs_base r) (gs_base r)
    (rip r) (rflags r).
Definition set_r13 (v : Z) (r : Registers) : Registers :=
  mkRegisters (rax r) (rbx r) (rcx r) (rdx r) (rsi r) (rdi r) (rbp r) (rsp r) (r8 r)
    (r9 r) (r10 r) (r11 r) (r12 r) v (r14 r) (r15 r) (xmm r) (fs_base r) (gs_base r)
    (rip r) (rflags r).
Definition set_r14 (v : Z) (r : Registers) : Registers :=
  mkRegisters (rax r) (rbx r) (rcx r) (rdx r) (rsi r) (rdi r) (rbp r) (rsp r) (r8 r)
    (r9 r) (r10 r) (r11 r) (r12 r) (r13 r) v (r15 r) (xmm r) (fs_base r) (gs_base r)
    (rip r) (rflags r).
Definition set_r15 (v : Z) (r : Registers) : Registers :=
  mkRegisters (rax r) (rbx r) (rcx r) (rdx r) (rsi r) (rdi r) (rbp r) (rsp r) (r8 r)
    (r9 r) (r10 r) (r11 r) (r12 r) (r13 r) (r14 r) v (xmm r) (fs_base r) (gs_base r)
    (rip r) (rflags r).
Definition set_xmm (v : list Z) (r : Registers) : Registers :=
  mkRegisters (rax r) (rbx r) (rcx r) (rdx r) (rsi r) (rdi r) (rbp r) (rsp r) (r8 r)
    (r9 r) (r10 r) (r11 r) (r12 r) (r13 r) (r14 r) (r15 r) v (fs_base r) (gs_base r)
    (rip r) (rflags r).
Definition set_fs_base (v : Z) (r : Registers) : Registers :=
  mkRegisters (rax r) (rbx r) (rcx r) (rdx r) (rsi r) (rdi r) (rbp r) (rsp r) (r8 r)
    (r9 r) (r10 r) (r11 r) (r12 r) (r13 r) (r14 r) (r15 r) (xmm r) v (gs_base r) (rip r)
    (rflags r).
Definition set_gs_base (v : Z) (r : Registers) : Registers :=
  mkRegisters (rax r) (rbx r) (rcx r) (rdx r) (rsi r) (rdi r) (rbp r) (rsp r) (r8 r)
    (r9 r) (r10 r) (r11 r) (r12 r) (r13 r) (r14 r) (r15 r) (xmm r) (fs_base r) v (rip r)
    (rflags r).
Definition set_rip (v : Z) (r : Registers) : Registers :=
  mkRegisters (rax r) (rbx r) (rcx r) (rdx r) (rsi r) (rdi r) (rbp r) (rsp r) (r8 r)
    (r9 r) (r10 r) (r11 r) (r12 r) (r13 r) (r14 r) (r15 r) (xmm r) (fs_base r)
    (gs_base r) v (rflags r).
Definition set_rflags (v : Z) (r : Registers) : Registers :=
  mkRegisters (rax r) (rbx r) (rcx r) (rdx r) (rsi r) (rdi r) (rbp r) (rsp r) (r8 r)
    (r9 r) (r10 r) (r11 r) (r12 r) (r13 r) (r14 r) (r15 r) (xmm r) (fs_base r)
    (gs_base r) (rip r) v.

(** ** Widths and sub-registers *)

Definition register_width (register : Register) : res RegisterError Z :=
  match register with
  | AL | AH | BL | BH | CL | CH | DL | DH | SIL | DIL | BPL | SPL | R8L | R9L
  | R10L | R11L | R12L | R13L | R14L | R15L => Ok 8
  | AX | BX | CX | DX | SI | DI | BP | SP | R8W | R9W | R10W | R11W | R12W | R13W
  | R14W | R15W => Ok 16
  | EAX | EBX | ECX | EDX | ESI | EDI | EBP | ESP | R8D | R9D | R10D | R11D | R12D
  | R13D | R14D | R15D | EIP => Ok 32
  | RAX | RBX | RCX | RDX | RSI | RDI | RBP | RSP | R8 | R9 | R10 | R11 | R12 | R13
  | R14 | R15 | RIP => Ok 64
  | _ => Err (UnsupportedRegister register)
  end.

Definition mask (width : Z) : Z :=
  if 64 <=? width then u64_max else Z.shiftl 1 width - 1.

Definition unwrap_or {E A} (m : res E A) (d : A) : A :=
  match m with Ok a => a | _ => d end.

Definition extract_register_bits (register : Register) (value : Z) : Z :=
  match register with
  | AH | BH | CH | DH => Z.land (Z.shiftr value 8) 0xff
  | _ => Z.land value (mask (unwrap_or (register_width register) 64))
  end.

Definition is_high_byte (register : Register) : bool :=
  match register with AH | BH | CH | DH => true | _ => false end.

(** The new contents of a slot: the parameter [slot] is the [&mut u64]. *)
Definition write_register_bits (slot : Z) (register : Register) (value : Z) : Z :=
  let width := unwrap_or (register_width register) 64 in
  if (width =? 8) && is_high_byte register then
    Z.lor (Z.land slot (lnotw 64 0xff00)) (wrap 64 (Z.shiftl (Z.land value 0xff) 8))
  else if width =? 8 then Z.lor (Z.land slot (lnotw 64 0xff)) (Z.land value 0xff)
  else if width =? 16 then Z.lor (Z.land slot (lnotw 64 0xffff)) (Z.land value 0xffff)
  else if width =? 32 then Z.land value 0xffffffff
  else value.

(** ** Reads and writes *)

Definition read (r : Registers) (register : Register) : res RegisterError Z :=
  value ← match register with
    | RAX | EAX | AX | AL | AH => Ok (rax r)
    | RBX | EBX | BX | BL | BH => Ok (rbx r)
    | RCX | ECX | CX | CL | CH => Ok (rcx r)
    | RDX | EDX | DX | DL | DH => Ok (rdx r)
    | RSI | ESI | SI | SIL => Ok (rsi r)
    | RDI | EDI | DI | DIL => Ok (rdi r)
    | RBP | EBP | BP | BPL => Ok (rbp r)
    | RSP | ESP | SP | SPL => Ok (rsp r)
    | R8 | R8D | R8W | R8L => Ok (r8 r)
    | R9 | R9D | R9W | R9L => Ok (r9 r)
    | R10 | R10D | R10W | R10L => Ok (r10 r)
    | R11 | R11D | R11W | R11L => Ok (r11 r)
    | R12 | R12D | R12W | R12L => Ok (r12 r)
    | R13 | R13D | R13W | R13L => Ok (r13 r)
    | R14 | R14D | R14W | R14L => Ok (r14 r)
    | R15 | R15D | R15W | R15L => Ok (r15 r)
    | RIP | EIP => Ok (rip r)
    | _ => Err (UnsupportedRegister register)
    end;
  Ok (extract_register_bits register value).

Definition write (register : Register) (value : Z) : ST Registers RegisterError unit :=
  match register with
  | RAX | EAX | AX | AL | AH =>
    modify (fun r => set_rax (write_register_bits (rax r) register value) r)
  | RBX | EBX | BX | BL | BH =>
    modify (fun r => set_rbx (write_register_bits (rbx r) register value) r)
  | RCX | ECX | CX | CL | CH =>
    modify (fun r => set_rcx (write_register_bits (rcx r) register value) r)
  | RDX | EDX | DX | DL | DH =>
    modify (fun r => set_rdx (write_register_bits (rdx r) register value) r)
  | RSI | ESI | SI | SIL =>
    modify (fun r => set_rsi (write_register_bits (rsi r) register value) r)
  | RDI | EDI | DI | DIL =>
    modify (fun r => set_rdi (write_register_bits (rdi r) register value) r)
  | RBP | EBP | BP | BPL =>
    modify (fun r => set_rbp (write_register_bits (rbp r) register value) r)
  | RSP | ESP | SP | SPL =>
    modify (fun r => set_rsp (write_register_bits (rsp r) register value) r)
  | R8 | R8D | R8W | R8L =>
    modify (fun r => set_r8 (write_register_bits (r8 r) register value) r)
  | R9 | R9D | R9W | R9L =>
    modify (fun r => set_r9 (write_register_bits (r9 r) register value) r)
  | R10 | R10D | R10W | R10L =>
    modify (fun r => set_r10 (write_register_bits (r10 r) register value) r)
  | R11 | R11D | R11W | R11L =>
    modify (fun r => set_r11 (write_register_bits (r11 r) register value) r)
  | R12 | R12D | R12W | R12L =>
    modify (fun r => set_r12 (write_register_bits (r12 r) register value) r)
  | R13 | R13D | R13W | R13L =>
    modify (fun r => set_r13 (write_register_bits (r13 r) register value) r)
  | R14 | R14D | R14W | R14L =>
    modify (fun r => set_r14 (write_register_bits (r14 r) register value) r)
  | R15 | R15D | R15W | R15L =>
    modify (fun r => set_r15 (write_register_bits (r15 r) register value) r)
  | RIP | EIP => modify (set_rip value)
  | _ => raise (UnsupportedRegister register)
  end.

Definition flag (r : Registers) (f : Z) : bool := negb (Z.land (rflags r) f =? 0).

Definition set_flag (f : Z) (value : bool) (r : Registers) : Registers :=
  let r := if value then set_rflags (Z.lor (rflags r) f) r
           else set_rflags (Z.land (rflags r) (lnotw 64 f)) r in
  set_rflags (Z.lor (rflags r) 0x2) r.

(** ** Slots: the sixteen general registers and the instruction pointer *)

Inductive slot : Type :=
| Srax | Srbx | Srcx | Srdx | Srsi | Srdi | Srbp | Srsp
| Sr8 | Sr9 | Sr10 | Sr11 | Sr12 | Sr13 | Sr14 | Sr15 | Srip.

#[export] Instance slot_eq_dec : EqDecision slot.
Proof. solve_decision. Defined.

Definition slot_of (register : Register) : option slot :=
  match register with
  | RAX | EAX | AX | AL | AH => Some Srax
  | RBX | EBX | BX | BL | BH => Some Srbx
  | RCX | ECX | CX | CL | CH => Some Srcx
  | RDX | EDX | DX | DL | DH => Some Srdx
  | RSI | ESI | SI | SIL => Some Srsi
  | RDI | EDI | DI | DIL => Some Srdi
  | RBP | EBP | BP | BPL => Some Srbp
  | RSP | ESP | SP | SPL => Some Srsp
  | R8 | R8D | R8W | R8L => Some Sr8
  | R9 | R9D | R9W | R9L => Some Sr9
  | R10 | R10D | R10W | R10L => Some Sr10
  | R11 | R11D | R11W | R11L => Some Sr11
  | R12 | R12D | R12W | R12L => Some Sr12
  | R13 | R13D | R13W | R13L => Some Sr13
  | R14 | R14D | R14W | R14L => Some Sr14
  | R15 | R15D | R15W | R15L => Some Sr15
  | RIP | EIP => Some Srip
  | _ => None
  end.

Definition slot_get (s : slot) : Registers -> Z :=
  match s with
  | Srax => rax
  | Srbx => rbx
  | Srcx => rcx
  | Srdx => rdx
  | Srsi => rsi
  | Srdi => rdi
  | Srbp => rbp
  | Srsp => rsp
  | Sr8 => r8
  | Sr9 => r9
  | Sr10 => r10
  | Sr11 => r11
  | Sr12 => r12
  | Sr13 => r13
  | Sr14 => r14
  | Sr15 => r15
  | Srip => rip
  end.

Definition slot_set (s : slot) : Z -> Registers -> Registers :=
  match s with
  | Srax => set_rax
  | Srbx => set_rbx
  | Srcx => set_rcx
  | Srdx => set_rdx
  | Srsi => set_rsi
  | Srdi => set_rdi
  | Srbp => set_rbp
  | Srsp => set_rsp
  | Sr8 => set_r8
  | Sr9 => set_r9
  | Sr10 => set_r10
  | Sr11 => set_r11
  | Sr12 => set_r12
  | Sr13 => set_r13
  | Sr14 => set_r14
  | Sr15 => set_r15
  | Srip => set_rip
  end.

(** What a write leaves in the slot; [rip] is assigned whole. *)
Definition slot_write (s : slot) (old : Z) (register : Register) (value : Z) : Z :=
  match s with Srip => value | _ => write_register_bits old register value end.

Lemma read_slot r g : read r g =
  match slot_of g with
  | Some s => Ok (extract_register_bits g (slot_get s r))
  | None => Err (UnsupportedRegister g)
  end.
Proof. by destruct g. Qed.

Lemma write_slot g v r : write g v r =
  match slot_of g with
  | Some s => (Ok tt, slot_set s (slot_write s (slot_get s r) g v) r)
  | None => (Err (UnsupportedRegister g), r)
  end.
Proof. by destruct g. Qed.

Lemma slot_get_set s v r : slot_get s (slot_set s v r) = v.
Proof. by destruct s. Qed.

Lemma slot_get_set_ne s s' v r : s <> s' -> slot_get s (slot_set s' v r) = slot_get s r.
Proof. by destruct s, s'. Qed.

(** A register has a slot exactly when it has a width. *)
Lemma slot_of_width g : match slot_of g with
  | Some _ => exists w, register_width g = Ok w /\ In w [8; 16; 32; 64]
  | None => register_width g = Err (UnsupportedRegister g)
  end.
Proof. destruct g; simpl; eauto 8. Qed.

(** The first bit of the slot the register names. *)
Definition register_low (g : Register) : Z := if is_high_byte g then 8 else 0.

(** ** Ranges *)

(** Every register holds a value of its width. *)
Record wf_registers (r : Registers) : Prop := {
  wfr_slots : forall s, u64 (slot_get s r);
  wfr_xmm_len : length (xmm r) = 16%nat;
  wfr_xmm : Forall (fits 128) (xmm r);
  wfr_fs : u64 (fs_base r);
  wfr_gs : u64 (gs_base r);
  wfr_flags : u64 (rflags r)
}.

Lemma default_registers_wf : wf_registers default_registers.
Proof.
  split; try done; [by intros []|]. by apply Forall_replicate.
Qed.

Lemma slot_set_wf s v r : wf_registers r -> u64 v -> wf_registers (slot_set s v r).
Proof.
  intros [Hs Hl Hx Hf Hg Hr] Hv. split.
  - intros s'. destruct (decide (s' = s)) as [->|Hne].
    + by rewrite slot_get_set.
    + by rewrite slot_get_set_ne.
  - by destruct s.
  - by destruct s.
  - by destruct s.
  - by destruct s.
  - by destruct s.
Qed.

(** A change of a field that is not a slot. *)
Lemma set_rflags_wf v r : wf_registers r -> u64 v -> wf_registers (set_rflags v r).
Proof. intros [Hs ? ? ? ? ?] ?. split; try done. intros s. specialize (Hs s). by destruct s. Qed.

Lemma set_fs_base_wf v r : wf_registers r -> u64 v -> wf_registers (set_fs_base v r).
Proof. intros [Hs ? ? ? ? ?] ?. split; try done. intros s. specialize (Hs s). by destruct s. Qed.

Lemma set_gs_base_wf v r : wf_registers r -> u64 v -> wf_registers (set_gs_base v r).
Proof. intros [Hs ? ? ? ? ?] ?. split; try done. intros s. specialize (Hs s). by destruct s. Qed.

Lemma set_xmm_wf v r : wf_registers r -> length v = 16%nat -> Forall (fits 128) v ->
  wf_registers (set_xmm v r).
Proof. intros [Hs ? ? ? ? ?] ??. split; try done. intros s. specialize (Hs s). by destruct s. Qed.

(** ** Masks *)

Lemma mask_ones w : 0 <= w <= 64 -> mask w = 2 ^ w - 1.
Proof.
  intros Hw. unfold mask. zbool.
  - by replace w with 64 by lia.
  - rewrite Z.shiftl_1_l. lia.
Qed.

Lemma land_mask w x : 0 <= w <= 64 -> Z.land x (mask w) = wrap w x.
Proof. intros. rewrite mask_ones by done. apply land_ones_wrap. lia. Qed.

Lemma mask_fits w : 0 <= w -> fits (Z.min w 64) (mask w).
Proof.
  intros Hw. destruct (Z.le_gt_cases w 64).
  - rewrite mask_ones by lia. rewrite Z.min_l by lia. unfold fits.
    pose proof (Z.pow_pos_nonneg 2 w ltac:(lia) Hw). lia.
  - unfold mask. zbool; [|lia]. rewrite Z.min_r by lia. by vm_compute.
Qed.

Lemma mask_u64 w : 0 <= w -> u64 (mask w).
Proof. intros Hw. eapply fits_le; [|by apply mask_fits]. lia. Qed.

(** ** The bits of a sub-register *)

Lemma extract_spec g w v : register_width g = Ok w ->
  extract_register_bits g v = wrap w (Z.shiftr v (register_low g)).
Proof.
  assert (forall x, Z.land x 0xff = wrap 8 x) as H8 by (intros; by apply (land_ones_wrap 8)).
  destruct g; simpl; intros [= <-]; cbn [extract_register_bits register_low];
    unfold extract_register_bits; simpl;
    rewrite ?Z.shiftr_0_r; try apply H8; by apply land_mask.
Qed.

(** The two's-complement constants of the partial writes, bit by bit. *)
Lemma clear_spec m i : 0 <= i -> Z.testbit (lnotw 64 m) i = (i <? 64) && negb (Z.testbit m i).
Proof. by apply lnotw_spec. Qed.

Lemma testbit_ones_field n lo i : 0 <= n -> 0 <= lo -> 0 <= i ->
  Z.testbit (Z.shiftl (2 ^ n - 1) lo) i = (lo <=? i) && (i <? lo + n).
Proof.
  intros. rewrite Z.shiftl_spec by done.
  replace (2 ^ n - 1) with (Z.ones n) by (rewrite Z.ones_equiv; lia).
  destruct (Z.leb_spec lo i).
  - rewrite Z.testbit_ones_nonneg by lia. simpl. by destruct (Z.ltb_spec (i - lo) n), (Z.ltb_spec i (lo + n)); lia.
  - by rewrite Z.testbit_neg_r by lia.
Qed.

(** The value of a slot after a partial write, bit by bit: the named field
    takes the low bits of the value, the rest is kept, except that a 32-bit
    write clears the upper half. *)
Definition written_bit (g : Register) (w old v i : Z) : bool :=
  let lo := register_low g in
  if (lo <=? i) && (i <? lo + w) then Z.testbit v (i - lo)
  else if w =? 32 then false else Z.testbit old i.

Definition put_field (lo n old v : Z) : Z :=
  Z.lor (Z.land old (lnotw 64 (Z.shiftl (2 ^ n - 1) lo)))
        (wrap 64 (Z.shiftl (Z.land v (2 ^ n - 1)) lo)).

Lemma put_field_spec lo n old v i : 0 <= lo -> 0 <= n -> lo + n <= 64 -> 0 <= i < 64 ->
  Z.testbit (put_field lo n old v) i =
    if (lo <=? i) && (i <? lo + n) then Z.testbit v (i - lo) else Z.testbit old i.
Proof.
  intros. unfold put_field.
  rewrite Z.lor_spec, Z.land_spec, clear_spec, wrap_spec, testbit_ones_field by lia.
  rewrite Z.shiftl_spec, land_ones_wrap, wrap_spec by lia.
  rewrite (proj2 (Z.ltb_lt i 64)) by lia. simpl.
  destruct (Z.leb_spec lo i), (Z.ltb_spec i (lo + n)); simpl.
  - by rewrite andb_false_r, (proj2 (Z.ltb_lt (i - lo) n)) by lia.
  - by rewrite andb_true_r, (proj2 (Z.ltb_ge (i - lo) n)), orb_false_r by lia.
  - rewrite (Z.testbit_neg_r v) by lia. by rewrite andb_true_r, andb_false_r, orb_false_r.
  - lia.
Qed.

Lemma write_register_bits_field g w old v : register_width g = Ok w -> u64 v ->
  write_register_bits old g v =
    if w <? 32 then put_field (register_low g) w old v else wrap w v.
Proof.
  assert (forall n, 0 <= n <= 16 -> wrap 64 (Z.shiftl (Z.land v (2 ^ n - 1)) 0)
                                    = Z.land v (2 ^ n - 1)) as Hw.
  { intros n Hn. rewrite Z.shiftl_0_r. apply wrap_small.
    apply land_fits_r; [lia|]. apply (fits_le n); [lia|]. unfold fits.
    pose proof (Z.pow_pos_nonneg 2 n). lia. }
  intros Hg Hv. unfold write_register_bits. rewrite Hg. simpl.
  destruct g; simpl in *; try discriminate Hg; injection Hg as <-; simpl; unfold put_field, register_low; simpl;
    try reflexivity;
    try (symmetry; apply wrap_small; exact Hv);
    try (apply (land_ones_wrap 32); lia);
    f_equal; symmetry; first [apply (Hw 8); lia|apply (Hw 16); lia].
Qed.

Lemma write_register_bits_spec g w old v i : register_width g = Ok w -> u64 v ->
  0 <= i < 64 -> Z.testbit (write_register_bits old g v) i = written_bit g w old v i.
Proof.
  intros Hg Hv Hi. rewrite (write_register_bits_field g w) by done. unfold written_bit.
  assert ((w = 8 \/ w = 16) \/ (w = 32 \/ w = 64) /\ register_low g = 0) as Hw
    by (destruct g; simpl in Hg; try discriminate Hg; injection Hg as <-; vm_compute; auto).
  assert (0 <= register_low g <= 8) by (unfold register_low; destruct is_high_byte; lia).
  destruct Hw as [Hw|[Hw ->]].
  - rewrite (proj2 (Z.ltb_lt w 32)), (proj2 (Z.eqb_neq w 32)) by lia.
    apply put_field_spec; lia.
  - rewrite (proj2 (Z.ltb_ge w 32)), wrap_spec by lia. rewrite Z.sub_0_r, Z.add_0_l.
    rewrite (proj2 (Z.leb_le 0 i)) by lia. simpl.
    destruct (Z.ltb_spec i w), (Z.eqb_spec w 32); simpl; done || lia.
Qed.

Lemma write_register_bits_fits g old v : u64 old -> u64 v ->
  u64 (write_register_bits old g v).
Proof.
  intros Ho Hv. unfold write_register_bits. repeat case_match; auto with fits.
Qed.

Lemma extract_fits g v : u64 v -> u64 (extract_register_bits g v).
Proof.
  intros Hv. unfold extract_register_bits.
  assert (u64 (Z.land (Z.shiftr v 8) 0xff)).
  { apply land_fits_l; [lia|]. by apply shiftr_fits. }
  destruct g; done || (apply land_fits_l; [lia|done]).
Qed.

(** What a write stores is what a read of the same name extracts. *)
Lemma extract_slot_write s g w old v : slot_of g = Some s -> register_width g = Ok w ->
  u64 v -> extract_register_bits g (slot_write s old g v) = wrap w v.
Proof.
  intros Hs Hg Hv. rewrite (extract_spec g w) by done.
  assert (0 <= w <= 64 /\ register_low g + w <= 64) as [Hw Hlo]
    by (destruct g; simpl in Hg; try discriminate Hg; injection Hg as <-; vm_compute; intuition congruence).
  assert (0 <= register_low g) by (unfold register_low; destruct is_high_byte; lia).
  destruct (decide (s = Srip)) as [->|Hne].
  - assert (register_low g = 0) as -> by by destruct g. by rewrite Z.shiftr_0_r.
  - apply Z.bits_inj'. intros i Hi. rewrite !wrap_spec, Z.shiftr_spec by lia.
    destruct (Z.ltb_spec i w); [|done]. cbn [andb].
    replace (slot_write s old g v) with (write_register_bits old g v) by (by destruct s).
    rewrite (write_register_bits_spec g w) by (done || lia). unfold written_bit.
    rewrite (proj2 (Z.leb_le (register_low g) _)), (proj2 (Z.ltb_lt (i + _) _)) by lia.
    simpl. f_equal. lia.
Qed.

(** ** Reads and writes keep the ranges *)

Lemma read_range r g v : wf_registers r -> read r g = Ok v -> u64 v.
Proof.
  intros Hr. rewrite read_slot. destruct (slot_of g) as [s|]; [|done].
  intros [= <-]. apply extract_fits, Hr.
Qed.

Lemma slot_write_fits s old g v : u64 old -> u64 v -> u64 (slot_write s old g v).
Proof. intros. destruct s; simpl; auto using write_register_bits_fits. Qed.

Lemma write_spec g v : u64 v -> preserves wf_registers (write g v).
Proof.
  intros Hv r Hr. split; [|done]. rewrite write_slot. destruct (slot_of g) as [s|]; simpl; [|done].
  apply slot_set_wf; [done|]. apply slot_write_fits; [apply Hr|done].
Qed.

(** ** Flags *)

Definition is_flag (f : Z) : Prop := exists k, 0 <= k < 64 /\ k <> 1 /\ f = 2 ^ k.

Lemma flag_bit r k : 0 <= k -> flag r (2 ^ k) = Z.testbit (rflags r) k.
Proof.
  intros Hk. unfold flag.
  assert (Z.land (rflags r) (2 ^ k) = if Z.testbit (rflags r) k then 2 ^ k else 0) as ->.
  { apply Z.bits_inj'. intros i Hi. rewrite Z.land_spec, Z.pow2_bits_eqb by done.
    destruct (Z.eqb_spec k i) as [->|Hne].
    - destruct (Z.testbit _ i); simpl; by rewrite ?Z.pow2_bits_true, ?Z.bits_0.
    - rewrite andb_false_r. destruct (Z.testbit _ k); [|by rewrite Z.bits_0].
      symmetry. by apply Z.pow2_bits_false. }
  destruct (Z.testbit _ k); [|done].
  pose proof (Z.pow_pos_nonneg 2 k). destruct (Z.eqb_spec (2 ^ k) 0); lia.
Qed.

(** The flags register after [set_flag], bit by bit. *)
Lemma set_flag_bits r k v i : 0 <= k -> 0 <= i < 64 ->
  Z.testbit (rflags (set_flag (2 ^ k) v r)) i =
    if i =? 1 then true else if i =? k then v else Z.testbit (rflags r) i.
Proof.
  intros Hk Hi. unfold set_flag. cbv zeta.
  assert (Z.testbit 2 i = (i =? 1)) as H2.
  { change 2 with (2 ^ 1) at 1. rewrite Z.pow2_bits_eqb by lia. apply Z.eqb_sym. }
  destruct v; cbn [rflags set_rflags]; rewrite !Z.lor_spec, H2.
  - rewrite Z.pow2_bits_eqb by done. rewrite (Z.eqb_sym k i).
    by destruct (i =? 1), (i =? k), (Z.testbit (rflags r) i).
  - rewrite Z.land_spec, lnotw_spec by lia. rewrite Z.pow2_bits_eqb by done.
    rewrite (Z.eqb_sym k i), (proj2 (Z.ltb_lt i 64)) by lia.
    by destruct (i =? 1), (i =? k), (Z.testbit (rflags r) i).
Qed.

Lemma set_flag_wf f v r : u64 f -> wf_registers r -> wf_registers (set_flag f v r).
Proof.
  intros Hf Hr. pose proof (wfr_flags _ Hr). assert (u64 2) by done.
  unfold set_flag. destruct v; cbv zeta; cbn [rflags set_rflags];
    (apply set_rflags_wf; [apply set_rflags_wf|]); auto with fits.
Qed.

Lemma flag_set_flag r f v : is_flag f -> flag (set_flag f v r) f = v.
Proof.
  intros (k&Hk&Hk1&->). rewrite flag_bit, set_flag_bits by lia.
  by rewrite (proj2 (Z.eqb_neq k 1)), Z.eqb_refl by lia.
Qed.

Lemma flag_set_flag_ne r f g v : is_flag f -> is_flag g -> f <> g ->
  flag (set_flag f v r) g = flag r g.
Proof.
  intros (k&Hk&Hk1&->) (j&Hj&Hj1&->) Hne. rewrite !flag_bit, set_flag_bits by lia.
  rewrite (proj2 (Z.eqb_neq j 1)), (proj2 (Z.eqb_neq j k)); [done| |lia].
  intros ->. done.
Qed.

Lemma set_flag_slots r f v s : slot_get s (set_flag f v r) = slot_get s r.
Proof. by destruct s, v. Qed.


(** A write through a register's name, with everything it leaves alone. *)
Lemma write_cases r g w v : register_width g = Ok w -> u64 v ->
  exists r', write g v r = (Ok tt, r') /\ read r' g = Ok (v mod 2 ^ w) /\
    (forall h, slot_of h <> slot_of g -> read r' h = read r h) /\
    rflags r' = rflags r /\ xmm r' = xmm r /\ fs_base r' = fs_base r /\ gs_base r' = gs_base r.
Proof.
  intros Hg Hv. pose proof (slot_of_width g) as Hs. rewrite write_slot. setoid_rewrite read_slot.
  destruct (slot_of g) as [s|] eqn:Hsg; [|congruence]. clear Hs.
  eexists. split; [reflexivity|]. split; [|split].
  - rewrite slot_get_set. f_equal. by apply (extract_slot_write s g w).
  - intros h Hne. destruct (slot_of h) as [s'|]; [|done].
    by rewrite slot_get_set_ne by congruence.
  - by destruct s.
Qed.

(** ** Properties *)

(** A value written through a register's name reads back through that name
    cut to the register's width; every register of another slot, the flags,
    the segment bases and the vector registers keep their values. *)
Theorem register_write_read (r : Registers) (g : Register) (w v : Z)
    (Hg : register_width g = Ok w) (Hv : u64 v) :
  exists r', write g v r = (Ok tt, r') /\ read r' g = Ok (v mod 2 ^ w) /\
    (forall h, slot_of h <> slot_of g -> read r' h = read r h) /\
    rflags r' = rflags r /\ xmm r' = xmm r /\ fs_base r' = fs_base r /\ gs_base r' = gs_base r.
Proof.
  by apply write_cases.
Qed.

Lemma register_write_read_witness :
  exists r', write AH 0x1234 default_registers = (Ok tt, r') /\ read r' AH = Ok 0x34.
Proof.
  destruct (register_write_read default_registers AH 8 0x1234) as (r'&?&?&_);
    [reflexivity|split; lia|].
  by exists r'.
Defined.

(** C35: the whole slot after a write, bit by bit, for every register name the
    code knows.  In a general register the named bits take the value's low bits,
    an 8- or 16-bit write keeps the other bits of the slot and a 32-bit write
    clears the upper half.  The instruction pointer is stored whole: a write of
    RIP, and of its 32-bit name EIP too, stores all 64 bits of the value. *)
Theorem register_write_bits (r : Registers) (g : Register) (s : slot) (w v i : Z)
    (Hs : slot_of g = Some s) (Hg : register_width g = Ok w) (Hv : u64 v)
    (Hi : 0 <= i < 64) :
  Z.testbit (slot_get s (write g v r).2) i =
    let lo := if is_high_byte g then 8 else 0 in
    if decide (s = Srip) then Z.testbit v i
    else if (lo <=? i) && (i <? lo + w) then Z.testbit v (i - lo)
    else if w =? 32 then false else Z.testbit (slot_get s r) i.
Proof.
  rewrite write_slot, Hs. cbn [snd]. rewrite slot_get_set. cbv zeta.
  destruct (decide (s = Srip)) as [->|Hip]; [done|].
  transitivity (Z.testbit (write_register_bits (slot_get s r) g v) i); [by destruct s|].
  by apply write_register_bits_spec.
Qed.

Lemma register_write_bits_witness :
  Z.testbit (slot_get Srax (write EAX 1 (set_rax u64_max default_registers)).2) 40 = false /\
  Z.testbit (slot_get Srip (write EIP (2 ^ 40) default_registers).2) 40 = true.
Proof.
  split.
  - rewrite (register_write_bits _ EAX Srax 32 1 40);
      [reflexivity|reflexivity|reflexivity|split; lia|lia].
  - rewrite (register_write_bits _ EIP Srip 32 (2 ^ 40) 40);
      [reflexivity|reflexivity|reflexivity|split; lia|lia].
Defined.

(** [set_flag] gives the flag its value, keeps every other flag and every
    register, and leaves the always-one bit of the flags register set. *)
Theorem set_flag_effect (r : Registers) (k : Z) (v : bool) (Hk : 0 <= k < 64) (Hk1 : k <> 1) :
  flag (set_flag (2 ^ k) v r) (2 ^ k) = v /\
  (forall j, 0 <= j < 64 -> j <> 1 -> j <> k ->
    flag (set_flag (2 ^ k) v r) (2 ^ j) = flag r (2 ^ j)) /\
  flag (set_flag (2 ^ k) v r) 0x2 = true /\
  (forall g, read (set_flag (2 ^ k) v r) g = read r g).
Proof.
  split; [|split; [|split]].
  - apply flag_set_flag. by exists k.
  - intros j Hj Hj1 Hne. rewrite !flag_bit, set_flag_bits by lia. zbool; done || lia.
  - change 0x2 with (2 ^ 1). by rewrite flag_bit, set_flag_bits by lia.
  - intros g. rewrite !read_slot. destruct (slot_of g); [|done]. by rewrite set_flag_slots.
Qed.

Lemma set_flag_effect_witness :
  flag (set_flag FLAG_ZF true default_registers) FLAG_ZF = true /\
  flag (set_flag FLAG_ZF true default_registers) FLAG_CF = false.
Proof.
  destruct (set_flag_effect default_registers 6 true) as (H1&H2&_); [lia|lia|].
  split; [exact H1|]. refine (H2 0 _ _ _); lia.
Defined.
