(* ===== verification/Ir.v ===== *)
(** * Basic blocks and the block cache

    Model of [crates/ruxeon-ir/src/lib.rs]: the metadata of translated blocks
    and the cache that maps a start address to its block, with hit, miss and
    invalidation counters. *)

From S2P Require Import Prelude.

Open Scope Z_scope.

Inductive IrInstructionKind : Type :=
| Compute
| Branch
| Call
| Return
| KSyscall.

#[export] Instance IrInstructionKind_eq_dec : EqDecision IrInstructionKind.
Proof. solve_decision. Defined.

Record IrInstruction : Type := mkIrInstruction {
  ir_ip : Z;
  ir_len : Z;
  ir_text : list Z;
  ir_kind : IrInstructionKind
}.

(** [IrInstruction::end_ip], with the overflow of the plain addition. *)
Definition ir_end_ip {E} (i : IrInstruction) : res E Z := add64 (ir_ip i) (ir_len i).

Inductive BlockTerminator : Type :=
| TFallThrough
| TBranch
| TCall
| TReturn
| TSyscall.

Record BasicBlock : Type := mkBlock {
  id : Z;
  start_ip : Z;
  end_ip : Z;
  instructions : list IrInstruction;
  terminator : BlockTerminator
}.

Definition block_new {E} (start_ip : Z) (instructions : list IrInstruction)
    (terminator : BlockTerminator) : res E BasicBlock :=
  end_ip ← match last instructions with
           | Some i => ir_end_ip i
           | None => Ok start_ip
           end;
  Ok (mkBlock start_ip start_ip end_ip instructions terminator).

Record BlockCacheStats : Type := mkStats {
  s_blocks : Z;
  s_hits : Z;
  s_misses : Z;
  s_invalidations : Z
}.

Record BlockCache : Type := mkCache {
  blocks : gmap Z BasicBlock;
  hits : Z;
  misses : Z;
  invalidations : Z
}.

Definition empty_cache : BlockCache := mkCache ∅ 0 0 0.

(** [HashMap::len]. *)
Definition map_len {A} (m : gmap Z A) : Z := Z.of_nat (size m).

Section Operations.
Context {E : Type}.
Abbreviation CacheM A := (ST BlockCache E A).

Definition get (id : Z) : CacheM (option BasicBlock) := fun c =>
  match blocks c !! id with
  | Some block =>
      match add64 (hits c) 1 with
      | Ok h => (Ok (Some block), mkCache (blocks c) h (misses c) (invalidations c))
      | Err e => (Err e, c)
      | Panic => (Panic, c)
      end
  | None =>
      match add64 (misses c) 1 with
      | Ok m => (Ok None, mkCache (blocks c) (hits c) m (invalidations c))
      | Err e => (Err e, c)
      | Panic => (Panic, c)
      end
  end.

Definition insert (block : BasicBlock) (c : BlockCache) : BlockCache :=
  mkCache (<[id block := block]> (blocks c)) (hits c) (misses c) (invalidations c).

Definition get_without_stats (c : BlockCache) (id : Z) : option BasicBlock :=
  blocks c !! id.

(** The condition of the [retain] in [invalidate_range]. *)
Definition outside (addr end_ : Z) (block : BasicBlock) : bool :=
  (end_ip block <=? addr) || (end_ <=? start_ip block).

Definition invalidate_range (addr size : Z) : CacheM Z := fun c =>
  let end_ := saturating_add addr size in
  let before := map_len (blocks c) in
  let kept := filter (fun kv => outside addr end_ kv.2 = true) (blocks c) in
  match sub64 before (map_len kept) with
  | Ok removed =>
      let c' := mkCache kept (hits c) (misses c) (invalidations c) in
      if 0 <? removed then
        match add64 (invalidations c) removed with
        | Ok n => (Ok removed, mkCache kept (hits c) (misses c) n)
        | Err e => (Err e, c')
        | Panic => (Panic, c')
        end
      else (Ok removed, c')
  | Err e => (Err e, mkCache kept (hits c) (misses c) (invalidations c))
  | Panic => (Panic, mkCache kept (hits c) (misses c) (invalidations c))
  end.

Definition clear : CacheM unit := fun c =>
  let count := map_len (blocks c) in
  if 0 <? count then
    match add64 (invalidations c) count with
    | Ok n => (Ok tt, mkCache ∅ (hits c) (misses c) n)
    | Err e => (Err e, c)
    | Panic => (Panic, c)
    end
  else (Ok tt, mkCache ∅ (hits c) (misses c) (invalidations c)).

Definition cache_len (c : BlockCache) : Z := map_len (blocks c).

Definition is_empty (c : BlockCache) : bool := cache_len c =? 0.

Definition stats (c : BlockCache) : BlockCacheStats :=
  mkStats (map_len (blocks c)) (hits c) (misses c) (invalidations c).
End Operations.

(** ** The invariant: a block is filed under its own address *)

Record wf_cache (c : BlockCache) : Prop := {
  wfc_ids : forall k b, blocks c !! k = Some b -> id b = k;
  wfc_hits : 0 <= hits c;
  wfc_misses : 0 <= misses c;
  wfc_invalidations : 0 <= invalidations c
}.

Lemma empty_cache_wf : wf_cache empty_cache.
Proof. by split. Qed.

Lemma map_len_nonneg {A} (m : gmap Z A) : 0 <= map_len m.
Proof. unfold map_len. lia. Qed.

(** The blocks that a filter keeps and the ones it drops make up the map. *)
Lemma map_len_filter {A} (P : Z * A -> Prop) `{!forall x, Decision (P x)} (m : gmap Z A) :
  map_len (filter P m) + map_len (filter (fun x => ¬ P x) m) = map_len m.
Proof.
  unfold map_len. rewrite <- Nat2Z.inj_add. f_equal.
  rewrite <- map_size_disj_union by apply map_disjoint_filter_complement.
  by rewrite map_filter_union_complement.
Qed.

Lemma map_len_filter_le {A} (P : Z * A -> Prop) `{!forall x, Decision (P x)} (m : gmap Z A) :
  map_len (filter P m) <= map_len m.
Proof. pose proof (map_len_filter P m). pose proof (map_len_nonneg (filter (fun x => ¬ P x) m)). lia. Qed.

Section Lemmas.
Context {E : Type}.
Implicit Types c : BlockCache.

Lemma invalidate_blocks addr n c :
  blocks (invalidate_range (E:=E) addr n c).2 =
    filter (fun kv => outside addr (saturating_add addr n) kv.2 = true) (blocks c).
Proof. unfold invalidate_range. repeat case_match; by simplify_eq/=. Qed.

(** The subtraction of the two lengths cannot overflow. *)
Lemma invalidate_cases addr n c : 
  let kept := filter (fun kv => outside addr (saturating_add addr n) kv.2 = true) (blocks c) in
  let removed := map_len (blocks c) - map_len kept in
  0 <= removed /\
  (invalidations c + removed < 2 ^ 64 ->
   invalidate_range (E:=E) addr n c =
     (Ok removed, mkCache kept (hits c) (misses c) (invalidations c + removed))).
Proof.
  intros kept removed.
  assert (map_len kept <= map_len (blocks c)) as Hle by apply map_len_filter_le.
  split; [unfold removed; lia|]. intros Ho. unfold invalidate_range. fold kept.
  replace (sub64 (map_len (blocks c)) (map_len kept)) with (@Ok E Z removed)
    by (symmetry; apply sub64_Ok; lia).
  destruct (Z.ltb_spec 0 removed).
  - replace (add64 (invalidations c) removed) with (@Ok E Z (invalidations c + removed))
      by (symmetry; apply add64_Ok; lia). done.
  - do 2 f_equal. lia.
Qed.

Lemma get_wf k : preserves wf_cache (get (E:=E) k).
Proof.
  intros c [Hi Hh Hm Hv]. split; [|done]. unfold get.
  destruct (blocks c !! k); (destruct (add64 _ 1) as [h| |] eqn:Ha; [apply add64_Ok in Ha as [-> _]|..]);
    split; simpl; auto; lia.
Qed.

Lemma insert_wf b c : wf_cache c -> wf_cache (insert b c).
Proof.
  intros [Hi ???]. split; simpl; try done. intros k b'.
  rewrite lookup_insert_Some. intros [[<- <-]|[_ ?]]; auto.
Qed.

Lemma invalidate_wf addr n : preserves wf_cache (invalidate_range (E:=E) addr n).
Proof.
  intros c [Hi Hh Hm Hv]. split; [|done].
  assert (forall k b, blocks (invalidate_range (E:=E) addr n c).2 !! k = Some b -> id b = k).
  { intros k b. rewrite invalidate_blocks. rewrite map_lookup_filter_Some. intros [? _]; auto. }
  split; [done|..]; unfold invalidate_range;
    (destruct (sub64 _ _) as [m| |]; [destruct (Z.ltb_spec 0 m);
      [destruct (add64 _ m) as [k| |] eqn:Ha; [apply add64_Ok in Ha as [-> _]|..]|]|..]);
    simpl; done || lia.
Qed.

Lemma clear_blocks c : is_ok (clear (E:=E) c).1 = true -> blocks (clear (E:=E) c).2 = ∅.
Proof. unfold clear. by repeat case_match. Qed.

Lemma clear_wf : preserves wf_cache (clear (E:=E)).
Proof.
  intros c [Hi Hh Hm Hv]. split; [|done]. unfold clear. destruct (Z.ltb_spec 0 (map_len (blocks c))).
  - destruct (add64 _ _) as [k| |] eqn:Ha; [apply add64_Ok in Ha as [-> _]|..]; split; simpl; done || lia.
  - by split.
Qed.
End Lemmas.

(** ** Properties *)

Lemma outside_disjoint addr n b : 0 < n -> addr + n < 2 ^ 64 -> start_ip b < end_ip b ->
  outside addr (saturating_add addr n) b = true <->
  ~ exists a, addr <= a < addr + n /\ start_ip b <= a < end_ip b.
Proof.
  intros Hn Ho Hb. unfold outside, saturating_add, u64_max. rewrite Z.min_l by lia.
  rewrite orb_true_iff, !Z.leb_le. split.
  - intros Hd (a&?&?). lia.
  - intros Hno. destruct (Z.le_gt_cases (end_ip b) addr); [by left|]. right.
    destruct (Z.le_gt_cases (addr + n) (start_ip b)); [done|]. exfalso. apply Hno.
    exists (Z.max addr (start_ip b)). lia.
Qed.

(** Invalidating a non-empty range removes exactly the cached blocks that
    contain an address of the range, returns and counts how many these are,
    and changes neither the other blocks nor the hit and miss counters. *)
Theorem invalidate_range_exact (c : BlockCache) (addr n : Z) (Hn : 0 < n)
    (Ho : addr + n < 2 ^ 64) (Hc : 0 <= invalidations c)
    (Hmax : invalidations c + map_len (blocks c) < 2 ^ 64)
    (Hb : forall k b, blocks c !! k = Some b -> start_ip b < end_ip b) :
  exists c', invalidate_range (E:=unit) addr n c = (Ok (cache_len c - cache_len c'), c') /\
    (forall k b, blocks c' !! k = Some b <-> blocks c !! k = Some b /\
       ~ exists a, addr <= a < addr + n /\ start_ip b <= a < end_ip b) /\
    stats c' = mkStats (cache_len c') (hits c) (misses c)
      (invalidations c + (cache_len c - cache_len c')).
Proof.
  destruct (invalidate_cases (E:=unit) addr n c) as [Hr Hi].
  set (kept := filter _ _) in *. pose proof (map_len_nonneg kept).
  eexists (mkCache kept _ _ _). split; [|split]; [apply Hi; lia| |done].
  intros k b. simpl. unfold kept. rewrite map_lookup_filter_Some. simpl.
  split; intros [Hk Hout]; (split; [done|]); (apply outside_disjoint in Hout || apply outside_disjoint); eauto.
Qed.

Lemma invalidate_range_exact_witness :
  let b1 := mkBlock 100 100 110 [] TReturn in
  let b2 := mkBlock 200 200 201 [] TReturn in
  let c := insert b2 (insert b1 empty_cache) in
  exists c', invalidate_range (E:=unit) 105 95 c = (Ok (2 - cache_len c'), c') /\
    blocks c' !! 200 = Some b2.
Proof.
  intros b1 b2 c.
  destruct (invalidate_range_exact c 105 95) as (c'&H1&H2&_);
    [lia|lia|vm_compute; discriminate|vm_compute; reflexivity| |].
  - intros k b. unfold c, b1, b2. simpl. rewrite !lookup_insert_Some, lookup_empty.
    intros [[_ <-]|[_ [[_ <-]|[_ [=]]]]]; reflexivity.
  - exists c'. split; [exact H1|]. apply H2. split; [reflexivity|]. simpl.
    intros (a&?&?). lia.
Defined.
