(* ===== verification/Iced.v ===== *)
(** * The interface of the instruction decoder and of the host clock

    The interpreter decodes and prints instructions with the crate
    [iced_x86] and reads the host's clock; neither is part of the repository.
    The class [Iced] names the functions of the decoder the interpreter calls,
    [IcedLaws] what it relies on: the ranges of the accessors' Rust types and
    how the decoder relates an instruction to its bytes. *)

From S2P Require Import Prelude Registers.

Open Scope Z_scope.

(** The mnemonics the interpreter names; [MOther] is every other variant of
    [iced_x86::Mnemonic], by its number. *)
Inductive Mnemonic : Type :=
| MAdc | MAdd | MAnd | MAndpd | MAndps | MBsf | MBsr | MBswap | MBt | MBtc | MBtr
| MBts | MCall | MCbw | MCdq | MCdqe | MCld | MCmova | MCmovae | MCmovb | MCmovbe
| MCmove | MCmovg | MCmovge | MCmovl | MCmovle | MCmovne | MCmovno | MCmovnp | MCmovns
| MCmovo | MCmovp | MCmovs | MCmp | MCmpsb | MCmpsd | MCmpsq | MCmpsw | MCmpxchg
| MCpuid | MCqo | MCwd | MCwde | MDec | MDiv | MIdiv | MImul | MInc | MJa | MJae | MJb
| MJbe | MJe | MJg | MJge | MJl | MJle | MJmp | MJne | MJno | MJnp | MJns | MJo | MJp
| MJs | MLea | MLeave | MMov | MMovaps | MMovd | MMovdqa | MMovdqu | MMovhpd | MMovlpd
| MMovq | MMovsb | MMovsd | MMovsq | MMovsw | MMovsx | MMovsxd | MMovups | MMovzx
| MMul | MNeg | MNop | MNot | MOr | MOrpd | MOrps | MPaddb | MPand | MPcmpeqb
| MPcmpeqd | MPcmpeqq | MPcmpeqw | MPcmpgtb | MPcmpgtd | MPcmpgtq | MPcmpgtw | MPmaxub
| MPminub | MPmovmskb | MPop | MPor | MPrefetchnta | MPrefetcht0 | MPrefetcht1
| MPrefetcht2 | MPrefetchw | MPshufd | MPslld | MPslldq | MPsllq | MPsrld | MPsrldq
| MPsrlq | MPsubb | MPunpckhbw | MPunpckhdq | MPunpckhqdq | MPunpckhwd | MPunpcklbw
| MPunpckldq | MPunpcklqdq | MPunpcklwd | MPush | MPxor | MRdtsc | MRet | MRol | MRor
| MSal | MSar | MSbb | MScasb | MScasd | MScasq | MScasw | MSeta | MSetae | MSetb
| MSetbe | MSete | MSetg | MSetge | MSetl | MSetle | MSetne | MSetno | MSetnp | MSetns
| MSeto | MSetp | MSets | MShl | MShld | MShr | MShrd | MShufps | MStd | MStosb
| MStosd | MStosq | MStosw | MSub | MSyscall | MTest | MXadd | MXchg | MXor | MXorpd
| MXorps
| MOther (number : Z).

(** The encodings the interpreter distinguishes. *)
Inductive Code : Type :=
| INVALID
| Movsd_m32_m32
| Movsd_xmm_xmmm64
| Movsd_xmmm64_xmm
| Cmpsd_m32_m32
| COther (number : Z).

#[export] Instance Code_eq_dec : EqDecision Code.
Proof. solve_decision. Defined.

Inductive OpKind : Type :=
| OKRegister
| OKNearBranch16
| OKNearBranch32
| OKNearBranch64
| OKImmediate8
| OKImmediate16
| OKImmediate32
| OKImmediate64
| OKImmediate8to16
| OKImmediate8to32
| OKImmediate8to64
| OKImmediate32to64
| OKMemory
| OKOther (number : Z).

Class Iced : Type := {
  Instruction : Type;
  i_ip : Instruction -> Z;
  i_len : Instruction -> Z;
  i_next_ip : Instruction -> Z;
  i_code : Instruction -> Code;
  i_mnemonic : Instruction -> Mnemonic;
  i_op_count : Instruction -> Z;
  i_op_kind : Instruction -> Z -> OpKind;
  i_op_register : Instruction -> Z -> Register;
  i_immediate8 : Instruction -> Z;
  i_immediate16 : Instruction -> Z;
  i_immediate32 : Instruction -> Z;
  i_immediate64 : Instruction -> Z;
  i_near_branch16 : Instruction -> Z;
  i_near_branch32 : Instruction -> Z;
  i_near_branch64 : Instruction -> Z;
  i_memory_size : Instruction -> Z;             (* memory_size().size() *)
  i_memory_segment : Instruction -> Register;
  i_memory_base : Instruction -> Register;
  i_memory_index : Instruction -> Register;
  i_memory_index_scale : Instruction -> Z;
  i_memory_displacement64 : Instruction -> Z;
  i_is_ip_rel_memory_operand : Instruction -> bool;
  i_ip_rel_memory_address : Instruction -> Z;
  i_has_rep_prefix : Instruction -> bool;
  i_has_repe_prefix : Instruction -> bool;
  i_has_repne_prefix : Instruction -> bool;
  (** [Decoder::with_ip(64, bytes, ip, NONE).decode()] *)
  i_decode : list Z -> Z -> Instruction;
  (** [NasmFormatter::format] *)
  i_format : Instruction -> list Z;
  (** [format!("{mnemonic:?}")] *)
  i_mnemonic_debug : Mnemonic -> list Z;
  (** the time since the epoch in nanoseconds at the [n]-th reading of
      [SystemTime::now], [None] before the epoch *)
  now_nanos : nat -> option Z
}.

Class IcedLaws `{Iced} : Prop := {
  ip_range : forall i, u64 (i_ip i);
  len_range : forall i, 0 <= i_len i <= 15;
  next_ip_def : forall i, i_next_ip i = wrap 64 (i_ip i + i_len i);
  immediate8_range : forall i, u8 (i_immediate8 i);
  immediate16_range : forall i, u16 (i_immediate16 i);
  immediate32_range : forall i, u32 (i_immediate32 i);
  immediate64_range : forall i, u64 (i_immediate64 i);
  near_branch16_range : forall i, u16 (i_near_branch16 i);
  near_branch32_range : forall i, u32 (i_near_branch32 i);
  near_branch64_range : forall i, u64 (i_near_branch64 i);
  memory_size_range : forall i, 0 <= i_memory_size i;
  memory_displacement_range : forall i, u64 (i_memory_displacement64 i);
  ip_rel_range : forall i, u64 (i_ip_rel_memory_address i);
  (** the formatter prints ASCII *)
  format_ascii : forall i, Forall (fun c => 0 <= c < 128) (i_format i);
  now_range : forall n t, now_nanos n = Some t -> 0 <= t < 2 ^ 64 * 1000000000;
  (** an instruction is decoded at the address given *)
  decode_ip : forall bs ip, u64 ip -> i_ip (i_decode bs ip) = ip;
  (** a decoded instruction lies inside the buffer and is not empty *)
  decode_len : forall bs ip, i_code (i_decode bs ip) <> INVALID ->
    0 < i_len (i_decode bs ip) <= len bs;
  (** decoding a valid instruction depends on its own bytes only *)
  decode_prefix : forall bs bs' ip, i_code (i_decode bs ip) <> INVALID ->
    take (Z.to_nat (i_len (i_decode bs ip))) bs = take (Z.to_nat (i_len (i_decode bs ip))) bs' ->
    i_decode bs' ip = i_decode bs ip
}.
