(* ===== verification/ExampleDecoder.v ===== *)
(** * A decoder for a handful of encodings

    A concrete instance of the decoder interface, small enough to evaluate: it
    shows that the interface and its laws can be met, and the examples of the
    development run on it.  It is not a model of [iced_x86]. *)

From S2P Require Import Prelude Registers Iced.

Open Scope Z_scope.

(** An instruction as explicit data. *)
Record XInstruction : Type := mkX {
  x_ip : Z;
  x_len : Z;
  x_code : Code;
  x_mnemonic : Mnemonic;
  x_ops : list (OpKind * Register);
  x_imm : Z;
  x_size : Z;
  x_base : Register;
  x_disp : Z;
  x_rep : bool
}.

Definition x_op (i : XInstruction) (k : Z) : OpKind * Register :=
  default (OKOther 0, NoRegister) (x_ops i !! Z.to_nat k).

Definition plain (ip len : Z) (m : Mnemonic) (ops : list (OpKind * Register)) (imm : Z)
    : XInstruction := mkX ip len (COther 1) m ops imm 0 NoRegister 0 false.

Definition invalid (ip : Z) : XInstruction :=
  mkX ip 1 INVALID (MOther 0) [] 0 0 NoRegister 0 false.

(** The destination of a [mov] of a 32-bit number. *)
Definition mov_register (b : Z) : option Register :=
  if b =? 0xb8 then Some EAX else if b =? 0xba then Some EDX
  else if b =? 0xbe then Some ESI else if b =? 0xbf then Some EDI else None.

(** [nop], [ret], [syscall], [push rax], [pop rbx], [cmp rax, rbx],
    [add rax, rbx], [je rel8], [jmp rel8], and [mov] of a 32-bit number to [eax],
    [edx], [esi] or [edi]. *)
Definition x_decode (bs : list Z) (ip : Z) : XInstruction :=
  match bs with
  | [] => invalid ip
  | b :: r =>
      if b =? 0x90 then plain ip 1 MNop [] 0
      else if b =? 0xc3 then plain ip 1 MRet [] 0
      else if b =? 0x50 then plain ip 1 MPush [(OKRegister, RAX)] 0
      else if b =? 0x5b then plain ip 1 MPop [(OKRegister, RBX)] 0
      else match r with
      | [] => invalid ip
      | d :: r =>
          let target := ip + 2 + signed 8 d in
          if (b =? 0x0f) && (d =? 0x05) then plain ip 2 MSyscall [] 0
          else if b =? 0x74 then plain ip 2 MJe [(OKNearBranch64, NoRegister)] target
          else if b =? 0xeb then plain ip 2 MJmp [(OKNearBranch64, NoRegister)] target
          else match r with
          | [] => invalid ip
          | e :: r =>
              let ops := [(OKRegister, RAX); (OKRegister, RBX)] in
              if (b =? 0x48) && (d =? 0x39) && (e =? 0xd8) then plain ip 3 MCmp ops 0
              else if (b =? 0x48) && (d =? 0x01) && (e =? 0xd8) then plain ip 3 MAdd ops 0
              else match mov_register b, r with
              | Some reg, f :: g :: _ =>
                  plain ip 5 MMov [(OKRegister, reg); (OKImmediate32, NoRegister)] (of_le [d; e; f; g])
              | _, _ => invalid ip
              end
          end
      end
  end.

#[export] Instance example_iced : Iced := {|
  Instruction := XInstruction;
  i_ip i := wrap 64 (x_ip i);
  i_len i := Z.max 0 (Z.min 15 (x_len i));
  i_next_ip i := wrap 64 (wrap 64 (x_ip i) + Z.max 0 (Z.min 15 (x_len i)));
  i_code := x_code;
  i_mnemonic := x_mnemonic;
  i_op_count i := len (x_ops i);
  i_op_kind i k := (x_op i k).1;
  i_op_register i k := (x_op i k).2;
  i_immediate8 i := wrap 8 (x_imm i);
  i_immediate16 i := wrap 16 (x_imm i);
  i_immediate32 i := wrap 32 (x_imm i);
  i_immediate64 i := wrap 64 (x_imm i);
  i_near_branch16 i := wrap 16 (x_imm i);
  i_near_branch32 i := wrap 32 (x_imm i);
  i_near_branch64 i := wrap 64 (x_imm i);
  i_memory_size i := Z.max 0 (x_size i);
  i_memory_segment _ := NoRegister;
  i_memory_base := x_base;
  i_memory_index _ := NoRegister;
  i_memory_index_scale _ := 1;
  i_memory_displacement64 i := wrap 64 (x_disp i);
  i_is_ip_rel_memory_operand _ := false;
  i_ip_rel_memory_address _ := 0;
  i_has_rep_prefix := x_rep;
  i_has_repe_prefix := x_rep;
  i_has_repne_prefix _ := false;
  i_decode := x_decode;
  i_format _ := [];
  i_mnemonic_debug _ := [];
  now_nanos n := Some (Z.of_nat n mod 1000)
|}.

Lemma x_decode_ip bs ip : x_ip (x_decode bs ip) = ip.
Proof. unfold x_decode. by repeat case_match. Qed.

Lemma x_decode_len bs ip : x_code (x_decode bs ip) <> INVALID ->
  0 < x_len (x_decode bs ip) <= 5 /\ x_len (x_decode bs ip) <= len bs.
Proof. unfold len, x_decode. repeat case_match; simplify_eq/=; done || lia. Qed.

Lemma x_decode_prefix bs bs' ip : x_code (x_decode bs ip) <> INVALID ->
  take (Z.to_nat (x_len (x_decode bs ip))) bs = take (Z.to_nat (x_len (x_decode bs ip))) bs' ->
  x_decode bs' ip = x_decode bs ip.
Proof.
  remember (x_decode bs ip) as X eqn:HX. unfold x_decode in HX.
  repeat (case_match; subst; try done); simpl; intros _ Ht;
    destruct bs' as [|b' [|d' [|e' [|f' [|g' r']]]]]; simpl in Ht; try discriminate Ht;
    injection Ht; intros; subst; cbn [x_decode];
    repeat match goal with
      | H : ?b = _ :> bool |- _ => rewrite H; clear H
      | H : mov_register _ = _ |- _ => rewrite H; clear H
      end; done.
Qed.

#[export] Instance example_laws : IcedLaws.
Proof.
  split; simpl; try (intros; by apply wrap_fits); try (intros; lia); try done.
  - intros n t [= <-]. pose proof (Z.mod_pos_bound (Z.of_nat n) 1000). lia.
  - intros bs ip Hip. rewrite x_decode_ip. by apply wrap_small.
  - intros bs ip Hc. destruct (x_decode_len bs ip Hc). lia.
  - intros bs bs' ip Hc. destruct (x_decode_len bs ip Hc).
    rewrite Z.min_r, Z.max_r by lia. by apply x_decode_prefix.
Qed.
