(* ===== verification/Cpu.v ===== *)
(** * The state of the interpreter, its operands and its flags

    Model of the parts of [crates/ruxeon-cpu/src/interpreter.rs] that every
    instruction uses: the errors, the state, the execution cache, reading and
    writing operands, effective addresses, the stack, the condition codes and
    the arithmetic flags.  Strings are lists of bytes; a method on [&self] is a
    function of the state, a method on [&mut self] a computation of [CpuM]. *)

From S2P Require Import Prelude Memory Registers Ir Iced.

Open Scope Z_scope.

Definition MAX_INSTRUCTION_LEN : Z := 15.
Definition MAX_BLOCK_INSTRUCTIONS : nat := 64.
Definition VSYSCALL_GETTIMEOFDAY : Z := 0xffffffffff600000.
Definition VSYSCALL_TIME : Z := 0xffffffffff600400.
Definition VSYSCALL_GETCPU : Z := 0xffffffffff600800.

(** ** Errors and outcomes *)

Record UnsupportedInstructionRecord : Type := mkUnsupported {
  u_ip : Z;
  u_raw_bytes : list Z;
  u_mnemonic : list Z;
  u_operands : list (list Z);
  u_text : list Z;
  u_registers : Registers
}.

Inductive CpuError : Type :=
| CpuMemory (e : GuestMemoryError)
| CpuRegister (e : RegisterError)
| InvalidInstruction (ip : Z)
| UnsupportedInstruction (record : UnsupportedInstructionRecord)
| UnsupportedOperand (ip : Z) (instruction : list Z)
| EmptyStepLimit
| DivideError (ip : Z)
| Execution (ip : Z) (instruction : list Z) (source : CpuError).

Fixpoint unsupported_instruction (e : CpuError) : option UnsupportedInstructionRecord :=
  match e with
  | UnsupportedInstruction record => Some record
  | Execution _ _ source => unsupported_instruction source
  | _ => None
  end.

Record SyscallTrap : Type := mkTrap {
  number : Z;
  args : list Z
}.

Record TraceRecord : Type := mkTrace {
  t_ip : Z;
  t_instruction : list Z;
  t_before : Registers;
  t_after : Registers
}.

Inductive StepOutcome : Type :=
| Continue
| Syscall (trap : SyscallTrap)
| Halted (code : Z).

Inductive RunOutcome : Type :=
| RSyscall (trap : SyscallTrap)
| Exited (code : Z)
| StepLimit.

Section Cpu.
Context `{ICED : Iced}.

(** ** The execution cache *)

Record ExecutionCache : Type := mkExecutionCache {
  ir : BlockCache;
  decoded : gmap Z (list Instruction)
}.

Definition default_cache : ExecutionCache := mkExecutionCache empty_cache ∅.

Definition cache_stats (c : ExecutionCache) : BlockCacheStats := stats (ir c).

(** The condition of the [retain] on the decoded entries. *)
Definition keeps_decoded (c : BlockCache) (addr end_ key : Z) : bool :=
  match get_without_stats c key with
  | Some block => outside addr end_ block
  | None => true
  end.

(** The decoded entries to keep are chosen with the blocks still in place. *)
Definition cache_invalidate_range {E} (addr size : Z) : ST ExecutionCache E Z := fun c =>
  let end_ := saturating_add addr size in
  let kept := filter (fun kv => keeps_decoded (ir c) addr end_ kv.1 = true) (decoded c) in
  let '(r, ir') := invalidate_range addr size (ir c) in
  (r, mkExecutionCache ir' kept).

Definition cache_clear {E} : ST ExecutionCache E unit := fun c =>
  match clear (ir c) with
  | (Ok _, ir') => (Ok tt, mkExecutionCache ir' ∅)
  | (Err e, ir') => (Err e, mkExecutionCache ir' (decoded c))
  | (Panic, ir') => (Panic, mkExecutionCache ir' (decoded c))
  end.

(** ** The state *)

(** [clock] counts the readings of the host clock so far: it stands for the
    time that passes between two calls and is no field of the source. *)
Record Interpreter : Type := mkInterpreter {
  memory : GuestMemory;
  registers : Registers;
  trace_enabled : bool;
  trace : list TraceRecord;
  cache : ExecutionCache;
  clock : nat
}.

Definition set_memory (m : GuestMemory) (s : Interpreter) : Interpreter :=
  mkInterpreter m (registers s) (trace_enabled s) (trace s) (cache s) (clock s).
Definition set_registers (r : Registers) (s : Interpreter) : Interpreter :=
  mkInterpreter (memory s) r (trace_enabled s) (trace s) (cache s) (clock s).
Definition set_trace (t : list TraceRecord) (s : Interpreter) : Interpreter :=
  mkInterpreter (memory s) (registers s) (trace_enabled s) t (cache s) (clock s).
Definition set_cache (c : ExecutionCache) (s : Interpreter) : Interpreter :=
  mkInterpreter (memory s) (registers s) (trace_enabled s) (trace s) c (clock s).
Definition tick (s : Interpreter) : Interpreter :=
  mkInterpreter (memory s) (registers s) (trace_enabled s) (trace s) (cache s) (S (clock s)).

Definition with_cache (m : GuestMemory) (r : Registers) (c : ExecutionCache) : Interpreter :=
  mkInterpreter m r false [] c 0.

Definition interpreter_new (m : GuestMemory) (r : Registers) : Interpreter :=
  with_cache m r default_cache.

Definition set_trace_enabled (b : bool) (s : Interpreter) : Interpreter :=
  mkInterpreter (memory s) (registers s) b (trace s) (cache s) (clock s).

Abbreviation CpuM A := (ST Interpreter CpuError A).

(** Calls on the fields, with the conversions of [?]. *)
Definition on_memory {A} (m : ST GuestMemory GuestMemoryError A) : CpuM A :=
  zoom memory set_memory CpuMemory m.
Definition on_registers {A} (m : ST Registers RegisterError A) : CpuM A :=
  zoom registers set_registers CpuRegister m.
Definition on_cache {A} (m : ST ExecutionCache CpuError A) : CpuM A :=
  zoom cache set_cache (fun e => e) m.

(** [self.registers.<field> = ...]: an assignment to the register file. *)
Definition assign (f : Registers -> Registers) : CpuM unit :=
  modify (fun s => set_registers (f (registers s)) s).

(** A value computed from the registers. *)
Definition reg {A} (f : Registers -> A) : CpuM A := gets (fun s => f (registers s)).

Definition replace_state (m : GuestMemory) (r : Registers) : CpuM unit :=
  modify (fun s => set_trace [] (set_registers r (set_memory m s))) ;;
  on_cache cache_clear.

Definition clear_block_cache : CpuM unit := on_cache cache_clear.

(** ** Integers *)

(** [1u64 << (width - 1)]: both operators can overflow. *)
Definition sign_bit {E} (width : Z) : res E Z :=
  if width =? 0 then Panic else shl 64 1 (width - 1).

Definition sign_extend {E} (value from_width : Z) : res E Z :=
  sign ← sign_bit from_width;
  let m := mask from_width in
  let value := Z.land value m in
  Ok (if negb (Z.land value sign =? 0) then Z.lor value (lnotw 64 m) else value).

(** [1i128 << (width - 1)] and its negation. *)
Definition signed_min {E} (width : Z) : res E Z :=
  if (width =? 0) || (128 <=? width - 1) then Panic
  else let x := signed 128 (Z.shiftl 1 (width - 1)) in
       if x =? - 2 ^ 127 then Panic else Ok (- x).

Definition signed_max {E} (width : Z) : res E Z :=
  if (width =? 0) || (128 <=? width - 1) then Panic
  else let x := signed 128 (Z.shiftl 1 (width - 1)) in
       if x =? - 2 ^ 127 then Panic else Ok (x - 1).

Fixpoint little_endian_from {E} (index : Z) (bytes : list Z) (value : Z) : res E Z :=
  match bytes with
  | [] => Ok value
  | byte :: bytes =>
      b ← shl 64 byte (index * 8);
      little_endian_from (index + 1) bytes (Z.lor value b)
  end.

Definition little_endian_to_u64 {E} (bytes : list Z) : res E Z :=
  little_endian_from 0 bytes 0.

Definition u64_to_little_endian {E} (value size : Z) : res E (list Z) :=
  slice (to_le 8 value) 0 size.

Fixpoint count_ones (n : nat) (x : Z) : Z :=
  match n with
  | O => 0
  | S n => (if Z.testbit x (Z.of_nat n) then 1 else 0) + count_ones n x
  end.

(** [address.wrapping_add_signed(step)]. *)
Definition wrapping_add_signed (a step : Z) : Z := wrap 64 (a + step).

(** ** Operands *)

Definition xmm_index (register : Register) : option Z :=
  match register with
  | XMM0 => Some 0 | XMM1 => Some 1 | XMM2 => Some 2 | XMM3 => Some 3
  | XMM4 => Some 4 | XMM5 => Some 5 | XMM6 => Some 6 | XMM7 => Some 7
  | XMM8 => Some 8 | XMM9 => Some 9 | XMM10 => Some 10 | XMM11 => Some 11
  | XMM12 => Some 12 | XMM13 => Some 13 | XMM14 => Some 14 | XMM15 => Some 15
  | _ => None
  end.

Definition unsupported_operand (i : Instruction) : CpuError :=
  UnsupportedOperand (i_ip i) (i_format i).

Definition memory_size (i : Instruction) (fallback_width : Z) : res CpuError Z :=
  let size := i_memory_size i in
  if negb (size =? 0) then Ok size
  else if (fallback_width =? 0) || (64 <? fallback_width) then Err (unsupported_operand i)
  else Ok (fallback_width / 8).

Definition segment_base (segment : Register) (s : Interpreter) : Z :=
  match segment with
  | FS => fs_base (registers s)
  | GS => gs_base (registers s)
  | _ => 0
  end.

(** [self.registers.read(register)?]. *)
Definition read_register (register : Register) (s : Interpreter) : res CpuError Z :=
  map_err CpuRegister (read (registers s) register).

Definition effective_address (i : Instruction) (s : Interpreter) : res CpuError Z :=
  if i_is_ip_rel_memory_operand i then
    Ok (wrapping_add (segment_base (i_memory_segment i) s) (i_ip_rel_memory_address i))
  else
    let address := wrapping_add (segment_base (i_memory_segment i) s)
                                (i_memory_displacement64 i) in
    address ← match i_memory_base i with
              | NoRegister => Ok address
              | base => base_value ← read_register base s;
                        Ok (wrapping_add address base_value)
              end;
    match i_memory_index i with
    | NoRegister => Ok address
    | index => value ← read_register index s;
               Ok (wrapping_add address (wrapping_mul value (i_memory_index_scale i)))
    end.

(** [self.memory.read_bytes(addr, size)?]. *)
Definition read_memory (addr size : Z) (s : Interpreter) : res CpuError (list Z) :=
  map_err CpuMemory (read_bytes (memory s) addr size).

Definition read_operand (i : Instruction) (op_index width : Z) (s : Interpreter)
    : res CpuError Z :=
  match i_op_kind i op_index with
  | OKRegister => read_register (i_op_register i op_index) s
  | OKImmediate8 => Ok (i_immediate8 i)
  | OKImmediate8to16 | OKImmediate8to32 | OKImmediate8to64 => sign_extend (i_immediate8 i) 8
  | OKImmediate16 => Ok (i_immediate16 i)
  | OKImmediate32 => Ok (i_immediate32 i)
  | OKImmediate32to64 => sign_extend (i_immediate32 i) 32
  | OKImmediate64 => Ok (i_immediate64 i)
  | OKMemory =>
      size ← memory_size i width;
      address ← effective_address i s;
      bytes ← read_memory address size s;
      little_endian_to_u64 bytes
  | OKNearBranch16 => Ok (i_near_branch16 i)
  | OKNearBranch32 => Ok (i_near_branch32 i)
  | OKNearBranch64 => Ok (i_near_branch64 i)
  | OKOther _ => Err (unsupported_operand i)
  end.

(** [permissions_at(address).map(executable).unwrap_or(false)]. *)
Definition executable_at (address : Z) (s : Interpreter) : bool :=
  match permissions_at (memory s) address with
  | Some p => executable p
  | None => false
  end.

Definition write_operand (i : Instruction) (op_index value width : Z) : CpuM unit :=
  match i_op_kind i op_index with
  | OKRegister => on_registers (write (i_op_register i op_index) (Z.land value (mask width)))
  | OKMemory =>
      size ← lift (memory_size i width);
      address ← reads (effective_address i);
      bytes ← lift (u64_to_little_endian value size);
      invalidate_cache ← gets (executable_at address);
      on_memory (write_bytes address bytes) ;;
      if invalidate_cache : bool
      then on_cache (cache_invalidate_range address size) ;; mret tt
      else mret tt
  | _ => raise (unsupported_operand i)
  end.

Definition width_of_register (register : Register) : res CpuError Z :=
  map_err CpuRegister (register_width register).

(** [(memory_size(instruction, 64)? * 8) as u32]. *)
Definition memory_width (i : Instruction) : res CpuError Z :=
  size ← memory_size i 64;
  bits ← mul64 size 8;
  Ok (wrap 32 bits).

Definition destination_width (i : Instruction) (op_index : Z) : res CpuError Z :=
  match i_op_kind i op_index with
  | OKRegister => width_of_register (i_op_register i op_index)
  | OKMemory => memory_width i
  | _ => Err (unsupported_operand i)
  end.

Definition source_width (i : Instruction) (op_index : Z) : res CpuError Z :=
  match i_op_kind i op_index with
  | OKRegister => width_of_register (i_op_register i op_index)
  | OKMemory => memory_width i
  | OKImmediate8 | OKImmediate8to16 | OKImmediate8to32 | OKImmediate8to64 => Ok 8
  | OKImmediate16 => Ok 16
  | OKImmediate32 | OKImmediate32to64 => Ok 32
  | OKImmediate64 => Ok 64
  | _ => Err (unsupported_operand i)
  end.

Definition branch_target (i : Instruction) (op_index : Z) (s : Interpreter) : res CpuError Z :=
  match i_op_kind i op_index with
  | OKNearBranch16 => Ok (i_near_branch16 i)
  | OKNearBranch32 => Ok (i_near_branch32 i)
  | OKNearBranch64 => Ok (i_near_branch64 i)
  | OKRegister | OKMemory => read_operand i op_index 64 s
  | _ => Err (unsupported_operand i)
  end.

(** ** The stack *)

Definition push_u64 (value : Z) : CpuM unit :=
  assign (fun r => set_rsp (wrapping_sub (rsp r) 8) r) ;;
  rsp ← reg rsp;
  on_memory (write_u64 rsp value).

Definition pop_u64 : CpuM Z :=
  value ← reads (fun s => map_err CpuMemory (read_u64 (memory s) (rsp (registers s))));
  assign (fun r => set_rsp (wrapping_add (rsp r) 8) r) ;;
  mret value.

(** ** Conditions and flags *)

Definition condition_passed (m : Mnemonic) (s : Interpreter) : res CpuError bool :=
  let cf := flag (registers s) FLAG_CF in
  let zf := flag (registers s) FLAG_ZF in
  let sf := flag (registers s) FLAG_SF in
  let off := flag (registers s) FLAG_OF in
  let pf := flag (registers s) FLAG_PF in
  match m with
  | MJo | MCmovo | MSeto => Ok off
  | MJno | MCmovno | MSetno => Ok (negb off)
  | MJb | MCmovb | MSetb => Ok cf
  | MJae | MCmovae | MSetae => Ok (negb cf)
  | MJe | MCmove | MSete => Ok zf
  | MJne | MCmovne | MSetne => Ok (negb zf)
  | MJbe | MCmovbe | MSetbe => Ok (cf || zf)
  | MJa | MCmova | MSeta => Ok (negb cf && negb zf)
  | MJs | MCmovs | MSets => Ok sf
  | MJns | MCmovns | MSetns => Ok (negb sf)
  | MJp | MCmovp | MSetp => Ok pf
  | MJnp | MCmovnp | MSetnp => Ok (negb pf)
  | MJl | MCmovl | MSetl => Ok (xorb sf off)
  | MJge | MCmovge | MSetge => Ok (eqb sf off)
  | MJle | MCmovle | MSetle => Ok (zf || xorb sf off)
  | MJg | MCmovg | MSetg => Ok (negb zf && eqb sf off)
  | _ => Err (UnsupportedOperand (rip (registers s)) (i_mnemonic_debug m))
  end.

Definition set_flag_m (f : Z) (v : bool) : CpuM unit := assign (set_flag f v).

Definition nonzero (x : Z) : bool := negb (x =? 0).

Definition set_common_flags (result width : Z) : CpuM unit :=
  let masked := Z.land result (mask width) in
  set_flag_m FLAG_ZF (masked =? 0) ;;
  sign ← lift (sign_bit width);
  set_flag_m FLAG_SF (nonzero (Z.land masked sign)) ;;
  set_flag_m FLAG_PF (count_ones 8 masked mod 2 =? 0).

Definition set_add_flags (left right result width : Z) : CpuM unit :=
  let m := mask width in
  sign ← lift (sign_bit width);
  let left := Z.land left m in
  let right := Z.land right m in
  let result := Z.land result m in
  set_flag_m FLAG_CF (result <? left) ;;
  set_flag_m FLAG_OF
    (nonzero (Z.land (Z.land (Z.lxor left result) (Z.lxor right result)) sign)) ;;
  set_common_flags result width.

Definition set_sub_flags (left right result width : Z) : CpuM unit :=
  let m := mask width in
  sign ← lift (sign_bit width);
  let left := Z.land left m in
  let right := Z.land right m in
  let result := Z.land result m in
  set_flag_m FLAG_CF (left <? right) ;;
  set_flag_m FLAG_OF
    (nonzero (Z.land (Z.land (Z.lxor left right) (Z.lxor left result)) sign)) ;;
  set_common_flags result width.

Definition set_logic_flags (result width : Z) : CpuM unit :=
  set_flag_m FLAG_CF false ;;
  set_flag_m FLAG_OF false ;;
  set_common_flags result width.

Definition accumulator_register (width : Z) : Register :=
  if width =? 8 then AL else if width =? 16 then AX else if width =? 32 then EAX else RAX.

Definition accumulator (width : Z) (s : Interpreter) : res CpuError Z :=
  read_register (accumulator_register width) s.

Definition write_accumulator (width value : Z) : CpuM unit :=
  on_registers (write (accumulator_register width) value).

(** ** Decoding and text *)

Definition format_instruction (i : Instruction) : list Z := i_format i.

Definition decode (ip : Z) (s : Interpreter) : res CpuError Instruction :=
  bytes ← map_err CpuMemory (fetch_bytes (memory s) ip MAX_INSTRUCTION_LEN);
  Ok (i_decode bytes ip).
End Cpu.
