(* ===== verification/CpuInt.v ===== *)
(** * Integer instructions

    Model of the integer instructions of
    [crates/ruxeon-cpu/src/interpreter.rs]: arithmetic and logic, shifts and
    rotates, multiplication and division, bit tests and scans, exchanges,
    [cpuid], [rdtsc] and the vsyscall page. *)

From S2P Require Import Prelude Memory Registers Ir Iced Cpu.

Open Scope Z_scope.

Inductive BinaryOp : Type := Add | Sub | Adc | Sbb | Xor | And | Or.
Inductive UnaryOp : Type := Neg | Not | Inc | Dec.
Inductive ShiftOp : Type := Shl | Shr | Sar.
Inductive DoubleShiftOp : Type := Shld | Shrd.
Inductive BitScanOp : Type := Forward | Reverse.

(** ** Integers of 128 bits *)

Definition in_i128 (x : Z) : bool := (- 2 ^ 127 <=? x) && (x <? 2 ^ 127).

(** The plain [*], [/] and [%] of [i128] and [u128], with their panics. *)
Definition mul_i128 {E} (a b : Z) : res E Z := if in_i128 (a * b) then Ok (a * b) else Panic.
Definition mul_u128 {E} (a b : Z) : res E Z := if a * b <? 2 ^ 128 then Ok (a * b) else Panic.
Definition div_i128 {E} (a b : Z) : res E Z :=
  if (b =? 0) || ((a =? - 2 ^ 127) && (b =? -1)) then Panic else Ok (Z.quot a b).
Definition rem_i128 {E} (a b : Z) : res E Z :=
  if (b =? 0) || ((a =? - 2 ^ 127) && (b =? -1)) then Panic else Ok (Z.rem a b).
Definition div_u {E} (a b : Z) : res E Z := if b =? 0 then Panic else Ok (a / b).
Definition rem_u {E} (a b : Z) : res E Z := if b =? 0 then Panic else Ok (a mod b).

(** [a >> n] on [i64]. *)
Definition sar64 {E} (a n : Z) : res E Z := if n <? 64 then Ok (Z.shiftr a n) else Panic.

Definition swap_bytes (n : nat) (x : Z) : Z := of_le (rev (to_le n x)).

Definition trailing_zeros (x : Z) : Z :=
  match position (fun i => Z.testbit x i) (upto 64) with
  | Some n => Z.of_nat n
  | None => 64
  end.

Definition leading_zeros (x : Z) : Z := if x =? 0 then 64 else 63 - Z.log2 x.

Definition b2z (b : bool) : Z := if b then 1 else 0.

Section CpuInt.
Context `{ICED : Iced}.
Abbreviation CpuM A := (ST Interpreter CpuError A).

(** ** Arithmetic and logic *)

Definition execute_binary (i : Instruction) (op : BinaryOp) : CpuM unit :=
  width ← lift (destination_width i 0);
  left ← reads (read_operand i 0 width);
  right ← reads (read_operand i 1 width);
  result ← match op with
    | Add =>
        let result := wrapping_add left right in
        set_add_flags left right result width ;; mret result
    | Sub =>
        let result := wrapping_sub left right in
        set_sub_flags left right result width ;; mret result
    | Adc =>
        carry ← reg (fun r => b2z (flag r FLAG_CF));
        let result := wrapping_add (wrapping_add left right) carry in
        set_add_flags left (wrapping_add right carry) result width ;; mret result
    | Sbb =>
        borrow ← reg (fun r => b2z (flag r FLAG_CF));
        let result := wrapping_sub (wrapping_sub left right) borrow in
        set_sub_flags left (wrapping_add right borrow) result width ;; mret result
    | Xor =>
        let result := Z.lxor left right in
        set_logic_flags result width ;; mret result
    | And =>
        let result := Z.land left right in
        set_logic_flags result width ;; mret result
    | Or =>
        let result := Z.lor left right in
        set_logic_flags result width ;; mret result
    end;
  write_operand i 0 result width.

Definition execute_unary (i : Instruction) (op : UnaryOp) : CpuM unit :=
  width ← lift (destination_width i 0);
  value ← reads (read_operand i 0 width);
  let value := Z.land value (mask width) in
  result ← match op with
    | Neg =>
        let result := Z.land (wrapping_sub 0 value) (mask width) in
        set_flag_m FLAG_CF (nonzero value) ;;
        sign ← lift (sign_bit width);
        set_flag_m FLAG_OF (value =? sign) ;;
        set_common_flags result width ;; mret result
    | Not => mret (Z.land (lnotw 64 value) (mask width))
    | Inc =>
        let result := Z.land (wrapping_add value 1) (mask width) in
        sign ← lift (sign_bit width);
        set_flag_m FLAG_OF (value =? sign - 1) ;;
        set_common_flags result width ;; mret result
    | Dec =>
        let result := Z.land (wrapping_sub value 1) (mask width) in
        sign ← lift (sign_bit width);
        set_flag_m FLAG_OF (value =? sign) ;;
        set_common_flags result width ;; mret result
    end;
  write_operand i 0 result width.

Definition execute_bswap (i : Instruction) : CpuM unit :=
  width ← lift (destination_width i 0);
  value ← reads (read_operand i 0 width);
  let value := Z.land value (mask width) in
  result ← (if width =? 32 then mret (swap_bytes 4 (wrap 32 value))
            else if width =? 64 then mret (swap_bytes 8 value)
            else raise (unsupported_operand i));
  write_operand i 0 result width.

Definition execute_xchg (i : Instruction) : CpuM unit :=
  width ← lift (destination_width i 0);
  left ← reads (read_operand i 0 width);
  right ← reads (read_operand i 1 width);
  write_operand i 0 right width ;;
  write_operand i 1 left width.

Definition execute_xadd (i : Instruction) : CpuM unit :=
  width ← lift (destination_width i 0);
  destination ← reads (read_operand i 0 width);
  let destination := Z.land destination (mask width) in
  source ← reads (read_operand i 1 width);
  let source := Z.land source (mask width) in
  let result := Z.land (wrapping_add destination source) (mask width) in
  set_add_flags destination source result width ;;
  write_operand i 0 result width ;;
  write_operand i 1 destination width.

Definition execute_cmpxchg (i : Instruction) : CpuM unit :=
  width ← lift (destination_width i 0);
  destination ← reads (read_operand i 0 width);
  let destination := Z.land destination (mask width) in
  acc ← reads (accumulator width);
  source ← reads (read_operand i 1 width);
  let source := Z.land source (mask width) in
  let result := wrapping_sub acc destination in
  set_sub_flags acc destination result width ;;
  if acc =? destination then write_operand i 0 source width
  else write_accumulator width destination.

(** ** Rotates and shifts *)

(** [value << count] and [value >> count] on [u64]. *)
Definition rol_bits {E} (value count modulus width : Z) : res E Z :=
  high ← shl 64 value count;
  n ← sub64 modulus count;
  low ← shr 64 value n;
  Ok (Z.land (Z.lor high low) (mask width)).

Definition ror_bits {E} (value count modulus width : Z) : res E Z :=
  low ← shr 64 value count;
  n ← sub64 modulus count;
  high ← shl 64 value n;
  Ok (Z.land (Z.lor low high) (mask width)).

(** [(x >> n) & 1 != 0]; [n] is a difference of two [u32]. *)
Definition bit_at {E} (x a b : Z) : res E bool :=
  n ← sub64 a b;
  y ← shr 64 x n;
  Ok (nonzero (Z.land y 1)).

Definition execute_rotate (i : Instruction) : CpuM unit :=
  width ← lift (destination_width i 0);
  value ← reads (read_operand i 0 width);
  let value := Z.land value (mask width) in
  let modulus := width in
  raw_count ← reads (read_operand i 1 8);
  count ← lift (rem_u (Z.land raw_count (if width =? 64 then 0x3f else 0x1f)) modulus);
  if count =? 0 then mret tt else
  result ← lift (match i_mnemonic i with
                 | MRol => rol_bits value count modulus width
                 | MRor => ror_bits value count modulus width
                 | _ => Panic
                 end);
  carry ← lift (match i_mnemonic i with
                | MRol => Ok (nonzero (Z.land result 1))
                | MRor => bit_at result width 1
                | _ => Panic
                end);
  set_flag_m FLAG_CF carry ;;
  (if count =? 1 then
     overflow ← lift (match i_mnemonic i with
       | MRol => n ← sub64 width 1; y ← shr 64 result n;
                 Ok (nonzero (Z.land (Z.lxor y result) 1))
       | MRor => n ← sub64 width 1; y ← shr 64 result n;
                 n' ← sub64 width 2; y' ← shr 64 result n';
                 Ok (nonzero (Z.land (Z.lxor y y') 1))
       | _ => Panic
       end);
     set_flag_m FLAG_OF overflow
   else mret tt) ;;
  write_operand i 0 result width.

Definition shift_result {E} (op : ShiftOp) (value count width : Z) : res E Z :=
  match op with
  | Shl => Ok (Z.land (wrap 64 (Z.shiftl value (count mod 64))) (mask width))
  | Shr => Ok (Z.shiftr value (count mod 64))
  | Sar => x ← sign_extend value width;
           y ← sar64 (signed 64 x) count;
           Ok (Z.land (wrap 64 y) (mask width))
  end.

Definition shift_carry {E} (op : ShiftOp) (value count width : Z) : res E bool :=
  match op with
  | Shl => if count <=? width then bit_at value width count else Ok false
  | Shr | Sar => if count <=? width then bit_at value count 1 else Ok false
  end.

Definition shift_overflow {E} (op : ShiftOp) (value result width : Z) : res E bool :=
  match op with
  | Shl => sign ← sign_bit width; Ok (nonzero (Z.land (Z.lxor result value) sign))
  | Shr => sign ← sign_bit width; Ok (nonzero (Z.land value sign))
  | Sar => Ok false
  end.

Definition execute_shift (i : Instruction) (op : ShiftOp) : CpuM unit :=
  width ← lift (destination_width i 0);
  value ← reads (read_operand i 0 width);
  let value := Z.land value (mask width) in
  count ← reads (read_operand i 1 8);
  let count := Z.land count (if width =? 64 then 0x3f else 0x1f) in
  if count =? 0 then mret tt else
  result ← lift (shift_result op value count width);
  carry ← lift (shift_carry op value count width);
  set_flag_m FLAG_CF carry ;;
  (if count =? 1 then
     overflow ← lift (shift_overflow op value result width);
     set_flag_m FLAG_OF overflow
   else mret tt) ;;
  set_common_flags result width ;;
  write_operand i 0 result width.

Definition double_shift_result {E} (op : DoubleShiftOp) (value source count width : Z)
    : res E Z :=
  match op with
  | Shld => a ← shl 64 value count; n ← sub64 width count; b ← shr 64 source n;
            Ok (Z.land (Z.lor a b) (mask width))
  | Shrd => a ← shr 64 value count; n ← sub64 width count; b ← shl 64 source n;
            Ok (Z.land (Z.lor a b) (mask width))
  end.

Definition double_shift_carry {E} (op : DoubleShiftOp) (value count width : Z) : res E bool :=
  match op with
  | Shld => bit_at value width count
  | Shrd => bit_at value count 1
  end.

Definition execute_double_shift (i : Instruction) (op : DoubleShiftOp) : CpuM unit :=
  width ← lift (destination_width i 0);
  value ← reads (read_operand i 0 width);
  let value := Z.land value (mask width) in
  source ← reads (read_operand i 1 width);
  let source := Z.land source (mask width) in
  count ← reads (read_operand i 2 8);
  let count := Z.land count (if width =? 64 then 0x3f else 0x1f) in
  if count =? 0 then mret tt else
  result ← lift (double_shift_result op value source count width);
  carry ← lift (double_shift_carry op value count width);
  set_flag_m FLAG_CF carry ;;
  (if count =? 1 then
     sign ← lift (sign_bit width);
     set_flag_m FLAG_OF (nonzero (Z.land (Z.lxor result value) sign))
   else mret tt) ;;
  set_common_flags result width ;;
  write_operand i 0 result width.

(** ** Bit tests and scans *)

Definition execute_bit_test (i : Instruction) : CpuM unit :=
  width ← lift (destination_width i 0);
  base ← reads (read_operand i 0 width);
  bit ← reads (read_operand i 1 width);
  bit ← lift (rem_u bit width);
  y ← lift (shr 64 base bit);
  set_flag_m FLAG_CF (nonzero (Z.land y 1)).

Definition execute_bit_modify (i : Instruction) : CpuM unit :=
  width ← lift (destination_width i 0);
  base ← reads (read_operand i 0 width);
  let base := Z.land base (mask width) in
  bit ← reads (read_operand i 1 width);
  bit ← lift (rem_u bit width);
  m ← lift (shl 64 1 bit);
  set_flag_m FLAG_CF (nonzero (Z.land base m)) ;;
  base ← lift (match i_mnemonic i with
               | MBts => Ok (Z.lor base m)
               | MBtr => Ok (Z.land base (lnotw 64 m))
               | MBtc => Ok (Z.lxor base m)
               | _ => Panic
               end);
  write_operand i 0 base width.

Definition execute_bit_scan (i : Instruction) (op : BitScanOp) : CpuM unit :=
  width ← lift (source_width i 1);
  source ← reads (read_operand i 1 width);
  let source := Z.land source (mask width) in
  if source =? 0 then set_flag_m FLAG_ZF true else
  let index := match op with
               | Forward => trailing_zeros source
               | Reverse => (64 - 1) - leading_zeros source
               end in
  destination_width ← lift (destination_width i 0);
  write_operand i 0 index destination_width ;;
  set_flag_m FLAG_ZF false.

(** ** Multiplication and division *)

(** [let _ = call]: the result is dropped. *)
Definition ignore_result {S E A} (m : ST S E A) : ST S E unit := fun s =>
  match m s with
  | (Panic, s') => (Panic, s')
  | (_, s') => (Ok tt, s')
  end.

Definition write_mul_result (width result : Z) : CpuM unit :=
  if width =? 8 then
    assign (fun r => set_rax (Z.lor (Z.land (rax r) (lnotw 64 0xffff))
                                    (Z.land (wrap 64 result) 0xffff)) r)
  else if width =? 16 then
    ignore_result (on_registers (write AX (wrap 64 result))) ;;
    ignore_result (on_registers (write DX (wrap 64 (Z.shiftr result 16))))
  else if width =? 32 then
    ignore_result (on_registers (write EAX (wrap 64 result))) ;;
    ignore_result (on_registers (write EDX (wrap 64 (Z.shiftr result 32))))
  else
    assign (set_rax (wrap 64 result)) ;;
    assign (set_rdx (wrap 64 (Z.shiftr result 64))).

(** [sign_extend(x, width) as i64 as i128]. *)
Definition to_i128 {E} (x width : Z) : res E Z :=
  y ← sign_extend x width; Ok (signed 64 y).

Definition execute_mul (i : Instruction) (sgn : bool) : CpuM unit :=
  width ← lift (source_width i 0);
  rhs ← reads (read_operand i 0 width);
  let rhs := Z.land rhs (mask width) in
  low ← reg (fun r => Z.land (rax r) (mask width));
  result ← lift (if sgn then
                   left ← to_i128 low width;
                   right ← to_i128 rhs width;
                   p ← mul_i128 left right;
                   Ok (wrap 128 p)
                 else mul_u128 low rhs);
  write_mul_result width result ;;
  overflow ← lift (if sgn then
                     let truncated := Z.land (wrap 64 result) (mask width) in
                     t ← to_i128 truncated width;
                     Ok (negb (signed 128 result =? t))
                   else
                     high ← shr 128 result width;
                     Ok (nonzero high));
  set_flag_m FLAG_CF overflow ;;
  set_flag_m FLAG_OF overflow.

Definition execute_imul (i : Instruction) : CpuM unit :=
  let n := i_op_count i in
  if n =? 1 then execute_mul i true
  else if (n =? 2) || (n =? 3) then
    width ← lift (destination_width i 0);
    left ← reads (read_operand i (if n =? 3 then 1 else 0) width);
    right ← reads (read_operand i (if n =? 3 then 2 else 1) width);
    a ← lift (to_i128 left width);
    b ← lift (to_i128 right width);
    let result := signed 128 (a * b) in
    let truncated := Z.land (wrap 64 result) (mask width) in
    write_operand i 0 truncated width ;;
    t ← lift (to_i128 truncated width);
    let overflow := negb (result =? t) in
    set_flag_m FLAG_CF overflow ;;
    set_flag_m FLAG_OF overflow
  else raise (unsupported_operand i).

(** [((rdx & m) << k) | (rax & m)] on [u64], for [m] the low [k] bits. *)
Definition pair_of (r : Registers) (k : Z) : Z :=
  Z.lor (wrap 64 (Z.shiftl (Z.land (rdx r) (mask k)) k)) (Z.land (rax r) (mask k)).

(** [(u128::from(rdx) << 64) | u128::from(rax)]. *)
Definition wide_pair (r : Registers) : Z :=
  Z.lor (wrap 128 (Z.shiftl (rdx r) 64)) (rax r).

Definition unsigned_dividend (width : Z) (r : Registers) : Z :=
  if width =? 8 then Z.land (rax r) 0xffff
  else if width =? 16 then pair_of r 16
  else if width =? 32 then pair_of r 32
  else wide_pair r.

Definition signed_dividend {E} (width : Z) (r : Registers) : res E Z :=
  if width =? 8 then to_i128 (Z.land (rax r) 0xffff) 16
  else if width =? 16 then to_i128 (pair_of r 16) 32
  else if width =? 32 then to_i128 (pair_of r 32) 64
  else Ok (signed 128 (wide_pair r)).

Definition write_div_result (width quotient remainder : Z) : CpuM unit :=
  if width =? 8 then
    on_registers (write AL quotient) ;; on_registers (write AH remainder)
  else if width =? 16 then
    on_registers (write AX quotient) ;; on_registers (write DX remainder)
  else if width =? 32 then
    on_registers (write EAX quotient) ;; on_registers (write EDX remainder)
  else
    assign (set_rax quotient) ;; assign (set_rdx remainder).

Definition execute_div (i : Instruction) (sgn : bool) : CpuM unit :=
  width ← lift (source_width i 0);
  divisor ← reads (read_operand i 0 width);
  let divisor := Z.land divisor (mask width) in
  if divisor =? 0 then raise (DivideError (i_ip i)) else
  if sgn then
    divisor ← lift (to_i128 divisor width);
    dividend ← reads (fun s => signed_dividend width (registers s));
    quotient ← lift (div_i128 dividend divisor);
    remainder ← lift (rem_i128 dividend divisor);
    lo ← lift (signed_min width);
    if quotient <? lo then raise (DivideError (i_ip i)) else
    hi ← lift (signed_max width);
    if hi <? quotient then raise (DivideError (i_ip i)) else
    write_div_result width (wrap 64 quotient) (wrap 64 remainder)
  else
    dividend ← reg (unsigned_dividend width);
    quotient ← lift (div_u dividend divisor);
    remainder ← lift (rem_u dividend divisor);
    if mask width <? quotient then raise (DivideError (i_ip i)) else
    write_div_result width (wrap 64 quotient) (wrap 64 remainder).

(** ** The clock, the vsyscall page and [cpuid] *)

(** [SystemTime::now().duration_since(UNIX_EPOCH)]. *)
Definition now_since_epoch : CpuM (option Z) := fun s => (Ok (now_nanos (clock s)), tick s).

Definition as_secs (nanos : Z) : Z := nanos / 1000000000.
Definition subsec_micros (nanos : Z) : Z := nanos mod 1000000000 / 1000.

Definition execute_rdtsc : CpuM unit :=
  t ← now_since_epoch;
  let ticks := match t with Some n => wrap 64 n | None => 0 end in
  assign (set_rax (Z.land ticks 0xffffffff)) ;;
  assign (set_rdx (Z.shiftr ticks 32)).

Definition or_zero (t : option Z) : Z := match t with Some n => n | None => 0 end.

Definition vsyscall_gettimeofday : CpuM unit :=
  t ← now_since_epoch;
  let now := or_zero t in
  rdi ← reg rdi;
  (if nonzero rdi then
     on_memory (write_u64 rdi (as_secs now)) ;;
     next ← lift (add64 rdi 8);
     on_memory (write_u64 next (subsec_micros now))
   else mret tt) ;;
  assign (set_rax 0).

Definition vsyscall_time : CpuM unit :=
  t ← now_since_epoch;
  let seconds := as_secs (or_zero t) in
  rdi ← reg rdi;
  (if nonzero rdi then on_memory (write_u64 rdi seconds) else mret tt) ;;
  assign (set_rax seconds).

Definition vsyscall_getcpu : CpuM unit :=
  rdi ← reg rdi;
  (if nonzero rdi then on_memory (write_u32 rdi 0) else mret tt) ;;
  rsi ← reg rsi;
  (if nonzero rsi then on_memory (write_u32 rsi 0) else mret tt) ;;
  assign (set_rax 0).

Definition handle_vsyscall : CpuM (option StepOutcome) :=
  rip ← reg rip;
  if negb (rip =? VSYSCALL_GETTIMEOFDAY) && negb (rip =? VSYSCALL_TIME)
     && negb (rip =? VSYSCALL_GETCPU) then mret None else
  (if rip =? VSYSCALL_GETTIMEOFDAY then vsyscall_gettimeofday
   else if rip =? VSYSCALL_TIME then vsyscall_time
   else if rip =? VSYSCALL_GETCPU then vsyscall_getcpu
   else panic) ;;
  target ← pop_u64;
  assign (set_rip target) ;;
  mret (Some Continue).

(** The feature bits reported for leaf 1. *)
Definition cpuid_edx : Z :=
  foldr (fun k acc => Z.lor (Z.shiftl 1 k) acc) 0 [0; 4; 5; 8; 15; 19; 23; 24; 25; 26].

Definition cpuid_leaf (leaf subleaf : Z) : Z * Z * Z * Z :=
  if leaf =? 0 then
    (0x7, of_le [71; 101; 110; 117], of_le [110; 116; 101; 108], of_le [105; 110; 101; 73])
  else if leaf =? 1 then (0x306a9, 0, 0, cpuid_edx)
  else if (leaf =? 7) && (subleaf =? 0) then (0, 0, 0, 0)
  else if leaf =? 0x80000000 then (0x80000001, 0, 0, 0)
  else if leaf =? 0x80000001 then (0, 0, 0, Z.lor (Z.shiftl 1 20) (Z.shiftl 1 29))
  else (0, 0, 0, 0).

Definition execute_cpuid : CpuM unit :=
  leaf ← reg (fun r => wrap 32 (rax r));
  subleaf ← reg (fun r => wrap 32 (rcx r));
  let '(eax, ebx, ecx, edx) := cpuid_leaf leaf subleaf in
  on_registers (write EAX eax) ;;
  on_registers (write EBX ebx) ;;
  on_registers (write ECX ecx) ;;
  on_registers (write EDX edx).
End CpuInt.
