(* ===== verification/CpuSimd.v ===== *)
(** * Vector and string instructions

    Model of the SSE moves, lane operations and string instructions of
    [crates/ruxeon-cpu/src/interpreter.rs]. *)

From S2P Require Import Prelude Memory Registers Ir Iced Cpu CpuInt.

Open Scope Z_scope.

Inductive XmmBinaryOp : Type := XXor | XOr | XAnd.

(** [for x in l { acc = f(x, acc) }]. *)
Fixpoint fold_res {E A} (f : Z -> A -> res E A) (l : list Z) (acc : A) : res E A :=
  match l with
  | [] => Ok acc
  | x :: l => acc ← f x acc; fold_res f l acc
  end.

(** ** Lane operations on 128-bit values *)

(** [(x >> shift) & lane_mask]. *)
Definition lane_at {E} (x shift lane_mask : Z) : res E Z :=
  y ← shr 128 x shift; Ok (Z.land y lane_mask).

Definition punpck_result {E} (destination source lane_bits : Z) (high_half : bool) : res E Z :=
  let lane_mask := mask lane_bits in
  let half_bits := 64 in
  let lanes_per_half := half_bits / lane_bits in
  let base_shift := if high_half then half_bits else 0 in
  fold_res (fun lane result =>
    let shift := base_shift + lane * lane_bits in
    left ← lane_at destination shift lane_mask;
    right ← lane_at source shift lane_mask;
    let output_shift := lane * lane_bits * 2 in
    a ← shl 128 left output_shift;
    let result := Z.lor result a in
    b ← shl 128 right (output_shift + lane_bits);
    Ok (Z.lor result b)) (upto (Z.to_nat lanes_per_half)) 0.

Definition compare_equal_result {E} (left right lane_bits : Z) : res E Z :=
  let lane_mask := mask lane_bits in
  fold_res (fun lane result =>
    let shift := lane * lane_bits in
    left_lane ← lane_at left shift lane_mask;
    right_lane ← lane_at right shift lane_mask;
    if left_lane =? right_lane then m ← shl 128 lane_mask shift; Ok (Z.lor result m)
    else Ok result) (upto (Z.to_nat (128 / lane_bits))) 0.

Definition compare_greater_result {E} (left right lane_bits : Z) : res E Z :=
  let lane_mask := mask lane_bits in
  fold_res (fun lane result =>
    let shift := lane * lane_bits in
    left_lane ← lane_at left shift lane_mask;
    right_lane ← lane_at right shift lane_mask;
    left_signed ← sign_extend (wrap 64 left_lane) lane_bits;
    right_signed ← sign_extend (wrap 64 right_lane) lane_bits;
    if signed 64 right_signed <? signed 64 left_signed
    then m ← shl 128 lane_mask shift; Ok (Z.lor result m)
    else Ok result) (upto (Z.to_nat (128 / lane_bits))) 0.

Definition pmovmskb_result {E} (value : Z) : res E Z :=
  fold_res (fun byte result =>
    y ← lane_at value (byte * 8) 0xff;
    let byte_value := wrap 8 y in
    if nonzero (Z.land byte_value 0x80) then b ← shl 64 1 byte; Ok (Z.lor result b)
    else Ok result) (upto 16) 0.

(** The sixteen bytes of two operands combined by [f]. *)
Definition byte_lanes {E} (f : Z -> Z -> res E Z) (left right : Z) : res E Z :=
  fold_res (fun byte result =>
    let shift := byte * 8 in
    l ← lane_at left shift 0xff;
    r ← lane_at right shift 0xff;
    value ← f (wrap 8 l) (wrap 8 r);
    v ← shl 128 value shift;
    Ok (Z.lor result v)) (upto 16) 0.

Definition pshufd_result {E} (source control : Z) : res E Z :=
  fold_res (fun lane result =>
    c ← shr 8 control (lane * 2);
    let source_lane := Z.land c 3 in
    value ← lane_at source (source_lane * 32) 0xffffffff;
    v ← shl 128 value (lane * 32);
    Ok (Z.lor result v)) (upto 4) 0.

Definition shufps_result {E} (destination source control : Z) : res E Z :=
  let selectors := [Z.land control 3; Z.land (Z.shiftr control 2) 3;
                    Z.land (Z.shiftr control 4) 3; Z.land (Z.shiftr control 6) 3] in
  let place from lane result :=
    sel ← index selectors lane;
    value ← lane_at from (sel * 32) 0xffffffff;
    v ← shl 128 value (lane * 32);
    Ok (Z.lor result v) in
  result ← fold_res (place destination) [0; 1] 0;
  fold_res (place source) [2; 3] result.

Definition packed_shift_result {E} (value count lane_width : Z) (left : bool) : res E Z :=
  let lane_mask := if lane_width =? 32 then 0xffffffff else u64_max in
  fold_res (fun lane result =>
    let shift := lane * lane_width in
    lane_value ← lane_at value shift lane_mask;
    shifted ← (if lane_width <=? count then Ok 0
               else if left then y ← shl 128 lane_value count; Ok (Z.land y lane_mask)
               else shr 128 lane_value count);
    v ← shl 128 shifted shift;
    Ok (Z.lor result v)) (upto (Z.to_nat (128 / lane_width))) 0.

Section CpuSimd.
Context `{ICED : Iced}.
Abbreviation CpuM A := (ST Interpreter CpuError A).

(** ** Vector operands *)

Definition xmm_get {E} (ix : Z) (s : Interpreter) : res E Z := index (xmm (registers s)) ix.

Definition xmm_set (ix value : Z) : CpuM unit := fun s =>
  if ix <? len (xmm (registers s))
  then assign (fun r => set_xmm (<[Z.to_nat ix := value]> (xmm r)) r) s
  else (Panic, s).

Definition xmm_index_or (i : Instruction) (register : Register) : res CpuError Z :=
  ok_or (xmm_index register) (unsupported_operand i).

Definition read_xmm_operand (i : Instruction) (op_index : Z) (s : Interpreter) : res CpuError Z :=
  match i_op_kind i op_index with
  | OKRegister => ix ← xmm_index_or i (i_op_register i op_index); xmm_get ix s
  | OKMemory =>
      address ← effective_address i s;
      bytes ← read_memory address 16 s;
      if len bytes =? 16 then Ok (of_le bytes) else Panic
  | _ => Err (unsupported_operand i)
  end.

Definition write_xmm_operand (i : Instruction) (op_index value : Z) : CpuM unit :=
  match i_op_kind i op_index with
  | OKRegister => ix ← lift (xmm_index_or i (i_op_register i op_index)); xmm_set ix value
  | OKMemory =>
      address ← reads (effective_address i);
      on_memory (write_bytes address (to_le 16 value))
  | _ => raise (unsupported_operand i)
  end.

Definition read_simd_scalar_source (i : Instruction) (op_index width : Z) (s : Interpreter)
    : res CpuError Z :=
  match i_op_kind i op_index with
  | OKRegister =>
      let register := i_op_register i op_index in
      match xmm_index register with
      | Some ix => x ← xmm_get ix s; Ok (Z.land (wrap 64 x) (mask width))
      | None => read_register register s
      end
  | OKMemory =>
      address ← effective_address i s;
      bytes ← read_memory address (width / 8) s;
      little_endian_to_u64 bytes
  | _ => read_operand i op_index width s
  end.

Definition write_simd_scalar_destination (i : Instruction) (op_index value width : Z)
    : CpuM unit :=
  match i_op_kind i op_index with
  | OKRegister =>
      let register := i_op_register i op_index in
      match xmm_index register with
      | Some ix => xmm_set ix (Z.land value (mask width))
      | None => on_registers (write register (Z.land value (mask width)))
      end
  | OKMemory =>
      address ← reads (effective_address i);
      bytes ← lift (u64_to_little_endian value (width / 8));
      on_memory (write_bytes address bytes)
  | _ => raise (unsupported_operand i)
  end.

(** ** Moves *)

Definition is_register (k : OpKind) : bool := match k with OKRegister => true | _ => false end.

(** The vector register an operand names, when it is a register operand. *)
Definition xmm_operand (i : Instruction) (op_index : Z) : option Z :=
  if is_register (i_op_kind i op_index) then xmm_index (i_op_register i op_index) else None.

Definition execute_mov_simd_scalar (i : Instruction) (width : Z) : CpuM unit :=
  match xmm_operand i 0, xmm_operand i 1 with
  | Some ix, _ =>
      value ← reads (read_simd_scalar_source i 1 width);
      xmm_set ix value
  | None, Some ix =>
      x ← reads (xmm_get ix);
      write_simd_scalar_destination i 0 (Z.land (wrap 64 x) (mask width)) width
  | None, None =>
      value ← reads (read_operand i 1 width);
      write_operand i 0 value width
  end.

Definition execute_xmm_move (i : Instruction) : CpuM unit :=
  value ← reads (read_xmm_operand i 1);
  write_xmm_operand i 0 value.

Definition execute_mov_half_pd (i : Instruction) (high_half : bool) : CpuM unit :=
  match i_op_kind i 0, i_op_kind i 1 with
  | OKRegister, OKMemory =>
      ix ← lift (xmm_index_or i (i_op_register i 0));
      address ← reads (effective_address i);
      bytes ← reads (read_memory address 8);
      value ← lift (little_endian_to_u64 bytes);
      preserved ← reads (xmm_get ix);
      xmm_set ix (if high_half
                  then Z.lor (Z.land preserved u64_max) (wrap 128 (Z.shiftl value 64))
                  else Z.lor (Z.land preserved (lnotw 128 u64_max)) value)
  | OKMemory, OKRegister =>
      ix ← lift (xmm_index_or i (i_op_register i 1));
      raw ← reads (xmm_get ix);
      let value := if high_half then wrap 64 (Z.shiftr raw 64) else wrap 64 raw in
      address ← reads (effective_address i);
      on_memory (write_bytes address (to_le 8 value))
  | _, _ => raise (unsupported_operand i)
  end.

(** ** Lane instructions *)

Definition execute_punpck (i : Instruction) : CpuM unit :=
  destination ← reads (read_xmm_operand i 0);
  source ← reads (read_xmm_operand i 1);
  lh ← lift (match i_mnemonic i with
             | MPunpcklbw => Ok (8, false)
             | MPunpcklwd => Ok (16, false)
             | MPunpckldq => Ok (32, false)
             | MPunpcklqdq => Ok (64, false)
             | MPunpckhbw => Ok (8, true)
             | MPunpckhwd => Ok (16, true)
             | MPunpckhdq => Ok (32, true)
             | MPunpckhqdq => Ok (64, true)
             | _ => Panic
             end);
  result ← lift (punpck_result destination source lh.1 lh.2);
  write_xmm_operand i 0 result.

Definition execute_xmm_binary (i : Instruction) (op : XmmBinaryOp) : CpuM unit :=
  left ← reads (read_xmm_operand i 0);
  right ← reads (read_xmm_operand i 1);
  let result := match op with
                | XXor => Z.lxor left right
                | XOr => Z.lor left right
                | XAnd => Z.land left right
                end in
  write_xmm_operand i 0 result.

Definition execute_packed_compare_equal (i : Instruction) : CpuM unit :=
  left ← reads (read_xmm_operand i 0);
  right ← reads (read_xmm_operand i 1);
  lane_bits ← lift (match i_mnemonic i with
                    | MPcmpeqb => Ok 8 | MPcmpeqw => Ok 16
                    | MPcmpeqd => Ok 32 | MPcmpeqq => Ok 64
                    | _ => Panic
                    end);
  result ← lift (compare_equal_result left right lane_bits);
  write_xmm_operand i 0 result.

Definition execute_packed_compare_greater (i : Instruction) : CpuM unit :=
  left ← reads (read_xmm_operand i 0);
  right ← reads (read_xmm_operand i 1);
  lane_bits ← lift (match i_mnemonic i with
                    | MPcmpgtb => Ok 8 | MPcmpgtw => Ok 16
                    | MPcmpgtd => Ok 32 | MPcmpgtq => Ok 64
                    | _ => Panic
                    end);
  result ← lift (compare_greater_result left right lane_bits);
  write_xmm_operand i 0 result.

Definition execute_pmovmskb (i : Instruction) : CpuM unit :=
  value ← reads (read_xmm_operand i 1);
  result ← lift (pmovmskb_result value);
  width ← lift (destination_width i 0);
  write_operand i 0 result width.

Definition execute_packed_byte_minmax (i : Instruction) : CpuM unit :=
  left ← reads (read_xmm_operand i 0);
  right ← reads (read_xmm_operand i 1);
  result ← lift (byte_lanes (fun l r => match i_mnemonic i with
                                        | MPminub => Ok (Z.min l r)
                                        | MPmaxub => Ok (Z.max l r)
                                        | _ => Panic
                                        end) left right);
  write_xmm_operand i 0 result.

Definition execute_packed_byte_arithmetic (i : Instruction) : CpuM unit :=
  left ← reads (read_xmm_operand i 0);
  right ← reads (read_xmm_operand i 1);
  result ← lift (byte_lanes (fun l r => match i_mnemonic i with
                                        | MPaddb => Ok (wrap 8 (l + r))
                                        | MPsubb => Ok (wrap 8 (l - r))
                                        | _ => Panic
                                        end) left right);
  write_xmm_operand i 0 result.

Definition execute_pshufd (i : Instruction) : CpuM unit :=
  source ← reads (read_xmm_operand i 1);
  control ← reads (read_operand i 2 8);
  result ← lift (pshufd_result source (wrap 8 control));
  write_xmm_operand i 0 result.

Definition execute_shufps (i : Instruction) : CpuM unit :=
  destination ← reads (read_xmm_operand i 0);
  source ← reads (read_xmm_operand i 1);
  control ← reads (read_operand i 2 8);
  result ← lift (shufps_result destination source (wrap 8 control));
  write_xmm_operand i 0 result.

Definition execute_packed_byte_shift (i : Instruction) : CpuM unit :=
  value ← reads (read_xmm_operand i 0);
  c ← reads (read_operand i 1 8);
  let count := wrap 32 c in
  let shift := Z.min count 16 * 8 in
  result ← lift (match i_mnemonic i with
                 | MPslldq => if 128 <=? shift then Ok 0 else shl 128 value shift
                 | MPsrldq => if 128 <=? shift then Ok 0 else shr 128 value shift
                 | _ => Panic
                 end);
  write_xmm_operand i 0 result.

Definition read_packed_shift_count (i : Instruction) (s : Interpreter) : res CpuError Z :=
  match i_op_kind i 1 with
  | OKImmediate8 => Ok (i_immediate8 i)
  | OKRegister | OKMemory => x ← read_xmm_operand i 1 s; Ok (wrap 32 (Z.land x 0xff))
  | _ => Err (unsupported_operand i)
  end.

Definition execute_packed_shift (i : Instruction) : CpuM unit :=
  value ← reads (read_xmm_operand i 0);
  count ← reads (read_packed_shift_count i);
  wl ← lift (match i_mnemonic i with
             | MPslld => Ok (32, true)
             | MPsrld => Ok (32, false)
             | MPsllq => Ok (64, true)
             | MPsrlq => Ok (64, false)
             | _ => Panic
             end);
  result ← lift (packed_shift_result value count wl.1 wl.2);
  write_xmm_operand i 0 result.

(** ** String instructions *)

Definition string_step (size : Z) (r : Registers) : Z :=
  if flag r FLAG_DF then - size else size.

(** [for _ in 0..count], the count being a [u64]. *)
Fixpoint stos_loop (count : nat) (step : Z) (bytes : list Z) (address : Z) : CpuM Z :=
  match count with
  | O => mret address
  | S count =>
      on_memory (write_bytes address bytes) ;;
      stos_loop count step bytes (wrapping_add_signed address step)
  end.

Definition execute_stos (i : Instruction) : CpuM unit :=
  size ← lift (match i_mnemonic i with
               | MStosb => Ok 1 | MStosw => Ok 2 | MStosd => Ok 4 | MStosq => Ok 8
               | _ => Panic
               end);
  count ← (if i_has_rep_prefix i then reg rcx else mret 1);
  step ← reg (string_step size);
  rax ← reg rax;
  bytes ← lift (u64_to_little_endian rax size);
  base ← gets (segment_base (i_memory_segment i));
  rdi ← reg rdi;
  address ← stos_loop (Z.to_nat count) step bytes (wrapping_add base rdi);
  base ← gets (segment_base (i_memory_segment i));
  assign (set_rdi (wrapping_sub address base)) ;;
  if i_has_rep_prefix i then assign (set_rcx 0) else mret tt.

Fixpoint movs_loop (count : nat) (step size source destination : Z) : CpuM (Z * Z) :=
  match count with
  | O => mret (source, destination)
  | S count =>
      bytes ← reads (read_memory source size);
      on_memory (write_bytes destination bytes) ;;
      movs_loop count step size (wrapping_add_signed source step)
        (wrapping_add_signed destination step)
  end.

Definition execute_movs (i : Instruction) : CpuM unit :=
  size ← lift (match i_mnemonic i with
               | MMovsb => Ok 1 | MMovsw => Ok 2 | MMovsd => Ok 4 | MMovsq => Ok 8
               | _ => Panic
               end);
  count ← (if i_has_rep_prefix i then reg rcx else mret 1);
  step ← reg (string_step size);
  source_base ← gets (segment_base (i_memory_segment i));
  rsi ← reg rsi;
  rdi ← reg rdi;
  sd ← movs_loop (Z.to_nat count) step size (wrapping_add source_base rsi) rdi;
  assign (set_rsi (wrapping_sub sd.1 source_base)) ;;
  assign (set_rdi sd.2) ;;
  if i_has_rep_prefix i then assign (set_rcx 0) else mret tt.

(** The three [break]s at the end of an iteration, in their order. *)
Definition string_break (i : Instruction) (repeated : bool) (r : Registers) : bool :=
  (i_has_repe_prefix i && negb (flag r FLAG_ZF))
  || (i_has_repne_prefix i && flag r FLAG_ZF)
  || negb repeated.

(** [while count > 0]: returns the address and the count left. *)
Fixpoint scas_loop (count : nat) (i : Instruction) (repeated : bool) (step width address : Z)
    : CpuM (Z * Z) :=
  match count with
  | O => mret (address, 0)
  | S count =>
      bytes ← reads (read_memory address (width / 8));
      scanned ← lift (little_endian_to_u64 bytes);
      acc ← reads (accumulator width);
      let acc := Z.land acc (mask width) in
      let result := wrapping_sub acc scanned in
      set_sub_flags acc scanned result width ;;
      let address := wrapping_add_signed address step in
      stop ← reg (string_break i repeated);
      if stop : bool then mret (address, Z.of_nat count)
      else scas_loop count i repeated step width address
  end.

Definition execute_scas (i : Instruction) : CpuM unit :=
  width ← lift (match i_mnemonic i with
                | MScasb => Ok 8 | MScasw => Ok 16 | MScasd => Ok 32 | MScasq => Ok 64
                | _ => Panic
                end);
  let repeated := i_has_repe_prefix i || i_has_repne_prefix i in
  count ← (if repeated then reg rcx else mret 1);
  step ← reg (string_step (width / 8));
  base ← gets (segment_base (i_memory_segment i));
  rdi ← reg rdi;
  ac ← scas_loop (Z.to_nat count) i repeated step width (wrapping_add base rdi);
  assign (set_rdi (wrapping_sub ac.1 base)) ;;
  if repeated then assign (set_rcx ac.2) else mret tt.

Fixpoint cmps_loop (count : nat) (i : Instruction) (repeated : bool)
    (step width source destination : Z) : CpuM (Z * Z * Z) :=
  match count with
  | O => mret (source, destination, 0)
  | S count =>
      bytes ← reads (read_memory source (width / 8));
      left ← lift (little_endian_to_u64 bytes);
      bytes ← reads (read_memory destination (width / 8));
      right ← lift (little_endian_to_u64 bytes);
      let result := wrapping_sub left right in
      set_sub_flags left right result width ;;
      let source := wrapping_add_signed source step in
      let destination := wrapping_add_signed destination step in
      stop ← reg (string_break i repeated);
      if stop : bool then mret (source, destination, Z.of_nat count)
      else cmps_loop count i repeated step width source destination
  end.

Definition execute_cmps (i : Instruction) : CpuM unit :=
  width ← lift (match i_mnemonic i with
                | MCmpsb => Ok 8 | MCmpsw => Ok 16 | MCmpsd => Ok 32 | MCmpsq => Ok 64
                | _ => Panic
                end);
  let repeated := i_has_repe_prefix i || i_has_repne_prefix i in
  count ← (if repeated then reg rcx else mret 1);
  step ← reg (string_step (width / 8));
  source_base ← gets (segment_base (i_memory_segment i));
  rsi ← reg rsi;
  rdi ← reg rdi;
  sdc ← cmps_loop (Z.to_nat count) i repeated step width (wrapping_add source_base rsi) rdi;
  assign (set_rsi (wrapping_sub sdc.1.1 source_base)) ;;
  assign (set_rdi sdc.1.2) ;;
  if repeated then assign (set_rcx sdc.2) else mret tt.
End CpuSimd.
