(* ===== verification/Interp.v ===== *)
(** * Instruction dispatch, stepping and translated blocks

    Model of [execute], [step], [step_block], [run] and the block translation
    of [crates/ruxeon-cpu/src/interpreter.rs]. *)

From S2P Require Import Prelude Memory Registers Ir Iced Cpu CpuInt CpuSimd.

Open Scope Z_scope.

(** ** Classes of mnemonics *)

Definition is_jcc (m : Mnemonic) : bool :=
  match m with
  | MJo | MJno | MJb | MJae | MJe | MJne | MJbe | MJa
  | MJs | MJns | MJp | MJnp | MJl | MJge | MJle | MJg => true
  | _ => false
  end.

Definition is_setcc (m : Mnemonic) : bool :=
  match m with
  | MSeto | MSetno | MSetb | MSetae | MSete | MSetne | MSetbe | MSeta
  | MSets | MSetns | MSetp | MSetnp | MSetl | MSetge | MSetle | MSetg => true
  | _ => false
  end.

Definition is_cmovcc (m : Mnemonic) : bool :=
  match m with
  | MCmovo | MCmovno | MCmovb | MCmovae | MCmove | MCmovne | MCmovbe | MCmova
  | MCmovs | MCmovns | MCmovp | MCmovnp | MCmovl | MCmovge | MCmovle | MCmovg => true
  | _ => false
  end.

Definition mnemonic_kind (m : Mnemonic) : IrInstructionKind :=
  match m with
  | MSyscall => KSyscall
  | MJmp => Branch
  | MCall => Call
  | MRet => Return
  | _ => if is_jcc m then Branch else Compute
  end.

Definition block_terminator (kind : IrInstructionKind) : BlockTerminator :=
  match kind with
  | Compute => TFallThrough
  | Branch => TBranch
  | Call => TCall
  | Return => TReturn
  | KSyscall => TSyscall
  end.

(** ** Text of instructions *)

(** The ASCII characters that [str::trim] removes. *)
Definition is_space (c : Z) : bool := (c =? 32) || ((9 <=? c) && (c <=? 13)).

Fixpoint trim_start (s : list Z) : list Z :=
  match s with
  | [] => []
  | c :: s' => if is_space c then trim_start s' else s
  end.

Definition trim (s : list Z) : list Z := rev (trim_start (rev (trim_start s))).

(** [str::split(c)]: one piece more than there are separators. *)
Fixpoint split_on (c : Z) (s : list Z) : list (list Z) :=
  match s with
  | [] => [[]]
  | x :: s =>
      if x =? c then [] :: split_on c s
      else match split_on c s with
           | [] => [[x]]
           | p :: ps => (x :: p) :: ps
           end
  end.

(** [splitn(2, c)]: the text before the first separator and the rest, if any. *)
Fixpoint split_once (c : Z) (s : list Z) : list Z * option (list Z) :=
  match s with
  | [] => ([], None)
  | x :: s =>
      if x =? c then ([], Some s)
      else let '(p, q) := split_once c s in (x :: p, q)
  end.

Definition split_instruction (text : list Z) : list Z * list (list Z) :=
  let '(mnemonic, rest) := split_once 32 text in
  (mnemonic,
   match rest with
   | Some operands =>
       filter (fun o => negb (len o =? 0) = true) (trim <$> split_on 44 operands)
   | None => []
   end).

Section Interp.
Context `{ICED : Iced}.
Abbreviation CpuM A := (ST Interpreter CpuError A).

Definition instruction_kind (i : Instruction) : IrInstructionKind := mnemonic_kind (i_mnemonic i).

Definition unsupported_instruction_record (i : Instruction) (text : list Z) (s : Interpreter)
    : res CpuError UnsupportedInstructionRecord :=
  raw_bytes ← map_err CpuMemory (fetch_bytes (memory s) (i_ip i) (i_len i));
  let '(mnemonic, operands) := split_instruction text in
  Ok (mkUnsupported (i_ip i) raw_bytes mnemonic operands text (registers s)).

Definition unsupported {A} (i : Instruction) (text : list Z) : CpuM A :=
  record ← reads (unsupported_instruction_record i text);
  raise (UnsupportedInstruction record).

(** ** Execution of one instruction *)

(** The outcome of an arm of the dispatch and its [rip_written]. *)
Definition arm : Type := StepOutcome * bool.

Definition continues (m : CpuM unit) : CpuM arm := m ;; mret (Continue, false).

Definition execute_mov (i : Instruction) : CpuM unit :=
  width ← lift (destination_width i 0);
  value ← reads (read_operand i 1 width);
  write_operand i 0 value width.

Definition execute_movx (i : Instruction) (sign : bool) : CpuM unit :=
  dw ← lift (destination_width i 0);
  sw ← lift (source_width i 1);
  value ← reads (read_operand i 1 sw);
  value ← lift (if sign then sign_extend value sw else Ok value);
  write_operand i 0 value dw.

Definition execute_lea (i : Instruction) : CpuM unit :=
  address ← reads (effective_address i);
  width ← lift (destination_width i 0);
  write_operand i 0 address width.

Definition execute_cmp (i : Instruction) : CpuM unit :=
  width ← lift (destination_width i 0);
  left ← reads (read_operand i 0 width);
  right ← reads (read_operand i 1 width);
  set_sub_flags left right (wrapping_sub left right) width.

Definition execute_test (i : Instruction) : CpuM unit :=
  width ← lift (destination_width i 0);
  left ← reads (read_operand i 0 width);
  right ← reads (read_operand i 1 width);
  set_logic_flags (Z.land left right) width.

Definition execute_cbw : CpuM unit :=
  x ← reads (fun s => sign_extend (Z.land (rax (registers s)) 0xff) 8);
  on_registers (write AX (Z.land x 0xffff)).

Definition execute_cwde : CpuM unit :=
  x ← reads (fun s => sign_extend (Z.land (rax (registers s)) 0xffff) 16);
  on_registers (write EAX (Z.land x 0xffffffff)).

Definition execute_cdqe : CpuM unit :=
  x ← reads (fun s => sign_extend (Z.land (rax (registers s)) 0xffffffff) 32);
  assign (set_rax x).

Definition execute_cwd : CpuM unit :=
  sign ← reg (fun r => nonzero (Z.land (rax r) 0x8000));
  on_registers (write DX (if sign : bool then 0xffff else 0)).

Definition execute_cdq : CpuM unit :=
  sign ← reg (fun r => nonzero (Z.land (rax r) 0x80000000));
  on_registers (write EDX (if sign : bool then 0xffffffff else 0)).

Definition execute_cqo : CpuM unit :=
  assign (fun r => set_rdx (if nonzero (Z.land (rax r) (Z.shiftl 1 63)) then u64_max else 0) r).

Definition execute_jmp (i : Instruction) : CpuM arm :=
  target ← reads (branch_target i 0);
  assign (set_rip target) ;;
  mret (Continue, true).

Definition execute_call (i : Instruction) (next_ip : Z) : CpuM arm :=
  target ← reads (branch_target i 0);
  push_u64 next_ip ;;
  assign (set_rip target) ;;
  mret (Continue, true).

Definition execute_ret (i : Instruction) : CpuM arm :=
  target ← pop_u64;
  (if i_op_count i =? 1
   then assign (fun r => set_rsp (wrapping_add (rsp r) (i_immediate16 i)) r)
   else mret tt) ;;
  assign (set_rip target) ;;
  mret (Continue, true).

Definition execute_leave : CpuM unit :=
  assign (fun r => set_rsp (rbp r) r) ;;
  value ← pop_u64;
  assign (set_rbp value).

Definition execute_push (i : Instruction) : CpuM unit :=
  value ← reads (read_operand i 0 64);
  push_u64 value.

Definition execute_pop (i : Instruction) : CpuM unit :=
  value ← pop_u64;
  width ← lift (destination_width i 0);
  write_operand i 0 value width.

Definition trap_of (r : Registers) : SyscallTrap :=
  mkTrap (rax r) [rdi r; rsi r; rdx r; r10 r; r8 r; r9 r].

Definition execute_syscall (next_ip : Z) : CpuM arm :=
  assign (set_rcx next_ip) ;;
  assign (fun r => set_r11 (rflags r) r) ;;
  assign (set_rip next_ip) ;;
  trap ← reg trap_of;
  mret (Syscall trap, true).

Definition execute_movsd (i : Instruction) (text : list Z) : CpuM unit :=
  match i_code i with
  | Movsd_m32_m32 => execute_movs i
  | Movsd_xmm_xmmm64 | Movsd_xmmm64_xmm => execute_mov_simd_scalar i 64
  | _ => unsupported i text
  end.

Definition execute_cmpsd (i : Instruction) (text : list Z) : CpuM unit :=
  match i_code i with
  | Cmpsd_m32_m32 => execute_cmps i
  | _ => unsupported i text
  end.

(** The arms guarded by [is_cmovcc], [is_setcc] and [is_jcc], and the last. *)
Definition execute_conditional (i : Instruction) (text : list Z) : CpuM arm :=
  let m := i_mnemonic i in
  if is_cmovcc m then continues (
    passed ← reads (condition_passed m);
    if passed : bool then
      width ← lift (destination_width i 0);
      value ← reads (read_operand i 1 width);
      write_operand i 0 value width
    else mret tt)
  else if is_setcc m then continues (
    passed ← reads (condition_passed m);
    write_operand i 0 (b2z passed) 8)
  else if is_jcc m then
    passed ← reads (condition_passed m);
    if passed : bool then
      target ← reads (branch_target i 0);
      assign (set_rip target) ;;
      mret (Continue, true)
    else mret (Continue, false)
  else unsupported i text.

Definition execute_arm (i : Instruction) (text : list Z) (next_ip : Z) : CpuM arm :=
  match i_mnemonic i with
  | MMov => continues (execute_mov i)
  | MMovsx | MMovsxd => continues (execute_movx i true)
  | MMovzx => continues (execute_movx i false)
  | MMovd => continues (execute_mov_simd_scalar i 32)
  | MMovq => continues (execute_mov_simd_scalar i 64)
  | MXchg => continues (execute_xchg i)
  | MXadd => continues (execute_xadd i)
  | MMovdqa | MMovdqu | MMovups | MMovaps => continues (execute_xmm_move i)
  | MMovlpd => continues (execute_mov_half_pd i false)
  | MMovhpd => continues (execute_mov_half_pd i true)
  | MPunpcklbw | MPunpcklwd | MPunpckldq | MPunpcklqdq
  | MPunpckhbw | MPunpckhwd | MPunpckhdq | MPunpckhqdq => continues (execute_punpck i)
  | MPxor | MXorps | MXorpd => continues (execute_xmm_binary i XXor)
  | MPor | MOrps | MOrpd => continues (execute_xmm_binary i XOr)
  | MPand | MAndps | MAndpd => continues (execute_xmm_binary i XAnd)
  | MPcmpeqb | MPcmpeqw | MPcmpeqd | MPcmpeqq => continues (execute_packed_compare_equal i)
  | MPcmpgtb | MPcmpgtw | MPcmpgtd | MPcmpgtq => continues (execute_packed_compare_greater i)
  | MPmovmskb => continues (execute_pmovmskb i)
  | MPminub | MPmaxub => continues (execute_packed_byte_minmax i)
  | MPaddb | MPsubb => continues (execute_packed_byte_arithmetic i)
  | MPshufd => continues (execute_pshufd i)
  | MShufps => continues (execute_shufps i)
  | MPslldq | MPsrldq => continues (execute_packed_byte_shift i)
  | MPslld | MPsrld | MPsllq | MPsrlq => continues (execute_packed_shift i)
  | MStosb | MStosw | MStosd | MStosq => continues (execute_stos i)
  | MMovsb | MMovsw | MMovsq => continues (execute_movs i)
  | MMovsd => continues (execute_movsd i text)
  | MScasb | MScasw | MScasd | MScasq => continues (execute_scas i)
  | MCmpsb | MCmpsw | MCmpsq => continues (execute_cmps i)
  | MCmpsd => continues (execute_cmpsd i text)
  | MCbw => continues execute_cbw
  | MCwde => continues execute_cwde
  | MCdqe => continues execute_cdqe
  | MCwd => continues execute_cwd
  | MCdq => continues execute_cdq
  | MCqo => continues execute_cqo
  | MLea => continues (execute_lea i)
  | MAdd => continues (execute_binary i Add)
  | MSub => continues (execute_binary i Sub)
  | MAdc => continues (execute_binary i Adc)
  | MSbb => continues (execute_binary i Sbb)
  | MXor => continues (execute_binary i Xor)
  | MAnd => continues (execute_binary i And)
  | MOr => continues (execute_binary i Or)
  | MNeg => continues (execute_unary i Neg)
  | MNot => continues (execute_unary i Not)
  | MInc => continues (execute_unary i Inc)
  | MDec => continues (execute_unary i Dec)
  | MRol | MRor => continues (execute_rotate i)
  | MBswap => continues (execute_bswap i)
  | MShl | MSal => continues (execute_shift i Shl)
  | MShld => continues (execute_double_shift i Shld)
  | MShr => continues (execute_shift i Shr)
  | MShrd => continues (execute_double_shift i Shrd)
  | MSar => continues (execute_shift i Sar)
  | MBt => continues (execute_bit_test i)
  | MBts | MBtr | MBtc => continues (execute_bit_modify i)
  | MCld => continues (set_flag_m FLAG_DF false)
  | MStd => continues (set_flag_m FLAG_DF true)
  | MBsf => continues (execute_bit_scan i Forward)
  | MBsr => continues (execute_bit_scan i Reverse)
  | MMul => continues (execute_mul i false)
  | MImul => continues (execute_imul i)
  | MDiv => continues (execute_div i false)
  | MIdiv => continues (execute_div i true)
  | MCmp => continues (execute_cmp i)
  | MCmpxchg => continues (execute_cmpxchg i)
  | MTest => continues (execute_test i)
  | MJmp => execute_jmp i
  | MCall => execute_call i next_ip
  | MRet => execute_ret i
  | MLeave => continues execute_leave
  | MPush => continues (execute_push i)
  | MPop => continues (execute_pop i)
  | MNop | MPrefetchnta | MPrefetcht0 | MPrefetcht1 | MPrefetcht2 | MPrefetchw =>
      mret (Continue, false)
  | MSyscall => execute_syscall next_ip
  | MRdtsc => continues execute_rdtsc
  | MCpuid => continues execute_cpuid
  | _ => execute_conditional i text
  end.

Definition execute (i : Instruction) (text : list Z) : CpuM StepOutcome :=
  let next_ip := i_next_ip i in
  a ← execute_arm i text next_ip;
  let '(outcome, rip_written) := a in
  (if rip_written : bool then mret tt else assign (set_rip next_ip)) ;;
  mret outcome.

(** ** Single steps *)

Definition current_instruction_record (s : Interpreter)
    : res CpuError UnsupportedInstructionRecord :=
  let ip := rip (registers s) in
  i ← decode ip s;
  if decide (i_code i = INVALID) then Err (InvalidInstruction ip)
  else unsupported_instruction_record i (format_instruction i) s.

(** [.map_err(|source| CpuError::Execution { .. })]. *)
Definition wrap_execution {A} (ip : Z) (text : list Z) (m : CpuM A) : CpuM A := fun s =>
  let '(r, s') := m s in (map_err (Execution ip text) r, s').

Definition push_trace (ip : Z) (text : list Z) (before : Registers) : CpuM unit :=
  modify (fun s => if trace_enabled s
                   then set_trace (trace s ++ [mkTrace ip text before (registers s)]) s
                   else s).

Definition step : CpuM StepOutcome :=
  v ← handle_vsyscall;
  match v with
  | Some outcome => mret outcome
  | None =>
      ip ← reg rip;
      i ← reads (decode ip);
      if decide (i_code i = INVALID) then raise (InvalidInstruction ip) else
      let text := format_instruction i in
      before ← gets registers;
      outcome ← wrap_execution ip text (execute i text);
      push_trace ip text before ;;
      mret outcome
  end.

(** ** Translated blocks *)

(** The loop of [translate_block]: [fuel] iterations are left. *)
Fixpoint translate_loop (fuel : nat) (ip : Z) (irs : list IrInstruction)
    (ds : list Instruction) (terminator : BlockTerminator) (s : Interpreter)
    : res CpuError (list IrInstruction * list Instruction * BlockTerminator) :=
  match fuel with
  | O => Ok (irs, ds, terminator)
  | S fuel =>
      i ← decode ip s;
      if decide (i_code i = INVALID) then Err (InvalidInstruction ip) else
      let kind := instruction_kind i in
      let terminator := block_terminator kind in
      let irs := irs ++ [mkIrInstruction ip (wrap 8 (i_len i)) (format_instruction i) kind] in
      let ds := ds ++ [i] in
      if decide (kind = Compute) then translate_loop fuel (i_next_ip i) irs ds terminator s
      else Ok (irs, ds, terminator)
  end.

Definition translate_block (start_ip : Z) (s : Interpreter)
    : res CpuError (BasicBlock * list Instruction) :=
  t ← translate_loop MAX_BLOCK_INSTRUCTIONS start_ip [] [] TFallThrough s;
  let '(irs, ds, terminator) := t in
  block ← block_new start_ip irs terminator;
  Ok (block, ds).

Definition on_ir {A} (m : ST BlockCache CpuError A) : CpuM A :=
  on_cache (zoom ir (fun b c => mkExecutionCache b (decoded c)) (fun e => e) m).

(** The translation of a block on a miss, filed in both maps. *)
Definition fill_block (ip : Z) : CpuM (BasicBlock * list Instruction) :=
  bd ← reads (translate_block ip);
  on_ir (modify (insert bd.1)) ;;
  on_cache (modify (fun c => mkExecutionCache (ir c) (<[ip := bd.2]> (decoded c)))) ;;
  mret bd.

Definition cached_block (ip : Z) : CpuM (BasicBlock * list Instruction) :=
  found ← on_ir (get ip);
  match found with
  | Some block =>
      d ← gets (fun s => decoded (cache s) !! ip);
      match d with
      | Some ds => mret (block, ds)
      | None => fill_block ip
      end
  | None => fill_block ip
  end.

Definition is_continue (o : StepOutcome) : bool :=
  match o with Continue => true | _ => false end.

(** The loop over the instructions of a block, from [index] on. *)
Fixpoint block_loop (block : BasicBlock) (index : nat) (ds : list Instruction)
    : CpuM StepOutcome :=
  match ds with
  | [] => mret Continue
  | i :: ds =>
      rip ← reg rip;
      if negb (rip =? i_ip i) then mret Continue else
      e ← lift (expect (instructions block !! index));
      let text := ir_text e in
      before ← gets registers;
      outcome ← wrap_execution (i_ip i) text (execute i text);
      push_trace (i_ip i) text before ;;
      if negb (is_continue outcome) || bool_decide (ir_kind e <> Compute)
      then mret outcome
      else block_loop block (S index) ds
  end.

Definition step_block : CpuM StepOutcome :=
  v ← handle_vsyscall;
  match v with
  | Some outcome => mret outcome
  | None =>
      start_ip ← reg rip;
      bd ← cached_block start_ip;
      block_loop bd.1 0 bd.2
  end.

(** ** The run loop *)

Fixpoint run_loop (n : nat) : CpuM RunOutcome :=
  match n with
  | O => mret StepLimit
  | S n =>
      outcome ← step_block;
      match outcome with
      | Continue => run_loop n
      | Halted code => mret (Exited code)
      | Syscall trap =>
          if (number trap =? 60) || (number trap =? 231)
          then a ← lift (index (args trap) 0); mret (Exited (signed 32 a))
          else mret (RSyscall trap)
      end
  end.

Definition run (max_steps : Z) : CpuM RunOutcome :=
  if max_steps =? 0 then raise EmptyStepLimit else run_loop (Z.to_nat max_steps).
End Interp.
