(* ===== verification/CpuInv.v ===== *)
(** * Invariants of execution

    Whatever an instruction does, and however it ends, the memory map stays
    well-formed and of the same shape, bytes the guest may not write keep
    their values, and every register stays in the range of its type. *)

From S2P Require Import Prelude Memory MemorySpec Registers Ir Iced Cpu CpuInt CpuSimd Interp.

Open Scope Z_scope.

Create HintDb cpu.

Section Inv.
Context `{LAWS : IcedLaws}.
Abbreviation CpuM A := (ST Interpreter CpuError A).

(** ** The invariant, relative to the memory [m0] execution starts from *)

Definition protected (m0 m : GuestMemory) : Prop :=
  forall a p v, cell m0 a = Some (p, v) -> contains p WRITE = false -> cell m a = Some (p, v).

Record inv (m0 : GuestMemory) (s : Interpreter) : Prop := {
  inv_memory : wf (memory s);
  inv_shape : shape (memory s) = shape m0;
  inv_protected : protected m0 (memory s);
  inv_registers : wf_registers (registers s);
  inv_cache : wf_cache (ir (cache s))
}.

Context (m0 : GuestMemory).
Abbreviation I := (inv m0).

(** ** Primitives *)

Lemma write_bytes_inv a bytes m : wf m -> Forall (fits 8) bytes ->
  let m' := (write_bytes a bytes m).2 in
  shape m = shape m0 -> protected m0 m ->
  wf m' /\ shape m' = shape m0 /\ protected m0 m'.
Proof.
  intros Hm Hb m' Hs Hp. unfold m'.
  destruct (write_bytes_cases a bytes m Hm Hb) as [[e ->]|(m1&r&->&Hm1&Hs1&Hr&Hw&_&Hc)]; [done|].
  simpl. split; [done|]. split; [by rewrite Hs1|]. intros x p v Hx Hnw. rewrite Hc.
  pose proof (Hp x p v Hx Hnw) as Hcm. unfold a_store.
  destruct (in_range a (len bytes) x) eqn:Hin; [|done]. exfalso.
  apply in_range_true in Hin. apply region_Ok in Hr as (Hel&_&Hlo&Hhi).
  destruct (region_cell_is_Some r x) as (b&Hd&Hrc); [by apply (wf_elem m)|lia|].
  erewrite (data_cell m r x) in Hcm; [|done|done|lia|done]. congruence.
Qed.

Lemma spec_assign f : (forall r, wf_registers r -> wf_registers (f r)) ->
  preserves I (assign f).
Proof. intros Hf. apply spec_modify. intros s []. by split; simpl; auto. Qed.

Lemma spec_reg {A} (f : Registers -> A) (Q : A -> Prop) :
  (forall r, wf_registers r -> Q (f r)) -> spec I (reg f) Q.
Proof. intros HQ. apply spec_gets. intros s []. auto. Qed.

Lemma spec_on_registers g v : u64 v -> preserves I (on_registers (write g v)).
Proof.
  intros Hv. eapply spec_zoom; [by apply write_spec|intros s []; done|].
  intros s t [] ?. by split.
Qed.

Lemma spec_on_memory a bytes : Forall (fits 8) bytes ->
  preserves I (on_memory (write_bytes a bytes)).
Proof.
  intros Hb s [Hm Hs Hp Hr Hc]. unfold on_memory, zoom.
  pose proof (write_bytes_inv a bytes (memory s) Hm Hb Hs Hp) as Hw.
  destruct (write_bytes a bytes (memory s)) as [r m']; simpl in *.
  destruct Hw as (?&?&?). split; [by split|done].
Qed.

Lemma spec_on_memory_u64 a v : preserves I (on_memory (write_u64 a v)).
Proof. apply spec_on_memory, to_le_u8. Qed.

Lemma spec_on_memory_u32 a v : preserves I (on_memory (write_u32 a v)).
Proof. apply spec_on_memory, to_le_u8. Qed.

Lemma spec_on_cache {A} (m : ST ExecutionCache CpuError A) :
  preserves (fun c => wf_cache (ir c)) m -> preserves I (on_cache m).
Proof.
  intros Hm. eapply spec_zoom; [exact Hm|by intros s []|]. intros s t [] ?. by split.
Qed.

Lemma cache_invalidate_wf {E} a n :
  preserves (fun c => wf_cache (ir c)) (cache_invalidate_range (E:=E) a n).
Proof.
  intros c Hc. split; [|done]. unfold cache_invalidate_range.
  destruct (invalidate_wf (E:=E) a n (ir c) Hc) as [Hw _].
  destruct (invalidate_range a n (ir c)) as [r c']. exact Hw.
Qed.

Lemma spec_any {A} (f : Interpreter -> res CpuError A) : preserves I (reads f).
Proof. by apply spec_reads. Qed.

Lemma spec_any_lift {A} (r : res CpuError A) : preserves I (lift r).
Proof. by apply spec_lift. Qed.

Lemma spec_any_gets {A} (f : Interpreter -> A) : preserves I (gets f : CpuM A).
Proof. by apply spec_gets. Qed.

Lemma spec_any_reg {A} (f : Registers -> A) : preserves I (reg f).
Proof. by apply spec_reg. Qed.

Lemma spec_ignore {A} (m : CpuM A) Q : spec I m Q -> preserves I (ignore_result m).
Proof.
  intros Hm s Hs. destruct (Hm s Hs) as [H1 _]. unfold ignore_result.
  by destruct (m s) as [[] s'].
Qed.

Lemma spec_set_flag_m f v : u64 f -> preserves I (set_flag_m f v).
Proof. intros. apply spec_assign. intros. by apply set_flag_wf. Qed.

(** ** Ranges of the values the operands deliver *)

Lemma sign_extend_u64 {E} v w r : 0 <= w -> @sign_extend E v w = Ok r -> u64 r.
Proof.
  intros Hw. unfold sign_extend. destruct (sign_bit w) as [sg| |]; simpl; [|done..].
  assert (u64 (Z.land v (mask w))) by (apply land_fits_r; [lia|by apply mask_u64]).
  destruct (negb _); intros [= <-]; auto with fits.
Qed.

Lemma little_endian_from_u64 {E} k bs v r : u64 v ->
  @little_endian_from E k bs v = Ok r -> u64 r.
Proof.
  revert k v. induction bs as [|b bs IH]; intros k v Hv; simpl; [congruence|].
  destruct (shl 64 b (k * 8)) as [x| |] eqn:Hx; simpl; [|done..].
  apply IH. apply lor_fits; [lia|done|]. by eapply shl_fits.
Qed.

Lemma little_endian_u64 {E} bs r : @little_endian_to_u64 E bs = Ok r -> u64 r.
Proof. by apply little_endian_from_u64. Qed.

Lemma effective_address_u64 i s a : effective_address i s = Ok a -> u64 a.
Proof.
  unfold effective_address. destruct (i_is_ip_rel_memory_operand i).
  { intros [= <-]. by apply wrap_fits. }
  set (a0 := wrapping_add _ _). assert (u64 a0) as Ha0 by by apply wrap_fits. clearbody a0.
  assert (forall o, match i_memory_base i with
      | NoRegister => Ok a0
      | base => v ← read_register base s; Ok (wrapping_add a0 v) end = Ok o -> u64 o) as Hb.
  { intros o. destruct (i_memory_base i); (intros [= <-]; done) || 
      (destruct (read_register _ s); simpl; [|done..]; intros [= <-]; by apply wrap_fits). }
  destruct (match i_memory_base i with NoRegister => _ | _ => _ end) as [a1| |]; [|done..].
  specialize (Hb a1 eq_refl). cbn [mbind res_bind].
  destruct (i_memory_index i); (intros [= <-]; done) ||
    (destruct (read_register _ s); simpl; [|done..]; intros [= <-]; by apply wrap_fits).
Qed.

Lemma read_operand_u64 i k w s v : wf_registers (registers s) -> read_operand i k w s = Ok v -> u64 v.
Proof.
  intros Hr. unfold read_operand.
  destruct (i_op_kind i k); try (intros [= <-]; apply LAWS); try (by apply sign_extend_u64);
    try (intros [= <-]; eapply fits_le; [|apply LAWS]; lia).
  - unfold read_register. destruct (read _ _) eqn:Hg; simpl; [|done..]. intros [= <-].
    by eapply read_range.
  - destruct (memory_size i w); simpl; [|done..]. destruct (effective_address i s); simpl; [|done..].
    destruct (read_memory _ _ s); simpl; [|done..]. by apply little_endian_u64.
Qed.

Lemma width_nonneg i k w : destination_width i k = Ok w -> 0 <= w.
Proof.
  unfold destination_width, width_of_register, memory_width.
  destruct (i_op_kind i k); try done.
  - pose proof (slot_of_width (i_op_register i k)) as Hs.
    destruct (slot_of (i_op_register i k)) as [sl|].
    + destruct Hs as (w'&->&Hin). simpl. intros [= <-]. simpl in Hin. lia.
    + by rewrite Hs.
  - destruct (memory_size i 64); simpl; [|done..]. destruct (mul64 _ 8); simpl; [|done..].
    intros [= <-]. by apply wrap_fits.
Qed.

Lemma source_width_nonneg i k w : source_width i k = Ok w -> 0 <= w.
Proof.
  assert (forall w', destination_width i k = Ok w' -> 0 <= w') as Hd by apply width_nonneg.
  unfold source_width, destination_width in *.
  destruct (i_op_kind i k); try apply Hd; try done; intros [= <-]; lia.
Qed.

Lemma accumulator_u64 w s v : wf_registers (registers s) -> accumulator w s = Ok v -> u64 v.
Proof.
  intros Hr. unfold accumulator, read_register. destruct (read _ _) eqn:Hg; simpl; [|done..].
  intros [= <-]. by eapply read_range.
Qed.

Lemma branch_target_u64 i k s v : wf_registers (registers s) -> branch_target i k s = Ok v -> u64 v.
Proof.
  intros Hr. unfold branch_target.
  destruct (i_op_kind i k) eqn:Hk; try done; try (intros [= <-]; apply LAWS);
    try (intros [= <-]; eapply fits_le; [|apply LAWS]; lia); by apply read_operand_u64.
Qed.

Lemma u64_to_le_u8 {E} v n bs : @u64_to_little_endian E v n = Ok bs -> Forall (fits 8) bs.
Proof. intros Hs. eapply slice_Forall; [exact Hs|apply to_le_u8]. Qed.

Lemma next_ip_u64 i : u64 (i_next_ip i).
Proof. rewrite next_ip_def. by apply wrap_fits. Qed.

Lemma read_memory_u8 a n s bs : wf (memory s) -> 0 <= n ->
  read_memory a n s = Ok bs -> len bs = n /\ Forall (fits 8) bs.
Proof.
  intros Hm Hn. unfold read_memory. destruct (read_bytes _ a n) eqn:Hr; simpl; [|done..].
  intros [= <-]. by apply read_bytes_inv in Hr as (?&_&_&?&?&_).
Qed.

Lemma xmm_get_u128 {E} ix s v : wf_registers (registers s) -> xmm_get (E:=E) ix s = Ok v -> u128 v.
Proof.
  intros Hr. unfold xmm_get, index. destruct (0 <=? ix); [|done].
  destruct (_ !! _) eqn:Hl; simpl; [|done]. intros [= <-].
  pose proof (wfr_xmm _ Hr) as Hx. rewrite Forall_forall in Hx. apply Hx.
  by eapply list_elem_of_lookup_2.
Qed.

Lemma read_xmm_u128 i k s v : wf (memory s) -> wf_registers (registers s) ->
  read_xmm_operand i k s = Ok v -> u128 v.
Proof.
  intros Hm Hr. unfold read_xmm_operand, xmm_index_or.
  destruct (i_op_kind i k); try done.
  - destruct (xmm_index _); simpl; [|done]. by apply xmm_get_u128.
  - destruct (effective_address i s); simpl; [|done..].
    destruct (read_memory _ 16 s) eqn:Hb; simpl; [|done..].
    apply read_memory_u8 in Hb as [Hl Hf]; [|done|lia]. rewrite Hl. simpl.
    intros [= <-]. pose proof (of_le_fits _ Hf) as Hle. by rewrite Hl in Hle.
Qed.

(** ** The postconditions of the shared operations *)

Lemma spec_read_operand i k w : spec I (reads (read_operand i k w)) (fits 64).
Proof. apply spec_reads. intros s v []. by apply read_operand_u64. Qed.

Lemma spec_effective_address i : spec I (reads (effective_address i)) (fits 64).
Proof. apply spec_reads. intros s v _. by apply effective_address_u64. Qed.

Lemma spec_branch_target i k : spec I (reads (branch_target i k)) (fits 64).
Proof. apply spec_reads. intros s v []. by apply branch_target_u64. Qed.

Lemma spec_accumulator w : spec I (reads (accumulator w)) (fits 64).
Proof. apply spec_reads. intros s v []. by apply accumulator_u64. Qed.

Lemma spec_read_xmm i k : spec I (reads (read_xmm_operand i k)) (fits 128).
Proof. apply spec_reads. intros s v []. by apply read_xmm_u128. Qed.

Lemma spec_xmm_get ix : spec I (reads (xmm_get ix) : CpuM Z) (fits 128).
Proof. apply spec_reads. intros s v []. by apply xmm_get_u128. Qed.

Lemma spec_read_memory a n : 0 <= n ->
  spec I (reads (read_memory a n)) (fun bs => len bs = n /\ Forall (fits 8) bs).
Proof. intros. apply spec_reads. intros s v []. by apply read_memory_u8. Qed.

Lemma spec_destination_width i k : spec I (lift (destination_width i k)) (fun w => 0 <= w).
Proof. apply spec_lift. intros w. apply width_nonneg. Qed.

Lemma spec_source_width i k : spec I (lift (source_width i k)) (fun w => 0 <= w).
Proof. apply spec_lift. intros w. apply source_width_nonneg. Qed.

Lemma spec_to_le v n : spec I (lift (u64_to_little_endian v n) : CpuM _) (Forall (fits 8)).
Proof. apply spec_lift. intros bs. apply u64_to_le_u8. Qed.

Lemma spec_le_u64 bs : spec I (lift (little_endian_to_u64 bs) : CpuM Z) (fits 64).
Proof. apply spec_lift. intros v. apply little_endian_u64. Qed.

Lemma spec_simd_source i k w : 0 <= w ->
  spec I (reads (read_simd_scalar_source i k w)) (fits 64).
Proof.
  intros Hw. apply spec_reads. intros s v []. unfold read_simd_scalar_source.
  destruct (i_op_kind i k); try by apply read_operand_u64.
  - destruct (xmm_index _); simpl.
    + destruct (xmm_get _ s); simpl; [|done..]. intros [= <-].
      apply land_fits_l; [lia|by apply wrap_fits].
    + unfold read_register. destruct (read _ _) eqn:Hg; simpl; [|done..]. intros [= <-].
      by eapply read_range.
  - destruct (effective_address i s); simpl; [|done..].
    destruct (read_memory _ _ s); simpl; [|done..]. by apply little_endian_u64.
Qed.

Lemma spec_xmm_set ix v : u128 v -> preserves I (xmm_set ix v).
Proof.
  intros Hv s Hs. unfold xmm_set. destruct (ix <? _); [|by split].
  revert s Hs. apply spec_assign. intros r Hr. apply set_xmm_wf; [done| |].
  - rewrite length_insert. apply Hr.
  - apply Forall_insert; [apply Hr|done].
Qed.
End Inv.

(** ** Automation

    One step of a proof that a computation preserves the invariant: a bind
    takes the postcondition of its first part from the database [cpu] when it
    is there and nothing otherwise. *)

Ltac cpu_arith := first [done | lia | by auto with fits | by eauto with fits
  | (eapply fits_le; [|eassumption]; lia) | by apply wrap_fits].

Ltac cpu_step :=
  match goal with
  | |- spec _ (mret _) _ => apply spec_ret
  | |- spec _ (raise _) _ => apply spec_raise
  | |- spec _ panic _ => apply spec_panic
  | |- spec _ (lift Panic) _ => apply spec_panic
  | |- spec _ (if ?b then _ else _) _ => destruct b eqn:?
  | |- spec _ (match ?x with _ => _ end) _ => destruct x eqn:?
  | |- spec _ (_ ≫= _) _ => eapply spec_bind; [solve [eauto 4 with cpu]|cbv beta; intros ? ?]
  | |- spec _ (_ ≫= _) _ =>
      apply (spec_bind _ _ _ (fun _ => True)); [|intros ? _]
  | |- spec _ _ _ => solve [eauto 4 with cpu]
  | |- spec _ _ (fun _ => True) => eapply spec_weaken; [solve [eauto 4 with cpu]|done]
  end.

Ltac cpu_go := repeat (cpu_step; cbv beta zeta); try cpu_arith.
