(* ===== verification/CpuSafe.v ===== *)
(** * Every instruction preserves the invariant

    The specifications of the operations of the interpreter, one by one, from
    the primitives of [CpuInv], up to [step], [step_block] and [run]. *)

From S2P Require Import Prelude Memory MemorySpec Registers Ir Iced ExampleDecoder Cpu CpuInt CpuSimd Interp CpuInv.

Open Scope Z_scope.

#[export] Hint Resolve spec_assign spec_on_registers spec_on_memory spec_on_memory_u64
  spec_on_memory_u32 spec_set_flag_m spec_xmm_set spec_read_operand spec_effective_address
  spec_branch_target spec_accumulator spec_read_xmm spec_xmm_get spec_read_memory
  spec_destination_width spec_source_width spec_to_le spec_le_u64 spec_simd_source : cpu.
#[export] Hint Resolve to_le_u8 : cpu.
#[export] Hint Extern 5 (fits _ _) => cpu_arith : cpu.
#[export] Hint Extern 5 (0 <= _) => lia : cpu.
#[export] Hint Extern 9 (spec _ (reads _) _) => apply spec_any : cpu.
#[export] Hint Extern 9 (spec _ (lift _) _) => apply spec_any_lift : cpu.
#[export] Hint Extern 9 (spec _ (gets _) _) => apply spec_any_gets : cpu.

(** ** Ranges of the lane loops *)

Lemma fold_res_inv {E A} (P : A -> Prop) (f : Z -> A -> res E A) l acc r :
  P acc -> (forall x a b, P a -> f x a = Ok b -> P b) -> fold_res f l acc = Ok r -> P r.
Proof.
  intros Ha Hf. revert acc Ha. induction l as [|x l IH]; intros acc Ha; simpl; [congruence|].
  destruct (f x acc) as [b| |] eqn:Hb; simpl; [|done..]. apply IH. by eapply Hf.
Qed.

(** Take the first operation of a chain of fallible integer operations. *)
Ltac bind_case := match goal with
  | |- mbind _ ?m = Ok _ -> _ =>
      let x := fresh "x" in let H := fresh "H" in
      destruct m as [x| |] eqn:H; cbn [mbind res_bind]; [|discriminate..]
  | |- (if ?b then _ else _) = Ok _ -> _ => destruct b
  end; cbv zeta.

Ltac lane_range := intros ? ? ? ?; cbv zeta; repeat bind_case; intros [= <-];
  repeat (apply lor_fits; [lia| |]); first [done | eassumption | (eapply shl_fits; [|eassumption]; lia)].

Section LaneRanges.
Context {E : Type}.

Lemma punpck_u128 d s b h r : @punpck_result E d s b h = Ok r -> u128 r.
Proof. apply fold_res_inv; [by vm_compute|]. lane_range. Qed.

Lemma compare_equal_u128 x y b r : @compare_equal_result E x y b = Ok r -> u128 r.
Proof. apply fold_res_inv; [by vm_compute|]. lane_range. Qed.

Lemma compare_greater_u128 x y b r : @compare_greater_result E x y b = Ok r -> u128 r.
Proof. apply fold_res_inv; [by vm_compute|]. lane_range. Qed.

Lemma byte_lanes_u128 f x y r : @byte_lanes E f x y = Ok r -> u128 r.
Proof. apply fold_res_inv; [by vm_compute|]. lane_range. Qed.

Lemma pshufd_u128 x y r : @pshufd_result E x y = Ok r -> u128 r.
Proof. apply fold_res_inv; [by vm_compute|]. lane_range. Qed.

Lemma shufps_u128 d s c r : @shufps_result E d s c = Ok r -> u128 r.
Proof.
  unfold shufps_result. cbv zeta. bind_case.
  assert (u128 x) as Hx.
  { revert H. apply fold_res_inv; [by vm_compute|]. lane_range. }
  apply fold_res_inv; [done|]. lane_range.
Qed.

Lemma packed_shift_u128 v c w b r : @packed_shift_result E v c w b = Ok r -> u128 r.
Proof. apply fold_res_inv; [by vm_compute|]. lane_range. Qed.
End LaneRanges.

(** An assignment to a named register keeps the register file well-formed. *)
Ltac slot_wf := intros; match goal with
  | |- wf_registers (set_rax ?v ?r) => apply (slot_set_wf Srax v r)
  | |- wf_registers (set_rcx ?v ?r) => apply (slot_set_wf Srcx v r)
  | |- wf_registers (set_rdx ?v ?r) => apply (slot_set_wf Srdx v r)
  | |- wf_registers (set_rsi ?v ?r) => apply (slot_set_wf Srsi v r)
  | |- wf_registers (set_rdi ?v ?r) => apply (slot_set_wf Srdi v r)
  | |- wf_registers (set_rbp ?v ?r) => apply (slot_set_wf Srbp v r)
  | |- wf_registers (set_rsp ?v ?r) => apply (slot_set_wf Srsp v r)
  | |- wf_registers (set_r11 ?v ?r) => apply (slot_set_wf Sr11 v r)
  | |- wf_registers (set_rip ?v ?r) => apply (slot_set_wf Srip v r)
  end; [assumption|cpu_arith].
#[export] Hint Extern 3 (forall r, wf_registers r -> wf_registers _) => slot_wf : cpu.

Section Safe.
Context `{LAWS : IcedLaws} (m0 : GuestMemory).
Abbreviation CpuM A := (ST Interpreter CpuError A).
Abbreviation I := (inv m0).

(** ** Operands, stack and flags *)

Lemma write_operand_spec i k v w : 0 <= w -> preserves I (write_operand i k v w).
Proof.
  intros Hw. assert (u64 (Z.land v (mask w))) by (apply land_fits_r; [lia|by apply mask_u64]).
  unfold write_operand. destruct (i_op_kind i k); cpu_go.
  apply spec_on_cache, cache_invalidate_wf.
Qed.

Lemma spec_reg_slot sl : spec I (reg (slot_get sl)) (fits 64).
Proof. apply spec_reg. intros r Hr. apply Hr. Qed.

Lemma spec_rip : spec I (reg rip) (fits 64). Proof. apply (spec_reg_slot Srip). Qed.
Lemma spec_rsp : spec I (reg rsp) (fits 64). Proof. apply (spec_reg_slot Srsp). Qed.
Lemma spec_rax : spec I (reg rax) (fits 64). Proof. apply (spec_reg_slot Srax). Qed.
Lemma spec_rcx : spec I (reg rcx) (fits 64). Proof. apply (spec_reg_slot Srcx). Qed.
Lemma spec_rsi : spec I (reg rsi) (fits 64). Proof. apply (spec_reg_slot Srsi). Qed.
Lemma spec_rdi : spec I (reg rdi) (fits 64). Proof. apply (spec_reg_slot Srdi). Qed.
#[local] Hint Resolve write_operand_spec spec_rip spec_rsp spec_rax spec_rcx spec_rsi spec_rdi : cpu.
#[local] Hint Extern 9 (spec _ (reg _) _) => apply spec_any_reg : cpu.

Lemma push_spec v : preserves I (push_u64 v).
Proof. unfold push_u64. cpu_go. Qed.

Lemma pop_spec : spec I pop_u64 (fits 64).
Proof.
  unfold pop_u64. eapply (spec_bind _ _ _ (fits 64)); [|intros v Hv; cpu_go].
  apply spec_reads. intros s v []. destruct (read_u64 _ _) as [x| |] eqn:Hr; simpl; [|done..].
  intros [= <-]. unfold read_u64, read_le in Hr.
  destruct (read_bytes _ _ _) as [bs| |] eqn:Hb; simpl in Hr; [|done..].
  apply read_bytes_inv in Hb as (?&_&_&Hl&Hf&_); [|done|lia]. rewrite Hl in Hr.
  injection Hr as <-. pose proof (of_le_fits _ Hf) as Hle. by rewrite Hl in Hle.
Qed.

Lemma set_common_flags_spec r w : preserves I (set_common_flags r w).
Proof. unfold set_common_flags. cpu_go. Qed.
#[local] Hint Resolve push_spec pop_spec set_common_flags_spec : cpu.

Lemma set_add_flags_spec a b r w : preserves I (set_add_flags a b r w).
Proof. unfold set_add_flags. cpu_go. Qed.

Lemma set_sub_flags_spec a b r w : preserves I (set_sub_flags a b r w).
Proof. unfold set_sub_flags. cpu_go. Qed.

Lemma set_logic_flags_spec r w : preserves I (set_logic_flags r w).
Proof. unfold set_logic_flags. cpu_go. Qed.

Lemma write_accumulator_spec w v : u64 v -> preserves I (write_accumulator w v).
Proof. intros. unfold write_accumulator. cpu_go. Qed.
#[local] Hint Resolve set_add_flags_spec set_sub_flags_spec set_logic_flags_spec
  write_accumulator_spec : cpu.

(** ** Integer instructions *)

Lemma execute_binary_spec i op : preserves I (execute_binary i op).
Proof. unfold execute_binary. cpu_go. Qed.

Lemma execute_unary_spec i op : preserves I (execute_unary i op).
Proof. unfold execute_unary. cpu_go. Qed.

Lemma execute_bswap_spec i : preserves I (execute_bswap i).
Proof. unfold execute_bswap. cpu_go. Qed.

Lemma execute_xchg_spec i : preserves I (execute_xchg i).
Proof. unfold execute_xchg. cpu_go. Qed.

Lemma execute_xadd_spec i : preserves I (execute_xadd i).
Proof. unfold execute_xadd. cpu_go. Qed.

Lemma execute_cmpxchg_spec i : preserves I (execute_cmpxchg i).
Proof. unfold execute_cmpxchg. cpu_go. Qed.

Lemma execute_rotate_spec i : preserves I (execute_rotate i).
Proof. unfold execute_rotate. cpu_go. Qed.

Lemma execute_shift_spec i op : preserves I (execute_shift i op).
Proof. unfold execute_shift. cpu_go. Qed.

Lemma execute_double_shift_spec i op : preserves I (execute_double_shift i op).
Proof. unfold execute_double_shift. cpu_go. Qed.

Lemma execute_bit_test_spec i : preserves I (execute_bit_test i).
Proof. unfold execute_bit_test. cpu_go. Qed.

Lemma execute_bit_modify_spec i : preserves I (execute_bit_modify i).
Proof. unfold execute_bit_modify. cpu_go. Qed.

Lemma execute_bit_scan_spec i op : preserves I (execute_bit_scan i op).
Proof. unfold execute_bit_scan. cpu_go. Qed.
#[local] Hint Resolve execute_binary_spec execute_unary_spec execute_bswap_spec execute_xchg_spec
  execute_xadd_spec execute_cmpxchg_spec execute_rotate_spec execute_shift_spec
  execute_double_shift_spec execute_bit_test_spec execute_bit_modify_spec
  execute_bit_scan_spec : cpu.

Lemma ignore_write_spec g v : u64 v -> preserves I (ignore_result (on_registers (write g v))).
Proof. intros. eapply spec_ignore. by apply spec_on_registers. Qed.
#[local] Hint Resolve ignore_write_spec : cpu.

Lemma write_mul_result_spec w v : preserves I (write_mul_result w v).
Proof.
  unfold write_mul_result. cpu_go. apply spec_assign. intros r Hr.
  apply (slot_set_wf Srax); [done|]. pose proof (wfr_slots r Hr Srax : u64 (rax r)).
  auto with fits.
Qed.

Lemma write_div_result_spec w q r : u64 q -> u64 r -> preserves I (write_div_result w q r).
Proof. intros. unfold write_div_result. cpu_go. Qed.
#[local] Hint Resolve write_mul_result_spec write_div_result_spec : cpu.

Lemma execute_mul_spec i b : preserves I (execute_mul i b).
Proof. unfold execute_mul. cpu_go. Qed.
#[local] Hint Resolve execute_mul_spec : cpu.

Lemma execute_imul_spec i : preserves I (execute_imul i).
Proof. unfold execute_imul. cpu_go. Qed.

Lemma execute_div_spec i b : preserves I (execute_div i b).
Proof. unfold execute_div. cpu_go. Qed.
#[local] Hint Resolve execute_imul_spec execute_div_spec : cpu.

(** ** The clock, vsyscalls and [cpuid] *)

Lemma now_spec : spec I now_since_epoch
  (fun t => forall n, t = Some n -> 0 <= n < 2 ^ 64 * 1000000000).
Proof.
  intros s []. split; [by split|]. intros t [= <-] n. apply now_range.
Qed.

Lemma as_secs_u64 t : (forall n, t = Some n -> 0 <= n < 2 ^ 64 * 1000000000) ->
  u64 (as_secs (or_zero t)).
Proof.
  intros Ht. destruct t as [n|]; [|by vm_compute]. specialize (Ht n eq_refl).
  unfold as_secs, or_zero, fits. split; [apply Z.div_pos; lia|].
  apply Z.div_lt_upper_bound; lia.
Qed.
#[local] Hint Resolve now_spec as_secs_u64 : cpu.

Lemma execute_rdtsc_spec : preserves I execute_rdtsc.
Proof.
  unfold execute_rdtsc. eapply spec_bind; [apply now_spec|]. intros t _. cbv zeta.
  set (ticks := match t with Some _ => _ | None => _ end).
  assert (u64 ticks) by (unfold ticks; destruct t; [by apply wrap_fits|by vm_compute]).
  assert (u64 (Z.shiftr ticks 32)) by by apply shiftr_fits. clearbody ticks. cpu_go.
Qed.

Lemma vsyscall_gettimeofday_spec : preserves I vsyscall_gettimeofday.
Proof. unfold vsyscall_gettimeofday. cpu_go. Qed.

Lemma vsyscall_time_spec : preserves I vsyscall_time.
Proof.
  unfold vsyscall_time. eapply spec_bind; [apply now_spec|]. intros t Ht.
  apply as_secs_u64 in Ht. cpu_go.
Qed.

Lemma vsyscall_getcpu_spec : preserves I vsyscall_getcpu.
Proof. unfold vsyscall_getcpu. cpu_go. Qed.
#[local] Hint Resolve execute_rdtsc_spec vsyscall_gettimeofday_spec vsyscall_time_spec
  vsyscall_getcpu_spec : cpu.

(** The numbers a system call passes on are 64-bit; no step halts. *)
Definition trap_ok (t : SyscallTrap) : Prop := u64 (number t) /\ Forall (fits 64) (args t).

Definition step_ok (o : StepOutcome) : Prop :=
  match o with Syscall t => trap_ok t | Halted _ => False | Continue => True end.

Definition arm_ok (a : arm) : Prop := step_ok a.1.
#[local] Hint Extern 0 (arm_ok _) => exact Logic.I : cpu.
#[local] Hint Extern 0 (step_ok _) => exact Logic.I : cpu.

Lemma handle_vsyscall_spec : spec I handle_vsyscall (from_option step_ok True).
Proof. unfold handle_vsyscall. cpu_go; auto with cpu. Qed.

Lemma cpuid_leaf_u64 l sl : let '(a, b, c, d) := cpuid_leaf l sl in
  u64 a /\ u64 b /\ u64 c /\ u64 d.
Proof. unfold cpuid_leaf. repeat case_match; simplify_eq; by vm_compute. Qed.

Lemma execute_cpuid_spec : preserves I execute_cpuid.
Proof.
  unfold execute_cpuid. cpu_step. cpu_step.
  pose proof (cpuid_leaf_u64 a a0) as Hl. destruct (cpuid_leaf a a0) as [[[x y] z] t].
  destruct Hl as (?&?&?&?). cpu_go.
Qed.
#[local] Hint Resolve handle_vsyscall_spec execute_cpuid_spec : cpu.

(** ** Vector instructions *)

Lemma write_xmm_spec i k v : u128 v -> preserves I (write_xmm_operand i k v).
Proof. intros. unfold write_xmm_operand. cpu_go. Qed.

Lemma write_simd_scalar_spec i k v w : 0 <= w ->
  preserves I (write_simd_scalar_destination i k v w).
Proof.
  intros Hw. assert (u64 (Z.land v (mask w))) by (apply land_fits_r; [lia|by apply mask_u64]).
  unfold write_simd_scalar_destination. cpu_go.
Qed.
#[local] Hint Resolve write_xmm_spec write_simd_scalar_spec : cpu.

Lemma execute_mov_simd_scalar_spec i w : 0 <= w -> preserves I (execute_mov_simd_scalar i w).
Proof. intros. unfold execute_mov_simd_scalar. cpu_go. Qed.

Lemma execute_xmm_move_spec i : preserves I (execute_xmm_move i).
Proof. unfold execute_xmm_move. cpu_go. Qed.

Lemma execute_mov_half_pd_spec i b : preserves I (execute_mov_half_pd i b).
Proof.
  unfold execute_mov_half_pd. cpu_go. apply spec_xmm_set. destruct b; apply lor_fits; auto with fits.
  eapply fits_le; [|eassumption]. lia.
Qed.

Lemma execute_punpck_spec i : preserves I (execute_punpck i).
Proof.
  unfold execute_punpck. do 3 cpu_step.
  eapply (spec_bind _ _ _ (fits 128)); [apply spec_lift; intros v; apply punpck_u128|].
  intros. cpu_go.
Qed.

(** An instruction that ends by writing a lane result it computed. *)
Lemma lift_write_spec i k (r : res CpuError Z) : (forall v, r = Ok v -> u128 v) ->
  preserves I (v ← lift r; write_xmm_operand i k v).
Proof.
  intros Hr. eapply (spec_bind _ _ _ (fits 128)); [by apply spec_lift|].
  intros. by apply write_xmm_spec.
Qed.

Lemma execute_xmm_binary_spec i op : preserves I (execute_xmm_binary i op).
Proof. unfold execute_xmm_binary. cpu_step. cpu_step. apply write_xmm_spec. destruct op; auto with fits. Qed.

Lemma execute_packed_compare_equal_spec i : preserves I (execute_packed_compare_equal i).
Proof.
  unfold execute_packed_compare_equal. do 3 cpu_step. apply lift_write_spec.
  intros v. apply compare_equal_u128.
Qed.

Lemma execute_packed_compare_greater_spec i : preserves I (execute_packed_compare_greater i).
Proof.
  unfold execute_packed_compare_greater. do 3 cpu_step. apply lift_write_spec.
  intros v. apply compare_greater_u128.
Qed.

Lemma execute_pmovmskb_spec i : preserves I (execute_pmovmskb i).
Proof. unfold execute_pmovmskb. cpu_go. Qed.

Lemma execute_packed_byte_minmax_spec i : preserves I (execute_packed_byte_minmax i).
Proof.
  unfold execute_packed_byte_minmax. do 2 cpu_step. apply lift_write_spec.
  intros v. apply byte_lanes_u128.
Qed.

Lemma execute_packed_byte_arithmetic_spec i : preserves I (execute_packed_byte_arithmetic i).
Proof.
  unfold execute_packed_byte_arithmetic. do 2 cpu_step. apply lift_write_spec.
  intros v. apply byte_lanes_u128.
Qed.

Lemma execute_pshufd_spec i : preserves I (execute_pshufd i).
Proof. unfold execute_pshufd. do 2 cpu_step. apply lift_write_spec. intros v. apply pshufd_u128. Qed.

Lemma execute_shufps_spec i : preserves I (execute_shufps i).
Proof. unfold execute_shufps. do 3 cpu_step. apply lift_write_spec. intros v. apply shufps_u128. Qed.

Lemma execute_packed_byte_shift_spec i : preserves I (execute_packed_byte_shift i).
Proof.
  unfold execute_packed_byte_shift. cpu_step. cpu_step. apply lift_write_spec. intros v.
  assert (0 <= Z.min (wrap 32 a0) 16 * 8)
    by (pose proof (wrap_fits 32 a0 ltac:(lia)) as []; lia).
  destruct (i_mnemonic i); try done; destruct (128 <=? _); try (intros [= <-]; by vm_compute).
  - by apply shl_fits.
  - by apply shr_fits.
Qed.

Lemma execute_packed_shift_spec i : preserves I (execute_packed_shift i).
Proof.
  unfold execute_packed_shift. do 3 cpu_step. apply lift_write_spec. intros v.
  apply packed_shift_u128.
Qed.
#[local] Hint Resolve execute_mov_simd_scalar_spec execute_xmm_move_spec execute_mov_half_pd_spec
  execute_punpck_spec execute_xmm_binary_spec execute_packed_compare_equal_spec
  execute_packed_compare_greater_spec execute_pmovmskb_spec execute_packed_byte_minmax_spec
  execute_packed_byte_arithmetic_spec execute_pshufd_spec execute_shufps_spec
  execute_packed_byte_shift_spec execute_packed_shift_spec : cpu.

(** ** String instructions *)

Lemma stos_loop_spec n step bs a : Forall (fits 8) bs -> u64 a ->
  spec I (stos_loop n step bs a) (fits 64).
Proof.
  intros Hb. revert a. induction n as [|n IH]; intros a Ha; simpl; [by apply spec_ret|].
  cpu_step. apply IH. by apply wrap_fits.
Qed.

Lemma movs_loop_spec n step size a b : 0 <= size -> u64 a -> u64 b ->
  spec I (movs_loop n step size a b) (fun ab => u64 ab.1 /\ u64 ab.2).
Proof.
  intros Hs. revert a b. induction n as [|n IH]; intros a b Ha Hb; simpl; [by apply spec_ret|].
  cpu_step. destruct H0 as [_ Hf]. cpu_step. apply IH; by apply wrap_fits.
Qed.

Lemma scas_loop_spec n i rep step w a : 0 <= w -> u64 a ->
  spec I (scas_loop n i rep step w a) (fun ac => u64 ac.1 /\ 0 <= ac.2 <= Z.of_nat n).
Proof.
  intros Hw. revert a. induction n as [|n IH]; intros a Ha; simpl; [apply spec_ret; split; [exact Ha|simpl; lia]|].
  do 5 cpu_step. cpu_step.
  - apply spec_ret. simpl. split; [by apply wrap_fits|lia].
  - eapply spec_weaken; [apply IH; by apply wrap_fits|]. simpl. intros ? [? ?]. split; [done|lia].
Qed.

Lemma cmps_loop_spec n i rep step w a b : 0 <= w -> u64 a -> u64 b ->
  spec I (cmps_loop n i rep step w a b)
    (fun abc => u64 abc.1.1 /\ u64 abc.1.2 /\ 0 <= abc.2 <= Z.of_nat n).
Proof.
  intros Hw. revert a b. induction n as [|n IH]; intros a b Ha Hb; simpl;
    [apply spec_ret; split; [exact Ha|split; [exact Hb|simpl; lia]]|].
  do 6 cpu_step. cpu_step.
  - apply spec_ret. simpl. split; [by apply wrap_fits|]. split; [by apply wrap_fits|lia].
  - eapply spec_weaken; [apply IH; by apply wrap_fits|]. simpl. intros ? (?&?&?). split; [done|]. split; [done|lia].
Qed.
#[local] Hint Resolve stos_loop_spec movs_loop_spec scas_loop_spec cmps_loop_spec : cpu.

(** The repeat count: the value of [rcx] or one. *)
Lemma count_spec (b : bool) : spec I (if b then reg rcx else mret 1) (fits 64).
Proof. destruct b; [apply spec_rcx|by apply spec_ret]. Qed.
#[local] Hint Resolve count_spec : cpu.

Lemma execute_stos_spec i : preserves I (execute_stos i).
Proof. unfold execute_stos. cpu_go. Qed.

Ltac lift_nonneg := eapply (spec_bind _ _ _ (fun v => 0 <= v));
  [apply spec_lift; intros ?; case_match; intros [= <-]; lia|intros ? ?].

Lemma execute_movs_spec i : preserves I (execute_movs i).
Proof.
  unfold execute_movs. lift_nonneg. do 5 cpu_step.
  eapply spec_bind; [apply movs_loop_spec; [done|by apply wrap_fits|done]|].
  intros [x y] [? ?]; simpl in *. cpu_go.
Qed.

Lemma nat_count_u64 c n : u64 c -> 0 <= n <= Z.of_nat (Z.to_nat c) -> u64 n.
Proof. unfold fits. lia. Qed.

Lemma execute_scas_spec i : preserves I (execute_scas i).
Proof.
  unfold execute_scas. lift_nonneg. do 4 cpu_step.
  eapply spec_bind; [apply scas_loop_spec; [done|by apply wrap_fits]|].
  intros [x y] [? Hy%nat_count_u64]; simpl in *; [|done]. cpu_go.
Qed.

Lemma execute_cmps_spec i : preserves I (execute_cmps i).
Proof.
  unfold execute_cmps. lift_nonneg. do 5 cpu_step.
  eapply spec_bind; [apply cmps_loop_spec; [done|by apply wrap_fits|done]|].
  intros [[x y] z] (?&?&Hz%nat_count_u64); simpl in *; [|done]. cpu_go.
Qed.
#[local] Hint Resolve execute_stos_spec execute_movs_spec execute_scas_spec execute_cmps_spec : cpu.

(** ** Dispatch *)

Lemma unsupported_spec {A} i text (Q : A -> Prop) : spec I (unsupported i text) Q.
Proof. unfold unsupported. cpu_go. Qed.

Lemma execute_mov_spec i : preserves I (execute_mov i).
Proof. unfold execute_mov. cpu_go. Qed.

Lemma execute_movx_spec i b : preserves I (execute_movx i b).
Proof. unfold execute_movx. cpu_go. Qed.

Lemma execute_lea_spec i : preserves I (execute_lea i).
Proof. unfold execute_lea. cpu_go. Qed.

Lemma execute_cmp_spec i : preserves I (execute_cmp i).
Proof. unfold execute_cmp. cpu_go. Qed.

Lemma execute_test_spec i : preserves I (execute_test i).
Proof. unfold execute_test. cpu_go. Qed.

Lemma sign_extend_spec (f : Registers -> Z) w : 0 <= w ->
  spec I (reads (fun s => sign_extend (f (registers s)) w) : CpuM Z) (fits 64).
Proof. intros. apply spec_reads. intros s v _. by apply sign_extend_u64. Qed.

Lemma execute_cbw_spec : preserves I execute_cbw.
Proof.
  unfold execute_cbw. eapply spec_bind; [apply (sign_extend_spec (fun r => Z.land (rax r) 0xff)); lia|].
  intros. cpu_go.
Qed.

Lemma execute_cwde_spec : preserves I execute_cwde.
Proof.
  unfold execute_cwde.
  eapply spec_bind; [apply (sign_extend_spec (fun r => Z.land (rax r) 0xffff)); lia|].
  intros. cpu_go.
Qed.

Lemma execute_cdqe_spec : preserves I execute_cdqe.
Proof.
  unfold execute_cdqe.
  eapply spec_bind; [apply (sign_extend_spec (fun r => Z.land (rax r) 0xffffffff)); lia|].
  intros. cpu_go.
Qed.

Lemma execute_cwd_spec : preserves I execute_cwd.
Proof. unfold execute_cwd. cpu_step. apply spec_on_registers. by destruct a. Qed.

Lemma execute_cdq_spec : preserves I execute_cdq.
Proof. unfold execute_cdq. cpu_step. apply spec_on_registers. by destruct a. Qed.

Lemma execute_cqo_spec : preserves I execute_cqo.
Proof.
  apply spec_assign. intros r Hr. apply (slot_set_wf Srdx); [done|]. by destruct (nonzero _).
Qed.

Lemma execute_leave_spec : preserves I execute_leave.
Proof.
  unfold execute_leave. apply (spec_bind _ _ _ (fun _ => True)); [|intros; cpu_go].
  apply spec_assign. intros r Hr. apply (slot_set_wf Srsp); [done|]. apply (wfr_slots r Hr Srbp).
Qed.

Lemma execute_push_spec i : preserves I (execute_push i).
Proof. unfold execute_push. cpu_go. Qed.

Lemma execute_pop_spec i : preserves I (execute_pop i).
Proof. unfold execute_pop. cpu_go. Qed.
#[local] Hint Resolve unsupported_spec execute_mov_spec execute_movx_spec execute_lea_spec
  execute_cmp_spec execute_test_spec execute_cbw_spec execute_cwde_spec execute_cdqe_spec
  execute_cwd_spec execute_cdq_spec execute_cqo_spec execute_leave_spec execute_push_spec
  execute_pop_spec : cpu.

Lemma execute_movsd_spec i text : preserves I (execute_movsd i text).
Proof. unfold execute_movsd. cpu_go. Qed.

Lemma execute_cmpsd_spec i text : preserves I (execute_cmpsd i text).
Proof. unfold execute_cmpsd. cpu_go. Qed.
#[local] Hint Resolve execute_movsd_spec execute_cmpsd_spec : cpu.

Lemma execute_jmp_spec i : spec I (execute_jmp i) arm_ok.
Proof. unfold execute_jmp. cpu_go; auto with cpu. Qed.

Lemma execute_call_spec i n : spec I (execute_call i n) arm_ok.
Proof. unfold execute_call. cpu_go; auto with cpu. Qed.

Lemma execute_ret_spec i : spec I (execute_ret i) arm_ok.
Proof. unfold execute_ret. cpu_go; auto with cpu. Qed.

Lemma trap_of_ok r : wf_registers r -> trap_ok (trap_of r).
Proof.
  intros Hr. pose proof (wfr_slots _ Hr) as Hs. split; [apply (Hs Srax)|].
  change (args (trap_of r)) with ((fun s => slot_get s r) <$> [Srdi; Srsi; Srdx; Sr10; Sr8; Sr9]).
  apply Forall_fmap, Forall_forall. intros s _. apply Hs.
Qed.

Lemma execute_syscall_spec n : u64 n -> spec I (execute_syscall n) arm_ok.
Proof.
  intros. unfold execute_syscall. cpu_step.
  apply (spec_bind _ _ _ (fun _ => True)).
  { apply spec_assign. intros r Hr. apply (slot_set_wf Sr11); [done|]. apply Hr. }
  intros _ _. cpu_step. eapply spec_bind; [apply spec_reg, trap_of_ok|].
  intros t Ht. by apply spec_ret.
Qed.

Lemma continues_spec (m : CpuM unit) : preserves I m -> spec I (continues m) arm_ok.
Proof. intros. unfold continues. cpu_go; auto with cpu. Qed.
#[local] Hint Resolve execute_jmp_spec execute_call_spec execute_ret_spec execute_syscall_spec
  continues_spec : cpu.

Lemma execute_conditional_spec i text : spec I (execute_conditional i text) arm_ok.
Proof. unfold execute_conditional, continues. cpu_go; auto with cpu. Qed.
#[local] Hint Resolve execute_conditional_spec : cpu.

Lemma execute_arm_spec i text n : u64 n -> spec I (execute_arm i text n) arm_ok.
Proof.
  intros Hn. unfold execute_arm.
  destruct (i_mnemonic i); first [by apply spec_ret; auto with cpu | solve [eauto 4 with cpu]].
Qed.
#[local] Hint Resolve execute_arm_spec next_ip_u64 : cpu.

Lemma execute_spec i text : spec I (execute i text) step_ok.
Proof.
  unfold execute. pose proof (next_ip_u64 i).
  eapply spec_bind; [by apply execute_arm_spec|].
  intros [o w] Ho. cpu_go.
Qed.
#[local] Hint Resolve execute_spec : cpu.

(** ** Steps, blocks and runs *)

Lemma wrap_execution_spec {A} ip text (m : CpuM A) Q : spec I m Q ->
  spec I (wrap_execution ip text m) Q.
Proof.
  intros Hm s Hs. unfold wrap_execution. destruct (Hm s Hs) as [H1 H2].
  destruct (m s) as [r s']. split; [done|]. destruct r; simpl; intros ? [= <-]; auto.
Qed.

Lemma push_trace_spec ip text r : preserves I (push_trace ip text r).
Proof. apply spec_modify. intros s []. by destruct (trace_enabled s). Qed.
#[local] Hint Resolve wrap_execution_spec push_trace_spec : cpu.

Lemma step_spec : spec I step step_ok.
Proof. unfold step. cpu_go. Qed.

Lemma on_ir_spec {A} (m : ST BlockCache CpuError A) : preserves wf_cache m -> preserves I (on_ir m).
Proof.
  intros Hm. apply spec_on_cache. by eapply spec_zoom; [exact Hm|..].
Qed.

Lemma fill_block_spec ip : preserves I (fill_block ip).
Proof.
  unfold fill_block. cpu_step.
  apply (spec_bind _ _ _ (fun _ => True)).
  { apply on_ir_spec, spec_modify. intros c. apply insert_wf. }
  intros _ _. apply (spec_bind _ _ _ (fun _ => True)); [|intros; cpu_go].
  by apply spec_on_cache, spec_modify.
Qed.
#[local] Hint Resolve fill_block_spec : cpu.

Lemma cached_block_spec ip : preserves I (cached_block ip).
Proof.
  unfold cached_block. apply (spec_bind _ _ _ (fun _ => True)); [apply on_ir_spec, get_wf|].
  intros o _. cpu_go.
Qed.

Lemma block_loop_spec b n ds : spec I (block_loop b n ds) step_ok.
Proof.
  revert n. induction ds as [|i ds IH]; intros n; simpl; [by apply spec_ret|].
  cpu_go; auto with cpu.
Qed.
#[local] Hint Resolve cached_block_spec block_loop_spec : cpu.

Lemma step_block_spec : spec I step_block step_ok.
Proof. unfold step_block. cpu_go. Qed.
#[local] Hint Resolve step_block_spec : cpu.

Lemma run_loop_spec n : preserves I (run_loop n).
Proof. induction n as [|n IH]; simpl; [by apply spec_ret|]. cpu_go. Qed.
#[local] Hint Resolve run_loop_spec : cpu.

Lemma run_spec n : preserves I (run n).
Proof. unfold run. cpu_go. Qed.
End Safe.

(** ** Properties *)

(** C5: running the guest never escapes memory protection.  However [run]
    ends (a system call, the step limit, an error or a panic), the map of
    regions and permissions is the one it started with and still well-formed,
    every byte in memory the guest may not write keeps its value, and every
    register holds a value of its type. *)
Theorem run_respects_protection `{IcedLaws} (s : Interpreter) (n : Z)
    (Hm : wf (memory s)) (Hr : wf_registers (registers s)) (Hc : wf_cache (ir (cache s))) :
  let s' := (run n s).2 in
  wf (memory s') /\ shape (memory s') = shape (memory s) /\ wf_registers (registers s') /\
  forall a p v, cell (memory s) a = Some (p, v) -> contains p WRITE = false ->
    cell (memory s') a = Some (p, v).
Proof.
  destruct (run_spec (memory s) n s) as [[] _]; [by split; try done; intros a|]. auto.
Qed.

(** Two code bytes of [jmp $] in a read-only executable region. *)
Definition demo_cpu : Interpreter := interpreter_new
  (mkMemory [mkRegion 4096 16 (READ + EXECUTE) None
     [0xeb; 0xfe; 0x90; 0x90; 0x90; 0x90; 0x90; 0x90; 0x90; 0x90; 0x90; 0x90; 0x90; 0x90; 0x90; 0x90]])
  (set_rip 4096 default_registers).

Lemma run_respects_protection_witness :
  cell (memory (run 3 demo_cpu).2) 4096 = Some (READ + EXECUTE, 0xeb) /\
  (run 3 demo_cpu).1 = Ok StepLimit.
Proof.
  split; [|vm_compute; reflexivity].
  apply (run_respects_protection demo_cpu 3).
  - split; repeat constructor; vm_compute; congruence.
  - apply (slot_set_wf Srip); [apply default_registers_wf|by vm_compute].
  - apply empty_cache_wf.
  - reflexivity.
  - reflexivity.
Defined.
