(* ===== verification/CpuArith.v ===== *)
(** * Arithmetic: what the flags and the condition codes mean

    Comparison, addition, multiplication and division of the interpreter
    against the integers they stand for. *)

From S2P Require Import Prelude Memory MemorySpec Registers Ir Iced ExampleDecoder Cpu CpuInt CpuSimd Interp CpuInv CpuSafe.

Open Scope Z_scope.

(** The widths of integer operands. *)
Definition is_width (w : Z) : Prop := w = 8 \/ w = 16 \/ w = 32 \/ w = 64.

Lemma is_width_range w : is_width w -> 8 <= w <= 64.
Proof. unfold is_width. lia. Qed.

(** ** The sign bit *)

Lemma sign_bit_Ok {E} w : is_width w -> @sign_bit E w = Ok (2 ^ (w - 1)).
Proof. by intros [-> |[-> |[-> | ->]]]. Qed.

(** The bit [k] of a number, as [(x & 2^k) != 0] tests it. *)
Lemma nonzero_pow2 x k : 0 <= k -> nonzero (Z.land x (2 ^ k)) = Z.testbit x k.
Proof. intros. apply (flag_bit (set_rflags x default_registers)). lia. Qed.

(** The top bit of a [w]-bit number says whether it is negative. *)
Lemma testbit_top w x : 0 < w -> fits w x -> Z.testbit x (w - 1) = (2 ^ (w - 1) <=? x).
Proof.
  intros Hw [H0 H1].
  assert (2 ^ w = 2 * 2 ^ (w - 1)) as Hp by (rewrite <- Z.pow_succ_r by lia; f_equal; lia).
  destruct (Z.leb_spec (2 ^ (w - 1)) x).
  - rewrite Z.testbit_true by lia. replace (x / 2 ^ (w - 1)) with 1; [done|].
    apply (Z.div_unique_pos x (2 ^ (w - 1)) 1 (x - 2 ^ (w - 1))); lia.
  - rewrite Z.testbit_false by lia. by rewrite Z.div_small by lia.
Qed.

Lemma signed_wrap w x : 0 < w -> signed w x = signed w (wrap w x).
Proof. intros. unfold signed, wrap. by rewrite Z.mod_mod by lia. Qed.

Lemma signed_fits w x : fits w x -> signed w x = if x <? 2 ^ (w - 1) then x else x - 2 ^ w.
Proof. intros Hx. unfold signed. by rewrite Z.mod_small. Qed.

(** ** The registers after the flags are set *)

Definition put_flags (cf off zf sf pf : bool) (r : Registers) : Registers :=
  set_flag FLAG_PF pf (set_flag FLAG_SF sf (set_flag FLAG_ZF zf
    (set_flag FLAG_OF off (set_flag FLAG_CF cf r)))).

Lemma is_flag_pow k : 0 <= k < 64 -> k <> 1 -> is_flag (2 ^ k).
Proof. intros. exists k. auto. Qed.

Lemma put_flags_read cf off zf sf pf r :
  let r' := put_flags cf off zf sf pf r in
  flag r' FLAG_CF = cf /\ flag r' FLAG_OF = off /\ flag r' FLAG_ZF = zf /\
  flag r' FLAG_SF = sf /\ flag r' FLAG_PF = pf.
Proof.
  assert (is_flag FLAG_CF) by by apply (is_flag_pow 0).
  assert (is_flag FLAG_OF) by by apply (is_flag_pow 11).
  assert (is_flag FLAG_ZF) by by apply (is_flag_pow 6).
  assert (is_flag FLAG_SF) by by apply (is_flag_pow 7).
  assert (is_flag FLAG_PF) by by apply (is_flag_pow 2).
  unfold put_flags. repeat split;
    repeat ((rewrite flag_set_flag by done) || (rewrite flag_set_flag_ne; [|done|done|by vm_compute])); done.
Qed.

(** A flag is read from the flags register alone. *)
Lemma flag_rflags r r' f : rflags r = rflags r' -> flag r f = flag r' f.
Proof. unfold flag. by intros ->. Qed.

Lemma put_flags_slot cf off zf sf pf r s : slot_get s (put_flags cf off zf sf pf r) = slot_get s r.
Proof. unfold put_flags. by rewrite !set_flag_slots. Qed.

(** ** Differences and sums of [w]-bit numbers *)

Lemma pow2_double w : 0 < w -> 2 ^ w = 2 * 2 ^ (w - 1) /\ 0 < 2 ^ (w - 1).
Proof.
  intros. split; [rewrite <- Z.pow_succ_r by lia; f_equal; lia|]. apply Z.pow_pos_nonneg; lia.
Qed.

Lemma wrap_wrap w v x : 0 <= w <= v -> wrap w (wrap v x) = wrap w x.
Proof.
  intros. unfold wrap. replace (2 ^ v) with (2 ^ w * 2 ^ (v - w))
    by (rewrite <- Z.pow_add_r by lia; f_equal; lia).
  apply Z.mod_mod_divide. apply Z.divide_factor_l.
Qed.

(** A difference of two [w]-bit numbers wraps at most once. *)
Lemma wrap_sub_cases w a b : 0 <= w -> fits w a -> fits w b ->
  wrap w (a - b) = if a <? b then a - b + 2 ^ w else a - b.
Proof.
  intros Hw [Ha Ha'] [Hb Hb']. unfold wrap. zbool.
  - symmetry. apply (Z.mod_unique_pos _ _ (-1)); lia.
  - apply Z.mod_small. lia.
Qed.

Lemma wrap_add_cases w a b : 0 <= w -> fits w a -> fits w b ->
  wrap w (a + b) = if a + b <? 2 ^ w then a + b else a + b - 2 ^ w.
Proof.
  intros Hw [Ha Ha'] [Hb Hb']. unfold wrap. zbool.
  - apply Z.mod_small. lia.
  - symmetry. apply (Z.mod_unique_pos _ _ 1); lia.
Qed.

(** Decide every comparison left in the goal and close it by arithmetic. *)
Ltac sign_cases :=
  repeat match goal with
  | |- context [if ?y <? ?z then _ else _] => destruct (Z.ltb_spec y z)
  | |- context [?y <=? ?z] => destruct (Z.leb_spec y z)
  | |- context [?y <? ?z] => destruct (Z.ltb_spec y z)
  | |- context [?y =? ?z] => destruct (Z.eqb_spec y z)
  end; simpl; first [reflexivity | lia | exfalso; lia].

(** The sign bits of two numbers and of their difference decide the signed
    order; the sign bits of two numbers and of their sum the signed overflow. *)
Lemma signed_less w a b : 0 < w -> fits w a -> fits w b ->
  let x := wrap w (a - b) in
  let top y := Z.testbit y (w - 1) in
  xorb (top x) (xorb (top a) (top b) && xorb (top a) (top x)) = (signed w a <? signed w b).
Proof.
  intros Hw Ha Hb x top. destruct (pow2_double w Hw) as [Hp Hp'].
  assert (fits w x) as Hx by (apply wrap_fits; lia). unfold top.
  rewrite !testbit_top, !signed_fits by done.
  unfold x in *. rewrite wrap_sub_cases in * by (done || lia). unfold fits in *.
  destruct (Z.ltb_spec a b), (Z.ltb_spec a (2 ^ (w - 1))), (Z.ltb_spec b (2 ^ (w - 1)));
    sign_cases.
Qed.

Lemma signed_sub_overflow w a b : 0 < w -> fits w a -> fits w b ->
  let x := wrap w (a - b) in
  let top y := Z.testbit y (w - 1) in
  (xorb (top a) (top b) && xorb (top a) (top x)) =
    negb (signed w x =? signed w a - signed w b).
Proof.
  intros Hw Ha Hb x top. destruct (pow2_double w Hw) as [Hp Hp'].
  assert (fits w x) as Hx by (apply wrap_fits; lia). unfold top.
  rewrite !testbit_top, !signed_fits by done.
  unfold x in *. rewrite wrap_sub_cases in * by (done || lia). unfold fits in *.
  destruct (Z.ltb_spec a b), (Z.ltb_spec a (2 ^ (w - 1))), (Z.ltb_spec b (2 ^ (w - 1)));
    sign_cases.
Qed.

Lemma signed_add_overflow w a b : 0 < w -> fits w a -> fits w b ->
  let x := wrap w (a + b) in
  let top y := Z.testbit y (w - 1) in
  (xorb (top a) (top x) && xorb (top b) (top x)) =
    negb (signed w x =? signed w a + signed w b).
Proof.
  intros Hw Ha Hb x top. destruct (pow2_double w Hw) as [Hp Hp'].
  assert (fits w x) as Hx by (apply wrap_fits; lia). unfold top.
  rewrite !testbit_top, !signed_fits by done.
  unfold x in *. rewrite wrap_add_cases in * by (done || lia). unfold fits in *.
  destruct (Z.ltb_spec (a + b) (2 ^ w)), (Z.ltb_spec a (2 ^ (w - 1))), (Z.ltb_spec b (2 ^ (w - 1)));
    sign_cases.
Qed.

Lemma wrap_sub_args w a b : 0 <= w -> wrap w (a - b) = wrap w (wrap w a - wrap w b).
Proof. intros. unfold wrap. by rewrite <- Zminus_mod. Qed.

Lemma wrap_add_args w a b : 0 <= w -> wrap w (a + b) = wrap w (wrap w a + wrap w b).
Proof. intros. unfold wrap. by rewrite <- Zplus_mod. Qed.

Definition parity (x : Z) : bool := count_ones 8 x mod 2 =? 0.

Section Arith.
Context `{ICED : Iced}.
Implicit Types s : Interpreter.

Definition with_flags (cf off zf sf pf : bool) (s : Interpreter) : Interpreter :=
  set_registers (put_flags cf off zf sf pf (registers s)) s.

(** The two flag setters, on a width the program uses. *)
Lemma set_sub_flags_Ok l r x w s : is_width w ->
  let L := wrap w l in let R := wrap w r in let X := wrap w x in
  set_sub_flags l r x w s =
    (Ok tt, with_flags (L <? R)
       (xorb (Z.testbit L (w - 1)) (Z.testbit R (w - 1))
        && xorb (Z.testbit L (w - 1)) (Z.testbit X (w - 1)))
       (X =? 0) (Z.testbit X (w - 1)) (parity X) s).
Proof.
  intros Hw L R X. pose proof (is_width_range w Hw).
  unfold set_sub_flags, set_common_flags, mbind, st_bind, lift.
  rewrite (sign_bit_Ok w Hw). cbn -[mask set_flag Z.pow count_ones Z.land Z.lxor].
  rewrite !land_mask by lia. fold L R X.
  assert (wrap w X = X) as -> by (apply wrap_small, wrap_fits; lia).
  rewrite !nonzero_pow2 by lia. by rewrite Z.land_spec, !Z.lxor_spec.
Qed.

Lemma set_add_flags_Ok l r x w s : is_width w ->
  let L := wrap w l in let R := wrap w r in let X := wrap w x in
  set_add_flags l r x w s =
    (Ok tt, with_flags (X <? L)
       (xorb (Z.testbit L (w - 1)) (Z.testbit X (w - 1))
        && xorb (Z.testbit R (w - 1)) (Z.testbit X (w - 1)))
       (X =? 0) (Z.testbit X (w - 1)) (parity X) s).
Proof.
  intros Hw L R X. pose proof (is_width_range w Hw).
  unfold set_add_flags, set_common_flags, mbind, st_bind, lift.
  rewrite (sign_bit_Ok w Hw). cbn -[mask set_flag Z.pow count_ones Z.land Z.lxor].
  rewrite !land_mask by lia. fold L R X.
  assert (wrap w X = X) as -> by (apply wrap_small, wrap_fits; lia).
  rewrite !nonzero_pow2 by lia. by rewrite Z.land_spec, !Z.lxor_spec.
Qed.

(** ** Conditions after a comparison *)

(** What each condition code says of a comparison of [a] with [b]. *)
Definition cmp_meaning (m : Mnemonic) (w a b : Z) : option bool :=
  match m with
  | MJe | MCmove | MSete => Some (wrap w a =? wrap w b)
  | MJne | MCmovne | MSetne => Some (negb (wrap w a =? wrap w b))
  | MJb | MCmovb | MSetb => Some (wrap w a <? wrap w b)
  | MJae | MCmovae | MSetae => Some (wrap w b <=? wrap w a)
  | MJbe | MCmovbe | MSetbe => Some (wrap w a <=? wrap w b)
  | MJa | MCmova | MSeta => Some (wrap w b <? wrap w a)
  | MJl | MCmovl | MSetl => Some (signed w a <? signed w b)
  | MJge | MCmovge | MSetge => Some (signed w b <=? signed w a)
  | MJle | MCmovle | MSetle => Some (signed w a <=? signed w b)
  | MJg | MCmovg | MSetg => Some (signed w b <? signed w a)
  | MJs | MCmovs | MSets => Some (signed w (a - b) <? 0)
  | MJns | MCmovns | MSetns => Some (0 <=? signed w (a - b))
  | MJo | MCmovo | MSeto => Some (negb (signed w (a - b) =? signed w a - signed w b))
  | MJno | MCmovno | MSetno => Some (signed w (a - b) =? signed w a - signed w b)
  | MJp | MCmovp | MSetp => Some (parity (wrap w (a - b)))
  | MJnp | MCmovnp | MSetnp => Some (negb (parity (wrap w (a - b))))
  | _ => None
  end.

Lemma wrap_sub_zero w a b : 0 <= w -> fits w a -> fits w b ->
  (wrap w (a - b) =? 0) = (a =? b).
Proof.
  intros Hw Ha Hb. rewrite wrap_sub_cases by done. unfold fits in *. sign_cases.
Qed.

Lemma signed_eqb w a b : 0 < w -> fits w a -> fits w b -> (signed w a =? signed w b) = (a =? b).
Proof.
  intros Hw Ha Hb. destruct (pow2_double w Hw). rewrite !signed_fits by done.
  unfold fits in *. sign_cases.
Qed.

Lemma top_negative w x : 0 < w -> fits w x -> Z.testbit x (w - 1) = (signed w x <? 0).
Proof.
  intros Hw Hx. destruct (pow2_double w Hw). rewrite testbit_top, signed_fits by done.
  unfold fits in *. sign_cases.
Qed.

Lemma condition_after_sub m w a b s r c : is_width w -> fits w a -> fits w b ->
  rflags (registers s) = rflags (put_flags (a <? b)
    (xorb (Z.testbit a (w - 1)) (Z.testbit b (w - 1))
     && xorb (Z.testbit a (w - 1)) (Z.testbit (wrap w (a - b)) (w - 1)))
    (wrap w (a - b) =? 0) (Z.testbit (wrap w (a - b)) (w - 1)) (parity (wrap w (a - b))) r) ->
  cmp_meaning m w a b = Some c -> condition_passed m s = Ok c.
Proof.
  intros Hw Ha Hb Hs Hc. pose proof (is_width_range w Hw) as Hr.
  assert (fits w (wrap w (a - b))) as Hx by (apply wrap_fits; lia).
  pose proof (signed_less w a b ltac:(lia) Ha Hb) as Hlt. cbv zeta beta in Hlt.
  pose proof (signed_sub_overflow w a b ltac:(lia) Ha Hb) as Hof. cbv zeta beta in Hof.
  rewrite (wrap_sub_zero w a b) in Hs by (done || lia).
  unfold condition_passed. rewrite !(flag_rflags _ _ _ Hs).
  destruct (put_flags_read (a <? b) (xorb (Z.testbit a (w - 1)) (Z.testbit b (w - 1))
     && xorb (Z.testbit a (w - 1)) (Z.testbit (wrap w (a - b)) (w - 1))) (a =? b)
    (Z.testbit (wrap w (a - b)) (w - 1)) (parity (wrap w (a - b))) r) as (-> & -> & -> & -> & ->).
  assert (wrap w a = a /\ wrap w b = b) as [Ea Eb] by by split; apply wrap_small.
  pose proof (signed_eqb w a b ltac:(lia) Ha Hb) as Heq.
  assert (signed w (a - b) = signed w (wrap w (a - b))) as Es by (apply signed_wrap; lia).
  assert (forall u v, eqb u v = negb (xorb u v)) as Heqb by by intros [] [].
  destruct m; simpl in Hc; try discriminate Hc; injection Hc as <-;
    rewrite ?Heqb, ?Hlt, ?Hof, ?Es, ?Ea, ?Eb, ?(top_negative w) by (done || lia);
    f_equal; try done; rewrite <- ?Heq; sign_cases.
Qed.

Lemma cmp_meaning_wrap m w a b : 0 < w ->
  cmp_meaning m w (wrap w a) (wrap w b) = cmp_meaning m w a b.
Proof.
  intros Hw.
  assert (wrap w (wrap w a) = wrap w a) as Ea by (apply wrap_wrap; lia).
  assert (wrap w (wrap w b) = wrap w b) as Eb by (apply wrap_wrap; lia).
  assert (signed w (wrap w a) = signed w a) as Sa by (symmetry; by apply signed_wrap).
  assert (signed w (wrap w b) = signed w b) as Sb by (symmetry; by apply signed_wrap).
  assert (wrap w (wrap w a - wrap w b) = wrap w (a - b)) as Ed
    by (symmetry; apply wrap_sub_args; lia).
  assert (signed w (wrap w a - wrap w b) = signed w (a - b)) as Sd
    by by rewrite signed_wrap, Ed, <- signed_wrap.
  unfold cmp_meaning. by rewrite Ea, Eb, Sa, Sb, Sd, Ed.
Qed.

(** The flags of a comparison, with what they say hidden behind the
    conditions. *)
Lemma sub_flags_conditions a b w s : is_width w -> exists cf off zf sf pf,
  set_sub_flags a b (wrapping_sub a b) w s = (Ok tt, with_flags cf off zf sf pf s) /\
  forall s', rflags (registers s') = rflags (put_flags cf off zf sf pf (registers s)) ->
    forall m c, cmp_meaning m w a b = Some c -> condition_passed m s' = Ok c.
Proof.
  intros Hw. pose proof (is_width_range w Hw).
  do 5 eexists. split; [by apply set_sub_flags_Ok|].
  assert (wrap w (wrapping_sub a b) = wrap w (wrap w a - wrap w b)) as ->
    by (unfold wrapping_sub; by rewrite wrap_wrap, <- wrap_sub_args by lia).
  intros s' Hs' m c Hc. rewrite <- cmp_meaning_wrap in Hc by lia.
  eapply (condition_after_sub m w (wrap w a) (wrap w b));
    [done|apply wrap_fits; lia|apply wrap_fits; lia|exact Hs'|exact Hc].
Qed.

(** ** Arms of the dispatch that continue with the next instruction *)

Lemma execute_continues i text s m s1 :
  execute_arm i text (i_next_ip i) = continues m -> m s = (Ok tt, s1) ->
  execute i text s =
    (Ok Continue, set_registers (set_rip (i_next_ip i) (registers s1)) s1).
Proof.
  intros Ha Hm. unfold execute. rewrite Ha. unfold continues, mbind, st_bind. by rewrite Hm.
Qed.

(** The registers other than the instruction pointer. *)
Definition same_registers (r r' : Registers) : Prop :=
  (forall sl, sl <> Srip -> slot_get sl r' = slot_get sl r) /\ xmm r' = xmm r /\
  fs_base r' = fs_base r /\ gs_base r' = gs_base r.

Lemma same_put_flags cf off zf sf pf n r :
  same_registers r (set_rip n (put_flags cf off zf sf pf r)).
Proof.
  split; [|by destruct cf, off, zf, sf, pf]. intros sl Hsl.
  rewrite <- (put_flags_slot cf off zf sf pf r sl). by destruct sl.
Qed.
End Arith.

(** ** Properties *)

(** C27: the condition codes decide the comparisons they are named after.
    Executing [cmp] on operands of width 8, 16, 32 or 64 moves to the next
    instruction and changes only the flags, and afterwards each of the 48
    conditional mnemonics passes exactly when its relation (equality, unsigned
    or signed order, sign, overflow or parity) holds of the operands. *)
Theorem cmp_then_condition `{Iced} (s : Interpreter) (i : Instruction) (text : list Z) (w a b : Z)
    (Hm : i_mnemonic i = MCmp) (Hd : destination_width i 0 = Ok w) (Hw : is_width w)
    (Ha : read_operand i 0 w s = Ok a) (Hb : read_operand i 1 w s = Ok b) :
  exists s', execute i text s = (Ok Continue, s') /\ memory s' = memory s /\
    rip (registers s') = i_next_ip i /\ same_registers (registers s) (registers s') /\
    forall m c, cmp_meaning m w a b = Some c -> condition_passed m s' = Ok c.
Proof.
  destruct (sub_flags_conditions a b w s Hw) as (cf&off&zf&sf&pf&Hf&Hc).
  eexists. split; [|split; [|split; [|split]]].
  - eapply execute_continues; [unfold execute_arm; by rewrite Hm|].
    unfold execute_cmp, mbind, st_bind, lift, reads. rewrite Hd, Ha, Hb. exact Hf.
  - done.
  - done.
  - apply same_put_flags.
  - by apply Hc.
Qed.

Lemma cmp_then_condition_witness :
  let r := set_rax 0xffffffffffffffff (set_rbx 1 default_registers) in
  let s := interpreter_new new r in
  let i := plain 4096 3 MCmp [(OKRegister, RAX); (OKRegister, RBX)] 0 in
  exists s', execute i [] s = (Ok Continue, s') /\
    condition_passed MJl s' = Ok true /\ condition_passed MJb s' = Ok false.
Proof.
  intros r s i.
  destruct (cmp_then_condition s i [] 64 0xffffffffffffffff 1) as (s'&Hx&_&_&_&Hc);
    [reflexivity|reflexivity|right; right; right; reflexivity|reflexivity|reflexivity|].
  exists s'. split; [exact Hx|]. split; apply Hc; reflexivity.
Defined.
