(* ===== verification/CpuAlu.v ===== *)
(** * Arithmetic instructions on registers

    The results and the flags of the binary instructions, of multiplication
    and of division, against integer arithmetic. *)

From S2P Require Import Prelude Memory MemorySpec Registers Ir Iced ExampleDecoder Cpu CpuInt CpuSimd Interp CpuInv CpuSafe CpuArith.

Open Scope Z_scope.

Section Alu.
Context `{ICED : Iced}.
Implicit Types s : Interpreter.

(** A write to a register operand of the width of the operation. *)
Lemma write_operand_register i k v w s : i_op_kind i k = OKRegister ->
  register_width (i_op_register i k) = Ok w -> 0 <= w <= 64 ->
  exists r', write_operand i k v w s = (Ok tt, set_registers r' s) /\
    read r' (i_op_register i k) = Ok (wrap w v) /\
    (forall h, slot_of h <> slot_of (i_op_register i k) ->
       read r' h = read (registers s) h) /\
    rflags r' = rflags (registers s).
Proof.
  intros Hk Hg Hw. unfold write_operand. rewrite Hk, land_mask by done.
  destruct (write_cases (registers s) (i_op_register i k) w (wrap w v)) as (r'&Hr'&Hv&Hh&Hf&_).
  - done.
  - apply (fits_le w); [lia|]. apply wrap_fits. lia.
  - exists r'. unfold on_registers, zoom. rewrite Hr'. split; [done|].
    split; [|done]. rewrite Hv. f_equal. apply (wrap_wrap w w). lia.
Qed.

Lemma read_put_flags cf off zf sf pf r h : read (put_flags cf off zf sf pf r) h = read r h.
Proof. rewrite !read_slot. destruct (slot_of h); [|done]. by rewrite put_flags_slot. Qed.

Lemma register_width_is_width g w : register_width g = Ok w -> is_width w.
Proof.
  pose proof (slot_of_width g) as Hs. destruct (slot_of g); [|congruence].
  destruct Hs as (w'&->&Hin). intros [= <-]. unfold is_width. simpl in Hin. intuition.
Qed.

(** ** Binary instructions *)

(** The exact value of an operation on its operands and the incoming carry. *)
Definition binary_value (op : BinaryOp) (a b c : Z) : Z :=
  match op with
  | Add => a + b
  | Sub => a - b
  | Adc => a + b + c
  | Sbb => a - b - c
  | Xor => Z.lxor a b
  | And => Z.land a b
  | Or => Z.lor a b
  end.

(** The carry and the signed overflow of an operation of width [w]. *)
Definition binary_carry (op : BinaryOp) (w a b : Z) : bool :=
  match op with
  | Add => 2 ^ w <=? wrap w a + wrap w b
  | Sub => wrap w a <? wrap w b
  | _ => false
  end.

Definition binary_overflow (op : BinaryOp) (w a b : Z) : bool :=
  match op with
  | Add => negb (signed w (a + b) =? signed w a + signed w b)
  | Sub => negb (signed w (a - b) =? signed w a - signed w b)
  | _ => false
  end.

Definition no_carry_in (op : BinaryOp) : Prop := op <> Adc /\ op <> Sbb.

Lemma set_logic_flags_Ok x w s : is_width w ->
  set_logic_flags x w s = (Ok tt, with_flags false false (wrap w x =? 0)
    (Z.testbit (wrap w x) (w - 1)) (parity (wrap w x)) s).
Proof.
  intros Hw. pose proof (is_width_range w Hw).
  unfold set_logic_flags, set_common_flags, mbind, st_bind, lift.
  rewrite (sign_bit_Ok w Hw). cbn -[mask set_flag Z.pow count_ones Z.land Z.lxor].
  rewrite !land_mask by lia. by rewrite !nonzero_pow2 by lia.
Qed.

Lemma carry_of_sum w a b : 0 <= w -> fits w a -> fits w b ->
  (wrap w (a + b) <? a) = (2 ^ w <=? a + b).
Proof. intros Hw Ha Hb. rewrite wrap_add_cases by done. unfold fits in *. sign_cases. Qed.

(** The flags the setters leave, said of the exact value. *)
Lemma add_flags_value a b w s : is_width w ->
  set_add_flags a b (wrapping_add a b) w s =
    (Ok tt, with_flags (binary_carry Add w a b) (binary_overflow Add w a b)
       (wrap w (a + b) =? 0) (signed w (a + b) <? 0) (parity (wrap w (a + b))) s).
Proof.
  intros Hw. pose proof (is_width_range w Hw). rewrite set_add_flags_Ok by done. cbv zeta.
  assert (fits w (wrap w a)) as Ha by (apply wrap_fits; lia).
  assert (fits w (wrap w b)) as Hb by (apply wrap_fits; lia).
  assert (wrap w (wrapping_add a b) = wrap w (wrap w a + wrap w b)) as ->
    by (unfold wrapping_add; by rewrite wrap_wrap, <- wrap_add_args by lia).
  pose proof (signed_add_overflow w _ _ ltac:(lia) Ha Hb) as Ho. cbv zeta beta in Ho. rewrite Ho.
  rewrite carry_of_sum, top_negative by (done || lia || (apply wrap_fits; lia)).
  rewrite <- wrap_add_args, <- !signed_wrap by lia. done.
Qed.

Lemma sub_flags_value a b w s : is_width w ->
  set_sub_flags a b (wrapping_sub a b) w s =
    (Ok tt, with_flags (binary_carry Sub w a b) (binary_overflow Sub w a b)
       (wrap w (a - b) =? 0) (signed w (a - b) <? 0) (parity (wrap w (a - b))) s).
Proof.
  intros Hw. pose proof (is_width_range w Hw). rewrite set_sub_flags_Ok by done. cbv zeta.
  assert (fits w (wrap w a)) as Ha by (apply wrap_fits; lia).
  assert (fits w (wrap w b)) as Hb by (apply wrap_fits; lia).
  assert (wrap w (wrapping_sub a b) = wrap w (wrap w a - wrap w b)) as ->
    by (unfold wrapping_sub; by rewrite wrap_wrap, <- wrap_sub_args by lia).
  pose proof (signed_sub_overflow w _ _ ltac:(lia) Ha Hb) as Ho. cbv zeta beta in Ho. rewrite Ho.
  rewrite top_negative by (lia || (apply wrap_fits; lia)).
  rewrite <- wrap_sub_args, <- !signed_wrap by lia. done.
Qed.

Lemma logic_flags_value x w s : is_width w ->
  set_logic_flags x w s = (Ok tt, with_flags false false (wrap w x =? 0)
    (signed w x <? 0) (parity (wrap w x)) s).
Proof.
  intros Hw. pose proof (is_width_range w Hw). rewrite set_logic_flags_Ok by done.
  rewrite top_negative by (lia || (apply wrap_fits; lia)). by rewrite <- signed_wrap by lia.
Qed.

Lemma execute_binary_flags op i w a b s : no_carry_in op ->
  destination_width i 0 = Ok w -> is_width w ->
  read_operand i 0 w s = Ok a -> read_operand i 1 w s = Ok b ->
  let v := binary_value op a b 0 in
  exists x, wrap w x = wrap w v /\
    execute_binary i op s = write_operand i 0 x w
      (with_flags (binary_carry op w a b) (binary_overflow op w a b) (wrap w v =? 0)
         (signed w v <? 0) (parity (wrap w v)) s).
Proof.
  intros [Hc1 Hc2] Hd Hw Ha Hb v. pose proof (is_width_range w Hw).
  unfold execute_binary, mbind, st_bind, lift, reads. rewrite Hd, Ha, Hb.
  destruct op; try done; cbn [binary_value] in v.
  - rewrite add_flags_value by done. exists (wrapping_add a b).
    split; [apply wrap_wrap; lia|done].
  - rewrite sub_flags_value by done. exists (wrapping_sub a b).
    split; [apply wrap_wrap; lia|done].
  - rewrite logic_flags_value by done. by eexists.
  - rewrite logic_flags_value by done. by eexists.
  - rewrite logic_flags_value by done. by eexists.
Qed.

(** ** Add with carry *)

(** The carry [adc] computes, from the comparison of the result with the left
    operand. *)
Lemma adc_carry_value w a b c : 0 <= w -> fits w a -> fits w b -> 0 <= c <= 1 ->
  (wrap w (a + b + c) <? a) = (2 ^ w <=? a + b + c) && negb ((c =? 1) && (b =? 2 ^ w - 1)).
Proof.
  intros Hw [Ha Ha'] [Hb Hb'] Hc. pose proof (Z.pow_pos_nonneg 2 w ltac:(lia) Hw).
  assert (wrap w (a + b + c) = if a + b + c <? 2 ^ w then a + b + c else a + b + c - 2 ^ w) as ->.
  { unfold wrap. zbool; [apply Z.mod_small; lia|]. symmetry. apply (Z.mod_unique_pos _ _ 1); lia. }
  sign_cases.
Qed.

Lemma execute_adc_flags i w a b s : destination_width i 0 = Ok w -> is_width w ->
  read_operand i 0 w s = Ok a -> read_operand i 1 w s = Ok b ->
  let c := b2z (flag (registers s) FLAG_CF) in
  exists x off zf sf pf, wrap w x = wrap w (a + b + c) /\
    execute_binary i Adc s = write_operand i 0 x w
      (with_flags ((2 ^ w <=? wrap w a + wrap w b + c)
                   && negb ((c =? 1) && (wrap w b =? 2 ^ w - 1))) off zf sf pf s).
Proof.
  intros Hd Hw Ha Hb c. pose proof (is_width_range w Hw).
  assert (wrap w (wrapping_add (wrapping_add a b) c) = wrap w (a + b + c)) as Hx.
  { unfold wrapping_add. rewrite wrap_wrap by lia. rewrite wrap_add_args by lia.
    rewrite (wrap_wrap w 64) by lia. by rewrite <- wrap_add_args by lia. }
  exists (wrapping_add (wrapping_add a b) c).
  unfold execute_binary, mbind, st_bind, lift, reads, reg, gets. rewrite Hd, Ha, Hb. fold c.
  rewrite set_add_flags_Ok by done. cbv zeta. rewrite Hx.
  assert ((wrap w (a + b + c) <? wrap w a) = (2 ^ w <=? wrap w a + wrap w b + c)
    && negb ((c =? 1) && (wrap w b =? 2 ^ w - 1))) as ->.
  { rewrite <- adc_carry_value by (apply wrap_fits; lia) || (unfold c; destruct (flag _ _); simpl; lia) || lia.
    f_equal. rewrite (wrap_add_args w (a + b)), (wrap_add_args w a) by lia.
    by rewrite (wrap_add_args w (wrap w a + wrap w b) c) by lia. }
  by do 4 eexists.
Qed.
End Alu.

(** ** Properties *)

(** C28: the binary instructions compute.  For [add], [sub], [and], [or] and
    [xor] on operands of width [w] with a register destination, the
    destination holds the exact result modulo [2^w]; the carry is the unsigned
    carry or borrow, the overflow flag says that the signed result does not
    fit, zero and sign describe the result, and nothing else is changed. *)
Theorem binary_instruction_result `{Iced} (s : Interpreter) (i : Instruction) (op : BinaryOp)
    (w a b : Z) (Hop : op <> Adc /\ op <> Sbb) (Hk : i_op_kind i 0 = OKRegister)
    (Hg : register_width (i_op_register i 0) = Ok w)
    (Ha : read_operand i 0 w s = Ok a) (Hb : read_operand i 1 w s = Ok b) :
  let v := binary_value op a b 0 in
  exists s', execute_binary i op s = (Ok tt, s') /\ memory s' = memory s /\ cache s' = cache s /\
    read_register (i_op_register i 0) s' = Ok (wrap w v) /\
    (forall h, slot_of h <> slot_of (i_op_register i 0) ->
       read_register h s' = read_register h s) /\
    flag (registers s') FLAG_CF = binary_carry op w a b /\
    flag (registers s') FLAG_OF = binary_overflow op w a b /\
    flag (registers s') FLAG_ZF = (wrap w v =? 0) /\
    flag (registers s') FLAG_SF = (signed w v <? 0).
Proof.
  intros v.
  assert (destination_width i 0 = Ok w) as Hd.
  { unfold destination_width, width_of_register. by rewrite Hk, Hg. }
  assert (is_width w) as Hw by (by eapply register_width_is_width).
  pose proof (is_width_range w Hw).
  destruct (execute_binary_flags op i w a b s Hop Hd Hw Ha Hb) as (x&Hx&->).
  fold v in Hx |- *.
  destruct (write_operand_register i 0 x w (with_flags (binary_carry op w a b)
    (binary_overflow op w a b) (wrap w v =? 0) (signed w v <? 0) (parity (wrap w v)) s))
    as (r'&->&Hr&Hh&Hf); [done|done|lia|].
  destruct (put_flags_read (binary_carry op w a b) (binary_overflow op w a b) (wrap w v =? 0)
    (signed w v <? 0) (parity (wrap w v)) (registers s)) as (Hcf&Hof&Hzf&Hsf&_).
  eexists. split; [reflexivity|]. split; [done|]. split; [done|].
  unfold read_register. cbn [registers set_registers]. split; [by rewrite Hr, Hx|].
  split; [|by rewrite !(flag_rflags _ _ _ Hf)].
  intros h Hne. rewrite Hh by done. unfold with_flags. cbn [registers set_registers].
  by rewrite read_put_flags.
Qed.

Lemma binary_instruction_result_witness :
  let r := set_rax 0x7f (set_rbx 1 default_registers) in
  let s := interpreter_new new r in
  let i := plain 4096 3 MAdd [(OKRegister, AL); (OKRegister, BL)] 0 in
  exists s', execute_binary i Add s = (Ok tt, s') /\ read_register AL s' = Ok 0x80 /\
    flag (registers s') FLAG_OF = true.
Proof.
  intros r s i.
  destruct (binary_instruction_result s i Add 8 0x7f 1) as (s'&Hx&_&_&Hv&_&_&Ho&_);
    [split; discriminate|reflexivity|reflexivity|reflexivity|reflexivity|].
  exists s'. split; [exact Hx|]. split; [exact Hv|exact Ho].
Defined.

(** [adc] adds with carry, but loses a carry out.  The destination
    register holds the sum of the operands and the incoming carry modulo
    [2^w]; the carry flag afterwards is the carry of that sum except when the
    carry was set and the right operand has all its bits set: there the flag
    is cleared although the sum always carries. *)
Theorem adc_result_and_carry `{Iced} (s : Interpreter) (i : Instruction) (w a b : Z)
    (Hk : i_op_kind i 0 = OKRegister) (Hg : register_width (i_op_register i 0) = Ok w)
    (Ha : read_operand i 0 w s = Ok a) (Hb : read_operand i 1 w s = Ok b) :
  let c := b2z (flag (registers s) FLAG_CF) in
  exists s', execute_binary i Adc s = (Ok tt, s') /\
    read_register (i_op_register i 0) s' = Ok (wrap w (a + b + c)) /\
    (~ (c = 1 /\ wrap w b = 2 ^ w - 1) ->
       flag (registers s') FLAG_CF = (2 ^ w <=? wrap w a + wrap w b + c)) /\
    (c = 1 -> wrap w b = 2 ^ w - 1 ->
       flag (registers s') FLAG_CF = false /\ 2 ^ w <= wrap w a + wrap w b + c).
Proof.
  intros c.
  assert (destination_width i 0 = Ok w) as Hd.
  { unfold destination_width, width_of_register. by rewrite Hk, Hg. }
  assert (is_width w) as Hw by (by eapply register_width_is_width).
  pose proof (is_width_range w Hw).
  destruct (execute_adc_flags i w a b s Hd Hw Ha Hb) as (x&off&zf&sf&pf&Hx&->). fold c in Hx |- *.
  set (cf := (2 ^ w <=? _) && _).
  destruct (write_operand_register i 0 x w (with_flags cf off zf sf pf s))
    as (r'&->&Hr&_&Hf); [done|done|lia|].
  destruct (put_flags_read cf off zf sf pf (registers s)) as (Hcf&_).
  eexists. split; [reflexivity|]. unfold read_register. cbn [registers set_registers].
  rewrite (flag_rflags _ _ _ Hf), Hr, Hx. split; [done|]. unfold with_flags. cbn [registers set_registers].
  rewrite Hcf. unfold cf. pose proof (wrap_fits w a ltac:(lia)) as [Hpos _].
  split.
  - intros Hno. destruct (Z.eqb_spec c 1), (Z.eqb_spec (wrap w b) (2 ^ w - 1));
      rewrite ?andb_true_r; done || (exfalso; tauto).
  - intros Hc1 Hb1. rewrite Hc1, Hb1, (Z.eqb_refl (2 ^ w - 1)), andb_false_r. split; [done|lia].
Qed.

Lemma adc_result_and_carry_witness :
  let r := set_flag FLAG_CF true (set_rax 5 (set_rbx 0xff default_registers)) in
  let s := interpreter_new new r in
  let i := plain 4096 3 MAdc [(OKRegister, AL); (OKRegister, BL)] 0 in
  exists s', execute_binary i Adc s = (Ok tt, s') /\ read_register AL s' = Ok 5 /\
    flag (registers s') FLAG_CF = false.
Proof.
  intros r s i.
  destruct (adc_result_and_carry s i 8 5 0xff) as (s'&Hx&Hv&_&Hc);
    [reflexivity|reflexivity|reflexivity|reflexivity|].
  exists s'. split; [exact Hx|]. split; [exact Hv|]. apply Hc; reflexivity.
Defined.
