(* ===== verification/CpuMulDiv.v ===== *)
(** * Multiplication and division

    The one-operand [mul], [imul], [div] and [idiv] against integer arithmetic
    on the double-width value in the accumulator registers. *)

From S2P Require Import Prelude Memory MemorySpec Registers Ir Iced ExampleDecoder Cpu CpuInt CpuSimd Interp CpuInv CpuSafe CpuArith CpuAlu.

Open Scope Z_scope.

(** The double-width number of width [2w]: [ax] for bytes, the high half in
    [rdx] and the low half in [rax] otherwise. *)
Definition double_value (w : Z) (r : Registers) : Z :=
  if w =? 8 then wrap 16 (rax r) else wrap w (rdx r) * 2 ^ w + wrap w (rax r).

(** ** Bits and halves *)

Lemma lor_shift_add a b k : 0 <= k -> 0 <= a -> fits k b ->
  Z.lor (Z.shiftl a k) b = a * 2 ^ k + b.
Proof.
  intros Hk Ha Hb. rewrite <- Z.shiftl_mul_pow2 by done.
  assert (Z.land (Z.shiftl a k) b = 0) as Hl.
  { apply Z.bits_inj'. intros i Hi. rewrite Z.land_spec, Z.shiftl_spec, Z.bits_0 by done.
    destruct (Z.lt_ge_cases i k).
    - by rewrite Z.testbit_neg_r by lia.
    - by rewrite (testbit_fits k b), andb_false_r. }
  pose proof (Z.add_lor_land (Z.shiftl a k) b). lia.
Qed.

(** Writing a low part replaces the low bits of the slot. *)
Lemma wrap_write_low g w old v : register_width g = Ok w -> register_low g = 0 ->
  slot_of g <> Some Srip -> u64 v -> wrap w (write_register_bits old g v) = wrap w v.
Proof.
  intros Hg Hlo Hs Hv. pose proof (register_width_is_width g w Hg) as Hw%is_width_range.
  apply Z.bits_inj'. intros i Hi. rewrite !wrap_spec by lia.
  destruct (Z.ltb_spec i w); [|done]. simpl.
  rewrite (write_register_bits_spec g w) by (done || lia). unfold written_bit. rewrite Hlo.
  rewrite (proj2 (Z.leb_le 0 i)), (proj2 (Z.ltb_lt i (0 + w))) by lia. simpl. f_equal. lia.
Qed.

(** A double-width number from its halves. *)
Lemma wrap_halves w x : 0 <= w ->
  wrap w (Z.shiftr x w) * 2 ^ w + wrap w x = wrap (2 * w) x.
Proof.
  intros Hw. unfold wrap. rewrite Z.shiftr_div_pow2 by done.
  replace (2 * w) with (w + w) by lia. rewrite Z.pow_add_r by done.
  rewrite Z.rem_mul_r by (pose proof (Z.pow_pos_nonneg 2 w); lia). lia.
Qed.

(** ** Sign extension *)

Lemma lnotw_mask w : 0 <= w <= 64 ->
  lnotw 64 (mask w) = Z.shiftl (2 ^ (64 - w) - 1) w.
Proof.
  intros Hw. rewrite mask_ones by done. unfold lnotw, wrap, Z.lnot.
  rewrite Z.shiftl_mul_pow2, Z.mul_sub_distr_r by lia.
  rewrite <- Z.pow_add_r by lia. replace (64 - w + w) with 64 by lia.
  pose proof (Z.pow_pos_nonneg 2 w ltac:(lia) ltac:(lia)).
  assert (2 ^ w <= 2 ^ 64) by (apply Z.pow_le_mono_r; lia).
  symmetry. apply (Z.mod_unique_pos _ _ (-1)); lia.
Qed.

Lemma sign_extend_value {E} v w : is_width w ->
  exists x, @sign_extend E v w = Ok x /\ u64 x /\ signed 64 x = signed w v.
Proof.
  intros Hw. pose proof (is_width_range w Hw). unfold sign_extend.
  rewrite sign_bit_Ok, land_mask by (done || lia). cbn [mbind res_bind].
  fold (nonzero (Z.land (wrap w v) (2 ^ (w - 1)))).
  assert (fits w (wrap w v)) as Hy by (apply wrap_fits; lia).
  rewrite nonzero_pow2, testbit_top, (signed_wrap w v), signed_fits by (done || lia).
  set (y := wrap w v) in *. destruct (pow2_double w ltac:(lia)) as [Hp Hp'].
  assert (2 ^ w <= 2 ^ 64) by (apply Z.pow_le_mono_r; lia).
  assert (2 ^ (w - 1) <= 2 ^ 63) by (apply Z.pow_le_mono_r; lia).
  eexists. split; [reflexivity|].
  destruct (Z.leb_spec (2 ^ (w - 1)) y) as [Hle|Hlt].
  - assert (0 <= 2 ^ (64 - w) - 1) by (pose proof (Z.pow_pos_nonneg 2 (64 - w)); lia).
    rewrite lnotw_mask, Z.lor_comm, lor_shift_add, Z.mul_sub_distr_r by (done || lia).
    rewrite <- Z.pow_add_r by lia. replace (64 - w + w) with 64 by lia. unfold fits in *.
    assert (u64 (2 ^ 64 - 1 * 2 ^ w + y)) as Hf by (unfold fits; lia).
    split; [exact Hf|]. rewrite signed_fits by done. change (64 - 1) with 63. sign_cases.
  - assert (u64 y) as Hf by (unfold fits in *; lia). split; [exact Hf|].
    rewrite signed_fits by done. change (64 - 1) with 63. sign_cases.
Qed.

Lemma to_i128_value {E} v w : is_width w -> @to_i128 E v w = Ok (signed w v).
Proof.
  intros Hw. unfold to_i128. destruct (@sign_extend_value E v w Hw) as (x&->&_&<-). done.
Qed.

Section MulDiv.
Context `{ICED : Iced}.
Implicit Types s : Interpreter.

(** The state after [write_mul_result]. *)
Lemma write_mul_result_value w x s : is_width w ->
  exists r', write_mul_result w x s = (Ok tt, set_registers r' s) /\
    double_value w r' = wrap (2 * w) x /\ rflags r' = rflags (registers s).
Proof.
  intros Hw. pose proof (is_width_range w Hw). unfold write_mul_result, double_value.
  pose proof (wrap_halves w x ltac:(lia)) as Hsplit.
  destruct Hw as [-> |[-> |[-> | ->]]].
  - eexists. split; [reflexivity|]. split; [|done]. cbn -[wrap lnotw Z.land Z.lor].
    change (2 * 8) with 16. change 0xffff with (2 ^ 16 - 1). rewrite land_ones_wrap, wrap_wrap by lia.
    apply Z.bits_inj'. intros i Hi. rewrite !wrap_spec, Z.lor_spec, Z.land_spec, lnotw_spec by lia.
    change (2 ^ 16 - 1) with (Z.ones 16). rewrite Z.testbit_ones_nonneg, wrap_spec by lia.
    destruct (Z.ltb_spec i 16); [|done]. by rewrite !andb_false_r.
  - eexists. split; [reflexivity|]. split; [|done]. cbn -[wrap write_register_bits Z.shiftr Z.pow Z.mul].
    rewrite !wrap_write_low by (done || by apply wrap_fits). by rewrite !(wrap_wrap 16 64) by lia.
  - eexists. split; [reflexivity|]. split; [|done]. cbn -[wrap write_register_bits Z.shiftr Z.pow Z.mul].
    rewrite !wrap_write_low by (done || by apply wrap_fits). by rewrite !(wrap_wrap 32 64) by lia.
  - eexists. split; [reflexivity|]. split; [|done]. cbn -[wrap Z.shiftr Z.pow Z.mul].
    by rewrite !(wrap_wrap 64 64) by lia.
Qed.

(** ** Multiplication *)

(** The double-width product and whether its upper half carries information. *)
Definition product (sgn : bool) (w a b : Z) : Z :=
  if sgn then wrap (2 * w) (signed w a * signed w b) else wrap w a * wrap w b.

Definition product_overflow (sgn : bool) (w a b : Z) : bool :=
  if sgn then negb (signed w (a * b) =? signed w a * signed w b)
  else 2 ^ w <=? wrap w a * wrap w b.

Lemma signed_product_range w a b : 0 < w ->
  - 2 ^ (2 * w - 1) <= signed w a * signed w b < 2 ^ (2 * w - 1).
Proof.
  intros Hw. pose proof (signed_range w a Hw). pose proof (signed_range w b Hw).
  destruct (pow2_double w Hw) as [Hp Hp'].
  replace (2 ^ (2 * w - 1)) with (2 * (2 ^ (w - 1) * 2 ^ (w - 1))).
  - nia.
  - rewrite <- Z.pow_add_r, <- Z.pow_succ_r by lia. f_equal. lia.
Qed.

Lemma wrap_mul_args w a b : 0 <= w -> wrap w (a * b) = wrap w (wrap w a * wrap w b).
Proof. intros. unfold wrap. by rewrite <- Zmult_mod. Qed.

(** The signed and the unsigned product agree in their low half. *)
Lemma wrap_signed_product w a b : 0 < w -> wrap w (signed w a * signed w b) = wrap w (a * b).
Proof.
  intros Hw. rewrite wrap_mul_args by lia. unfold wrap at 2 3. rewrite !signed_mod by done.
  symmetry. apply wrap_mul_args. lia.
Qed.

Lemma signed_of_wrap w v x : 0 < w <= v -> - 2 ^ (w - 1) <= x < 2 ^ (w - 1) ->
  signed v (wrap v x) = x.
Proof.
  intros Hw Hx. rewrite <- signed_wrap by lia. unfold signed.
  destruct (pow2_double v ltac:(lia)) as [Hp Hp'].
  assert (2 ^ (w - 1) <= 2 ^ (v - 1)) by (apply Z.pow_le_mono_r; lia).
  destruct (Z.lt_ge_cases x 0).
  - replace (x mod 2 ^ v) with (x + 2 ^ v) by (apply (Z.mod_unique_pos _ _ (-1)); lia). zbool; lia.
  - rewrite Z.mod_small by lia. zbool; lia.
Qed.

Lemma unsigned_product_range w a b : 0 <= w -> 0 <= wrap w a * wrap w b < 2 ^ (2 * w).
Proof.
  intros Hw. pose proof (wrap_fits w a Hw) as [? ?]. pose proof (wrap_fits w b Hw) as [? ?].
  replace (2 * w) with (w + w) by lia. rewrite Z.pow_add_r by done. nia.
Qed.

(** The flags of a multiplication: carry and overflow agree. *)
Definition set_cf_of (o : bool) (r : Registers) : Registers :=
  set_flag FLAG_OF o (set_flag FLAG_CF o r).

Lemma set_cf_of_read o r : flag (set_cf_of o r) FLAG_CF = o /\ flag (set_cf_of o r) FLAG_OF = o.
Proof.
  assert (is_flag FLAG_CF) by by apply (is_flag_pow 0).
  assert (is_flag FLAG_OF) by by apply (is_flag_pow 11).
  unfold set_cf_of. split.
  - rewrite flag_set_flag_ne by (done || by vm_compute). by apply flag_set_flag.
  - by apply flag_set_flag.
Qed.

Lemma double_value_cf_of w o r : double_value w (set_cf_of o r) = double_value w r.
Proof. unfold double_value, set_cf_of. by destruct o. Qed.

Lemma execute_mul_value i sgn w b s : source_width i 0 = Ok w -> is_width w ->
  read_operand i 0 w s = Ok b ->
  let a := rax (registers s) in
  exists r', execute_mul i sgn s =
      (Ok tt, set_registers (set_cf_of (product_overflow sgn w a b) r') s) /\
    double_value w r' = product sgn w a b /\ rflags r' = rflags (registers s).
Proof.
  intros Hs Hw Hb a. pose proof (is_width_range w Hw) as Hr.
  unfold execute_mul, mbind, st_bind, lift, reads, reg, gets. rewrite Hs, Hb. fold a.
  rewrite !land_mask by lia. destruct sgn.
  - pose proof (signed_product_range w a b ltac:(lia)) as Hp.
    assert (2 ^ (2 * w - 1) <= 2 ^ 127) by (apply Z.pow_le_mono_r; lia).
    rewrite !to_i128_value by done. cbn [mbind res_bind].
    rewrite <- !(signed_wrap w) by lia. unfold mul_i128.
    replace (in_i128 _) with true by (symmetry; unfold in_i128; zbool; lia). cbn [mbind res_bind].
    set (p := signed w a * signed w b) in *.
    destruct (write_mul_result_value w (wrap 128 p) s Hw) as (r'&->&Hv&Hf).
    rewrite land_mask, !to_i128_value by (done || lia). cbn [mbind res_bind].
    rewrite (wrap_wrap w 64), (wrap_wrap w 128), <- (signed_wrap w) by lia.
    rewrite (signed_of_wrap (2 * w) 128) by lia.
    exists r'. split; [|split; [|done]].
    + replace (product_overflow true w a b) with (negb (p =? signed w p)); [done|].
      unfold product_overflow. fold p. rewrite (signed_wrap w p), (signed_wrap w (a * b)) by lia.
      unfold p at 2. by rewrite wrap_signed_product, Z.eqb_sym by lia.
    + rewrite Hv. unfold product. apply wrap_wrap. lia.
  - pose proof (unsigned_product_range w a b ltac:(lia)) as Hp.
    assert (2 ^ (2 * w) <= 2 ^ 128) by (apply Z.pow_le_mono_r; lia).
    unfold mul_u128. rewrite (proj2 (Z.ltb_lt _ _)) by lia.
    set (p := wrap w a * wrap w b) in *.
    destruct (write_mul_result_value w p s Hw) as (r'&->&Hv&Hf).
    unfold shr. rewrite (proj2 (Z.ltb_lt w 128)) by lia. cbn [mbind res_bind].
    exists r'. split; [|split; [|done]].
    + replace (nonzero (Z.shiftr p w)) with (product_overflow false w a b); [done|].
      unfold product_overflow, nonzero. fold p. rewrite Z.shiftr_div_pow2 by lia.
      pose proof (Z.pow_pos_nonneg 2 w ltac:(lia) ltac:(lia)).
      destruct (Z.leb_spec (2 ^ w) p).
      * assert (1 <= p / 2 ^ w) by (apply Z.div_le_lower_bound; lia). zbool; done || lia.
      * by rewrite Z.div_small by lia.
    + rewrite Hv. unfold product. fold p. apply wrap_small. done.
Qed.

(** ** Division *)

Lemma pair_of_value r k : 0 <= k <= 32 ->
  pair_of r k = wrap k (rdx r) * 2 ^ k + wrap k (rax r).
Proof.
  intros Hk. unfold pair_of. rewrite !land_mask by lia.
  pose proof (wrap_fits k (rdx r) ltac:(lia)) as [H0 H1].
  assert (u64 (Z.shiftl (wrap k (rdx r)) k)) as Hf.
  { unfold fits. rewrite Z.shiftl_mul_pow2 by lia.
    assert (2 ^ (k + k) <= 2 ^ 64) by (apply Z.pow_le_mono_r; lia).
    rewrite Z.pow_add_r in * by lia. nia. }
  rewrite (wrap_small 64) by exact Hf. apply lor_shift_add; [lia|done|]. apply wrap_fits. lia.
Qed.

Lemma wide_pair_value r : wf_registers r ->
  wide_pair r = wrap 64 (rdx r) * 2 ^ 64 + wrap 64 (rax r).
Proof.
  intros Hr. pose proof (wfr_slots r Hr Srdx : u64 (rdx r)) as Hd.
  pose proof (wfr_slots r Hr Srax : u64 (rax r)) as Ha.
  unfold wide_pair. rewrite (wrap_small 64 (rdx r)), (wrap_small 64 (rax r)) by done.
  assert (u128 (Z.shiftl (rdx r) 64)) as Hf
    by (unfold fits in *; rewrite Z.shiftl_mul_pow2 by lia; lia).
  rewrite (wrap_small 128) by exact Hf. apply lor_shift_add; [lia|apply Hd|done].
Qed.

Lemma dividend_value w r : is_width w -> wf_registers r ->
  unsigned_dividend w r = double_value w r.
Proof.
  intros Hw Hr. unfold unsigned_dividend, double_value.
  destruct Hw as [-> |[-> |[-> | ->]]]; simpl.
  - by apply (land_ones_wrap 16).
  - by apply pair_of_value.
  - by apply pair_of_value.
  - by apply wide_pair_value.
Qed.

Lemma signed_dividend_value {E} w r : is_width w -> wf_registers r ->
  @signed_dividend E w r = Ok (signed (2 * w) (double_value w r)).
Proof.
  intros Hw Hr. rewrite <- (dividend_value w r) by done. unfold signed_dividend, unsigned_dividend.
  destruct Hw as [-> |[-> |[-> | ->]]]; simpl; [..|done];
    apply to_i128_value; unfold is_width; lia.
Qed.

(** The quotient in the low half, the remainder in the high half. *)
Lemma write_div_result_value w q m s : is_width w -> u64 q -> u64 m ->
  exists r', write_div_result w q m s = (Ok tt, set_registers r' s) /\
    double_value w r' = wrap w m * 2 ^ w + wrap w q /\ rflags r' = rflags (registers s).
Proof.
  intros Hw Hq Hm. unfold write_div_result, double_value.
  destruct Hw as [-> |[-> |[-> | ->]]].
  - eexists. split; [reflexivity|]. split; [|done].
    cbn -[wrap write_register_bits Z.pow Z.mul].
    pose proof (wrap_fits 8 q ltac:(lia)) as Hq8. pose proof (wrap_fits 8 m ltac:(lia)) as [Hm0 Hm1].
    rewrite <- lor_shift_add by (done || lia).
    apply Z.bits_inj'. intros i Hi. rewrite Z.lor_spec, Z.shiftl_spec, !wrap_spec by lia.
    destruct (Z.ltb_spec i 16); simpl.
    + rewrite (write_register_bits_spec AH 8) by (done || lia). unfold written_bit.
      rewrite (write_register_bits_spec AL 8) by (done || lia). unfold written_bit.
      change (register_low AH) with 8. change (register_low AL) with 0. change (8 + 8) with 16.
      change (0 + 8) with 8. destruct (Z.leb_spec 8 i), (Z.ltb_spec i 16), (Z.ltb_spec i 8),
        (Z.leb_spec 0 i), (Z.ltb_spec (i - 8) 8); simpl; try lia.
      * by rewrite orb_false_r.
      * rewrite (Z.testbit_neg_r m) by lia. simpl. f_equal. lia.
    + destruct (Z.ltb_spec (i - 8) 8), (Z.ltb_spec i 8); done || lia.
  - eexists. split; [reflexivity|]. split; [|done]. cbn -[wrap write_register_bits Z.pow Z.mul].
    by rewrite !wrap_write_low by done.
  - eexists. split; [reflexivity|]. split; [|done]. cbn -[wrap write_register_bits Z.pow Z.mul].
    by rewrite !wrap_write_low by done.
  - eexists. split; [reflexivity|]. done.
Qed.

(** How a division ends. *)
Inductive division : Type :=
| DivFault
| DivPanic
| DivResult (quotient remainder : Z).

(** Division of the double-width value [d] by the operand [b]. *)
Definition divide (sgn : bool) (w d b : Z) : division :=
  if wrap w b =? 0 then DivFault
  else if sgn then
    let d := signed (2 * w) d in
    let b := signed w b in
    if (w =? 64) && (d =? - 2 ^ 127) && (b =? -1) then DivPanic
    else if (Z.quot d b <? - 2 ^ (w - 1)) || (2 ^ (w - 1) <=? Z.quot d b) then DivFault
    else DivResult (Z.quot d b) (Z.rem d b)
  else
    let b := wrap w b in
    if 2 ^ w <=? d / b then DivFault else DivResult (d / b) (d mod b).

Lemma signed_min_max {E} w : is_width w ->
  @signed_min E w = Ok (- 2 ^ (w - 1)) /\ @signed_max E w = Ok (2 ^ (w - 1) - 1).
Proof. by intros [-> |[-> |[-> | ->]]]. Qed.

Lemma signed_zero w x : 0 < w -> signed w x = 0 <-> wrap w x = 0.
Proof.
  intros Hw. rewrite signed_wrap by done. pose proof (wrap_fits w x ltac:(lia)) as Hx.
  rewrite signed_fits by done. unfold fits in Hx. destruct (pow2_double w Hw). zbool; lia.
Qed.

(** The panic of the 128-bit division can only happen at width 64. *)
Lemma i128_min_width w d : is_width w -> signed (2 * w) d = - 2 ^ 127 -> w = 64.
Proof.
  intros Hw Hd. pose proof (signed_range (2 * w) d ltac:(destruct Hw as [-> |[-> |[-> | ->]]]; lia)).
  destruct Hw as [-> |[-> |[-> | ->]]]; simpl in *; lia.
Qed.

Lemma div_result_value w q m s : is_width w ->
  exists r', write_div_result w (wrap 64 q) (wrap 64 m) s = (Ok tt, set_registers r' s) /\
    double_value w r' = wrap w m * 2 ^ w + wrap w q /\ rflags r' = rflags (registers s).
Proof.
  intros Hw. pose proof (is_width_range w Hw).
  destruct (write_div_result_value w (wrap 64 q) (wrap 64 m) s) as (r'&->&Hv&Hf);
    [done|by apply wrap_fits|by apply wrap_fits|].
  exists r'. split; [done|]. split; [|done]. by rewrite Hv, !(wrap_wrap w 64) by lia.
Qed.

Lemma execute_div_value i sgn w b s : source_width i 0 = Ok w -> is_width w ->
  read_operand i 0 w s = Ok b -> wf_registers (registers s) ->
  match divide sgn w (double_value w (registers s)) b with
  | DivFault => execute_div i sgn s = (Err (DivideError (i_ip i)), s)
  | DivPanic => execute_div i sgn s = (Panic, s)
  | DivResult q m => exists r', execute_div i sgn s = (Ok tt, set_registers r' s) /\
      double_value w r' = wrap w m * 2 ^ w + wrap w q /\ rflags r' = rflags (registers s)
  end.
Proof.
  intros Hs Hw Hb Hr. pose proof (is_width_range w Hw) as Hwr.
  unfold execute_div, divide, mbind, st_bind, lift, reads, reg, gets, raise.
  rewrite Hs, Hb, !land_mask by lia. destruct (Z.eqb_spec (wrap w b) 0) as [|Hnz]; [done|].
  destruct sgn.
  - rewrite to_i128_value, signed_dividend_value by done. rewrite <- signed_wrap by lia.
    set (d := signed (2 * w) _). unfold div_i128, rem_i128.
    assert (signed w b <> 0) as Hb0 by (by rewrite signed_zero by lia).
    rewrite (proj2 (Z.eqb_neq _ 0) Hb0). cbn [orb].
    assert ((w =? 64) && (d =? - 2 ^ 127) = (d =? - 2 ^ 127)) as ->.
    { destruct (Z.eqb_spec d (- 2 ^ 127)) as [Hd|]; [|apply andb_false_r].
      by rewrite (i128_min_width w _ Hw Hd). }
    destruct ((d =? - 2 ^ 127) && (signed w b =? -1)); [done|].
    destruct (@signed_min_max CpuError w Hw) as [-> ->].
    destruct (Z.quot d (signed w b) <? - 2 ^ (w - 1)); [done|]. cbn [orb].
    assert ((2 ^ (w - 1) - 1 <? Z.quot d (signed w b)) = (2 ^ (w - 1) <=? Z.quot d (signed w b)))
      as -> by (zbool; done || lia).
    destruct (2 ^ (w - 1) <=? _); [done|]. by apply div_result_value.
  - rewrite dividend_value by done. unfold div_u, rem_u.
    rewrite (proj2 (Z.eqb_neq _ 0) Hnz). rewrite mask_ones by lia.
    assert ((2 ^ w - 1 <? double_value w (registers s) / wrap w b)
      = (2 ^ w <=? double_value w (registers s) / wrap w b)) as -> by (zbool; done || lia).
    destruct (2 ^ w <=? _); [done|]. by apply div_result_value.
Qed.
End MulDiv.

(** ** Properties *)

(** C29: one-operand [mul] and [imul] deliver the full product: at every width
    they never fail, the double-width accumulator pair holds the product of
    the accumulator and the operand (in two's complement when signed), and
    carry and overflow are set exactly when the product does not fit the low
    half. *)
Theorem multiplication_result `{Iced} (s : Interpreter) (i : Instruction) (sgn : bool) (w b : Z)
    (Hs : source_width i 0 = Ok w) (Hw : is_width w) (Hb : read_operand i 0 w s = Ok b) :
  let a := rax (registers s) in
  exists s', execute_mul i sgn s = (Ok tt, s') /\ memory s' = memory s /\
    double_value w (registers s') = product sgn w a b /\
    flag (registers s') FLAG_CF = product_overflow sgn w a b /\
    flag (registers s') FLAG_OF = product_overflow sgn w a b.
Proof.
  intros a. destruct (execute_mul_value i sgn w b s Hs Hw Hb) as (r'&->&Hv&_).
  eexists. split; [reflexivity|]. split; [done|]. cbn [registers set_registers].
  rewrite double_value_cf_of. split; [exact Hv|]. apply set_cf_of_read.
Qed.

Lemma multiplication_result_witness :
  let s := interpreter_new new (set_rax 0x80 (set_rbx 2 default_registers)) in
  let i := plain 4096 2 MImul [(OKRegister, BL)] 0 in
  exists s', execute_mul i true s = (Ok tt, s') /\ double_value 8 (registers s') = 0xff00 /\
    flag (registers s') FLAG_OF = true.
Proof.
  intros s i.
  destruct (multiplication_result s i true 8 2) as (s'&Hx&_&Hv&_&Ho);
    [reflexivity|left; reflexivity|reflexivity|].
  exists s'. split; [exact Hx|]. split; [exact Hv|exact Ho].
Defined.

(** C30: [div] and [idiv] divide the double-width accumulator pair by the
    operand.  A zero divisor or a quotient that does not fit the operand's
    width is a divide error that changes nothing; otherwise the low half
    receives the (truncated) quotient and the high half the remainder, with
    flags unchanged.  The one exception is a 64-bit [idiv] of the smallest
    128-bit integer by minus one, which panics. *)
Theorem division_result `{Iced} (s : Interpreter) (i : Instruction) (sgn : bool) (w b : Z)
    (Hs : source_width i 0 = Ok w) (Hw : is_width w) (Hb : read_operand i 0 w s = Ok b)
    (Hr : wf_registers (registers s)) :
  match divide sgn w (double_value w (registers s)) b with
  | DivFault => execute_div i sgn s = (Err (DivideError (i_ip i)), s)
  | DivPanic => execute_div i sgn s = (Panic, s)
  | DivResult q m => exists r', execute_div i sgn s = (Ok tt, set_registers r' s) /\
      double_value w r' = wrap w m * 2 ^ w + wrap w q /\ rflags r' = rflags (registers s)
  end.
Proof. by apply execute_div_value. Qed.

Lemma division_result_witness :
  let s := interpreter_new new (set_rdx 0x8000000000000000 (set_rbx u64_max default_registers)) in
  let i := plain 4096 3 MIdiv [(OKRegister, RBX)] 0 in
  execute_div i true s = (Panic, s).
Proof.
  intros s i.
  apply (division_result s i true 64 u64_max);
    [reflexivity|right; right; right; reflexivity|reflexivity|].
  apply (slot_set_wf Srdx); [|split; vm_compute; congruence].
  apply (slot_set_wf Srbx); [apply default_registers_wf|split; vm_compute; congruence].
Defined.
