(* ===== verification/CpuStack.v ===== *)
(** * The stack: push and pop, call and return *)

From S2P Require Import Prelude Memory MemorySpec Registers Ir Iced ExampleDecoder Cpu CpuInt CpuSimd Interp CpuInv CpuSafe CpuArith.

Open Scope Z_scope.

Section Stack.
Context `{ICED : Iced}.
Implicit Types s : Interpreter.

(** The slot below the stack pointer. *)
Definition below (s : Interpreter) : Z := wrapping_sub (rsp (registers s)) 8.

Lemma push_value s v : wf (memory s) -> u64 v -> rw_range (memory s) (below s) 8 ->
  exists m', push_u64 v s = (Ok tt, set_memory m' (set_registers (set_rsp (below s) (registers s)) s)) /\
    wf m' /\ shape m' = shape (memory s) /\ read_u64 m' (below s) = Ok v /\
    (forall a n, 0 <= n -> a + n <= below s \/ below s + 8 <= a ->
       read_bytes m' a n = read_bytes (memory s) a n).
Proof.
  intros Hm Hv Hrw.
  destruct (write_bytes_rw (memory s) (below s) (to_le 8 v)) as (m'&Hw&Hm'&Hs&Hr&Hf&_);
    [done|apply to_le_u8|done|].
  exists m'. split; [|split; [done|split; [done|split; [|exact Hf]]]].
  - unfold push_u64, mbind, st_bind, assign, modify, reg, gets, on_memory, zoom.
    cbn -[write_u64 wrapping_sub]. unfold write_u64. fold (below s). by rewrite Hw.
  - unfold read_u64, read_le. change (len (to_le 8 v)) with 8 in Hr. change (Z.of_nat 8) with 8.
    rewrite Hr. cbn -[to_le of_le]. by rewrite of_le_to_le_id.
Qed.

Lemma pop_value s v : read_u64 (memory s) (rsp (registers s)) = Ok v ->
  pop_u64 s = (Ok v, set_registers (set_rsp (wrapping_add (rsp (registers s)) 8) (registers s)) s).
Proof. intros Hr. unfold pop_u64, mbind, st_bind, reads. by rewrite Hr. Qed.

(** Stepping down and up again restores the stack pointer. *)
Lemma below_above s : u64 (rsp (registers s)) -> wrapping_add (below s) 8 = rsp (registers s).
Proof.
  intros Hr. unfold below, wrapping_add, wrapping_sub.
  rewrite wrap_add_args, (wrap_wrap 64 64), <- wrap_add_args by lia.
  replace (rsp (registers s) - 8 + 8) with (rsp (registers s)) by lia. by apply wrap_small.
Qed.
End Stack.

(** ** Properties *)

(** C31: a call returns.  With room for one word on a readable and writable
    stack, [call] stores the address of the next instruction below the stack
    pointer and jumps to its target; a plain [ret] executed there, as long as
    the stored word and the stack pointer are as [call] left them, continues
    at that address with the stack pointer restored, and the stored word is
    the only memory the call changed. *)
Theorem call_then_return `{IcedLaws} (s : Interpreter) (i j : Instruction) (ti tj : list Z) (t : Z)
    (Hi : i_mnemonic i = MCall) (Hj : i_mnemonic j = MRet) (Hop : i_op_count j <> 1)
    (Hm : wf (memory s)) (Hr : wf_registers (registers s))
    (Ht : branch_target i 0 s = Ok t)
    (Hrw : rw_range (memory s) (wrapping_sub (rsp (registers s)) 8) 8) :
  exists s1, execute i ti s = (Ok Continue, s1) /\
    rip (registers s1) = t /\ rsp (registers s1) = wrapping_sub (rsp (registers s)) 8 /\
    (forall a n, 0 <= n -> a + n <= rsp (registers s1) \/ rsp (registers s1) + 8 <= a ->
       read_bytes (memory s1) a n = read_bytes (memory s) a n) /\
    forall s2, rsp (registers s2) = rsp (registers s1) ->
      read_u64 (memory s2) (rsp (registers s1)) = read_u64 (memory s1) (rsp (registers s1)) ->
      execute j tj s2 = (Ok Continue, set_registers
        (set_rip (i_next_ip i) (set_rsp (rsp (registers s)) (registers s2))) s2).
Proof.
  destruct (push_value s (i_next_ip i) Hm) as (m'&Hp&_&_&Hv&Hf);
    [apply next_ip_u64|exact Hrw|].
  eexists. split; [|split; [|split; [|split]]].
  - unfold execute, execute_arm. rewrite Hi.
    unfold execute_call, mbind, st_bind, reads. rewrite Ht, Hp. reflexivity.
  - done.
  - done.
  - exact Hf.
  - intros s2 Hrsp Hread. unfold execute, execute_arm. rewrite Hj.
    unfold execute_ret, mbind, st_bind.
    cbn [registers memory set_registers set_memory set_rip set_rsp rsp] in Hrsp, Hread.
    rewrite (pop_value s2 (i_next_ip i)) by (rewrite Hrsp, Hread; exact Hv).
    rewrite (proj2 (Z.eqb_neq (i_op_count j) 1) Hop).
    rewrite Hrsp. fold (below s). rewrite below_above by apply (wfr_slots _ Hr Srsp). reflexivity.
Qed.

Definition demo_stack : Interpreter := interpreter_new
  (mkMemory [mkRegion 8192 16 (READ + WRITE) None (replicate 16 0)])
  (set_rsp 8208 default_registers).

Lemma call_then_return_witness :
  let i := plain 4096 5 MCall [(OKNearBranch64, NoRegister)] 4200 in
  let j := plain 4200 1 MRet [] 0 in
  exists s1 s2, execute i [] demo_stack = (Ok Continue, s1) /\ rip (registers s1) = 4200 /\
    execute j [] s1 = (Ok Continue, s2) /\ rip (registers s2) = 4101 /\ rsp (registers s2) = 8208.
Proof.
  intros i j.
  destruct (call_then_return demo_stack i j [] [] 4200) as (s1&Hx&Hrip&_&_&Hret).
  - reflexivity.
  - reflexivity.
  - discriminate.
  - split; repeat constructor; vm_compute; congruence.
  - apply (slot_set_wf Srsp); [apply default_registers_wf|split; vm_compute; congruence].
  - reflexivity.
  - eexists. vm_compute. repeat split.
  - eexists s1, _. split; [exact Hx|]. split; [exact Hrip|].
    split; [exact (Hret s1 eq_refl eq_refl)|]. split; reflexivity.
Defined.
