(* ===== verification/CpuShift.v ===== *)
(** * Shifts and rotates *)

From S2P Require Import Prelude Memory MemorySpec Registers Ir Iced ExampleDecoder Cpu CpuInt CpuSimd Interp CpuInv CpuSafe CpuArith CpuAlu CpuMulDiv.

Open Scope Z_scope.

(** ** Rotates, bit by bit *)

(** The position in the operand of bit [i] of the rotated value. *)
Definition rotated_from (left : bool) (w n i : Z) : Z :=
  if left then (i - n) mod w else (i + n) mod w.

Lemma mod_once_sub w n i : 0 < n < w -> 0 <= i < w ->
  (i - n) mod w = if n <=? i then i - n else i - n + w.
Proof.
  intros. zbool; [apply Z.mod_small; lia|]. symmetry. apply (Z.mod_unique_pos _ _ (-1)); lia.
Qed.

Lemma mod_once_add w n i : 0 < n < w -> 0 <= i < w ->
  (i + n) mod w = if i + n <? w then i + n else i + n - w.
Proof.
  intros. zbool; [apply Z.mod_small; lia|]. symmetry. apply (Z.mod_unique_pos _ _ 1); lia.
Qed.

Lemma rol_bits_spec {E} v n w : is_width w -> fits w v -> 0 < n < w ->
  exists x, @rol_bits E v n w w = Ok x /\ fits w x /\
    forall i, 0 <= i < w -> Z.testbit x i = Z.testbit v (rotated_from true w n i).
Proof.
  intros Hw%is_width_range Hv Hn. unfold rol_bits, shl, shr.
  rewrite (proj2 (Z.ltb_lt n 64)) by lia. cbn [mbind res_bind].
  assert (@sub64 E w n = Ok (w - n)) as -> by (apply sub64_Ok; lia). cbn [mbind res_bind].
  rewrite (proj2 (Z.ltb_lt (w - n) 64)) by lia. cbn [mbind res_bind].
  rewrite land_mask by lia. eexists. split; [reflexivity|]. split; [apply wrap_fits; lia|].
  intros i Hi. unfold rotated_from. rewrite mod_once_sub by lia.
  rewrite wrap_spec, Z.lor_spec, wrap_spec, Z.shiftl_spec, Z.shiftr_spec by lia.
  rewrite (proj2 (Z.ltb_lt i w)), (proj2 (Z.ltb_lt i 64)) by lia. simpl.
  destruct (Z.leb_spec n i).
  - by rewrite (testbit_fits w v (i + (w - n))), orb_false_r by (done || lia).
  - rewrite (Z.testbit_neg_r v (i - n)) by lia. simpl. f_equal. lia.
Qed.

Lemma ror_bits_spec {E} v n w : is_width w -> fits w v -> 0 < n < w ->
  exists x, @ror_bits E v n w w = Ok x /\ fits w x /\
    forall i, 0 <= i < w -> Z.testbit x i = Z.testbit v (rotated_from false w n i).
Proof.
  intros Hw%is_width_range Hv Hn. unfold ror_bits, shl, shr.
  rewrite (proj2 (Z.ltb_lt n 64)) by lia. cbn [mbind res_bind].
  assert (@sub64 E w n = Ok (w - n)) as -> by (apply sub64_Ok; lia). cbn [mbind res_bind].
  rewrite (proj2 (Z.ltb_lt (w - n) 64)) by lia. cbn [mbind res_bind].
  rewrite land_mask by lia. eexists. split; [reflexivity|]. split; [apply wrap_fits; lia|].
  intros i Hi. unfold rotated_from. rewrite mod_once_add by lia.
  rewrite wrap_spec, Z.lor_spec, wrap_spec, Z.shiftl_spec, Z.shiftr_spec by lia.
  rewrite (proj2 (Z.ltb_lt i w)), (proj2 (Z.ltb_lt i 64)) by lia. simpl.
  destruct (Z.ltb_spec (i + n) w).
  - by rewrite (Z.testbit_neg_r v (i - (w - n))), orb_false_r by lia.
  - rewrite (testbit_fits w v (i + n)) by (done || lia). simpl. f_equal. lia.
Qed.

(** ** Shifts *)

Definition shift_value (op : ShiftOp) (w v n : Z) : Z :=
  match op with
  | Shl => wrap w (v * 2 ^ n)
  | Shr => v / 2 ^ n
  | Sar => wrap w (signed w v / 2 ^ n)
  end.

(** The last bit shifted out; a right shift by more than the width has none. *)
Definition shifted_out (op : ShiftOp) (w v n : Z) : bool :=
  match op with
  | Shl => Z.testbit (v * 2 ^ n) w
  | Shr | Sar => Z.testbit v (n - 1)
  end.

Lemma shift_result_value {E} op v n w : is_width w -> fits w v -> 0 < n < 64 ->
  @shift_result E op v n w = Ok (shift_value op w v n).
Proof.
  intros Hw Hv Hn. pose proof (is_width_range w Hw).
  destruct op; simpl; rewrite ?(Z.mod_small n 64) by lia.
  - by rewrite land_mask, wrap_wrap, Z.shiftl_mul_pow2 by lia.
  - by rewrite Z.shiftr_div_pow2 by lia.
  - destruct (@sign_extend_value E v w Hw) as (x&->&_&Hx). cbn [mbind res_bind].
    unfold sar64. rewrite (proj2 (Z.ltb_lt n 64)), Hx by lia. cbn [mbind res_bind].
    by rewrite land_mask, wrap_wrap, Z.shiftr_div_pow2 by lia.
Qed.

Lemma bit_at_value {E} v a b : 0 <= v -> 0 <= a - b < 64 -> @bit_at E v a b = Ok (Z.testbit v (a - b)).
Proof.
  intros Hv Hab. unfold bit_at. assert (@sub64 E a b = Ok (a - b)) as -> by (apply sub64_Ok; lia).
  cbn [mbind res_bind]. unfold shr. rewrite (proj2 (Z.ltb_lt (a - b) 64)) by lia. cbn [mbind res_bind].
  change 1 with (2 ^ 0). by rewrite nonzero_pow2, Z.shiftr_spec, Z.add_0_l by lia.
Qed.

Lemma shift_carry_value {E} op v n w : is_width w -> fits w v -> 0 < n < 64 ->
  @shift_carry E op v n w = Ok (shifted_out op w v n).
Proof.
  intros Hw Hv Hn. pose proof (is_width_range w Hw).
  assert (0 <= v) as Hv0 by apply Hv.
  assert (w < n -> Z.testbit v (n - 1) = false)
    by (intros; apply (testbit_fits w); done || lia).
  destruct op; simpl; destruct (Z.leb_spec n w).
  - rewrite bit_at_value by lia. rewrite <- Z.shiftl_mul_pow2, Z.shiftl_spec by lia. done.
  - rewrite <- Z.shiftl_mul_pow2, Z.shiftl_spec, Z.testbit_neg_r by lia. done.
  - by apply bit_at_value; lia.
  - by rewrite H0 by lia.
  - by apply bit_at_value; lia.
  - by rewrite H0 by lia.
Qed.

(** ** The instructions on a register destination *)

Section Shift.
Context `{ICED : Iced}.
Implicit Types s : Interpreter.

(** The masked shift count of the architecture. *)
Definition shift_count (w k : Z) : Z := Z.land k (if w =? 64 then 0x3f else 0x1f).

Lemma shift_count_range w k : 0 <= k -> 0 <= shift_count w k < 64.
Proof.
  intros Hk. unfold shift_count.
  assert (forall x, fits 6 x -> 0 <= x < 64) as H6 by done.
  apply H6. destruct (w =? 64); apply land_fits_r; (lia || by split).
Qed.

Lemma set_common_flags_Ok x w s : is_width w -> fits w x ->
  set_common_flags x w s = (Ok tt, set_registers
    (set_flag FLAG_PF (parity x) (set_flag FLAG_SF (signed w x <? 0)
       (set_flag FLAG_ZF (x =? 0) (registers s)))) s).
Proof.
  intros Hw Hx. pose proof (is_width_range w Hw).
  unfold set_common_flags, mbind, st_bind, lift.
  rewrite (sign_bit_Ok w Hw). cbn -[mask set_flag Z.pow count_ones Z.land].
  rewrite !land_mask, (wrap_small w x) by (done || lia).
  by rewrite !nonzero_pow2, top_negative by (done || lia).
Qed.

(** The flags of a shift, read back. *)
Lemma shift_flags_read c (o : option bool) z n p r :
  let r1 := set_flag FLAG_CF c r in
  let r2 := match o with Some b => set_flag FLAG_OF b r1 | None => r1 end in
  let r3 := set_flag FLAG_PF p (set_flag FLAG_SF n (set_flag FLAG_ZF z r2)) in
  flag r3 FLAG_CF = c /\ flag r3 FLAG_ZF = z /\ flag r3 FLAG_SF = n /\
  (forall h, read r3 h = read r h).
Proof.
  assert (is_flag FLAG_CF) by by apply (is_flag_pow 0).
  assert (is_flag FLAG_OF) by by apply (is_flag_pow 11).
  assert (is_flag FLAG_ZF) by by apply (is_flag_pow 6).
  assert (is_flag FLAG_SF) by by apply (is_flag_pow 7).
  assert (is_flag FLAG_PF) by by apply (is_flag_pow 2).
  destruct o; cbv zeta; (split; [|split; [|split]]);
    try (repeat ((rewrite flag_set_flag by done) || (rewrite flag_set_flag_ne; [|done|done|by vm_compute])); done);
    intros h; rewrite !read_slot; destruct (slot_of h); [|done|..]; by rewrite ?set_flag_slots.
Qed.

Lemma shift_overflow_total {E} op v x w : is_width w -> exists o, @shift_overflow E op v x w = Ok o.
Proof. intros Hw. unfold shift_overflow. rewrite sign_bit_Ok by done. destruct op; by eexists. Qed.

Lemma shift_value_fits op w v n : 0 < w -> 0 <= n -> fits w v -> fits w (shift_value op w v n).
Proof.
  intros Hw Hn Hv. destruct op; simpl; try (apply wrap_fits; lia).
  rewrite <- Z.shiftr_div_pow2 by done. apply shiftr_fits; done || lia.
Qed.

(** The whole of [execute_shift] up to the write of the result. *)
Lemma execute_shift_value i op w v k s : destination_width i 0 = Ok w -> is_width w ->
  read_operand i 0 w s = Ok v -> read_operand i 1 8 s = Ok k -> 0 <= k ->
  let n := shift_count w k in
  let a := wrap w v in
  let x := shift_value op w a n in
  if n =? 0 then execute_shift i op s = (Ok tt, s)
  else exists o, execute_shift i op s = write_operand i 0 x w (set_registers
    (let r1 := set_flag FLAG_CF (shifted_out op w a n) (registers s) in
     let r2 := match o with Some b => set_flag FLAG_OF b r1 | None => r1 end in
     set_flag FLAG_PF (parity x) (set_flag FLAG_SF (signed w x <? 0) (set_flag FLAG_ZF (x =? 0) r2))) s).
Proof.
  intros Hd Hw Hv Hk Hk0 n a x. pose proof (is_width_range w Hw).
  pose proof (shift_count_range w k Hk0) as Hn.
  unfold execute_shift, mbind, st_bind, lift, reads. rewrite Hd, Hv, Hk, land_mask by lia.
  fold (shift_count w k). fold n a. destruct (Z.eqb_spec n 0) as [|Hn0]; [done|].
  assert (fits w a) as Ha by (apply wrap_fits; lia). fold n in Hn.
  rewrite shift_result_value, shift_carry_value by (done || lia). fold x.
  assert (fits w x) as Hx by (apply shift_value_fits; done || lia).
  destruct (Z.eqb_spec n 1) as [Hn1|Hn1].
  - destruct (@shift_overflow_total CpuError op a x w Hw) as [o Ho]. rewrite Ho.
    exists (Some o). cbn -[set_flag set_common_flags FLAG_OF FLAG_CF].
    by rewrite set_common_flags_Ok.
  - exists None. cbn -[set_flag set_common_flags FLAG_OF FLAG_CF].
    by rewrite set_common_flags_Ok.
Qed.

Lemma execute_rotate_value i w v k s (left : bool) : destination_width i 0 = Ok w -> is_width w ->
  i_mnemonic i = (if left then MRol else MRor) ->
  read_operand i 0 w s = Ok v -> read_operand i 1 8 s = Ok k -> 0 <= k ->
  let n := shift_count w k mod w in
  if n =? 0 then execute_rotate i s = (Ok tt, s)
  else exists x (o : option bool), fits w x /\
    (forall b, 0 <= b < w -> Z.testbit x b = Z.testbit (wrap w v) (rotated_from left w n b)) /\
    execute_rotate i s = write_operand i 0 x w (set_registers
      (let r1 := set_flag FLAG_CF (Z.testbit x (if left then 0 else w - 1)) (registers s) in
       match o with Some b => set_flag FLAG_OF b r1 | None => r1 end) s).
Proof.
  intros Hd Hw Hmn Hv Hk Hk0 n. pose proof (is_width_range w Hw).
  pose proof (Z.mod_pos_bound (shift_count w k) w ltac:(lia)) as Hn. fold n in Hn.
  unfold execute_rotate, mbind, st_bind, lift, reads. rewrite Hd, Hv, Hk, land_mask, Hmn by lia.
  unfold rem_u. rewrite (proj2 (Z.eqb_neq w 0)) by lia. fold (shift_count w k). fold n.
  destruct (Z.eqb_spec n 0) as [|Hn0]; [done|].
  assert (fits w (wrap w v)) as Ha by (apply wrap_fits; lia).
  assert (forall x, nonzero (Z.land x 1) = Z.testbit x 0) as H1
    by (intros; change 1 with (2 ^ 0); by apply nonzero_pow2).
  assert (@sub64 CpuError w 1 = Ok (w - 1)) as Hs1 by (apply sub64_Ok; lia).
  assert (@sub64 CpuError w 2 = Ok (w - 2)) as Hs2 by (apply sub64_Ok; lia).
  destruct left.
  - destruct (@rol_bits_spec CpuError (wrap w v) n w Hw Ha ltac:(lia)) as (x&->&Hx&Hbits).
    exists x. rewrite H1. destruct (Z.eqb_spec n 1).
    + unfold shr. rewrite Hs1. cbn [mbind res_bind]. rewrite (proj2 (Z.ltb_lt (w - 1) 64)) by lia.
      cbn [mbind res_bind]. by eexists (Some _).
    + by exists None.
  - destruct (@ror_bits_spec CpuError (wrap w v) n w Hw Ha ltac:(lia)) as (x&->&Hx&Hbits).
    exists x. rewrite bit_at_value by (lia || apply Hx). destruct (Z.eqb_spec n 1).
    + unfold shr. rewrite Hs1, Hs2. cbn [mbind res_bind].
      rewrite (proj2 (Z.ltb_lt (w - 1) 64)), (proj2 (Z.ltb_lt (w - 2) 64)) by lia.
      cbn [mbind res_bind]. by eexists (Some _).
    + by exists None.
Qed.

(** ** Double shifts *)

(** [shld] and [shrd] of two [w]-bit numbers, as the bits of their
    concatenation. *)
Definition double_shift_value (op : DoubleShiftOp) (w a b n : Z) : Z :=
  match op with
  | Shld => wrap w (a * 2 ^ n + b / 2 ^ (w - n))
  | Shrd => wrap w (a / 2 ^ n + b * 2 ^ (w - n))
  end.

Lemma lor_div_add a b n w : 0 <= n <= w -> 0 <= a -> fits w b ->
  Z.lor (Z.shiftl a n) (Z.shiftr b (w - n)) = a * 2 ^ n + b / 2 ^ (w - n).
Proof.
  intros Hn Ha [Hb0 Hb1]. rewrite Z.shiftr_div_pow2 by lia. apply lor_shift_add; [lia|done|].
  pose proof (Z.pow_pos_nonneg 2 (w - n) ltac:(lia) ltac:(lia)). split; [apply Z.div_pos; lia|].
  apply Z.div_lt_upper_bound; [done|]. rewrite <- Z.pow_add_r by lia.
  by replace (w - n + n) with w by lia.
Qed.

Lemma double_shift_result_value {E} op a b n w : is_width w -> fits w a -> fits w b ->
  0 < n <= w -> n < 64 ->
  @double_shift_result E op a b n w = Ok (double_shift_value op w a b n).
Proof.
  intros Hw Ha Hb Hn Hn64. pose proof (is_width_range w Hw) as Hr. destruct Ha as [Ha0 Ha1].
  assert (@sub64 E w n = Ok (w - n)) as Hsub by (apply sub64_Ok; lia).
  destruct op; simpl; unfold shl, shr; rewrite (proj2 (Z.ltb_lt n 64)) by lia; cbn [mbind res_bind];
    rewrite Hsub; cbn [mbind res_bind]; rewrite (proj2 (Z.ltb_lt (w - n) 64)) by lia;
    cbn [mbind res_bind]; rewrite land_mask by lia; f_equal.
  - rewrite <- lor_div_add by (done || lia). apply Z.bits_inj'. intros i Hi.
    rewrite !wrap_spec, !Z.lor_spec, wrap_spec by lia. destruct (Z.ltb_spec i w); [|done].
    by rewrite (proj2 (Z.ltb_lt i 64)) by lia.
  - pose proof (lor_div_add b a (w - n) w ltac:(lia) (proj1 Hb) (conj Ha0 Ha1)) as Hl.
    replace (w - (w - n)) with n in Hl by lia. rewrite Z.add_comm, <- Hl. apply Z.bits_inj'. intros i Hi.
    rewrite !wrap_spec, !Z.lor_spec, wrap_spec by lia. destruct (Z.ltb_spec i w); [|done].
    rewrite (proj2 (Z.ltb_lt i 64)) by lia. apply orb_comm.
Qed.

Lemma double_shift_carry_total {E} op a n w : is_width w -> fits w a -> 0 < n <= w -> n < 64 ->
  exists c, @double_shift_carry E op a n w = Ok c.
Proof.
  intros Hw%is_width_range [Ha _] Hn Hn64. destruct op; simpl; rewrite bit_at_value by lia; by eexists.
Qed.

Lemma double_shift_result_panics {E} op a b n w : w < n < 64 -> @double_shift_result E op a b n w = Panic.
Proof.
  intros Hn. assert (@sub64 E w n = Panic) as Hsub.
  { unfold sub64, checked_sub. by rewrite (proj2 (Z.leb_gt n w)) by lia. }
  destruct op; simpl; unfold shl, shr; rewrite (proj2 (Z.ltb_lt n 64)) by lia; cbn [mbind res_bind];
    by rewrite Hsub.
Qed.
End Shift.

(** ** Properties *)

(** C32: [shl], [shr] and [sar] on a register destination of width [w].  The
    count is masked to five or six bits; a zero count changes nothing;
    otherwise the destination is multiplied by [2^n] modulo [2^w], divided by
    [2^n], or divided as a signed number rounding down, the carry is the last
    bit of the operand shifted out (clear when a right shift, also [sar], goes
    past the width), and zero and sign describe the result. *)
Theorem shift_instruction_result `{Iced} (s : Interpreter) (i : Instruction) (op : ShiftOp)
    (w v k : Z) (Hk : i_op_kind i 0 = OKRegister)
    (Hg : register_width (i_op_register i 0) = Ok w)
    (Hv : read_operand i 0 w s = Ok v) (Hc : read_operand i 1 8 s = Ok k) (Hk0 : 0 <= k) :
  let n := shift_count w k in
  let x := shift_value op w (wrap w v) n in
  (n = 0 -> execute_shift i op s = (Ok tt, s)) /\
  (n <> 0 -> exists s', execute_shift i op s = (Ok tt, s') /\ memory s' = memory s /\
     read_register (i_op_register i 0) s' = Ok x /\
     (forall h, slot_of h <> slot_of (i_op_register i 0) -> read_register h s' = read_register h s) /\
     flag (registers s') FLAG_CF = shifted_out op w (wrap w v) n /\
     flag (registers s') FLAG_ZF = (x =? 0) /\
     flag (registers s') FLAG_SF = (signed w x <? 0)).
Proof.
  intros n x. assert (destination_width i 0 = Ok w) as Hd.
  { unfold destination_width, width_of_register. by rewrite Hk, Hg. }
  assert (is_width w) as Hw by (by eapply register_width_is_width).
  pose proof (is_width_range w Hw).
  pose proof (execute_shift_value i op w v k s Hd Hw Hv Hc Hk0) as Hs. cbv zeta in Hs. fold n in Hs.
  destruct (Z.eqb_spec n 0) as [|Hn]; [done|]. split; [done|]. intros _.
  destruct Hs as [o ->]. fold x. cbv zeta.
  assert (fits w x) as Hx by (apply shift_value_fits; [lia| |apply wrap_fits; lia];
    apply shift_count_range; done).
  destruct (shift_flags_read (shifted_out op w (wrap w v) n) o (x =? 0) (signed w x <? 0) (parity x)
    (registers s)) as (Hcf&Hzf&Hsf&Hread). set (r3 := set_flag FLAG_PF _ _) in *.
  destruct (write_operand_register i 0 x w (set_registers r3 s)) as (r'&->&Hr&Hh&Hf);
    [done|done|lia|].
  eexists. split; [reflexivity|]. split; [done|].
  unfold read_register. cbn [registers set_registers] in *.
  split; [by rewrite Hr, wrap_small|]. split; [|by rewrite !(flag_rflags _ _ _ Hf)].
  intros h Hne. by rewrite Hh, Hread.
Qed.

Lemma shift_instruction_result_witness :
  let s := interpreter_new new (set_rax 0x81 default_registers) in
  let i := plain 4096 3 MSar [(OKRegister, AL); (OKImmediate8, NoRegister)] 1 in
  exists s', execute_shift i Sar s = (Ok tt, s') /\ read_register AL s' = Ok 0xc0 /\
    flag (registers s') FLAG_CF = true.
Proof.
  intros s i.
  destruct (shift_instruction_result s i Sar 8 0x81 1) as [_ Hx];
    [reflexivity|reflexivity|reflexivity|reflexivity|lia|].
  destruct Hx as (s'&Hx&_&Hv&_&Hc&_); [discriminate|].
  exists s'. split; [exact Hx|]. split; [exact Hv|exact Hc].
Defined.

(** [rol] and [ror] on a register destination of width [w] rotate: with
    [n] the masked count modulo [w], bit [b] of the result is bit [b - n] (or
    [b + n]) modulo [w] of the operand, and the carry is the bit that was
    rotated around. *)
Theorem rotate_instruction_result `{Iced} (s : Interpreter) (i : Instruction) (left : bool)
    (w v k : Z) (Hm : i_mnemonic i = if left then MRol else MRor)
    (Hk : i_op_kind i 0 = OKRegister) (Hg : register_width (i_op_register i 0) = Ok w)
    (Hv : read_operand i 0 w s = Ok v) (Hc : read_operand i 1 8 s = Ok k) (Hk0 : 0 <= k) :
  let n := shift_count w k mod w in
  (n = 0 -> execute_rotate i s = (Ok tt, s)) /\
  (n <> 0 -> exists s' x, execute_rotate i s = (Ok tt, s') /\ memory s' = memory s /\
     read_register (i_op_register i 0) s' = Ok x /\ fits w x /\
     (forall b, 0 <= b < w -> Z.testbit x b = Z.testbit (wrap w v) (rotated_from left w n b)) /\
     flag (registers s') FLAG_CF = Z.testbit x (if left then 0 else w - 1)).
Proof.
  intros n. assert (destination_width i 0 = Ok w) as Hd.
  { unfold destination_width, width_of_register. by rewrite Hk, Hg. }
  assert (is_width w) as Hw by (by eapply register_width_is_width).
  pose proof (is_width_range w Hw).
  pose proof (execute_rotate_value i w v k s left Hd Hw Hm Hv Hc Hk0) as Hs. cbv zeta in Hs.
  fold n in Hs. destruct (Z.eqb_spec n 0) as [|Hn]; [done|]. split; [done|]. intros _.
  destruct Hs as (x&o&Hx&Hbits&->). set (r2 := match o with Some _ => _ | None => _ end).
  assert (flag r2 FLAG_CF = Z.testbit x (if left then 0 else w - 1)) as Hcf.
  { assert (is_flag FLAG_CF) by by apply (is_flag_pow 0).
    assert (is_flag FLAG_OF) by by apply (is_flag_pow 11).
    unfold r2. destruct o; [rewrite flag_set_flag_ne by (done || by vm_compute)|];
      by apply flag_set_flag. }
  destruct (write_operand_register i 0 x w (set_registers r2 s)) as (r'&->&Hr&_&Hf);
    [done|done|lia|].
  exists (set_registers r' (set_registers r2 s)), x. split; [done|]. split; [done|].
  unfold read_register. cbn [registers set_registers] in *.
  split; [by rewrite Hr, wrap_small|]. split; [done|]. split; [done|].
  by rewrite (flag_rflags _ _ _ Hf).
Qed.

Lemma rotate_instruction_result_witness :
  let s := interpreter_new new (set_rax 0x81 default_registers) in
  let i := plain 4096 3 MRol [(OKRegister, AL); (OKImmediate8, NoRegister)] 9 in
  exists s' x, execute_rotate i s = (Ok tt, s') /\ read_register AL s' = Ok x /\
    Z.testbit x 0 = true /\ Z.testbit x 1 = true.
Proof.
  intros s i.
  destruct (rotate_instruction_result s i true 8 0x81 9) as [_ Hx];
    [reflexivity|reflexivity|reflexivity|reflexivity|reflexivity|lia|].
  destruct Hx as (s'&x&Hx&_&Hv&_&Hb&_); [discriminate|].
  exists s', x. split; [exact Hx|]. split; [exact Hv|].
  split; (rewrite Hb; [reflexivity|lia]).
Defined.

(** [shld] and [shrd] shift one operand into the other: for a count
    between one and the width the result is the shifted concatenation modulo
    [2^w].  A 16-bit operand with a count above sixteen, which the count mask
    of five bits lets through, subtracts the count from the width and panics. *)
Theorem double_shift_outcome `{Iced} (s : Interpreter) (i : Instruction) (op : DoubleShiftOp)
    (w a b k : Z) (Hk : i_op_kind i 0 = OKRegister)
    (Hg : register_width (i_op_register i 0) = Ok w)
    (Ha : read_operand i 0 w s = Ok a) (Hb : read_operand i 1 w s = Ok b)
    (Hc : read_operand i 2 8 s = Ok k) (Hk0 : 0 <= k) :
  let n := shift_count w k in
  (n = 0 -> execute_double_shift i op s = (Ok tt, s)) /\
  (0 < n <= w -> exists s', execute_double_shift i op s = (Ok tt, s') /\ memory s' = memory s /\
     read_register (i_op_register i 0) s' =
       Ok (double_shift_value op w (wrap w a) (wrap w b) n)) /\
  (w < n -> execute_double_shift i op s = (Panic, s)).
Proof.
  intros n. assert (destination_width i 0 = Ok w) as Hd.
  { unfold destination_width, width_of_register. by rewrite Hk, Hg. }
  assert (is_width w) as Hw by (by eapply register_width_is_width).
  pose proof (is_width_range w Hw). pose proof (shift_count_range w k Hk0) as Hn. fold n in Hn.
  unfold execute_double_shift, mbind, st_bind, lift, reads. rewrite Hd, Ha, Hb, Hc, !land_mask by lia.
  fold (shift_count w k). fold n. destruct (Z.eqb_spec n 0) as [|Hn0]; [split; [done|lia]|].
  assert (fits w (wrap w a)) as Hfa by (apply wrap_fits; lia).
  assert (fits w (wrap w b)) as Hfb by (apply wrap_fits; lia).
  split; [lia|]. split; intros Hnw.
  - rewrite double_shift_result_value by (done || lia). set (x := double_shift_value _ _ _ _ _).
    assert (fits w x) as Hx by (unfold x; destruct op; apply wrap_fits; lia).
    destruct (@double_shift_carry_total CpuError op (wrap w a) n w) as [c Hcr]; [done|done|lia|lia|].
    rewrite Hcr, sign_bit_Ok by done.
    destruct (n =? 1); cbn -[set_flag set_common_flags FLAG_OF FLAG_CF];
      rewrite set_common_flags_Ok by done;
      (edestruct (write_operand_register i 0 x w) as (r'&->&Hr&_&_); [done|done|lia|]);
      (eexists; split; [reflexivity|]; split; [done|]);
      unfold read_register; cbn [registers set_registers]; by rewrite Hr, wrap_small.
  - by rewrite double_shift_result_panics by lia.
Qed.

Lemma double_shift_outcome_witness :
  let s := interpreter_new new default_registers in
  let i := plain 4096 4 MShld [(OKRegister, AX); (OKRegister, BX); (OKImmediate8, NoRegister)] 20 in
  execute_double_shift i Shld s = (Panic, s).
Proof.
  intros s i.
  destruct (double_shift_outcome s i Shld 16 0 0 20) as (_&_&Hp);
    [reflexivity|reflexivity|reflexivity|reflexivity|reflexivity|lia|].
  apply Hp. reflexivity.
Defined.
