(* ===== verification/CpuLanes.v ===== *)
(** * Vector instructions, lane by lane

    The loops that assemble a 128-bit result, against the function they apply
    to the lanes of their operands. *)

From S2P Require Import Prelude Memory MemorySpec Registers Ir Iced ExampleDecoder Cpu CpuInt CpuSimd Interp CpuInv CpuSafe CpuArith CpuAlu CpuMulDiv CpuShift.

Open Scope Z_scope.

(** Lane [j] of width [w] of a vector. *)
Definition lane (w j x : Z) : Z := wrap w (Z.shiftr x (j * w)).

Lemma lane_fits w j x : 0 <= w -> fits w (lane w j x).
Proof. intros. by apply wrap_fits. Qed.

Lemma lane_testbit w j x i : 0 <= w -> 0 <= i -> 
  Z.testbit (lane w j x) i = (i <? w) && Z.testbit x (i + j * w).
Proof. intros. unfold lane. rewrite wrap_spec by done. by rewrite Z.shiftr_spec. Qed.

(** The widths of lanes. *)
Definition lane_width (w : Z) : Prop := w = 8 \/ w = 16 \/ w = 32 \/ w = 64.

(** ** Assembling a vector *)

Lemma fold_res_app {E A} (f : Z -> A -> res E A) l k acc :
  fold_res f (l ++ k) acc = (a ← fold_res f l acc; fold_res f k a).
Proof.
  revert acc. induction l as [|x l IH]; intros acc; simpl; [done|].
  destruct (f x acc); simpl; [apply IH|done..].
Qed.

Lemma upto_S n : upto (S n) = upto n ++ [Z.of_nat n].
Proof. unfold upto. by rewrite seq_S, fmap_app. Qed.

(** A loop that adds lane [k] in its [k]-th iteration builds the vector with
    these lanes. *)
Lemma fold_lanes {E} (body : Z -> Z -> res E Z) w n g : 0 < w ->
  (forall k, 0 <= k < Z.of_nat n -> fits w (g k)) ->
  (forall k acc, 0 <= k < Z.of_nat n -> body k acc = Ok (Z.lor acc (Z.shiftl (g k) (k * w)))) ->
  exists r, fold_res body (upto n) 0 = Ok r /\ 0 <= r /\
    forall i, 0 <= i -> Z.testbit r i = (i <? Z.of_nat n * w) && Z.testbit (g (i / w)) (i mod w).
Proof.
  intros Hw. induction n as [|n IH]; intros Hg Hb.
  { exists 0. split; [done|]. split; [done|]. intros i Hi. rewrite Z.bits_0.
    by rewrite (proj2 (Z.ltb_ge i _)) by lia. }
  destruct IH as (r&Hr&Hr0&Hbits); [intros; apply Hg; lia|intros; apply Hb; lia|].
  rewrite upto_S, fold_res_app, Hr. cbn [mbind res_bind fold_res].
  rewrite Hb by lia. cbn [mbind res_bind].
  destruct (Hg (Z.of_nat n)) as [Hg0 Hg1]; [lia|].
  eexists. split; [reflexivity|]. split.
  { apply Z.lor_nonneg. split; [done|]. by apply Z.shiftl_nonneg. }
  intros i Hi. rewrite Z.lor_spec, Hbits, Z.shiftl_spec by done.
  destruct (Z.ltb_spec i (Z.of_nat n * w)).
  - rewrite (proj2 (Z.ltb_lt i (Z.of_nat (S n) * w))) by lia.
    by rewrite (Z.testbit_neg_r (g (Z.of_nat n))), orb_false_r by lia.
  - simpl. destruct (Z.ltb_spec i (Z.of_nat (S n) * w)).
    + replace (i / w) with (Z.of_nat n) by (apply (Z.div_unique_pos i w (Z.of_nat n) (i - Z.of_nat n * w)); lia).
      simpl. f_equal. apply (Z.mod_unique_pos i w (Z.of_nat n)); lia.
    + apply (testbit_fits w); [lia|by split|lia].
Qed.

Lemma lane_of_bits w n g r j : 0 < w -> 0 <= j < n -> fits w (g j) ->
  (forall i, 0 <= i -> Z.testbit r i = (i <? n * w) && Z.testbit (g (i / w)) (i mod w)) ->
  lane w j r = g j.
Proof.
  intros Hw Hj Hg Hb. apply Z.bits_inj'. intros i Hi.
  rewrite lane_testbit by lia. destruct (Z.ltb_spec i w).
  - rewrite Hb by nia. rewrite (proj2 (Z.ltb_lt (i + j * w) (n * w))) by nia. simpl.
    f_equal; [f_equal; symmetry; apply (Z.div_unique_pos (i + j * w) w j i); lia|].
    symmetry. apply (Z.mod_unique_pos (i + j * w) w j i); lia.
  - simpl. symmetry. apply (testbit_fits w); done || lia.
Qed.

(** The same as one statement about lanes. *)
Lemma fold_lanes_lane {E} (body : Z -> Z -> res E Z) w n g : 0 < w ->
  (forall k, 0 <= k < Z.of_nat n -> fits w (g k)) ->
  (forall k acc, 0 <= k < Z.of_nat n -> body k acc = Ok (Z.lor acc (Z.shiftl (g k) (k * w)))) ->
  exists r, fold_res body (upto n) 0 = Ok r /\
    forall j, 0 <= j < Z.of_nat n -> lane w j r = g j.
Proof.
  intros Hw Hg Hb. destruct (fold_lanes body w n g Hw Hg Hb) as (r&Hr&_&Hbits).
  exists r. split; [done|]. intros j Hj. by apply (lane_of_bits w (Z.of_nat n)); auto.
Qed.

(** ** The primitive steps of the loops *)

Lemma lane_at_value {E} x w j : lane_width w -> 0 <= j -> j * w < 128 ->
  @lane_at E x (j * w) (2 ^ w - 1) = Ok (lane w j x).
Proof.
  intros Hw Hj Hlt. unfold lane_at, shr. rewrite (proj2 (Z.ltb_lt _ _) Hlt). cbn [mbind res_bind].
  rewrite land_ones_wrap by (destruct Hw; lia). done.
Qed.

Lemma shl128_value {E} v w k : lane_width w -> 0 <= k -> (k + 1) * w <= 128 -> fits w v ->
  @shl E 128 v (k * w) = Ok (Z.shiftl v (k * w)).
Proof.
  intros Hw Hk Hkw [Hv0 Hv1]. assert (0 < w) by (destruct Hw; lia). unfold shl.
  rewrite (proj2 (Z.ltb_lt _ _)) by nia. f_equal. apply wrap_small. unfold fits.
  rewrite Z.shiftl_mul_pow2 by nia.
  assert (2 ^ w * 2 ^ (k * w) <= 2 ^ 128).
  { rewrite <- Z.pow_add_r by nia. apply Z.pow_le_mono_r; [lia|nia]. }
  pose proof (Z.pow_pos_nonneg 2 (k * w) ltac:(lia) ltac:(nia)). nia.
Qed.

Lemma lane_width_range w : lane_width w -> 8 <= w <= 64 /\ w * (128 / w) = 128 /\ 0 <= 128 / w.
Proof. by intros [-> |[-> |[-> | ->]]]. Qed.

Lemma mask_lane w : lane_width w -> mask w = 2 ^ w - 1.
Proof. intros Hw%lane_width_range. apply mask_ones. lia. Qed.

Lemma ones_fits w : 0 <= w -> fits w (2 ^ w - 1).
Proof. intros. unfold fits. pose proof (Z.pow_pos_nonneg 2 w). lia. Qed.

(** ** Bytes *)

Lemma byte_lanes_value {E} (f : Z -> Z -> res E Z) g l r :
  (forall a b, u8 a -> u8 b -> f a b = Ok (g a b) /\ u8 (g a b)) ->
  exists x, byte_lanes f l r = Ok x /\
    forall j, 0 <= j < 16 -> lane 8 j x = g (lane 8 j l) (lane 8 j r).
Proof.
  intros Hf. assert (lane_width 8) as H8 by by left.
  assert (forall j y, u8 (lane 8 j y)) as Hl by (intros; by apply lane_fits).
  apply (fold_lanes_lane _ 8 16 (fun j => g (lane 8 j l) (lane 8 j r))); [lia| |].
  - intros k _. by apply Hf.
  - intros k acc Hk. cbv zeta. change 0xff with (2 ^ 8 - 1).
    rewrite !lane_at_value by (done || lia). cbn [mbind res_bind].
    rewrite !(wrap_small 8) by done. destruct (Hf (lane 8 k l) (lane 8 k r)) as [-> Hg]; [done..|].
    cbn [mbind res_bind]. by rewrite shl128_value by (done || lia).
Qed.

(** ** Comparisons: a lane of ones or of zeros *)

Definition lane_flag (w : Z) (b : bool) : Z := if b then 2 ^ w - 1 else 0.

Lemma lane_flag_fits w b : 0 <= w -> fits w (lane_flag w b).
Proof. intros. destruct b; [by apply ones_fits|]. unfold fits. pose proof (Z.pow_pos_nonneg 2 w). simpl. lia. Qed.

Lemma compare_equal_value {E} l r w : lane_width w ->
  exists x, @compare_equal_result E l r w = Ok x /\
    forall j, 0 <= j < 128 / w -> lane w j x = lane_flag w (lane w j l =? lane w j r).
Proof.
  intros Hw. destruct (lane_width_range w Hw) as (Hr&Hm&Hd).
  destruct (fold_lanes_lane (E:=E) (fun lane0 result =>
      left_lane ← lane_at l (lane0 * w) (mask w);
      right_lane ← lane_at r (lane0 * w) (mask w);
      if left_lane =? right_lane then m ← shl 128 (mask w) (lane0 * w); Ok (Z.lor result m)
      else Ok result) w (Z.to_nat (128 / w)) (fun j => lane_flag w (lane w j l =? lane w j r)))
    as (x&Hx&Hl).
  - lia.
  - intros. apply lane_flag_fits. lia.
  - intros k acc Hk. rewrite (mask_lane w Hw), !lane_at_value by (done || nia). cbn [mbind res_bind].
    destruct (_ =? _); simpl.
    + rewrite shl128_value by (done || nia || (apply ones_fits; lia)). done.
    + by rewrite Z.shiftl_0_l, Z.lor_0_r.
  - exists x. split; [exact Hx|]. intros j Hj. apply Hl. lia.
Qed.

Lemma compare_greater_value {E} l r w : lane_width w ->
  exists x, @compare_greater_result E l r w = Ok x /\
    forall j, 0 <= j < 128 / w ->
      lane w j x = lane_flag w (signed w (lane w j r) <? signed w (lane w j l)).
Proof.
  intros Hw. destruct (lane_width_range w Hw) as (Hr&Hm&Hd).
  destruct (fold_lanes_lane (E:=E) (fun lane0 result =>
      left_lane ← lane_at l (lane0 * w) (mask w);
      right_lane ← lane_at r (lane0 * w) (mask w);
      left_signed ← sign_extend (wrap 64 left_lane) w;
      right_signed ← sign_extend (wrap 64 right_lane) w;
      if signed 64 right_signed <? signed 64 left_signed
      then m ← shl 128 (mask w) (lane0 * w); Ok (Z.lor result m)
      else Ok result) w (Z.to_nat (128 / w))
      (fun j => lane_flag w (signed w (lane w j r) <? signed w (lane w j l)))) as (x&Hx&Hl).
  - lia.
  - intros. apply lane_flag_fits. lia.
  - intros k acc Hk. rewrite (mask_lane w Hw), !lane_at_value by (done || nia). cbn [mbind res_bind].
    assert (forall y, fits w y -> wrap 64 y = y) as Hsmall
      by (intros y Hy; apply wrap_small, (fits_le w); [lia|done]).
    rewrite !Hsmall by (apply lane_fits; lia).
    destruct (@sign_extend_value E (lane w k l) w Hw) as (xl&->&_&Hxl). cbn [mbind res_bind].
    destruct (@sign_extend_value E (lane w k r) w Hw) as (xr&->&_&Hxr). cbn [mbind res_bind].
    rewrite Hxl, Hxr.
    destruct (_ <? _); simpl.
    + rewrite shl128_value by (done || nia || (apply ones_fits; lia)). done.
    + by rewrite Z.shiftl_0_l, Z.lor_0_r.
  - exists x. split; [exact Hx|]. intros j Hj. apply Hl. lia.
Qed.

(** ** Shuffles *)

(** The two bits of the control byte for output lane [j]. *)
Definition selector (control j : Z) : Z := wrap 2 (Z.shiftr control (j * 2)).

Lemma selector_range control j : 0 <= selector control j < 4.
Proof. unfold selector. by apply (wrap_fits 2). Qed.

Lemma land3_wrap x : Z.land x 3 = wrap 2 x.
Proof. by apply (land_ones_wrap 2). Qed.

Lemma pshufd_value {E} source control :
  exists x, @pshufd_result E source control = Ok x /\
    forall j, 0 <= j < 4 -> lane 32 j x = lane 32 (selector control j) source.
Proof.
  assert (lane_width 32) as Hw by (unfold lane_width; lia).
  apply (fold_lanes_lane _ 32 4 (fun j => lane 32 (selector control j) source)); [lia| |].
  - intros. by apply lane_fits.
  - intros k acc Hk. unfold shr at 1. rewrite (proj2 (Z.ltb_lt (k * 2) 8)) by lia. cbn [mbind res_bind].
    cbv zeta. rewrite land3_wrap. fold (selector control k). pose proof (selector_range control k).
    change 0xffffffff with (2 ^ 32 - 1). rewrite lane_at_value by (done || lia). cbn [mbind res_bind].
    by rewrite shl128_value by (done || lia || by apply lane_fits).
Qed.

Lemma shufps_value {E} d s control :
  exists x, @shufps_result E d s control = Ok x /\
    forall j, 0 <= j < 4 ->
      lane 32 j x = lane 32 (selector control j) (if j <? 2 then d else s).
Proof.
  assert (lane_width 32) as Hw by (unfold lane_width; lia).
  set (sels := [Z.land control 3; Z.land (Z.shiftr control 2) 3;
                Z.land (Z.shiftr control 4) 3; Z.land (Z.shiftr control 6) 3]).
  set (place := fun from lane0 result =>
    sel ← @index E Z sels lane0;
    value ← lane_at from (sel * 32) 0xffffffff;
    v ← shl 128 value (lane0 * 32);
    Ok (Z.lor result v)).
  destruct (fold_lanes_lane (E:=E) (fun k acc => place (if k <? 2 then d else s) k acc) 32 4
    (fun j => lane 32 (selector control j) (if j <? 2 then d else s))) as (x&Hx&Hl).
  - lia.
  - intros. by apply lane_fits.
  - intros k acc Hk. unfold place.
    assert (@index E Z sels k = Ok (selector control k)) as ->.
    { unfold selector, index, sels. rewrite !land3_wrap.
      assert (k = 0 \/ k = 1 \/ k = 2 \/ k = 3) as [-> |[-> |[-> | ->]]] by lia; reflexivity. }
    cbn [mbind res_bind]. pose proof (selector_range control k).
    change 0xffffffff with (2 ^ 32 - 1). rewrite lane_at_value by (done || lia). cbn [mbind res_bind].
    by rewrite shl128_value by (done || lia || by apply lane_fits).
  - exists x. split; [|intros j Hj; apply Hl; simpl; lia].
    rewrite <- Hx. transitivity (fold_res (place d) [0; 1] 0 ≫= fold_res (place s) [2; 3]);
      [reflexivity|].
    change (upto 4) with ([0; 1] ++ [2; 3]). rewrite fold_res_app.
    change (fold_res (fun k acc => place (if k <? 2 then d else s) k acc) [0; 1] 0)
      with (fold_res (place d) [0; 1] 0).
    by destruct (fold_res (place d) [0; 1] 0).
Qed.

(** ** Interleaving *)

(** Output pair [k] of an unpack: a lane of the destination below a lane of
    the source, from the low or the high half. *)
Definition unpacked (d s b : Z) (high : bool) (k : Z) : Z :=
  let j := k + (if high then 64 / b else 0) in
  lane b j s * 2 ^ b + lane b j d.

Lemma lor_pair a b w sh : 0 <= w -> 0 <= sh -> fits w a -> 0 <= b ->
  Z.lor (Z.shiftl a sh) (Z.shiftl b (sh + w)) = Z.shiftl (b * 2 ^ w + a) sh.
Proof.
  intros Hw Hs Ha Hb. rewrite <- lor_shift_add by done. rewrite Z.shiftl_lor.
  rewrite Z.shiftl_shiftl by done. rewrite Z.lor_comm. f_equal. f_equal. lia.
Qed.

Lemma punpck_value {E} d s b high : lane_width b ->
  exists x, @punpck_result E d s b high = Ok x /\
    forall k, 0 <= k < 64 / b -> lane (2 * b) k x = unpacked d s b high k.
Proof.
  intros Hw. destruct (lane_width_range b Hw) as (Hr&_&_).
  assert (b * (64 / b) = 64 /\ 0 <= 64 / b) as [Hdiv Hd0]
    by (destruct Hw as [-> |[-> |[-> | ->]]]; done).
  set (base := if high then 64 else 0).
  assert (base = (if high then 64 / b else 0) * b) as Hbase by (unfold base; destruct high; lia).
  unfold punpck_result. cbv zeta. fold base.
  match goal with |- exists x, fold_res ?f _ _ = _ /\ _ =>
    destruct (fold_lanes_lane f (2 * b) (Z.to_nat (64 / b)) (unpacked d s b high)) as (x&Hx&Hl) end.
  - lia.
  - intros k Hk. unfold unpacked. cbv zeta.
    pose proof (lane_fits b (k + if high then 64 / b else 0) d ltac:(lia)) as [? ?].
    pose proof (lane_fits b (k + if high then 64 / b else 0) s ltac:(lia)) as [? ?].
    unfold fits. replace (2 * b) with (b + b) by lia. rewrite Z.pow_add_r by lia. nia.
  - intros k acc Hk.
    set (j := k + if high then 64 / b else 0).
    assert (base + k * b = j * b) as -> by (unfold j; nia).
    assert (0 <= j /\ j * b < 128) as [Hj Hjb] by (unfold j; destruct high; nia).
    rewrite (mask_lane b Hw), !lane_at_value by (done || lia). cbn [mbind res_bind].
    replace (k * b * 2) with (k * 2 * b) by lia.
    replace (k * 2 * b + b) with ((k * 2 + 1) * b) by lia.
    rewrite !shl128_value by (done || nia || (apply lane_fits; lia)). cbn [mbind res_bind].
    f_equal. rewrite <- Z.lor_assoc. f_equal. replace ((k * 2 + 1) * b) with (k * 2 * b + b) by lia.
    rewrite lor_pair by (nia || apply lane_fits; lia). unfold unpacked. fold j. cbv zeta. f_equal. lia.
  - exists x. split; [exact Hx|]. intros k Hk. apply Hl. lia.
Qed.

(** ** Shifts of lanes *)

Definition shifted_lane (w n : Z) (left : bool) (v : Z) : Z :=
  if w <=? n then 0 else if left then wrap w (v * 2 ^ n) else v / 2 ^ n.

Lemma packed_shift_value {E} v n w left : w = 32 \/ w = 64 -> 0 <= n ->
  exists x, @packed_shift_result E v n w left = Ok x /\
    forall j, 0 <= j < 128 / w -> lane w j x = shifted_lane w n left (lane w j v).
Proof.
  intros Hw' Hn. assert (lane_width w) as Hw by (unfold lane_width; lia).
  destruct (lane_width_range w Hw) as (Hr&Hm&Hd).
  unfold packed_shift_result. cbv zeta.
  assert ((if w =? 32 then 0xffffffff else u64_max) = 2 ^ w - 1) as ->
    by (by destruct Hw' as [-> | ->]).
  match goal with |- exists x, fold_res ?f _ _ = _ /\ _ =>
    destruct (fold_lanes_lane f w (Z.to_nat (128 / w)) (fun j => shifted_lane w n left (lane w j v)))
      as (x&Hx&Hl) end.
  - lia.
  - intros k Hk. pose proof (lane_fits w k v ltac:(lia)) as Hf. unfold shifted_lane.
    destruct (Z.leb_spec w n); [unfold fits; pose proof (Z.pow_pos_nonneg 2 w); lia|].
    destruct left; [apply wrap_fits; lia|]. rewrite <- Z.shiftr_div_pow2 by done.
    apply shiftr_fits; done || lia.
  - intros k acc Hk. pose proof (lane_fits w k v ltac:(lia)) as Hf.
    rewrite lane_at_value by (done || nia). cbn [mbind res_bind].
    assert (forall y, fits w y -> (v0 ← @shl E 128 y (k * w); Ok (Z.lor acc v0))
      = Ok (Z.lor acc (Z.shiftl y (k * w)))) as Hsh.
    { intros y Hy. by rewrite shl128_value by (done || nia). }
    unfold shifted_lane. destruct (Z.leb_spec w n).
    { cbn [mbind res_bind]. apply Hsh. unfold fits. pose proof (Z.pow_pos_nonneg 2 w). lia. }
    assert (forall y, (if left then y' ← @shl E 128 y n; Ok (Z.land y' (2 ^ w - 1)) else shr 128 y n)
      = Ok (if left then wrap w (y * 2 ^ n) else y / 2 ^ n)) as ->.
    { intros y. unfold shl, shr. rewrite (proj2 (Z.ltb_lt n 128)) by lia.
      destruct left; cbn [mbind res_bind].
      - by rewrite land_ones_wrap, wrap_wrap, Z.shiftl_mul_pow2 by lia.
      - by rewrite Z.shiftr_div_pow2 by lia. }
    cbn [mbind res_bind]. apply Hsh. destruct left; [apply wrap_fits; lia|].
    rewrite <- Z.shiftr_div_pow2 by done. apply shiftr_fits; done || lia.
  - exists x. split; [exact Hx|]. intros j Hj. apply Hl. lia.
Qed.

(** ** The byte mask *)

Lemma pmovmskb_value {E} v :
  exists x, @pmovmskb_result E v = Ok x /\ 0 <= x /\
    forall j, 0 <= j -> Z.testbit x j = (j <? 16) && Z.testbit v (j * 8 + 7).
Proof.
  assert (lane_width 8) as H8 by by left.
  destruct (fold_lanes (E:=E) (fun byte result =>
      y ← lane_at v (byte * 8) 0xff;
      let byte_value := wrap 8 y in
      if nonzero (Z.land byte_value 0x80) then b ← shl 64 1 byte; Ok (Z.lor result b)
      else Ok result) 1 16 (fun j => b2z (Z.testbit v (j * 8 + 7)))) as (x&Hx&Hx0&Hb).
  - lia.
  - intros k _. by destruct (Z.testbit v _).
  - intros k acc Hk. change 0xff with (2 ^ 8 - 1). rewrite lane_at_value by (done || lia).
    cbn [mbind res_bind]. cbv zeta. rewrite (wrap_small 8) by by apply lane_fits.
    change 0x80 with (2 ^ 7). rewrite nonzero_pow2, lane_testbit by lia. simpl.
    replace (7 + k * 8) with (k * 8 + 7) by lia. rewrite Z.mul_1_r.
    destruct (Z.testbit v (k * 8 + 7)).
    + unfold shl. rewrite (proj2 (Z.ltb_lt k 64)) by lia. cbn [mbind res_bind].
      rewrite wrap_small; [done|]. unfold fits. rewrite Z.shiftl_1_l.
      split; [apply Z.pow_nonneg; lia|]. apply Z.pow_lt_mono_r; lia.
    + by rewrite Z.shiftl_0_l, Z.lor_0_r.
  - exists x. split; [exact Hx|]. split; [done|]. intros j Hj. rewrite Hb by done.
    rewrite Z.div_1_r, Z.mod_1_r. change (Z.of_nat 16 * 1) with 16. f_equal.
    by destruct (Z.testbit v _).
Qed.

(** ** The halves of a double lane *)

Lemma lane_halves b k x hi lo : 0 < b -> 0 <= k -> fits b lo -> 0 <= hi ->
  lane (2 * b) k x = hi * 2 ^ b + lo -> lane b (2 * k) x = lo /\ (fits b hi -> lane b (2 * k + 1) x = hi).
Proof.
  intros Hb Hk Hlo Hhi Hl. rewrite <- lor_shift_add in Hl by (done || lia).
  assert (forall i, 0 <= i < 2 * b -> Z.testbit x (i + k * (2 * b)) =
    Z.testbit (Z.shiftl hi b) i || Z.testbit lo i) as Hbits.
  { intros i Hi. rewrite <- Z.lor_spec, <- Hl, lane_testbit by lia.
    by rewrite (proj2 (Z.ltb_lt i (2 * b))) by lia. }
  split; [|intros Hfit]; apply Z.bits_inj'; intros i Hi; rewrite lane_testbit by lia;
    destruct (Z.ltb_spec i b); cbn [andb].
  - replace (i + 2 * k * b) with (i + k * (2 * b)) by lia. rewrite Hbits by lia.
    by rewrite Z.shiftl_spec, Z.testbit_neg_r by lia.
  - symmetry. apply (testbit_fits b); done || lia.
  - replace (i + (2 * k + 1) * b) with (i + b + k * (2 * b)) by lia. rewrite Hbits by lia.
    rewrite Z.shiftl_spec, (testbit_fits b lo), orb_false_r by (done || lia). f_equal. lia.
  - symmetry. apply (testbit_fits b); done || lia.
Qed.

(** ** Vector operands in registers *)

Section Packed.
Context `{ICED : Iced}.
Implicit Types s : Interpreter.

(** Operand [k] is the vector register number [ix]. *)
Definition xmm_operand_is (i : Instruction) (k ix : Z) : Prop :=
  i_op_kind i k = OKRegister /\ xmm_index (i_op_register i k) = Some ix.

Lemma xmm_index_range g ix : xmm_index g = Some ix -> 0 <= ix < 16.
Proof. destruct g; simpl; intros [= <-]; lia. Qed.

Lemma read_xmm_register i k ix s v : xmm_operand_is i k ix ->
  xmm (registers s) !! Z.to_nat ix = Some v -> read_xmm_operand i k s = Ok v.
Proof.
  intros [Hk Hx] Hv. pose proof (xmm_index_range _ _ Hx).
  unfold read_xmm_operand, xmm_index_or. rewrite Hk, Hx. simpl. unfold xmm_get, index.
  rewrite (proj2 (Z.leb_le 0 ix)) by lia. by rewrite Hv.
Qed.

(** The state with one vector register changed. *)
Definition put_xmm (ix v : Z) (s : Interpreter) : Interpreter :=
  set_registers (set_xmm (<[Z.to_nat ix := v]> (xmm (registers s))) (registers s)) s.

Lemma write_xmm_register i k ix s v : xmm_operand_is i k ix -> length (xmm (registers s)) = 16%nat ->
  write_xmm_operand i k v s = (Ok tt, put_xmm ix v s).
Proof.
  intros [Hk Hx] Hl. pose proof (xmm_index_range _ _ Hx).
  unfold write_xmm_operand, xmm_index_or. rewrite Hk, Hx. unfold mbind, st_bind, lift. simpl.
  unfold xmm_set, len. rewrite Hl. by rewrite (proj2 (Z.ltb_lt ix (Z.of_nat 16))) by lia.
Qed.

(** The end of a vector instruction: the result goes to its register and the
    next instruction follows. *)
Definition vector_done (ix v n : Z) (s : Interpreter) : Interpreter :=
  let s1 := put_xmm ix v s in set_registers (set_rip n (registers s1)) s1.

(** ** Lane-wise instructions *)

(** The lane width and the function on lanes of an instruction. *)
Definition packed_meaning (m : Mnemonic) : option (Z * (Z -> Z -> Z)) :=
  match m with
  | MPaddb => Some (8, fun a b => wrap 8 (a + b))
  | MPsubb => Some (8, fun a b => wrap 8 (a - b))
  | MPminub => Some (8, Z.min)
  | MPmaxub => Some (8, Z.max)
  | MPcmpeqb => Some (8, fun a b => lane_flag 8 (a =? b))
  | MPcmpeqw => Some (16, fun a b => lane_flag 16 (a =? b))
  | MPcmpeqd => Some (32, fun a b => lane_flag 32 (a =? b))
  | MPcmpeqq => Some (64, fun a b => lane_flag 64 (a =? b))
  | MPcmpgtb => Some (8, fun a b => lane_flag 8 (signed 8 b <? signed 8 a))
  | MPcmpgtw => Some (16, fun a b => lane_flag 16 (signed 16 b <? signed 16 a))
  | MPcmpgtd => Some (32, fun a b => lane_flag 32 (signed 32 b <? signed 32 a))
  | MPcmpgtq => Some (64, fun a b => lane_flag 64 (signed 64 b <? signed 64 a))
  | _ => None
  end.

(** An arm that ends in the write of a vector to a register. *)
Lemma execute_vector i text s dx m x :
  execute_arm i text (i_next_ip i) = continues m -> m s = write_xmm_operand i 0 x s ->
  xmm_operand_is i 0 dx -> length (xmm (registers s)) = 16%nat ->
  execute i text s = (Ok Continue, vector_done dx x (i_next_ip i) s).
Proof.
  intros Ha Hm Hd Hl. eapply execute_continues; [exact Ha|].
  rewrite Hm. by apply write_xmm_register.
Qed.

(** The computation of the packed arms on register operands. *)
Lemma packed_arm i text s dx sx a b w f : packed_meaning (i_mnemonic i) = Some (w, f) ->
  xmm_operand_is i 0 dx -> xmm_operand_is i 1 sx ->
  xmm (registers s) !! Z.to_nat dx = Some a -> xmm (registers s) !! Z.to_nat sx = Some b ->
  exists m, execute_arm i text (i_next_ip i) = continues m /\
  exists x, m s = write_xmm_operand i 0 x s /\
    forall j, 0 <= j < 128 / w -> lane w j x = f (lane w j a) (lane w j b).
Proof.
  intros Hp Hd Hs Ha Hb.
  pose proof (read_xmm_register i 0 dx s a Hd Ha) as Ra.
  pose proof (read_xmm_register i 1 sx s b Hs Hb) as Rb.
  unfold execute_arm.
  destruct (i_mnemonic i) eqn:Hm; simpl in Hp; try discriminate Hp; injection Hp as <- <-;
    eexists; (split; [reflexivity|]);
    unfold execute_packed_byte_arithmetic, execute_packed_byte_minmax,
      execute_packed_compare_equal, execute_packed_compare_greater, mbind, st_bind, reads, lift;
    rewrite Ra, Rb, Hm; cbv beta iota;
    match goal with
    | |- context [byte_lanes (fun u v => Ok (@?g u v)) ?l ?r] =>
        destruct (byte_lanes_value (E:=CpuError) (fun u v => Ok (g u v)) g l r) as (x&->&Hl);
          [intros; split; [reflexivity|]|exists x; split; [reflexivity|exact Hl]]
    | |- context [compare_equal_result ?l ?r ?w] =>
        destruct (compare_equal_value (E:=CpuError) l r w) as (x&->&Hl);
          [unfold lane_width; lia|exists x; split; [reflexivity|exact Hl]]
    | |- context [compare_greater_result ?l ?r ?w] =>
        destruct (compare_greater_value (E:=CpuError) l r w) as (x&->&Hl);
          [unfold lane_width; lia|exists x; split; [reflexivity|exact Hl]]
    end; (by apply wrap_fits) || (unfold fits in *; lia).
Qed.

(** ** Shuffles *)

(** For each output lane of a shuffle: whether it comes from the source
    operand, and which lane it is. *)
Definition shuffle_meaning (m : Mnemonic) (control : Z) : option (Z * (Z -> bool * Z)) :=
  let unpack b (high : bool) :=
    Some (b, fun j => (negb (j mod 2 =? 0), j / 2 + (if high then 64 / b else 0))) in
  match m with
  | MPshufd => Some (32, fun j => (true, selector control j))
  | MShufps => Some (32, fun j => (negb (j <? 2), selector control j))
  | MPunpcklbw => unpack 8 false
  | MPunpcklwd => unpack 16 false
  | MPunpckldq => unpack 32 false
  | MPunpcklqdq => unpack 64 false
  | MPunpckhbw => unpack 8 true
  | MPunpckhwd => unpack 16 true
  | MPunpckhdq => unpack 32 true
  | MPunpckhqdq => unpack 64 true
  | _ => None
  end.

(** The shuffles that take a control byte as third operand. *)
Definition has_control (m : Mnemonic) : bool :=
  match m with MPshufd | MShufps => true | _ => false end.

(** The lanes of an unpacked vector, one by one. *)
Lemma punpck_lanes {E} d (s : Z) b high : lane_width b ->
  exists x, @punpck_result E d s b high = Ok x /\
    forall j, 0 <= j < 128 / b ->
      lane b j x = lane b (j / 2 + (if high then 64 / b else 0)) (if negb (j mod 2 =? 0) then s else d).
Proof.
  intros Hw. destruct (@punpck_value E d s b high Hw) as (x&Hx&Hl). exists x. split; [done|].
  destruct (lane_width_range b Hw) as (Hr&Hm&_). intros j Hj.
  assert (128 / b = 2 * (64 / b)) as Hh by (destruct Hw as [-> |[-> |[-> | ->]]]; done).
  pose proof (Z.div_mod j 2 ltac:(lia)). pose proof (Z.mod_pos_bound j 2 ltac:(lia)).
  specialize (Hl (j / 2) ltac:(lia)). unfold unpacked in Hl. cbv zeta in Hl.
  set (k := j / 2 + _) in *.
  assert (fits b (lane b k s)) as Hfs by (apply lane_fits; lia).
  assert (fits b (lane b k d)) as Hfd by (apply lane_fits; lia).
  destruct (lane_halves b (j / 2) x (lane b k s) (lane b k d)) as [Hlo Hhi];
    [lia|lia|done|apply Hfs|done|].
  destruct (Z.eqb_spec (j mod 2) 0); simpl.
  - by replace j with (2 * (j / 2)) at 1 by lia.
  - replace j with (2 * (j / 2) + 1) at 1 by lia. by apply Hhi.
Qed.

Lemma shuffle_arm i text s dx sx a b c w f :
  shuffle_meaning (i_mnemonic i) (wrap 8 c) = Some (w, f) ->
  xmm_operand_is i 0 dx -> xmm_operand_is i 1 sx ->
  (has_control (i_mnemonic i) = true -> read_operand i 2 8 s = Ok c) ->
  xmm (registers s) !! Z.to_nat dx = Some a -> xmm (registers s) !! Z.to_nat sx = Some b ->
  exists m, execute_arm i text (i_next_ip i) = continues m /\
  exists x, m s = write_xmm_operand i 0 x s /\
    forall j, 0 <= j < 128 / w -> lane w j x = lane w (f j).2 (if (f j).1 then b else a).
Proof.
  intros Hp Hd Hs Hc Ha Hb.
  pose proof (read_xmm_register i 0 dx s a Hd Ha) as Ra.
  pose proof (read_xmm_register i 1 sx s b Hs Hb) as Rb.
  unfold execute_arm.
  destruct (i_mnemonic i) eqn:Hm; simpl in Hp; try discriminate Hp; injection Hp as <- <-;
    eexists; (split; [reflexivity|]);
    unfold execute_pshufd, execute_shufps, execute_punpck, mbind, st_bind, reads, lift;
    rewrite ?Ra, ?Rb, ?Hm, ?(Hc eq_refl); cbv beta iota; cbn [fst snd];
    match goal with
    | |- context [pshufd_result ?x ?y] =>
        destruct (pshufd_value (E:=CpuError) x y) as (x'&->&Hl)
    | |- context [shufps_result ?x ?y ?z] =>
        destruct (shufps_value (E:=CpuError) x y z) as (x'&->&Hl)
    | |- context [punpck_result ?x ?y ?z ?t] =>
        destruct (punpck_lanes (E:=CpuError) x y z t) as (x'&->&Hl); [unfold lane_width; lia|]
    end; exists x'; (split; [reflexivity|]); intros j Hj; rewrite (Hl j) by done; try done.
  by destruct (j <? 2).
Qed.
End Packed.

(** ** Properties *)

(** C33: the packed instructions act on each lane.  On register operands, the
    byte additions, subtractions, minima and maxima and the packed comparisons
    of all lane widths go to the next instruction and change one vector
    register, each lane of which is the instruction's function of the two
    lanes at the same place. *)
Theorem packed_instruction_result `{Iced} (s : Interpreter) (i : Instruction) (text : list Z)
    (dx sx a b w : Z) (f : Z -> Z -> Z) (Hp : packed_meaning (i_mnemonic i) = Some (w, f))
    (Hd : xmm_operand_is i 0 dx) (Hs : xmm_operand_is i 1 sx)
    (Hl : length (xmm (registers s)) = 16%nat)
    (Ha : xmm (registers s) !! Z.to_nat dx = Some a)
    (Hb : xmm (registers s) !! Z.to_nat sx = Some b) :
  exists x, execute i text s = (Ok Continue, vector_done dx x (i_next_ip i) s) /\
    forall j, 0 <= j < 128 / w -> lane w j x = f (lane w j a) (lane w j b).
Proof.
  destruct (packed_arm i text s dx sx a b w f) as (m&Harm&x&Hm&Hx); [done..|].
  exists x. split; [|done]. by eapply execute_vector.
Qed.

Lemma packed_instruction_result_witness :
  let r := set_xmm (<[0%nat := 0xff01]> (<[1%nat := 0x0201]> (replicate 16 0))) default_registers in
  let s := interpreter_new new r in
  let i := plain 4096 4 MPaddb [(OKRegister, XMM0); (OKRegister, XMM1)] 0 in
  exists x, execute i [] s = (Ok Continue, vector_done 0 x 4100 s) /\
    lane 8 0 x = 2 /\ lane 8 1 x = 1.
Proof.
  intros r s i.
  destruct (packed_instruction_result s i [] 0 1 0xff01 0x0201 8 (fun a b => wrap 8 (a + b)))
    as (x&Hx&Hlane); [reflexivity|split; reflexivity|split; reflexivity|reflexivity|reflexivity|reflexivity|].
  exists x. split; [exact Hx|]. split; (rewrite Hlane; [reflexivity|split; [lia|reflexivity]]).
Defined.

(** The shuffles move lanes.  For [pshufd], [shufps] and the eight
    unpack instructions on register operands, every lane of the result is the
    lane of the destination or of the source that the control byte or the
    interleaving selects. *)
Theorem shuffle_instruction_result `{Iced} (s : Interpreter) (i : Instruction) (text : list Z)
    (dx sx a b c w : Z) (f : Z -> bool * Z)
    (Hp : shuffle_meaning (i_mnemonic i) (wrap 8 c) = Some (w, f))
    (Hd : xmm_operand_is i 0 dx) (Hs : xmm_operand_is i 1 sx)
    (Hc : has_control (i_mnemonic i) = true -> read_operand i 2 8 s = Ok c)
    (Hl : length (xmm (registers s)) = 16%nat)
    (Ha : xmm (registers s) !! Z.to_nat dx = Some a)
    (Hb : xmm (registers s) !! Z.to_nat sx = Some b) :
  exists x, execute i text s = (Ok Continue, vector_done dx x (i_next_ip i) s) /\
    forall j, 0 <= j < 128 / w -> lane w j x = lane w (f j).2 (if (f j).1 then b else a).
Proof.
  destruct (shuffle_arm i text s dx sx a b c w f) as (m&Harm&x&Hm&Hx); [done..|].
  exists x. split; [|done]. by eapply execute_vector.
Qed.

Lemma shuffle_instruction_result_witness :
  let r := set_xmm (<[1%nat := 0x00000004000000030000000200000001]> (replicate 16 0)) default_registers in
  let s := interpreter_new new r in
  let i := plain 4096 5 MPshufd [(OKRegister, XMM0); (OKRegister, XMM1); (OKImmediate8, NoRegister)] 0x1b in
  exists x, execute i [] s = (Ok Continue, vector_done 0 x 4101 s) /\
    lane 32 0 x = 4 /\ lane 32 3 x = 1.
Proof.
  intros r s i.
  destruct (shuffle_instruction_result s i [] 0 1 0 0x00000004000000030000000200000001 0x1b 32
    (fun j => (true, selector 0x1b j)))
    as (x&Hx&Hlane); [reflexivity|split; reflexivity|split; reflexivity|reflexivity|reflexivity|reflexivity|reflexivity|].
  exists x. split; [exact Hx|]. split; (rewrite Hlane; [reflexivity|split; [lia|reflexivity]]).
Defined.
