(* ===== verification/CpuCache.v ===== *)
(** * The block cache is coherent with memory

    A cached block is the translation of the code in memory.  Filling the
    cache keeps this so, and so does a store through an instruction operand,
    which invalidates the blocks it overlaps. *)

From S2P Require Import Prelude Memory MemorySpec Registers Ir Iced ExampleDecoder Cpu CpuInt CpuSimd Interp CpuInv CpuSafe.

Open Scope Z_scope.

(** ** Fetching code *)

(** A prefix of a range is read from the same region. *)
Lemma region_bytes_take m a n k bs : wf m -> 0 < k <= n -> region_bytes m a n = Ok bs ->
  region_bytes m a k = Ok (take (Z.to_nat k) bs).
Proof.
  intros Hm Hk Hb. rewrite <- (Z.add_0_r a).
  by rewrite (region_bytes_sub m a n 0 k bs), drop_0 by (done || lia).
Qed.

(** A successful fetch: one region, executable, covers the range. *)
Lemma fetch_bytes_inv m a n bs : wf m -> 0 < n -> fetch_bytes m a n = Ok bs ->
  region_bytes m a n = Ok bs /\ len bs = n /\ a + n < 2 ^ 64 /\
  forall x, a <= x < a + n -> exists p v, cell m x = Some (p, v) /\ contains p EXECUTE = true.
Proof.
  intros Hm Hn. unfold fetch_bytes, check_permission.
  destruct (region_total m a 1) as [[r1 H1]|H1]; rewrite H1; simpl; [|done].
  destruct (contains (r_permissions r1) EXECUTE) eqn:Hx; simpl; [|done]. intros Hb.
  destruct (region_total m a n) as [[r Hr]|Hr]; [|unfold region_bytes in Hb; by rewrite Hr in Hb].
  destruct (region_bytes_spec m a n r Hm ltac:(lia) Hr) as (bs'&Hb'&Hl&_).
  rewrite Hb in Hb'. injection Hb' as <-.
  apply region_Ok in H1 as (Hin1&_&?&?). apply region_Ok in Hr as (Hin&?&?&?).
  assert (r1 = r) as -> by (apply (wf_unique m r1 r a); done || lia).
  split; [done|]. split; [done|]. split; [done|]. intros x Hxr.
  destruct (region_cell_is_Some r x) as (b&Hd&_); [by apply (wf_elem m)|lia|].
  exists (r_permissions r), b. split; [|done]. apply (data_cell m r x); done || lia.
Qed.

(** The same prefix is fetched from a memory of the same shape with the same
    cells there. *)
Lemma fetch_bytes_prefix m m' a n k bs : wf m -> wf m' -> shape m = shape m' -> 0 < k <= n ->
  fetch_bytes m a n = Ok bs -> (forall x, a <= x < a + k -> cell m x = cell m' x) ->
  exists bs', fetch_bytes m' a n = Ok bs' /\ take (Z.to_nat k) bs = take (Z.to_nat k) bs'.
Proof.
  intros Hm Hm' Hs Hk Hf Hc. pose proof (fetch_bytes_inv m a n bs Hm ltac:(lia) Hf) as (Hb&_&_&_).
  unfold fetch_bytes in Hf |- *. rewrite <- (check_permission_shape m m') by done.
  destruct (check_permission m a 1 EXECUTE); simpl in Hf |- *; [|done..].
  destruct (region_total m a n) as [[r Hr]|Hr]; [|unfold region_bytes in Hb; by rewrite Hr in Hb].
  destruct (shape_region m m' a n r Hs Hr) as (r'&Hr'&_).
  destruct (region_bytes_spec m' a n r' Hm' ltac:(lia) Hr') as (bs'&Hb'&_).
  exists bs'. split; [done|].
  pose proof (region_bytes_take m a n k bs Hm Hk Hb) as H1.
  pose proof (region_bytes_take m' a n k bs' Hm' Hk Hb') as H2.
  rewrite (region_bytes_ext m m' a k) in H1 by (done || lia). congruence.
Qed.

(** ** Translation *)

Section Cache.
Context `{LAWS : IcedLaws}.
Implicit Types s : Interpreter.

(** Where the instructions gathered so far end. *)
Definition end_of (irs : list IrInstruction) (d : Z) : Z :=
  match last irs with Some l => ir_ip l + ir_len l | None => d end.

Lemma end_of_snoc irs x d : end_of (irs ++ [x]) d = ir_ip x + ir_len x.
Proof. unfold end_of. by rewrite last_snoc. Qed.

(** What one valid decode says about the bytes it used. *)
Lemma decode_inv ip s i : wf (memory s) -> u64 ip -> decode ip s = Ok i -> i_code i <> INVALID ->
  exists bs, fetch_bytes (memory s) ip 15 = Ok bs /\ i = i_decode bs ip /\
    0 < i_len i <= 15 /\ wrap 8 (i_len i) = i_len i /\ i_next_ip i = ip + i_len i /\
    u64 (ip + i_len i) /\
    forall x, ip <= x < ip + i_len i ->
      exists p v, cell (memory s) x = Some (p, v) /\ contains p EXECUTE = true.
Proof.
  intros Hm Hip Hd Hv. unfold decode in Hd. change MAX_INSTRUCTION_LEN with 15 in Hd.
  destruct (fetch_bytes (memory s) ip 15) as [bs| |] eqn:Hf; simpl in Hd; [|done..].
  injection Hd as <-. destruct (fetch_bytes_inv (memory s) ip 15 bs Hm ltac:(lia) Hf) as (_&Hl&Ho&Hx).
  pose proof (decode_len bs ip Hv) as Hlen. rewrite Hl in Hlen.
  pose proof (next_ip_def (i_decode bs ip)) as Hn. rewrite decode_ip in Hn by done.
  assert (u64 (ip + i_len (i_decode bs ip))) as Hu by (unfold fits in *; lia).
  exists bs. split; [done|]. split; [done|]. split; [done|].
  split; [apply wrap_small; unfold fits; lia|]. split; [by rewrite Hn, wrap_small|].
  split; [done|]. intros x Hxr. apply Hx. lia.
Qed.

Lemma end_of_default irs d d' : irs <> [] -> end_of irs d = end_of irs d'.
Proof. unfold end_of. destruct irs as [|x irs] using rev_ind; [done|]. by rewrite last_snoc. Qed.

Lemma translate_loop_nonempty fuel ip irs ds t s irs' ds' t' : irs <> [] ->
  translate_loop fuel ip irs ds t s = Ok (irs', ds', t') -> irs' <> [].
Proof.
  revert ip irs ds t. induction fuel as [|fuel IH]; intros ip irs ds t Hne; simpl.
  { by intros [= <- <- <-]. }
  destruct (decode ip s) as [i| |]; simpl; [|done..].
  destruct (decide (i_code i = INVALID)); [done|]. destruct (decide _).
  - apply IH. by destruct irs.
  - intros [= <- <- <-]. by destruct irs.
Qed.

Lemma translate_loop_first fuel ip irs ds t s irs' ds' t' :
  translate_loop (S fuel) ip irs ds t s = Ok (irs', ds', t') -> irs' <> [].
Proof.
  simpl. destruct (decode ip s) as [i| |]; simpl; [|done..].
  destruct (decide (i_code i = INVALID)); [done|]. destruct (decide _).
  - apply translate_loop_nonempty. by destruct irs.
  - intros [= <- <- <-]. by destruct irs.
Qed.

(** The gathered instructions only grow, upwards. *)
Lemma translate_loop_mono fuel ip irs ds t s irs' ds' t' : wf (memory s) -> u64 ip -> irs <> [] ->
  end_of irs ip = ip -> translate_loop fuel ip irs ds t s = Ok (irs', ds', t') ->
  ip <= end_of irs' 0.
Proof.
  intros Hm. revert ip irs ds t. induction fuel as [|fuel IH]; intros ip irs ds t Hip Hne He; simpl.
  { intros [= <- <- <-]. rewrite (end_of_default irs 0 ip) by done. lia. }
  destruct (decode ip s) as [i| |] eqn:Hd; simpl; [|done..].
  destruct (decide (i_code i = INVALID)) as [|Hv]; [done|].
  destruct (decode_inv ip s i Hm Hip Hd Hv) as (bs&_&_&Hlen&Hw&Hn&Hu&_).
  rewrite Hw. set (x := mkIrInstruction _ _ _ _). destruct (decide (instruction_kind i = Compute)).
  - rewrite Hn. intros Ht. assert (ip + i_len i <= end_of irs' 0); [|lia].
    eapply IH; [done| | |exact Ht]; [by destruct irs|by rewrite end_of_snoc].
  - intros [= <- <- <-]. rewrite end_of_snoc. simpl. lia.
Qed.

(** The cells of code in a range are the same in two memories. *)
Definition same_code (m m' : GuestMemory) (lo hi : Z) : Prop :=
  forall x p v, lo <= x < hi -> cell m x = Some (p, v) -> contains p EXECUTE = true ->
    cell m' x = Some (p, v).

Lemma same_code_sub m m' lo hi lo' hi' : same_code m m' lo hi -> lo <= lo' -> hi' <= hi ->
  same_code m m' lo' hi'.
Proof. intros Hc ?? x p v Hx. apply Hc. lia. Qed.

Lemma decode_stable ip s s' i : wf (memory s) -> wf (memory s') ->
  shape (memory s) = shape (memory s') -> u64 ip -> decode ip s = Ok i -> i_code i <> INVALID ->
  same_code (memory s) (memory s') ip (ip + i_len i) -> decode ip s' = Ok i.
Proof.
  intros Hm Hm' Hs Hip Hd Hv Hc. destruct (decode_inv ip s i Hm Hip Hd Hv) as (bs&Hf&->&Hlen&_&_&_&Hx).
  destruct (fetch_bytes_prefix (memory s) (memory s') ip 15 (i_len (i_decode bs ip)) bs)
    as (bs'&Hf'&Ht); [done..| |].
  { intros x Hxr. destruct (Hx x Hxr) as (q&v&Hcell&Hq). rewrite Hcell. symmetry. by apply Hc. }
  unfold decode. change MAX_INSTRUCTION_LEN with 15. rewrite Hf'. simpl. f_equal.
  by apply decode_prefix.
Qed.

Lemma translate_loop_stable fuel ip irs ds t s s' irs' ds' t' :
  wf (memory s) -> wf (memory s') -> shape (memory s) = shape (memory s') -> u64 ip ->
  translate_loop fuel ip irs ds t s = Ok (irs', ds', t') ->
  same_code (memory s) (memory s') ip (end_of irs' 0) ->
  translate_loop fuel ip irs ds t s' = Ok (irs', ds', t').
Proof.
  intros Hm Hm' Hs. revert ip irs ds t.
  induction fuel as [|fuel IH]; intros ip irs ds t Hip; simpl; [done|].
  destruct (decode ip s) as [i| |] eqn:Hd; simpl; [|done..].
  destruct (decide (i_code i = INVALID)) as [|Hv]; [done|].
  destruct (decode_inv ip s i Hm Hip Hd Hv) as (bs&_&_&Hlen&Hw&Hn&Hu&_).
  rewrite Hw. set (x := mkIrInstruction _ _ _ _). intros Ht Hc.
  assert (irs ++ [x] <> []) as Hne by by destruct irs.
  assert (end_of (irs ++ [x]) (ip + i_len i) = ip + i_len i) as He by by rewrite end_of_snoc.
  assert (ip + i_len i <= end_of irs' 0) as Hle.
  { destruct (decide (instruction_kind i = Compute)).
    - rewrite Hn in Ht. eapply translate_loop_mono; [exact Hm|exact Hu|exact Hne|exact He|exact Ht].
    - injection Ht as <- <- <-. by rewrite end_of_snoc. }
  rewrite (decode_stable ip s s' i) by (done || (eapply same_code_sub; [exact Hc|lia|lia])). simpl.
  rewrite decide_False by done. fold x. rewrite Hw. fold x.
  destruct (decide (instruction_kind i = Compute)); [|done].
  rewrite Hn in Ht |- *. apply IH; [done|done|]. eapply same_code_sub; [exact Hc|lia|lia].
Qed.

(** A block that translates spans the code it was translated from. *)
Lemma translate_block_inv k s b ds : translate_block k s = Ok (b, ds) ->
  id b = k /\ start_ip b = k /\
  exists irs t, translate_loop MAX_BLOCK_INSTRUCTIONS k [] [] TFallThrough s = Ok (irs, ds, t) /\
    end_ip b = end_of irs 0 /\ block_new (E:=CpuError) k irs t = Ok b.
Proof.
  unfold translate_block.
  destruct (translate_loop _ k [] [] TFallThrough s) as [[[irs ds'] t]| |] eqn:Ht; simpl; [|done..].
  destruct (block_new k irs t) as [b'| |] eqn:Hb; simpl; [|done..]. intros [= <- <-].
  assert (irs <> []) as Hne by exact (translate_loop_first 63 _ _ _ _ _ _ _ _ Ht).
  assert (id b' = k /\ start_ip b' = k /\ end_ip b' = end_of irs 0) as (?&?&?); [|eauto 8].
  unfold block_new in Hb. unfold end_of. destruct (last irs) as [l|] eqn:Hl; [|by apply last_None in Hl].
  unfold ir_end_ip in Hb. destruct (add64 _ _) as [e| |] eqn:He; simpl in Hb; [|done..].
  apply add64_Ok in He as [-> _]. by injection Hb as <-.
Qed.

Lemma translate_block_stable k s s' b ds : wf (memory s) -> wf (memory s') ->
  shape (memory s) = shape (memory s') -> u64 k -> translate_block k s = Ok (b, ds) ->
  same_code (memory s) (memory s') (start_ip b) (end_ip b) -> translate_block k s' = Ok (b, ds).
Proof.
  intros Hm Hm' Hs Hk Ht Hc.
  destruct (translate_block_inv k s b ds Ht) as (_&Hst&irs&t&Hloop&He&Hb).
  rewrite Hst, He in Hc. unfold translate_block.
  rewrite (translate_loop_stable _ _ _ _ _ s s' _ _ _ Hm Hm' Hs Hk Hloop Hc). simpl.
  by rewrite Hb.
Qed.

(** ** Coherence *)

(** Every entry that both maps of the cache hold is the translation of the
    code at its address. *)
Definition coherent (s : Interpreter) : Prop :=
  forall k b ds, blocks (ir (cache s)) !! k = Some b -> decoded (cache s) !! k = Some ds ->
    u64 k /\ translate_block k s = Ok (b, ds).

(** The translation reads the memory and nothing else of the state. *)
Lemma translate_loop_memory fuel ip irs ds t s s' : memory s = memory s' ->
  translate_loop fuel ip irs ds t s = translate_loop fuel ip irs ds t s'.
Proof.
  intros Hm. revert ip irs ds t. induction fuel as [|fuel IH]; intros; simpl; [done|].
  unfold decode. rewrite Hm. destruct (map_err CpuMemory _); simpl; [|done..].
  destruct (decide _); [done|]. destruct (decide _); [apply IH|done].
Qed.

Lemma translate_block_memory k s s' : memory s = memory s' -> translate_block k s = translate_block k s'.
Proof. intros Hm. unfold translate_block. by rewrite (translate_loop_memory _ _ _ _ _ s s'). Qed.

(** A change of memory that spares the code of every entry that is kept. *)
Lemma coherent_change s s' : coherent s -> wf (memory s) -> wf (memory s') ->
  shape (memory s) = shape (memory s') ->
  (forall k b ds, blocks (ir (cache s')) !! k = Some b -> decoded (cache s') !! k = Some ds ->
     blocks (ir (cache s)) !! k = Some b /\ decoded (cache s) !! k = Some ds /\
     same_code (memory s) (memory s') (start_ip b) (end_ip b)) ->
  coherent s'.
Proof.
  intros Hc Hm Hm' Hs Hk k b ds Hb Hd. destruct (Hk k b ds Hb Hd) as (Hb'&Hd'&Hcode).
  destruct (Hc k b ds Hb' Hd') as [Hu Ht]. split; [done|].
  exact (translate_block_stable k s s' b ds Hm Hm' Hs Hu Ht Hcode).
Qed.

(** ** Stores through an operand *)

(** The memory after a store to [[a, a + n)], whose region is not executable
    or whose range the kept blocks avoid. *)
Lemma write_same_code m m' a bytes r lo hi : wf m -> wf m' ->
  region m a (len bytes) = Ok r ->
  (forall x, cell m' x = a_store a bytes (cell m) x) ->
  contains (r_permissions r) EXECUTE = false \/ len bytes = 0 \/ hi <= a \/ a + len bytes <= lo ->
  same_code m m' lo hi.
Proof.
  intros Hm Hm' Hr Hcell Hor x p v Hx Hc Hp. rewrite Hcell. unfold a_store.
  destruct (in_range a (len bytes) x) eqn:Hin; [|done]. exfalso. apply in_range_true in Hin.
  destruct Hor as [Hnx|Hout]; [|lia].
  apply region_Ok in Hr as (Hel&_&Hlo&Hhi).
  destruct (region_cell_is_Some r x) as (y&Hd&_); [by apply (wf_elem m)|lia|].
  rewrite (data_cell m r x y) in Hc by (done || lia). congruence.
Qed.

Lemma executable_at_region s a n r : wf (memory s) -> 0 < n -> region (memory s) a n = Ok r ->
  executable_at a s = contains (r_permissions r) EXECUTE.
Proof.
  intros Hm Hn Hr. unfold executable_at, permissions_at.
  apply region_Ok in Hr as (Hin&Ho&Hlo&Hhi).
  destruct (find_first _ _) as [r'|] eqn:Hf; simpl.
  - apply find_first_Some in Hf as [Hin' Hc]. apply contains_range_spec in Hc as (?&?&?).
    assert (r' = r) as -> by (apply (wf_unique (memory s) r' r a); done || lia). done.
  - apply (find_first_None _ _ Hf) in Hin.
    assert (contains_range r a 1 = true) as Hc by (apply contains_range_spec; lia). congruence.
Qed.

(** A state that differs in registers, trace or clock only. *)
Lemma coherent_same s s' : coherent s -> memory s' = memory s -> cache s' = cache s -> coherent s'.
Proof.
  intros Hc Hm Hcache k b ds. rewrite Hcache. intros Hb Hd. destruct (Hc k b ds Hb Hd) as [Hu Ht].
  split; [done|]. by rewrite (translate_block_memory k s' s).
Qed.

(** The entries of both maps that survive an invalidation avoid the range. *)
Lemma cache_invalidate_kept {E} a n c k b ds :
  let c' := (cache_invalidate_range (E:=E) a n c).2 in
  blocks (ir c') !! k = Some b -> decoded c' !! k = Some ds ->
  blocks (ir c) !! k = Some b /\ decoded c !! k = Some ds /\
  outside a (saturating_add a n) b = true.
Proof.
  unfold cache_invalidate_range. pose proof (invalidate_blocks (E:=E) a n (ir c)) as Hb.
  destruct (invalidate_range a n (ir c)) as [r ir']. simpl in Hb |- *. rewrite Hb.
  rewrite !map_lookup_filter_Some. intros [? ?] [? _]. done.
Qed.

(** ** Stores through an operand *)

(** A store keeps the cache coherent when the blocks of executable memory it
    overlaps are gone from it. *)
Lemma store_keeps s s' a bytes r : coherent s -> wf (memory s) -> wf (memory s') ->
  shape (memory s') = shape (memory s) -> region (memory s) a (len bytes) = Ok r ->
  (forall x, cell (memory s') x = a_store a bytes (cell (memory s)) x) ->
  (forall k b ds, blocks (ir (cache s')) !! k = Some b -> decoded (cache s') !! k = Some ds ->
     blocks (ir (cache s)) !! k = Some b /\ decoded (cache s) !! k = Some ds /\
     (0 < len bytes -> executable_at a s = true ->
      outside a (saturating_add a (len bytes)) b = true)) ->
  coherent s'.
Proof.
  intros Hc Hm Hm' Hs Hr Hcell Hk. apply (coherent_change s); [done..| |].
  { by rewrite Hs. }
  intros k b ds Hb Hd. destruct (Hk k b ds Hb Hd) as (?&?&Hout). split; [done|]. split; [done|].
  apply (write_same_code _ _ a bytes r); [done..|].
  destruct (contains (r_permissions r) EXECUTE) eqn:Hx; [right|by left].
  pose proof (len_nonneg bytes). destruct (decide (len bytes = 0)) as [|Hn]; [by left|right].
  rewrite <- (executable_at_region s a (len bytes) r) in Hx by (done || lia).
  specialize (Hout ltac:(lia) Hx). apply region_Ok in Hr as (_&Ho&_).
  unfold outside, saturating_add, u64_max in Hout. rewrite Z.min_l in Hout by lia.
  rewrite orb_true_iff, !Z.leb_le in Hout. done.
Qed.

Lemma on_registers_frame {A} (m : ST Registers RegisterError A) s :
  memory (on_registers m s).2 = memory s /\ cache (on_registers m s).2 = cache s.
Proof. unfold on_registers, zoom. by destruct (m (registers s)). Qed.

Lemma write_operand_keeps i k v w s : wf (memory s) -> coherent s ->
  coherent (write_operand i k v w s).2.
Proof.
  intros Hm Hc. unfold write_operand.
  destruct (i_op_kind i k); try exact Hc.
  { apply (coherent_same s); [done|apply on_registers_frame..]. }
  unfold mbind, st_bind, lift, reads, gets.
  destruct (memory_size i w) as [n| |]; try exact Hc.
  destruct (effective_address i s) as [a| |]; try exact Hc.
  destruct (u64_to_little_endian v n) as [bytes| |] eqn:Hbs; try exact Hc.
  pose proof (u64_to_le_u8 _ _ _ Hbs) as Hu8. pose proof (slice_len _ _ _ _ Hbs) as Hlen.
  rewrite Z.sub_0_r in Hlen. unfold on_memory, zoom.
  destruct (write_bytes_cases a bytes (memory s) Hm Hu8)
    as [[e He]|(m'&r&He&Hm'&Hs&Hreg&_&_&Hcell)]; rewrite He; cbn [map_err].
  { by apply (coherent_same s). }
  destruct (executable_at a s) eqn:Hx.
  - unfold on_cache, zoom. cbn [cache set_memory].
    pose proof (cache_invalidate_kept (E:=CpuError) a n (cache s)) as Hkept. cbv zeta in Hkept.
    destruct (cache_invalidate_range a n (cache s)) as [q c'] eqn:Hq. cbn [snd] in Hkept.
    assert (coherent (set_cache c' (set_memory m' s))) as Hgoal.
    { apply (store_keeps s _ a bytes r); [done..|]. cbn [cache set_cache]. intros k' b ds Hb Hd.
      destruct (Hkept k' b ds Hb Hd) as (?&?&Hout). split; [done|]. split; [done|].
      intros _ _. by rewrite Hlen. }
    by destruct q.
  - apply (store_keeps s _ a bytes r); [done..|]. intros k' b ds Hb Hd.
    split; [done|]. split; [done|]. rewrite Hx. done.
Qed.

(** ** Filling the cache *)

Lemma fill_block_keeps ip s : wf (memory s) -> u64 ip -> coherent s ->
  (fill_block ip s).1 = translate_block ip s /\ coherent (fill_block ip s).2 /\
  memory (fill_block ip s).2 = memory s /\ registers (fill_block ip s).2 = registers s.
Proof.
  intros Hm Hu Hc. unfold fill_block, mbind, st_bind, reads.
  destruct (translate_block ip s) as [[b ds]| |] eqn:Ht; [|done..].
  simpl. split; [done|]. split; [|done]. intros k b' ds'. simpl.
  destruct (translate_block_inv ip s b ds Ht) as (Hid&_).
  rewrite Hid, !lookup_insert_Some. intros Hb Hd.
  assert (u64 k /\ translate_block k s = Ok (b', ds')) as [? Hk].
  { destruct Hb as [[<- <-]|[Hne Hb]], Hd as [[? <-]|[? Hd]]; try done. by apply Hc. }
  split; [done|]. by rewrite (translate_block_memory k _ s).
Qed.

Lemma on_ir_get ip s : hits (ir (cache s)) < 2 ^ 64 - 1 -> misses (ir (cache s)) < 2 ^ 64 - 1 ->
  exists c, on_ir (get ip) s = (Ok (blocks (ir (cache s)) !! ip), set_cache c s) /\
    blocks (ir c) = blocks (ir (cache s)) /\ decoded c = decoded (cache s).
Proof.
  intros Hh Hmi. unfold on_ir, on_cache, zoom, get, add64, checked_add.
  rewrite !(proj2 (Z.ltb_lt _ _)) by lia. by destruct (blocks _ !! ip); simpl; eexists.
Qed.

Lemma cached_block_keeps ip s : wf (memory s) -> u64 ip -> coherent s ->
  hits (ir (cache s)) < 2 ^ 64 - 1 -> misses (ir (cache s)) < 2 ^ 64 - 1 ->
  (cached_block ip s).1 = translate_block ip s /\ coherent (cached_block ip s).2 /\
  memory (cached_block ip s).2 = memory s /\ registers (cached_block ip s).2 = registers s.
Proof.
  intros Hm Hu Hc Hh Hmi. unfold cached_block, mbind, st_bind.
  destruct (on_ir_get ip s Hh Hmi) as (c&->&Hb&Hd).
  assert (coherent (set_cache c s)) as Hc'.
  { intros k b ds. simpl. rewrite Hb, Hd. intros H1 H2. destruct (Hc k b ds H1 H2) as [? Ht].
    split; [done|]. by rewrite (translate_block_memory k _ s). }
  destruct (fill_block_keeps ip (set_cache c s)) as (Hf1&Hf2&Hf3&Hf4); [done..|].
  rewrite (translate_block_memory ip (set_cache c s) s) in Hf1 by done.
  destruct (blocks (ir (cache s)) !! ip) as [b|] eqn:Hlb; [|done].
  unfold gets. simpl. rewrite Hd. destruct (decoded (cache s) !! ip) as [ds|] eqn:Hld; [|done].
  simpl. destruct (Hc ip b ds Hlb Hld) as [_ ->]. done.
Qed.
End Cache.

(** ** Properties *)

(** C7: the cache is transparent.  While its entries are translations of the
    code in memory, looking a block up gives exactly what translating it
    afresh gives, errors included, on a hit and on a miss; memory and registers
    are untouched and the cache stays coherent. *)
Theorem cached_block_is_translation `{IcedLaws} (s : Interpreter) (ip : Z) (Hm : wf (memory s))
    (Hu : u64 ip) (Hc : coherent s) (Hh : hits (ir (cache s)) < 2 ^ 64 - 1)
    (Hmi : misses (ir (cache s)) < 2 ^ 64 - 1) :
  (cached_block ip s).1 = translate_block ip s /\ coherent (cached_block ip s).2 /\
  memory (cached_block ip s).2 = memory s /\ registers (cached_block ip s).2 = registers s.
Proof. by apply cached_block_keeps. Qed.

(** Code in a page the guest may also write: [jmp $], then [ret]s. *)
Definition demo_code : Interpreter := interpreter_new
  (mkMemory [mkRegion 4096 32 (READ + WRITE + EXECUTE) None ([0xeb; 0xfe] ++ replicate 30 0xc3)])
  (set_rsp 4104 (set_rip 4096 default_registers)).

Lemma demo_code_wf : wf (memory demo_code).
Proof. split; repeat constructor; vm_compute; congruence. Qed.

Lemma demo_code_coherent : coherent demo_code.
Proof. intros k b ds. simpl. by rewrite lookup_empty. Qed.

Lemma cached_block_is_translation_witness :
  exists b ds, (cached_block 4096 demo_code).1 = Ok (b, ds) /\ end_ip b = 4098 /\
    coherent (cached_block 4096 demo_code).2.
Proof.
  destruct (cached_block_is_translation demo_code 4096) as (H1&H2&_);
    [apply demo_code_wf|by vm_compute|apply demo_code_coherent|reflexivity|reflexivity|].
  eexists _, _. split; [rewrite H1; vm_compute; reflexivity|]. split; [reflexivity|exact H2].
Defined.

(** C36: self-modifying stores are seen.  A write of an instruction's operand,
    whatever it hits and however it ends, keeps the cache coherent: blocks of
    executable memory that it overlaps are dropped from the cache, and the
    blocks that stay still translate to themselves. *)
Theorem operand_store_keeps_coherence `{IcedLaws} (s : Interpreter) (i : Instruction)
    (k v w : Z) (Hm : wf (memory s)) (Hc : coherent s) :
  coherent (write_operand i k v w s).2.
Proof. by apply write_operand_keeps. Qed.

(** A one-byte store to the address in [rbx]. *)
Definition store_byte : XInstruction :=
  mkX 8192 2 (COther 1) MMov [(OKMemory, NoRegister); (OKRegister, AL)] 0 1 RBX 0 false.

Lemma operand_store_keeps_coherence_witness :
  let s := (cached_block 4096 demo_code).2 in
  let s1 := set_registers (set_rbx 4097 (registers s)) s in
  coherent (write_operand store_byte 0 0 8 s1).2 /\
  blocks (ir (cache s1)) !! 4096 <> None /\
  blocks (ir (cache (write_operand store_byte 0 0 8 s1).2)) !! 4096 = None.
Proof.
  intros s s1. split; [|split; [vm_compute; discriminate|vm_compute; reflexivity]].
  apply operand_store_keeps_coherence.
  - exact demo_code_wf.
  - intros k b ds Hb Hd.
    assert (coherent s) as Hc by (apply cached_block_keeps;
      [apply demo_code_wf|by vm_compute|apply demo_code_coherent|reflexivity|reflexivity]).
    exact (Hc k b ds Hb Hd).
Defined.

(** A push does not invalidate.  [push_u64] never touches the cache, so a
    push over cached code leaves a stale block: there is a state with a
    coherent cache in which, after one push, stepping by blocks executes the
    overwritten instruction while stepping by single instructions executes the
    one in memory. *)
Theorem push_leaves_stale_block :
  (forall (ICED : Iced) (s : Interpreter) (v : Z), cache (push_u64 v s).2 = cache s) /\
  (exists s : Interpreter, coherent s /\
     let s1 := (push_u64 0x9090909090909090 s).2 in
     ~ coherent s1 /\
     rip (registers (step_block s1).2) = 4096 /\ rip (registers (step s1).2) = 4097).
Proof.
  split.
  - intros I s v. unfold push_u64, mbind, st_bind, assign, modify, reg, gets, on_memory, zoom. simpl.
    by destruct (write_u64 _ v (memory s)) as [[] m'].
  - exists (cached_block 4096 demo_code).2. split; [|split; [|split; vm_compute; reflexivity]].
    + apply cached_block_keeps;
        [apply demo_code_wf|by vm_compute|apply demo_code_coherent|reflexivity|reflexivity].
    + intros Hc. destruct (Hc 4096 (mkBlock 4096 4096 4098
        [mkIrInstruction 4096 2 [] Branch] TBranch) [x_decode [0xeb; 0xfe] 4096]) as [_ Ht];
        [vm_compute; reflexivity|vm_compute; reflexivity|].
      vm_compute in Ht. discriminate Ht.
Qed.
