(* ===== verification/CpuBlocks.v ===== *)
(** * Stepping by blocks refines stepping by instructions

    For code the guest cannot write, executing a translated block is executing
    its instructions one at a time with [step]; and the code [decode] refuses
    at the end of a region. *)

From S2P Require Import Prelude Memory MemorySpec Registers Ir Iced ExampleDecoder Cpu CpuInt CpuSimd Interp CpuInv CpuSafe CpuCache.

Open Scope Z_scope.

Section Blocks.
Context `{LAWS : IcedLaws}.
Implicit Types s : Interpreter.
Abbreviation CpuM A := (ST Interpreter CpuError A).

(** Up to [n] single steps, as long as the guest continues. *)
Fixpoint step_n (n : nat) : CpuM StepOutcome :=
  match n with
  | O => mret Continue
  | S n => o ← step; if is_continue o then step_n n else mret o
  end.

(** ** The instructions of a block are the code in memory *)

(** From [ip] on and up to [e], the memory holds the code of [ds], recorded in
    [irs]; only the last instruction may leave the straight line. *)
Inductive code_chain (s : Interpreter) (e : Z)
    : Z -> list IrInstruction -> list Instruction -> Prop :=
| chain_nil ip : code_chain s e ip [] []
| chain_cons ip i irs ds : decode ip s = Ok i -> i_code i <> INVALID -> u64 ip ->
    ip + i_len i <= e ->
    (instruction_kind i = Compute -> code_chain s e (i_next_ip i) irs ds) ->
    code_chain s e ip
      (mkIrInstruction ip (wrap 8 (i_len i)) (format_instruction i) (instruction_kind i) :: irs)
      (i :: ds).

Lemma translate_loop_chain fuel ip irs ds t s irs' ds' t' : wf (memory s) -> u64 ip ->
  translate_loop fuel ip irs ds t s = Ok (irs', ds', t') ->
  exists irs2 ds2, irs' = irs ++ irs2 /\ ds' = ds ++ ds2 /\
    code_chain s (end_of irs' 0) ip irs2 ds2.
Proof.
  intros Hm. revert ip irs ds t. induction fuel as [|fuel IH]; intros ip irs ds t Hip; simpl.
  { intros [= <- <- <-]. exists [], []. rewrite !app_nil_r. split; [done|]. split; [done|constructor]. }
  destruct (decode ip s) as [i| |] eqn:Hd; simpl; [|done..].
  destruct (decide (i_code i = INVALID)) as [|Hv]; [done|].
  destruct (decode_inv ip s i Hm Hip Hd Hv) as (bs&_&_&Hlen&Hw&Hn&Hu&_).
  destruct (decide (instruction_kind i = Compute)) as [Hk|Hk]; intros Ht.
  - rewrite Hn in Ht. pose proof Ht as Ht'. apply IH in Ht as (irs2&ds2&->&->&Hc); [|done].
    eexists (_ :: irs2), (i :: ds2). rewrite <- !app_assoc. split; [done|]. split; [done|].
    constructor; [done..| |by rewrite Hn, <- app_assoc in *].
    eapply translate_loop_mono in Ht'; [by rewrite <- app_assoc in Ht'|done|done|by destruct irs|].
    rewrite end_of_snoc. simpl. by rewrite Hw.
  - injection Ht as <- <- <-. eexists [_], [i]. split; [done|]. split; [done|].
    constructor; [done..| |done]. rewrite end_of_snoc. simpl. lia.
Qed.

(** ** A block runs as its instructions do *)

(** The guest may not write the mapped addresses of a range. *)
Definition unwritable (m : GuestMemory) (lo hi : Z) : Prop :=
  forall x p v, lo <= x < hi -> cell m x = Some (p, v) -> contains p WRITE = false.

(** The three addresses the interpreter answers itself. *)
Definition is_vsyscall (a : Z) : bool :=
  (a =? VSYSCALL_GETTIMEOFDAY) || (a =? VSYSCALL_TIME) || (a =? VSYSCALL_GETCPU).

Lemma handle_vsyscall_none s : is_vsyscall (rip (registers s)) = false ->
  handle_vsyscall s = (Ok None, s).
Proof.
  unfold is_vsyscall. rewrite !orb_false_iff. intros [[H1 H2] H3].
  unfold handle_vsyscall, mbind, st_bind, reg, gets. by rewrite H1, H2, H3.
Qed.

(** One step at an address whose code decodes to [i]. *)
Lemma step_decoded s i : is_vsyscall (rip (registers s)) = false ->
  decode (rip (registers s)) s = Ok i -> i_code i <> INVALID ->
  step s =
    (outcome ← wrap_execution (rip (registers s)) (format_instruction i)
                 (execute i (format_instruction i));
     push_trace (rip (registers s)) (format_instruction i) (registers s) ;;
     mret outcome) s.
Proof.
  intros Hv Hd Hi. unfold step, mbind, st_bind. rewrite handle_vsyscall_none by done.
  unfold reg, gets, reads. rewrite Hd. by rewrite decide_False.
Qed.

(** In any state execution reaches from [s0], code that was not writable in
    [s0] still decodes to the same instruction. *)
Lemma inv_decode s0 s ip i e : wf (memory s0) -> inv (memory s0) s -> u64 ip ->
  unwritable (memory s0) ip e -> ip + i_len i <= e ->
  decode ip s0 = Ok i -> i_code i <> INVALID -> decode ip s = Ok i.
Proof.
  intros Hm [Hw Hs Hp _ _] Hip Hu He Hd Hv. eapply decode_stable; [exact Hm|done..|].
  intros x p v Hx Hc _. apply Hp; [done|]. eapply Hu; [|exact Hc]. lia.
Qed.

Section Loop.
Context (s0 : Interpreter) (b : BasicBlock) (e : Z).
Hypothesis Hm : wf (memory s0).

Lemma block_loop_steps ds : forall irs ip n s,
  code_chain s0 e ip irs ds -> unwritable (memory s0) ip e ->
  (forall x, ip <= x < e -> is_vsyscall x = false) ->
  drop n (instructions b) = irs -> inv (memory s0) s ->
  exists k, (k <= length ds)%nat /\ (rip (registers s) = ip -> ds <> [] -> (0 < k)%nat) /\
    block_loop b n ds s = step_n k s.
Proof.
  induction ds as [|i ds IH]; intros irs ip n s Hch Hu Hv Hdrop Hs; [by exists O|].
  revert Hdrop. inversion Hch as [|? ? irs' ? Hd Hi Hip He Hrest]; subst. intros Hdrop.
  destruct (decode_inv ip s0 i Hm Hip Hd Hi) as (bs&_&Hib&Hlen&_&Hn&_).
  assert (i_ip i = ip) as Hiip by (rewrite Hib; by apply decode_ip).
  simpl. unfold mbind at 1, st_bind at 1, reg at 1, gets at 1. rewrite Hiip.
  destruct (Z.eqb_spec (rip (registers s)) ip) as [Hrip|Hne]; simpl; [|by exists O; split; [lia|]].
  assert (instructions b !! n = Some (mkIrInstruction ip (wrap 8 (i_len i))
    (format_instruction i) (instruction_kind i))) as Hn0.
  { rewrite <- (Nat.add_0_r n), <- lookup_drop, Hdrop. done. }
  rewrite Hn0. unfold mbind at 1, st_bind at 1, lift at 1. simpl.
  pose proof (step_decoded s i) as Hstep. rewrite Hrip in Hstep.
  specialize (Hstep (Hv ip ltac:(lia)) (inv_decode s0 s ip i e Hm Hs Hip Hu He Hd Hi) Hi).
  clear Hn0. revert Hstep. unfold mbind, st_bind, gets. simpl.
  destruct (wrap_execution_spec (memory s0) ip (format_instruction i)
    (execute i (format_instruction i)) step_ok (execute_spec _ _ _) s Hs) as [Hs1 _].
  destruct (wrap_execution ip (format_instruction i) (execute i (format_instruction i)) s)
    as [[o|er|] s1]; simpl in Hs1 |- *; intros Hstep;
    try (exists 1%nat; split; [lia|]; split; [lia|]; simpl; unfold mbind, st_bind;
         by rewrite Hstep).
  destruct (push_trace_spec (memory s0) ip (format_instruction i) (registers s) s1 Hs1) as [Hs2 _].
  revert Hs2 Hstep. unfold push_trace, modify. simpl.
  set (s2 := if trace_enabled s1 then _ else _). intros Hs2 Hstep.
  destruct (is_continue o) eqn:Ho; simpl.
  2: { exists 1%nat. split; [lia|]. split; [lia|]. simpl. unfold mbind, st_bind.
       rewrite Hstep. simpl. by destruct o. }
  destruct o; try done. case_bool_decide as Hk.
  { exists 1%nat. split; [lia|]. split; [lia|]. simpl. unfold mbind, st_bind. by rewrite Hstep. }
  destruct (IH irs' (i_next_ip i) (S n) s2) as (k&Hle&_&Hrun).
  - apply Hrest. destruct (decide (instruction_kind i = Compute)); [done|]. by destruct Hk.
  - intros x p v Hx. apply Hu. lia.
  - intros x Hx. apply Hv. lia.
  - rewrite <- Nat.add_1_r, <- drop_drop, Hdrop. done.
  - done.
  - exists (S k). split; [lia|]. split; [lia|]. rewrite Hrun. simpl. unfold mbind, st_bind.
    by rewrite Hstep.
Qed.
End Loop.

Lemma block_new_instructions {E} k irs t b : block_new (E:=E) k irs t = Ok b -> instructions b = irs.
Proof.
  unfold block_new. destruct (last irs) as [l|]; [destruct (ir_end_ip l)|]; simpl; try done;
    by intros [= <-].
Qed.

Lemma step_block_steps s b ds : wf (memory s) -> wf_registers (registers s) ->
  wf_cache (ir (cache s)) -> coherent s ->
  hits (ir (cache s)) < 2 ^ 64 - 1 -> misses (ir (cache s)) < 2 ^ 64 - 1 ->
  translate_block (rip (registers s)) s = Ok (b, ds) ->
  unwritable (memory s) (start_ip b) (end_ip b) ->
  (forall x, start_ip b <= x < end_ip b -> is_vsyscall x = false) ->
  exists k, (0 < k <= length ds)%nat /\
    step_block s = step_n k (cached_block (rip (registers s)) s).2.
Proof.
  intros Hm Hr Hw Hc Hh Hmi Ht Hu Hv. pose proof (wfr_slots _ Hr Srip) as Hip.
  destruct (translate_block_inv _ _ _ _ Ht) as (_&Hst&irs&t&Hloop&He&Hb).
  pose proof (translate_loop_first 63 _ _ _ _ _ _ _ _ Hloop) as Hne.
  destruct (translate_loop_chain _ _ _ _ _ _ _ _ _ Hm Hip Hloop) as (irs2&ds2&->&->&Hch).
  simpl in *. rewrite <- He in Hch. rewrite Hst in *.
  assert (rip (registers s) < end_ip b) as Hlt.
  { inversion Hch as [|? i ? ? Hd Hi ? Hle]; subst; [done|].
    destruct (decode_inv _ _ _ Hm Hip Hd Hi) as (_&_&_&Hlen&_). lia. }
  destruct (cached_block_keeps (rip (registers s)) s Hm Hip Hc Hh Hmi) as (Hres&_&Hmem&Hreg).
  destruct (cached_block_spec (memory s) (rip (registers s)) s) as [Hinv _];
    [by split; try done; intros a|].
  destruct (block_loop_steps s b (end_ip b) Hm ds2 irs2 (rip (registers s)) 0
    (cached_block (rip (registers s)) s).2) as (k&Hle&Hpos&Hrun); [done..| |done|].
  { by rewrite (block_new_instructions _ _ _ _ Hb). }
  exists k. split.
  { split; [|done]. apply Hpos; [by rewrite Hreg|]. inversion Hch; subst; done. }
  rewrite <- Hrun. unfold step_block, mbind, st_bind.
  rewrite handle_vsyscall_none by (apply Hv; lia). unfold reg, gets.
  destruct (cached_block (rip (registers s)) s) as [r s1]. simpl in Hres |- *.
  rewrite Hres, Ht. done.
Qed.
End Blocks.

(** ** Properties *)

(** C6: executing a block is executing its instructions.  With a coherent
    cache, for a block whose code the guest may not write and that holds none of
    the three vsyscall addresses, [step_block] has exactly the result and the
    final state, trace included, of between one and [length ds] single steps of
    [step] from the state that has looked the block up, which has the memory and
    the registers of [s]. *)
Theorem step_block_refines_steps `{IcedLaws} (s : Interpreter) (b : BasicBlock)
    (ds : list Instruction) (Hm : wf (memory s)) (Hr : wf_registers (registers s))
    (Hw : wf_cache (ir (cache s))) (Hc : coherent s)
    (Hh : hits (ir (cache s)) < 2 ^ 64 - 1) (Hmi : misses (ir (cache s)) < 2 ^ 64 - 1)
    (Ht : translate_block (rip (registers s)) s = Ok (b, ds))
    (Hu : unwritable (memory s) (start_ip b) (end_ip b))
    (Hv : forall x, start_ip b <= x < end_ip b -> is_vsyscall x = false) :
  let s1 := (cached_block (rip (registers s)) s).2 in
  memory s1 = memory s /\ registers s1 = registers s /\
  exists k, (0 < k <= length ds)%nat /\ step_block s = step_n k s1.
Proof.
  intros s1. destruct (cached_block_keeps (rip (registers s)) s) as (_&_&?&?);
    [done|by apply (wfr_slots _ Hr Srip)|done..|]. split; [done|]. split; [done|]. by apply (step_block_steps s b).
Qed.

(** [add rax, rbx], [cmp rax, rbx], [jmp $], in memory that is not writable. *)
Definition demo_block : Interpreter := interpreter_new
  (mkMemory [mkRegion 4096 32 (READ + EXECUTE) None
     ([0x48; 0x01; 0xd8; 0x48; 0x39; 0xd8; 0xeb; 0xfe] ++ replicate 24 0x90)])
  (set_rbx 5 (set_rax 7 (set_rip 4096 default_registers))).

Lemma step_block_refines_steps_witness :
  exists k, (0 < k <= 3)%nat /\
    step_block demo_block = step_n k (cached_block 4096 demo_block).2 /\
    rax (registers (step_block demo_block).2) = 12.
Proof.
  destruct (step_block_refines_steps demo_block (mkBlock 4096 4096 4104
    [mkIrInstruction 4096 3 [] Compute; mkIrInstruction 4099 3 [] Compute;
     mkIrInstruction 4102 2 [] Branch] TBranch)
    [x_decode [0x48; 0x01; 0xd8] 4096; x_decode [0x48; 0x39; 0xd8] 4099;
     x_decode [0xeb; 0xfe] 4102]) as (_&_&k&Hk&Hrun).
  - split; repeat constructor; vm_compute; congruence.
  - apply (slot_set_wf Srbx); [|by vm_compute].
    apply (slot_set_wf Srax); [|by vm_compute].
    apply (slot_set_wf Srip); [apply default_registers_wf|by vm_compute].
  - apply empty_cache_wf.
  - intros k b ds. simpl. by rewrite lookup_empty.
  - reflexivity.
  - reflexivity.
  - vm_compute. reflexivity.
  - intros x p v _ Hc. apply cells_Some_elem in Hc as (r&Hr&Hc). simpl in Hr.
    apply list_elem_of_singleton in Hr as ->. apply region_cell_Some in Hc as (_&Hp&_).
    simpl in Hp. rewrite Hp. reflexivity.
  - intros x Hx. simpl in Hx. unfold is_vsyscall, VSYSCALL_GETTIMEOFDAY, VSYSCALL_TIME, VSYSCALL_GETCPU.
    rewrite !(proj2 (Z.eqb_neq _ _)) by lia. reflexivity.
  - exists k. split; [exact Hk|]. split; [exact Hrun|]. vm_compute. reflexivity.
Defined.

(** Code near the end of a region cannot be decoded.  [decode] asks for
    15 bytes whatever the length of the instruction, so an instruction that
    starts in an executable region less than 15 bytes before its end is
    refused as unmapped, although its own bytes are all there. *)
Theorem decode_near_region_end `{Iced} (s : Interpreter) (ip : Z) (r : MemoryRegion)
    (Hm : wf (memory s)) (Hr : region (memory s) ip 1 = Ok r)
    (Hx : contains (r_permissions r) EXECUTE = true) (He : r_end r < ip + 15) :
  decode ip s = Err (CpuMemory (Unmapped ip 15)).
Proof.
  unfold decode, fetch_bytes, check_permission, region_bytes. rewrite Hr. simpl. rewrite Hx. simpl.
  change MAX_INSTRUCTION_LEN with 15.
  destruct (region_total (memory s) ip 15) as [[r' Hr']|Hr']; [|by rewrite Hr'].
  apply region_Ok in Hr as (Hin&_&?&?), Hr' as (Hin'&_&?&?).
  assert (r = r') as -> by (apply (wf_unique (memory s) r r' ip); done || lia). lia.
Qed.

(** The last byte of the code of [demo_code] is a [ret]. *)
Lemma decode_near_region_end_witness :
  cell (memory demo_code) 4127 = Some (READ + WRITE + EXECUTE, 0xc3) /\
  decode 4127 demo_code = Err (CpuMemory (Unmapped 4127 15)).
Proof.
  split; [vm_compute; reflexivity|].
  eapply decode_near_region_end;
    [apply demo_code_wf|vm_compute; reflexivity|reflexivity|reflexivity].
Defined.
