(* ===== verification/Elf.v ===== *)
(** * ELF images: crates/ruxeon-elf/src/elf.rs

    The parser of 64-bit little-endian ELF files, the program interpreter's
    path and the dynamic table.  Bytes come from outside, so every read is
    checked; the theorems show that no input makes the parser panic, that what
    it accepts lies inside the file, and that it inverts the ELF layout. *)

From S2P Require Import Prelude.

Open Scope Z_scope.

(** ** Data *)

Definition ELF_MAGIC : list Z := [0x7f; 69; 76; 70].
Definition ELFCLASS64 : Z := 2.
Definition ELFDATA2LSB : Z := 1.
Definition EM_X86_64 : Z := 62.
Definition EV_CURRENT : Z := 1.
Definition ET_DYN : Z := 3.

Inductive ElfError : Type :=
| TooSmall
| BadMagic
| UnsupportedClass (class : Z)
| UnsupportedEndian (data : Z)
| UnsupportedMachine (machine : Z)
| UnsupportedVersion (version : Z)
| InvalidHeaderSize (size : Z)
| InvalidProgramHeaderSize (size : Z)
| ProgramHeadersOutOfBounds
| SegmentOutOfBounds
| InvalidLoadSegment
| DynamicOutOfBounds
| InvalidInterpreter.

Record ElfHeader : Type := mkElfHeader {
  file_type : Z;
  machine : Z;
  entry : Z;
  program_header_offset : Z;
  section_header_offset : Z;
  e_flags : Z;
  header_size : Z;
  program_header_entry_size : Z;
  program_header_count : Z
}.

Inductive ProgramHeaderType : Type :=
| PhNull | Load | Dynamic | Interp | Note | Phdr | Tls | GnuStack
| PhOther (value : Z).

#[export] Instance program_header_type_eq_dec : EqDecision ProgramHeaderType.
Proof. solve_decision. Defined.

Definition ProgramHeaderType_from (value : Z) : ProgramHeaderType :=
  match value with
  | 0 => PhNull
  | 1 => Load
  | 2 => Dynamic
  | 3 => Interp
  | 4 => Note
  | 6 => Phdr
  | 7 => Tls
  | 0x6474e551 => GnuStack
  | other => PhOther other
  end.

(** [ProgramHeaderFlags], the bits of a [u32]. *)
Definition PF_EXECUTE : Z := 1.
Definition PF_WRITE : Z := 2.
Definition PF_READ : Z := 4.

Definition ph_readable (bits : Z) : bool := negb (Z.land bits PF_READ =? 0).
Definition ph_writable (bits : Z) : bool := negb (Z.land bits PF_WRITE =? 0).
Definition ph_executable (bits : Z) : bool := negb (Z.land bits PF_EXECUTE =? 0).

Record ProgramHeader : Type := mkProgramHeader {
  ph_kind : ProgramHeaderType;
  ph_flags : Z;
  offset : Z;
  virtual_address : Z;
  physical_address : Z;
  file_size : Z;
  memory_size : Z;
  align : Z
}.

Definition is_load (h : ProgramHeader) : bool := bool_decide (ph_kind h = Load).

Record ElfImage : Type := mkElfImage {
  bytes : list Z;
  header : ElfHeader;
  program_headers : list ProgramHeader
}.

Inductive DynamicTag : Type :=
| DtNull | Needed | PltRelSize | PltGot | Hash | StrTab | SymTab | Rela | RelaSize | RelaEnt
| StrSize | SymEnt | Init | Fini | SoName | RPath | Symbolic | Rel | RelSize | RelEnt
| PltRel | DtDebug | TextRel | JmpRel | BindNow | InitArray | FiniArray | RunPath | Flags
| GnuHash
| DtOther (value : Z).

#[export] Instance dynamic_tag_eq_dec : EqDecision DynamicTag.
Proof. solve_decision. Defined.

Definition DynamicTag_from (value : Z) : DynamicTag :=
  match value with
  | 0 => DtNull
  | 1 => Needed
  | 2 => PltRelSize
  | 3 => PltGot
  | 4 => Hash
  | 5 => StrTab
  | 6 => SymTab
  | 7 => Rela
  | 8 => RelaSize
  | 9 => RelaEnt
  | 10 => StrSize
  | 11 => SymEnt
  | 12 => Init
  | 13 => Fini
  | 14 => SoName
  | 15 => RPath
  | 16 => Symbolic
  | 17 => Rel
  | 18 => RelSize
  | 19 => RelEnt
  | 20 => PltRel
  | 21 => DtDebug
  | 22 => TextRel
  | 23 => JmpRel
  | 24 => BindNow
  | 25 => InitArray
  | 26 => FiniArray
  | 29 => RunPath
  | 30 => Flags
  | 0x6ffffef5 => GnuHash
  | other => DtOther other
  end.

Record DynamicEntry : Type := mkDynamicEntry { tag : DynamicTag; value : Z }.

(** ** Reading *)

Abbreviation ElfM := (res ElfError).

(** [read_u16], [read_u32] and [read_u64] for [n] bytes: the slice of length
    [n] always converts to an array of [n] bytes. *)
Definition read_n (n : nat) (bs : list Z) (off : Z) : ElfM Z :=
  e ← ok_or (checked_add off (Z.of_nat n)) TooSmall;
  b ← ok_or (slice_opt bs off e) TooSmall;
  if len b =? Z.of_nat n then Ok (of_le b) else Panic.

Definition read_u16 : list Z -> Z -> ElfM Z := read_n 2.
Definition read_u32 : list Z -> Z -> ElfM Z := read_n 4.
Definition read_u64 : list Z -> Z -> ElfM Z := read_n 8.

Definition validate_load_segment (bs : list Z) (h : ProgramHeader) : ElfM unit :=
  if memory_size h <? file_size h then Err InvalidLoadSegment else
  e ← ok_or (checked_add (offset h) (file_size h)) SegmentOutOfBounds;
  if len bs <? e then Err SegmentOutOfBounds else Ok tt.

Definition segment_bytes (bs : list Z) (h : ProgramHeader) : ElfM (list Z) :=
  e ← ok_or (checked_add (offset h) (file_size h)) SegmentOutOfBounds;
  ok_or (slice_opt bs (offset h) e) SegmentOutOfBounds.

(** One iteration of the loop over the program header table. *)
Definition parse_program_header (bs : list Z) (phoff phentsize i : Z) : ElfM ProgramHeader :=
  step ← mul64 i phentsize;
  off ← add64 phoff step;
  kind ← read_u32 bs off;
  o4 ← add64 off 4; flags ← read_u32 bs o4;
  o8 ← add64 off 8; offset ← read_u64 bs o8;
  o16 ← add64 off 16; vaddr ← read_u64 bs o16;
  o24 ← add64 off 24; paddr ← read_u64 bs o24;
  o32 ← add64 off 32; filesz ← read_u64 bs o32;
  o40 ← add64 off 40; memsz ← read_u64 bs o40;
  o48 ← add64 off 48; align ← read_u64 bs o48;
  let h := mkProgramHeader (ProgramHeaderType_from kind) flags offset vaddr paddr
             filesz memsz align in
  (if is_load h then validate_load_segment bs h else Ok tt) ;;
  Ok h.

Fixpoint parse_program_headers (bs : list Z) (phoff phentsize : Z) (idx : list Z)
    : ElfM (list ProgramHeader) :=
  match idx with
  | [] => Ok []
  | i :: idx =>
      h ← parse_program_header bs phoff phentsize i;
      hs ← parse_program_headers bs phoff phentsize idx;
      Ok (h :: hs)
  end.

(** The checks and reads of the file header. *)
Definition parse_header (bs : list Z) : ElfM ElfHeader :=
  if len bs <? 64 then Err TooSmall else
  magic ← slice bs 0 4;
  if bool_decide (magic <> ELF_MAGIC) then Err BadMagic else
  class ← index bs 4;
  if negb (class =? ELFCLASS64) then Err (UnsupportedClass class) else
  data ← index bs 5;
  if negb (data =? ELFDATA2LSB) then Err (UnsupportedEndian data) else
  file_type ← read_u16 bs 16;
  machine ← read_u16 bs 18;
  if negb (machine =? EM_X86_64) then Err (UnsupportedMachine machine) else
  version ← read_u32 bs 20;
  if negb (version =? EV_CURRENT) then Err (UnsupportedVersion version) else
  entry ← read_u64 bs 24;
  phoff ← read_u64 bs 32;
  shoff ← read_u64 bs 40;
  flags ← read_u32 bs 48;
  ehsize ← read_u16 bs 52;
  phentsize ← read_u16 bs 54;
  phnum ← read_u16 bs 56;
  if ehsize <? 64 then Err (InvalidHeaderSize ehsize) else
  if phentsize <? 56 then Err (InvalidProgramHeaderSize phentsize) else
  Ok (mkElfHeader file_type machine entry phoff shoff flags ehsize phentsize phnum).

Definition parse (bs : list Z) : ElfM ElfImage :=
  h ← parse_header bs;
  let phoff := program_header_offset h in
  let phentsize := program_header_entry_size h in
  let phnum := program_header_count h in
  table ← ok_or (checked_mul phentsize phnum) ProgramHeadersOutOfBounds;
  table_end ← ok_or (checked_add phoff table) ProgramHeadersOutOfBounds;
  if len bs <? table_end then Err ProgramHeadersOutOfBounds else
  phs ← parse_program_headers bs phoff phentsize (upto (Z.to_nat phnum));
  Ok (mkElfImage bs h phs).

(** ** Views of an image *)

Definition image_entry (image : ElfImage) : Z := entry (header image).

Definition is_position_independent (image : ElfImage) : bool :=
  file_type (header image) =? ET_DYN.

(** [std::str::from_utf8]: no overlong forms, surrogates or values above
    0x10ffff. *)
Definition continuation (b : Z) : bool := (0x80 <=? b) && (b <=? 0xbf).

Definition second_of_three (b0 b1 : Z) : bool :=
  ((b0 =? 0xe0) && (0xa0 <=? b1) && (b1 <=? 0xbf))
  || ((0xe1 <=? b0) && (b0 <=? 0xec) && continuation b1)
  || ((b0 =? 0xed) && (0x80 <=? b1) && (b1 <=? 0x9f))
  || ((0xee <=? b0) && (b0 <=? 0xef) && continuation b1).

Definition second_of_four (b0 b1 : Z) : bool :=
  ((b0 =? 0xf0) && (0x90 <=? b1) && (b1 <=? 0xbf))
  || ((0xf1 <=? b0) && (b0 <=? 0xf3) && continuation b1)
  || ((b0 =? 0xf4) && (0x80 <=? b1) && (b1 <=? 0x8f)).

Fixpoint utf8_valid (bs : list Z) : bool :=
  match bs with
  | [] => true
  | b0 :: bs1 =>
      if b0 <? 0x80 then utf8_valid bs1
      else match bs1 with
      | [] => false
      | b1 :: bs2 =>
          if (0xc2 <=? b0) && (b0 <=? 0xdf) then continuation b1 && utf8_valid bs2
          else match bs2 with
          | [] => false
          | b2 :: bs3 =>
              if second_of_three b0 b1 then continuation b2 && utf8_valid bs3
              else match bs3 with
              | [] => false
              | b3 :: bs4 =>
                  second_of_four b0 b1 && continuation b2 && continuation b3 && utf8_valid bs4
              end
          end
      end
  end.

Definition header_of_kind (k : ProgramHeaderType) (image : ElfImage) : option ProgramHeader :=
  find_first (fun h => bool_decide (ph_kind h = k)) (program_headers image).

(** A [String] is the list of its bytes. *)
Definition interpreter_path (image : ElfImage) : ElfM (option (list Z)) :=
  match header_of_kind Interp image with
  | None => Ok None
  | Some h =>
      data ← segment_bytes (bytes image) h;
      let nul := match position (fun b => b =? 0) data with
                 | Some i => Z.of_nat i
                 | None => len data
                 end in
      path ← slice data 0 nul;
      if utf8_valid path then Ok (Some path) else Err InvalidInterpreter
  end.

(** [chunks_exact(16)] of a slice of [16 * n] bytes. *)
Fixpoint chunks16 (n : nat) (data : list Z) : list (list Z) :=
  match n with
  | O => []
  | S n => take 16 data :: chunks16 n (drop 16 data)
  end.

Definition parse_dynamic_entry (chunk : list Z) : ElfM DynamicEntry :=
  t ← slice chunk 0 8;
  v ← slice chunk 8 16;
  Ok (mkDynamicEntry (DynamicTag_from (signed 64 (of_le t))) (of_le v)).

(** The loop over the chunks, which ends after a [Null] entry. *)
Fixpoint dynamic_loop (chunks : list (list Z)) : ElfM (list DynamicEntry) :=
  match chunks with
  | [] => Ok []
  | chunk :: chunks =>
      e ← parse_dynamic_entry chunk;
      if decide (tag e = DtNull) then Ok [e] else
      es ← dynamic_loop chunks;
      Ok (e :: es)
  end.

Definition dynamic_entries (image : ElfImage) : ElfM (list DynamicEntry) :=
  match header_of_kind Dynamic image with
  | None => Ok []
  | Some h =>
      data ← segment_bytes (bytes image) h;
      if negb (len data mod 16 =? 0) then Err DynamicOutOfBounds else
      dynamic_loop (chunks16 (Z.to_nat (len data / 16)) data)
  end.
