(* ===== verification/ElfProps.v ===== *)
(** * The ELF parser accepts exactly the files it should

    A declarative description of the files [parse] accepts and of the image it
    returns, the proof that the parser implements it without panicking on any
    input, and an encoder that [parse] inverts. *)

From S2P Require Import Prelude Elf.

Open Scope Z_scope.

(** ** The layout of an ELF file *)

(** The little-endian integer in [n] bytes at [off]. *)
Definition field (bs : list Z) (off : Z) (n : nat) : Z :=
  of_le (take n (drop (Z.to_nat off) bs)).

Definition header_at (bs : list Z) : ElfHeader :=
  mkElfHeader (field bs 16 2) (field bs 18 2) (field bs 24 8) (field bs 32 8) (field bs 40 8)
    (field bs 48 4) (field bs 52 2) (field bs 54 2) (field bs 56 2).

Definition program_header_at (bs : list Z) (off : Z) : ProgramHeader :=
  mkProgramHeader (ProgramHeaderType_from (field bs off 4)) (field bs (off + 4) 4)
    (field bs (off + 8) 8) (field bs (off + 16) 8) (field bs (off + 24) 8)
    (field bs (off + 32) 8) (field bs (off + 40) 8) (field bs (off + 48) 8).

Definition nth_program_header (bs : list Z) (i : Z) : ProgramHeader :=
  let h := header_at bs in
  program_header_at bs (program_header_offset h + i * program_header_entry_size h).

Definition image_at (bs : list Z) : ElfImage :=
  mkElfImage bs (header_at bs)
    (nth_program_header bs <$> upto (Z.to_nat (program_header_count (header_at bs)))).

(** A loadable segment takes its bytes from the file and fits its memory. *)
Definition load_in_file (bs : list Z) (h : ProgramHeader) : Prop :=
  is_load h = true -> file_size h <= memory_size h /\ offset h + file_size h <= len bs.

Record elf_accepts (bs : list Z) : Prop := {
  ea_size : 64 <= len bs;
  ea_magic : take 4 bs = ELF_MAGIC;
  ea_class : bs !! 4%nat = Some ELFCLASS64;
  ea_data : bs !! 5%nat = Some ELFDATA2LSB;
  ea_machine : machine (header_at bs) = EM_X86_64;
  ea_version : field bs 20 4 = EV_CURRENT;
  ea_header_size : 64 <= header_size (header_at bs);
  ea_entry_size : 56 <= program_header_entry_size (header_at bs);
  ea_table : program_header_offset (header_at bs) +
    program_header_entry_size (header_at bs) * program_header_count (header_at bs) <= len bs;
  ea_load : forall i, 0 <= i < program_header_count (header_at bs) ->
    load_in_file bs (nth_program_header bs i)
}.

(** ** Reading fields *)

Lemma elem_of_upto n i : i ∈ upto n <-> 0 <= i < Z.of_nat n.
Proof.
  unfold upto. rewrite list_elem_of_fmap. setoid_rewrite elem_of_seq. split.
  - intros (k&->&?). lia.
  - intros ?. exists (Z.to_nat i). lia.
Qed.

Section Fields.
Context (bs : list Z) (Hbs : Forall (fits 8) bs).

Lemma field_fits off n : fits (8 * Z.of_nat n) (field bs off n).
Proof.
  unfold field. eapply fits_le; [|apply of_le_fits; by apply Forall_take, Forall_drop].
  unfold len. rewrite length_take. lia.
Qed.

(** A field that is not negative, as [lia] needs it. *)
Lemma field_nonneg off n : 0 <= field bs off n.
Proof. apply (field_fits off n). Qed.

Lemma read_n_ok off n : 0 <= off -> off + Z.of_nat n <= len bs -> off + Z.of_nat n < 2 ^ 64 ->
  read_n n bs off = Ok (field bs off n).
Proof.
  intros H0 Hl Hs. unfold read_n.
  rewrite (proj2 (checked_add_Some _ _ (off + Z.of_nat n))) by done. simpl.
  rewrite (proj2 (slice_opt_Some bs (take n (drop (Z.to_nat off) bs)) _ _)) by
    (split; [lia|]; split; [done|]; by replace (Z.to_nat (off + Z.of_nat n - off)) with n by lia).
  simpl. rewrite (proj2 (Z.eqb_eq _ _)); [done|]. unfold len in *.
  rewrite length_take, length_drop. lia.
Qed.

Lemma validate_load_segment_iff h : 0 <= offset h -> len bs < 2 ^ 64 ->
  (validate_load_segment bs h = Ok tt /\
     file_size h <= memory_size h /\ offset h + file_size h <= len bs) \/
  ((exists e, validate_load_segment bs h = Err e) /\
     ~ (file_size h <= memory_size h /\ offset h + file_size h <= len bs)).
Proof.
  intros H0 Hl. unfold validate_load_segment, checked_add.
  destruct (Z.ltb_spec (memory_size h) (file_size h)); [right; split; [eauto|lia]|].
  destruct (Z.ltb_spec (offset h + file_size h) (2 ^ 64)); simpl; [|right; split; [eauto|lia]].
  destruct (Z.ltb_spec (len bs) (offset h + file_size h)); [right; split; [eauto|lia]|left; done].
Qed.

(** ** The program header table *)

Section Table.
Context (phoff phentsize phnum : Z).
Hypothesis Hoff : 0 <= phoff.
Hypothesis Hent : 56 <= phentsize.
Hypothesis Hend : phoff + phentsize * phnum <= len bs.
Hypothesis Hlen : len bs < 2 ^ 64.

Lemma parse_program_header_iff i : 0 <= i < phnum ->
  let h := program_header_at bs (phoff + i * phentsize) in
  (parse_program_header bs phoff phentsize i = Ok h /\ load_in_file bs h) \/
  ((exists e, parse_program_header bs phoff phentsize i = Err e) /\ ~ load_in_file bs h).
Proof.
  intros Hi h. unfold parse_program_header. set (off := phoff + i * phentsize) in *.
  assert (phoff + (i + 1) * phentsize <= len bs) as Hlast by nia.
  assert (off + 56 <= len bs /\ 0 <= off) as [Hin H0] by (unfold off; nia).
  assert (@mul64 ElfError i phentsize = Ok (i * phentsize)) as ->.
  { unfold mul64, checked_mul. rewrite (proj2 (Z.ltb_lt _ _)) by nia. done. }
  assert (forall k, 0 <= k <= 48 -> @add64 ElfError off k = Ok (off + k)) as Hadd
    by (intros k Hk; apply add64_Ok; lia).
  unfold mbind, res_bind.
  rewrite (proj2 (add64_Ok phoff (i * phentsize) off)) by (unfold off in *; lia).
  unfold read_u32, read_u64. rewrite (read_n_ok off 4) by lia.
  rewrite !Hadd by lia. rewrite !read_n_ok by lia.
  change (mkProgramHeader _ _ _ _ _ _ _ _) with h. unfold load_in_file.
  destruct (is_load h); [|by left].
  destruct (validate_load_segment_iff h) as [[-> ?]|[[e ->] ?]];
    [apply field_nonneg|done|by left|right; split; [eauto|tauto]].
Qed.

Lemma parse_program_headers_iff idx : (forall i, i ∈ idx -> 0 <= i < phnum) ->
  let at_index i := program_header_at bs (phoff + i * phentsize) in
  (parse_program_headers bs phoff phentsize idx = Ok (at_index <$> idx) /\
     forall i, i ∈ idx -> load_in_file bs (at_index i)) \/
  ((exists e, parse_program_headers bs phoff phentsize idx = Err e) /\
     ~ forall i, i ∈ idx -> load_in_file bs (at_index i)).
Proof.
  intros Hidx at_index. induction idx as [|i idx IH]; simpl.
  { left. split; [done|]. intros i Hin. by apply elem_of_nil in Hin. }
  destruct (parse_program_header_iff i) as [[-> Hl]|[[e ->] Hl]]; [apply Hidx; by constructor| |]; simpl.
  - destruct IH as [[-> Hls]|[[e ->] Hls]]; [intros j Hj; apply Hidx; by constructor| |]; simpl.
    + left. split; [done|]. intros j [->|Hj]%elem_of_cons; [done|by apply Hls].
    + right. split; [eauto|]. intros H. apply Hls. intros j Hj. apply H. by constructor.
  - right. split; [eauto|]. intros H. apply Hl, H. by constructor.
Qed.
End Table.
End Fields.

(** ** The whole parser *)

(** A check that failed contradicts the field of [elf_accepts] it stands for. *)
Ltac refuse := right; split; [by eexists|intros []; unfold header_at in *; simpl in *; congruence || lia].

Lemma parse_header_iff bs : len bs < 2 ^ 64 ->
  (parse_header bs = Ok (header_at bs) /\ 64 <= len bs /\ take 4 bs = ELF_MAGIC /\
     bs !! 4%nat = Some ELFCLASS64 /\ bs !! 5%nat = Some ELFDATA2LSB /\
     field bs 18 2 = EM_X86_64 /\ field bs 20 4 = EV_CURRENT /\
     64 <= field bs 52 2 /\ 56 <= field bs 54 2) \/
  ((exists e, parse_header bs = Err e) /\ ~ elf_accepts bs).
Proof.
  intros Hlen. unfold parse_header. destruct (Z.ltb_spec (len bs) 64); [refuse|].
  rewrite (proj2 (slice_Ok bs (take 4 bs) 0 4)) by (split; [lia|]; split; [lia|done]).
  unfold mbind, res_bind. case_bool_decide as Hmagic; [refuse|].
  assert (forall k, 0 <= k < 64 -> exists x, bs !! Z.to_nat k = Some x) as Hget.
  { intros k Hk. apply lookup_lt_is_Some. unfold len in *. lia. }
  unfold index. simpl. destruct (Hget 4 ltac:(lia)) as [c Hc], (Hget 5 ltac:(lia)) as [d Hd].
  rewrite Hc, Hd. change (Z.to_nat 4) with 4%nat in Hc. change (Z.to_nat 5) with 5%nat in Hd.
  simpl.
  destruct (Z.eqb_spec c ELFCLASS64) as [->|]; [simpl|refuse].
  destruct (Z.eqb_spec d ELFDATA2LSB) as [->|]; [simpl|refuse].
  unfold read_u16, read_u32, read_u64. rewrite !read_n_ok by lia.
  destruct (Z.eqb_spec (field bs 18 2) EM_X86_64); [simpl|refuse].
  destruct (Z.eqb_spec (field bs 20 4) EV_CURRENT); [simpl|refuse].
  destruct (Z.ltb_spec (field bs 52 2) 64); [refuse|].
  destruct (Z.ltb_spec (field bs 54 2) 56); [refuse|].
  left. split; [done|]. tauto.
Qed.

Lemma parse_iff bs : Forall (fits 8) bs -> len bs < 2 ^ 64 ->
  (parse bs = Ok (image_at bs) /\ elf_accepts bs) \/
  ((exists e, parse bs = Err e) /\ ~ elf_accepts bs).
Proof.
  intros Hbs Hlen. unfold parse.
  destruct (parse_header_iff bs Hlen) as [(->&?&?&?&?&?&?&?&?)|[[e ->] ?]]; [|right; eauto].
  unfold mbind, res_bind. set (h := header_at bs).
  pose proof (field_nonneg bs Hbs 32 8). pose proof (field_fits bs Hbs 54 2) as Hf2.
  pose proof (field_fits bs Hbs 56 2) as Hf3. unfold fits in Hf2, Hf3. simpl in Hf2, Hf3.
  assert (checked_mul (program_header_entry_size h) (program_header_count h) =
    Some (program_header_entry_size h * program_header_count h)) as ->
    by (apply checked_mul_Some; split; [done|]; simpl; nia). simpl.
  destruct (checked_add _ _) as [e|] eqn:He; simpl.
  2: { right. split; [eauto|]. intros [? _ _ _ _ _ _ _ Ht _]. simpl in Ht.
       unfold checked_add in He. revert He. destruct (Z.ltb_spec (field bs 32 8 + field bs 54 2 * field bs 56 2) (2 ^ 64)); [done|]. lia. }
  apply checked_add_Some in He as [-> _].
  destruct (Z.ltb_spec (len bs) (field bs 32 8 + field bs 54 2 * field bs 56 2)); [refuse|].
  destruct (parse_program_headers_iff bs Hbs (field bs 32 8) (field bs 54 2) (field bs 56 2))
    with (idx := upto (Z.to_nat (field bs 56 2))) as [[-> Hl]|[[e ->] Hl]]; try done.
  { intros i Hi%elem_of_upto. lia. }
  - left. split; [done|]. split; try done. intros i Hi. apply Hl, elem_of_upto.
    simpl in Hi. lia.
  - right. split; [eauto|]. intros Ha. apply Hl. intros i Hi%elem_of_upto.
    apply (ea_load bs Ha). simpl. lia.
Qed.

(** ** An encoder *)

Definition program_header_code (k : ProgramHeaderType) : Z :=
  match k with
  | PhNull => 0 | Load => 1 | Dynamic => 2 | Interp => 3 | Note => 4 | Phdr => 6 | Tls => 7
  | GnuStack => 0x6474e551
  | PhOther v => v
  end.

(** The file header: the identification, the fields, and no section headers. *)
Definition encode_header (h : ElfHeader) : list Z :=
  ELF_MAGIC ++ [ELFCLASS64; ELFDATA2LSB; 1] ++ replicate 9 0 ++
  to_le 2 (file_type h) ++ to_le 2 (machine h) ++ to_le 4 EV_CURRENT ++ to_le 8 (entry h) ++
  to_le 8 (program_header_offset h) ++ to_le 8 (section_header_offset h) ++
  to_le 4 (e_flags h) ++ to_le 2 (header_size h) ++ to_le 2 (program_header_entry_size h) ++
  to_le 2 (program_header_count h) ++ replicate 6 0.

Definition encode_program_header (h : ProgramHeader) : list Z :=
  to_le 4 (program_header_code (ph_kind h)) ++ to_le 4 (ph_flags h) ++ to_le 8 (offset h) ++
  to_le 8 (virtual_address h) ++ to_le 8 (physical_address h) ++ to_le 8 (file_size h) ++
  to_le 8 (memory_size h) ++ to_le 8 (align h).

Fixpoint encode_table (hs : list ProgramHeader) : list Z :=
  match hs with [] => [] | h :: hs => encode_program_header h ++ encode_table hs end.

(** An executable with its program header table right after the file header. *)
Definition elf_header (type entry flags : Z) (hs : list ProgramHeader) : ElfHeader :=
  mkElfHeader type EM_X86_64 entry 64 0 flags 64 56 (len hs).

Definition encode_elf (type entry flags : Z) (hs : list ProgramHeader) (body : list Z) : list Z :=
  encode_header (elf_header type entry flags hs) ++ encode_table hs ++ body.

(** Every field fits its width, and the type is the canonical name of its code. *)
Record wf_program_header (h : ProgramHeader) : Prop := {
  wph_kind : ProgramHeaderType_from (program_header_code (ph_kind h)) = ph_kind h;
  wph_code : u32 (program_header_code (ph_kind h));
  wph_flags : u32 (ph_flags h);
  wph_offset : u64 (offset h);
  wph_vaddr : u64 (virtual_address h);
  wph_paddr : u64 (physical_address h);
  wph_filesz : u64 (file_size h);
  wph_memsz : u64 (memory_size h);
  wph_align : u64 (align h)
}.

Lemma field_drop bs off n x rest : drop (Z.to_nat off) bs = to_le n x ++ rest ->
  fits (8 * Z.of_nat n) x -> field bs off n = x.
Proof.
  intros Hd Hx. unfold field. rewrite Hd, take_app_length' by (by rewrite length_to_le).
  by apply of_le_to_le_id.
Qed.

Lemma header_at_encoded h rest : u16 (file_type h) -> u16 (machine h) -> u64 (entry h) ->
  u64 (program_header_offset h) -> u64 (section_header_offset h) -> u32 (e_flags h) ->
  u16 (header_size h) -> u16 (program_header_entry_size h) -> u16 (program_header_count h) ->
  header_at (encode_header h ++ rest) = h /\ field (encode_header h ++ rest) 20 4 = EV_CURRENT.
Proof.
  intros. split; [|by eapply field_drop; [reflexivity|]].
  destruct h; simpl in *. unfold header_at.
  f_equal; (eapply field_drop; [reflexivity|done]).
Qed.

Lemma program_header_at_encoded bs off h rest : wf_program_header h -> 0 <= off ->
  drop (Z.to_nat off) bs = encode_program_header h ++ rest -> program_header_at bs off = h.
Proof.
  destruct h as [k f o va pa fs ms al]. intros [Hk ? ? ? ? ? ? ? ?] Hoff Hd. simpl in *.
  unfold program_header_at.
  assert (forall j, 0 <= j -> drop (Z.to_nat (off + j)) bs =
    drop (Z.to_nat j) (encode_program_header (mkProgramHeader k f o va pa fs ms al) ++ rest)) as Hdrop.
  { intros j Hj. rewrite Z2Nat.inj_add, <- drop_drop, Hd by lia. done. }
  f_equal; [|eapply field_drop; [rewrite Hdrop by lia; reflexivity|done]..].
  erewrite field_drop; [exact Hk|exact Hd|done].
Qed.

Lemma length_encode_program_header h : length (encode_program_header h) = 56%nat.
Proof. done. Qed.

Lemma length_encode_header h : length (encode_header h) = 64%nat.
Proof. done. Qed.

Lemma encode_table_drop hs i h rest : hs !! i = Some h ->
  exists rest', drop (56 * i) (encode_table hs ++ rest) = encode_program_header h ++ rest'.
Proof.
  revert i. induction hs as [|x hs IH]; intros [|i] Hi; try done; cbn [encode_table];
    rewrite <- app_assoc.
  - injection Hi as ->. by exists (encode_table hs ++ rest).
  - destruct (IH i Hi) as [rest' Hr]. exists rest'. rewrite <- Hr.
    replace (56 * S i)%nat with (56 + 56 * i)%nat by lia. by rewrite <- drop_drop.
Qed.

Lemma length_encode_table hs : len (encode_table hs) = 56 * len hs.
Proof.
  induction hs as [|h hs IH]; [done|]. cbn [encode_table]. rewrite len_app, IH. unfold len.
  rewrite length_encode_program_header, length_cons. lia.
Qed.

Lemma encode_elf_u8 type entry flags hs body : Forall (fits 8) body ->
  Forall (fits 8) (encode_elf type entry flags hs body).
Proof.
  intros Hb. unfold encode_elf, encode_header. rewrite !Forall_app.
  assert (Forall (fits 8) (encode_table hs)).
  { induction hs as [|h hs IH]; [done|]. apply Forall_app. split; [|done].
    unfold encode_program_header. rewrite !Forall_app. auto 20 using to_le_u8. }
  repeat split; auto using to_le_u8; by repeat constructor.
Qed.

(** The image of an encoded file. *)
Lemma image_at_encoded type entry flags hs body : u16 type -> u64 entry -> u32 flags ->
  len hs < 2 ^ 16 -> Forall wf_program_header hs ->
  let bs := encode_elf type entry flags hs body in
  header_at bs = elf_header type entry flags hs /\ field bs 20 4 = EV_CURRENT /\
  nth_program_header bs <$> upto (length hs) = hs.
Proof.
  intros Ht He Hf Hn Hhs bs. pose proof (len_nonneg hs).
  destruct (header_at_encoded (elf_header type entry flags hs) (encode_table hs ++ body))
    as [Hh Hv]; try done. split; [done|]. split; [done|].
  apply list_eq. intros i. unfold upto. rewrite !list_lookup_fmap.
  destruct (hs !! i) as [h|] eqn:Hi.
  2: { apply lookup_ge_None in Hi. by rewrite (lookup_seq_ge 0) by lia. }
  pose proof (lookup_lt_Some _ _ _ Hi). rewrite (lookup_seq_lt 0) by done. simpl. f_equal.
  destruct (encode_table_drop hs i h body Hi) as [rest Hr].
  unfold nth_program_header. change (header_at bs = elf_header type entry flags hs) in Hh. rewrite Hh. simpl.
  rewrite Forall_forall in Hhs. apply (program_header_at_encoded bs _ h rest);
    [by eapply Hhs, list_elem_of_lookup_2|lia|].
  rewrite Z2Nat.inj_add, <- drop_drop by lia. unfold bs, encode_elf.
  rewrite drop_app_length' by done. rewrite <- Hr. f_equal. lia.
Qed.

(** ** The dynamic table *)

(** Entry [i] of a table. *)
Definition dynamic_entry_at (data : list Z) (i : nat) : DynamicEntry :=
  mkDynamicEntry (DynamicTag_from (signed 64 (field data (16 * Z.of_nat i) 8)))
    (field data (16 * Z.of_nat i + 8) 8).

Lemma dynamic_entry_at_drop data i k :
  dynamic_entry_at (drop (16 * k) data) i = dynamic_entry_at data (k + i).
Proof.
  unfold dynamic_entry_at, field. rewrite !drop_drop.
  replace (16 * k + Z.to_nat (16 * Z.of_nat i))%nat
    with (Z.to_nat (16 * Z.of_nat (k + i))) by lia.
  by replace (16 * k + Z.to_nat (16 * Z.of_nat i + 8))%nat
    with (Z.to_nat (16 * Z.of_nat (k + i) + 8)) by lia.
Qed.

Lemma parse_dynamic_entry_ok data : (16 <= length data)%nat ->
  parse_dynamic_entry (take 16 data) = Ok (dynamic_entry_at data 0).
Proof.
  intros Hl. unfold parse_dynamic_entry, dynamic_entry_at, field.
  rewrite (proj2 (slice_Ok (take 16 data) (take 8 data) 0 8)), 
    (proj2 (slice_Ok (take 16 data) (take 8 (drop 8 data)) 8 16)); [done|split; [lia|]..];
    unfold len; rewrite length_take; (split; [lia|]).
  - by rewrite skipn_firstn_comm, take_take.
  - simpl. by rewrite drop_0, take_take.
Qed.

(** The loop reads entries until the first [Null] or the end of the table. *)
Lemma dynamic_loop_spec n data : length data = (16 * n)%nat ->
  exists es, dynamic_loop (chunks16 n data) = Ok es /\ (length es <= n)%nat /\
    (forall i e, es !! i = Some e -> e = dynamic_entry_at data i) /\
    (forall i, (S i < length es)%nat -> tag (dynamic_entry_at data i) <> DtNull) /\
    (length es = n \/ exists e, last es = Some e /\ tag e = DtNull).
Proof.
  revert data. induction n as [|n IH]; intros data Hl.
  { exists []. split; [done|]. split; [done|]. split; [done|]. split; [simpl; lia|by left]. }
  cbn [chunks16 dynamic_loop]. rewrite parse_dynamic_entry_ok by lia.
  unfold mbind, res_bind. destruct (decide _) as [Hnull|Hnull].
  - exists [dynamic_entry_at data 0]. split; [done|]. split; [simpl; lia|].
    split; [by intros [|i] e [= <-]|]. split; [simpl; lia|]. right. by eexists.
  - destruct (IH (drop 16 data)) as (es&->&Hle&Hat&Hnn&Hend); [rewrite length_drop; lia|].
    exists (dynamic_entry_at data 0 :: es). split; [done|]. split; [simpl; lia|].
    assert (forall i, dynamic_entry_at (drop 16 data) i = dynamic_entry_at data (S i)) as Hs
      by (intros i; apply (dynamic_entry_at_drop data i 1)).
    split; [|split].
    + intros [|i] e; simpl; [by intros [= <-]|]. intros He. rewrite <- Hs. by apply Hat.
    + intros [|i] Hi; [done|]. rewrite <- Hs. apply Hnn. simpl in Hi. lia.
    + destruct Hend as [Hend|(e&He&Ht)]; [left; simpl; lia|right]. exists e. split; [|done].
      by destruct es.
Qed.

Lemma position_zero_app path rest : Forall (fun b => b <> 0) path ->
  position (fun b => b =? 0) (path ++ 0 :: rest) = Some (length path).
Proof.
  induction 1 as [|b path Hb _ IH]; simpl; [done|].
  rewrite (proj2 (Z.eqb_neq _ _)) by done. by rewrite IH.
Qed.

(** ** Properties *)

(** C22: the parser is total and exact.  On every byte string it either
    returns the image that the ELF layout defines, and then the file has the
    magic, class, encoding, machine and version, its program header table and
    every loadable segment's bytes lie inside the file and no segment is larger
    in the file than in memory; or it returns an error, and then one of these
    fails.  It never panics. *)
Theorem parse_exact (bs : list Z) (Hbs : Forall (fits 8) bs) (Hlen : len bs < 2 ^ 64) :
  (elf_accepts bs /\ parse bs = Ok (image_at bs)) \/
  (~ elf_accepts bs /\ exists e, parse bs = Err e).
Proof. destruct (parse_iff bs Hbs Hlen) as [[]|[]]; auto. Qed.

(** C40: the parser inverts the ELF layout.  A file written field by field,
    with its program headers after the file header, parses to the header and
    the program headers it was written from, whatever bytes follow, as long as
    the loadable segments lie in the file. *)
Theorem parse_encode (type entry flags : Z) (hs : list ProgramHeader) (body : list Z)
    (Ht : u16 type) (He : u64 entry) (Hf : u32 flags) (Hn : len hs < 2 ^ 16)
    (Hhs : Forall wf_program_header hs) (Hb : Forall (fits 8) body)
    (Hl : Forall (load_in_file (encode_elf type entry flags hs body)) hs)
    (Hlen : len (encode_elf type entry flags hs body) < 2 ^ 64) :
  let bs := encode_elf type entry flags hs body in
  parse bs = Ok (mkElfImage bs (elf_header type entry flags hs) hs).
Proof.
  intros bs. destruct (image_at_encoded type entry flags hs body) as (Hh&Hv&Hp); try done.
  fold bs in Hh, Hv, Hp, Hl. assert (image_at bs = mkElfImage bs (elf_header type entry flags hs) hs) as Hi.
  { unfold image_at. rewrite Hh. f_equal. rewrite <- Hp at 2. do 2 f_equal. simpl. unfold len. lia. }
  rewrite <- Hi. destruct (parse_iff bs) as [[? _]|[_ Hna]]; [by apply encode_elf_u8|done|done|].
  destruct Hna. split; rewrite ?Hh; simpl; try done.
  - unfold bs, encode_elf. rewrite len_app. pose proof (len_nonneg (encode_table hs ++ body)).
    unfold len at 1. rewrite length_encode_header. lia.
  - unfold bs, encode_elf. rewrite !len_app, length_encode_table. unfold len at 2.
    rewrite length_encode_header. pose proof (len_nonneg body). lia.
  - intros i Hir. rewrite Forall_forall in Hl. apply Hl. rewrite <- Hp.
    apply list_elem_of_fmap. exists i. split; [done|]. apply elem_of_upto. unfold len in Hir. lia.
Qed.

(** The executable of the loader's own tests: one readable and executable
    segment with a [syscall] at its entry. *)
Definition tiny_segment : ProgramHeader :=
  mkProgramHeader Load 5 0 0x400000 0x400000 0x80 0x80 0x1000.

Definition tiny_elf : list Z :=
  encode_elf 2 0x400078 0 [tiny_segment] [0x0f; 0x05; 0; 0; 0; 0; 0; 0].

Lemma tiny_elf_u8 : Forall (fits 8) tiny_elf.
Proof. apply encode_elf_u8. by repeat constructor. Qed.

Lemma parse_exact_witness :
  elf_accepts tiny_elf /\ parse tiny_elf = Ok (image_at tiny_elf) /\
  (exists e, parse (take 63 tiny_elf) = Err e).
Proof.
  split; [|split].
  - destruct (parse_exact tiny_elf tiny_elf_u8) as [[Ha _]|[_ [e He]]];
      [reflexivity|exact Ha|vm_compute in He; discriminate He].
  - destruct (parse_exact tiny_elf tiny_elf_u8) as [[_ Hp]|[_ [e He]]];
      [reflexivity|exact Hp|vm_compute in He; discriminate He].
  - exists TooSmall. vm_compute. reflexivity.
Defined.

Lemma parse_encode_witness :
  exists image, parse tiny_elf = Ok image /\ program_headers image = [tiny_segment] /\
    image_entry image = 0x400078.
Proof.
  eexists. split; [apply parse_encode|split; reflexivity]; try reflexivity.
  - by vm_compute.
  - by vm_compute.
  - by vm_compute.
  - constructor; [|constructor]. by split; try reflexivity; vm_compute.
  - by repeat constructor.
  - constructor; [|constructor]. intros _. vm_compute. split; discriminate.
Defined.

(** The dynamic table.  When the image has a dynamic segment inside the
    file whose size is a multiple of 16, [dynamic_entries] returns its entries
    in order, up to and including the first [Null] entry or to the end of the
    table; no entry before the last is [Null]. *)
Theorem dynamic_entries_exact (image : ElfImage) (h : ProgramHeader) (data : list Z)
    (Hh : header_of_kind Dynamic image = Some h)
    (Hd : segment_bytes (bytes image) h = Ok data) (Hm : len data mod 16 = 0) :
  exists es, dynamic_entries image = Ok es /\
    (forall i e, es !! i = Some e -> e = dynamic_entry_at data i) /\
    (forall i, (S i < length es)%nat -> tag (dynamic_entry_at data i) <> DtNull) /\
    (16 * len es = len data \/ exists e, last es = Some e /\ tag e = DtNull).
Proof.
  unfold dynamic_entries. rewrite Hh, Hd. simpl. rewrite Hm. simpl.
  pose proof (Z.div_mod (len data) 16 ltac:(lia)) as Hdiv. pose proof (len_nonneg data).
  destruct (dynamic_loop_spec (Z.to_nat (len data / 16)) data) as (es&->&_&Hat&Hnn&Hend).
  { unfold len in *. lia. }
  exists es. split; [done|]. split; [done|]. split; [done|].
  destruct Hend as [Hend|?]; [left|by right]. unfold len in *. lia.
Qed.

(** A shared object with an interpreter's path and a dynamic table. *)
Definition interp_path : list Z := [47; 108; 100; 46; 115; 111].

Definition dynamic_elf : list Z :=
  encode_elf 3 0xe8 0
    [mkProgramHeader Load 5 0 0 0 0x138 0x138 0x1000;
     mkProgramHeader Interp 4 0xf8 0xf8 0xf8 7 7 1;
     mkProgramHeader Dynamic 4 0x108 0x108 0x108 0x30 0x30 8]
    ([0x0f; 5; 0; 0; 0; 0; 0; 0; 0; 0; 0; 0; 0; 0; 0; 0] ++ interp_path ++ replicate 10 0 ++
     (1 :: replicate 7 0) ++ (0x20 :: replicate 7 0) ++ replicate 32 0).

Lemma dynamic_entries_exact_witness :
  exists es, dynamic_entries (image_at dynamic_elf) = Ok es /\
    es = [mkDynamicEntry Needed 0x20; mkDynamicEntry DtNull 0].
Proof.
  destruct (dynamic_entries_exact (image_at dynamic_elf)
    (mkProgramHeader Dynamic 4 0x108 0x108 0x108 0x30 0x30 8)
    ((1 :: replicate 7 0) ++ (0x20 :: replicate 7 0) ++ replicate 32 0)) as (es&He&_);
    [vm_compute; reflexivity|vm_compute; reflexivity|reflexivity|].
  exists es. split; [exact He|]. vm_compute in He. injection He as <-. reflexivity.
Defined.

(** The interpreter's path is the bytes of its segment before the first
    zero, and it is refused when they are not UTF-8. *)
Theorem interpreter_path_exact (image : ElfImage) (h : ProgramHeader) (path rest : list Z)
    (Hh : header_of_kind Interp image = Some h)
    (Hd : segment_bytes (bytes image) h = Ok (path ++ 0 :: rest))
    (Hz : Forall (fun b => b <> 0) path) :
  interpreter_path image = if utf8_valid path then Ok (Some path) else Err InvalidInterpreter.
Proof.
  unfold interpreter_path. rewrite Hh, Hd. simpl. rewrite position_zero_app by done.
  rewrite (proj2 (slice_Ok (path ++ 0 :: rest) path 0 (len path))); [done|].
  pose proof (len_nonneg path). split; [lia|]. split; [rewrite len_app; pose proof (len_nonneg (0 :: rest)); lia|].
  simpl. rewrite drop_0, take_app_length' by (unfold len; lia). done.
Qed.

Lemma interpreter_path_exact_witness :
  interpreter_path (image_at dynamic_elf) = Ok (Some interp_path).
Proof.
  rewrite (interpreter_path_exact (image_at dynamic_elf)
    (mkProgramHeader Interp 4 0xf8 0xf8 0xf8 7 7 1) interp_path []);
    [reflexivity|vm_compute; reflexivity|vm_compute; reflexivity|repeat constructor; discriminate].
Defined.
