(* ===== verification/Loader.v ===== *)
(** * The program loader: crates/ruxeon-elf/src/loader.rs

    Mapping of the loadable segments, of the program interpreter and of the
    stack, and the initial stack of a process: argument and environment
    strings, the auxiliary vector, the pointer tables and the count.  The stack
    is built through the [ByteStore] interface of MemorySpec.v, of which
    [GuestMemory] is the instance the loader uses. *)

From S2P Require Import Prelude Memory MemorySpec Elf.

Open Scope Z_scope.

(** ** Data *)

Definition DEFAULT_STACK_TOP : Z := 0x00007ffffffff000.
Definition DEFAULT_STACK_SIZE : Z := 8 * 1024 * 1024.
Definition DEFAULT_PIE_BASE : Z := 0x0000555500000000.
Definition DEFAULT_INTERPRETER_BASE : Z := 0x00007fff00000000.

Inductive LoaderError : Type :=
| LElf (e : ElfError)
| LMemory (e : GuestMemoryError)
| NoLoadSegments
| MissingProgramHeaderAddress
| StackOverflow.

Record LoaderConfig : Type := mkConfig {
  stack_top : Z;
  stack_size : Z;
  page_size : Z;
  position_independent_base : Z;
  interpreter_base : Z
}.

Definition default_config : LoaderConfig :=
  mkConfig DEFAULT_STACK_TOP DEFAULT_STACK_SIZE PAGE_SIZE DEFAULT_PIE_BASE
    DEFAULT_INTERPRETER_BASE.

Inductive AuxType : Type :=
| AtNull | AtPhdr | AtPhent | AtPhnum | AtPagesz | AtBase | AtEntry | AtUid | AtEUid | AtGid
| AtEGid | AtSecure | AtRandom | AtExecFn.

(** [kind as u64]. *)
Definition aux_code (k : AuxType) : Z :=
  match k with
  | AtNull => 0 | AtPhdr => 3 | AtPhent => 4 | AtPhnum => 5 | AtPagesz => 6 | AtBase => 7
  | AtEntry => 9 | AtUid => 11 | AtEUid => 12 | AtGid => 13 | AtEGid => 14 | AtSecure => 23
  | AtRandom => 25 | AtExecFn => 31
  end.

Record AuxEntry : Type := mkAux { aux_kind : AuxType; aux_value : Z }.

Record LoadedInterpreter : Type := mkLoadedInterpreter {
  li_image : ElfImage;
  li_path : list Z;
  li_base : Z;
  li_entry : Z;
  li_dynamic_entries : list DynamicEntry
}.

Record LoadedProgram : Type := mkLoadedProgram {
  lp_image : ElfImage;
  lp_memory : GuestMemory;
  lp_entry : Z;
  lp_executable_entry : Z;
  lp_stack_pointer : Z;
  lp_auxv : list AuxEntry;
  lp_argv : list (list Z);
  lp_envp : list (list Z);
  lp_interpreter_path : option (list Z);
  lp_interpreter : option LoadedInterpreter;
  lp_dynamic_entries : list DynamicEntry
}.

(** ** Alignment *)

Definition align_down {E} (value align : Z) : res E Z :=
  low ← sub64 align 1;
  Ok (Z.land value (lnotw 64 low)).

(** [align_down(value + align - 1, align)]. *)
Definition align_up {E} (value align : Z) : res E Z :=
  x ← add64 value align;
  x ← sub64 x 1;
  align_down x align.

(** ** Segments *)

(** [{:x}]: hexadecimal digits without leading zeros; 16 digits hold a [u64]. *)
Definition hex_digit (d : Z) : Z := if d <? 10 then 48 + d else 87 + d.

Fixpoint hex_digits (fuel : nat) (x : Z) : list Z :=
  match fuel with
  | O => []
  | S fuel => (if x <? 16 then [] else hex_digits fuel (x / 16)) ++ [hex_digit (x mod 16)]
  end.

(** [format!("PT_LOAD {:#x}", x)]. *)
Definition segment_name (x : Z) : list Z :=
  [80; 84; 95; 76; 79; 65; 68; 32; 48; 120] ++ hex_digits 16 x.

Definition permissions_from_header (h : ProgramHeader) : Z :=
  let p := 0 in
  let p := if ph_readable (ph_flags h) then Z.lor p READ else p in
  let p := if ph_writable (ph_flags h) then Z.lor p WRITE else p in
  if ph_executable (ph_flags h) then Z.lor p EXECUTE else p.

Definition load_segment (image : ElfImage) (h : ProgramHeader) (load_bias page_size : Z)
    : ST GuestMemory LoaderError unit :=
  guest_virtual_address ← lift (add64 (virtual_address h) load_bias);
  map_start ← lift (align_down guest_virtual_address page_size);
  segment_end ← lift (ok_or
    (e ← checked_add (virtual_address h) (memory_size h); checked_add e load_bias)
    (LMemory (AddressOverflow guest_virtual_address (memory_size h))));
  map_end ← lift (align_up segment_end page_size);
  map_size ← lift (sub64 map_end map_start);
  data_offset ← lift (sub64 guest_virtual_address map_start);
  file_end ← lift (add64 (offset h) (file_size h));
  data ← lift (slice (bytes image) (offset h) file_end);
  zoom (fun m => m) (fun m _ => m) LMemory
    (map_with_data map_start map_size (permissions_from_header h) data_offset data
       (Some (segment_name guest_virtual_address))).

Definition load_headers (image : ElfImage) : list ProgramHeader :=
  filter (fun h => is_load h = true) (program_headers image).

Definition load_segments (image : ElfImage) (load_bias page_size : Z)
    : ST GuestMemory LoaderError unit :=
  for_each (load_headers image) (fun h => load_segment image h load_bias page_size).

(** The header that says where the program header table is mapped. *)
Definition locates_table (phoff : Z) (h : ProgramHeader) : bool :=
  bool_decide (ph_kind h = Phdr)
  || (is_load h && (offset h <=? phoff) && (phoff <? saturating_add (offset h) (file_size h))).

Definition program_header_guest_address (image : ElfImage) (load_bias : Z)
    : res LoaderError (option Z) :=
  let phoff := program_header_offset (header image) in
  match find_first (locates_table phoff) (program_headers image) with
  | None => Ok None
  | Some h =>
      a ← (if decide (ph_kind h = Phdr) then add64 (virtual_address h) load_bias
           else d ← sub64 phoff (offset h);
                a ← add64 (virtual_address h) d;
                add64 a load_bias);
      Ok (Some a)
  end.

(** ** The initial stack *)

Record StackAuxInput : Type := mkAuxInput {
  in_phdr : Z;
  in_phent : Z;
  in_phnum : Z;
  in_entry : Z;
  in_base : Z;
  in_page_size : Z
}.

Record StackBuildResult : Type := mkBuildResult { stack_pointer : Z; auxv : list AuxEntry }.

Record InitialStack : Type := mkStack { sp : Z; floor : Z }.

Definition auxv_of (input : StackAuxInput) (random_ptr execfn_ptr : Z) : list AuxEntry :=
  [mkAux AtPhdr (in_phdr input); mkAux AtPhent (in_phent input); mkAux AtPhnum (in_phnum input);
   mkAux AtPagesz (in_page_size input); mkAux AtBase (in_base input);
   mkAux AtEntry (in_entry input); mkAux AtUid 0; mkAux AtEUid 0; mkAux AtGid 0;
   mkAux AtEGid 0; mkAux AtSecure 0; mkAux AtRandom random_ptr; mkAux AtExecFn execfn_ptr;
   mkAux AtNull 0].

Section Stack.
Context {M : Type} `{STORE : ByteStore M GuestMemoryError}.

(** The methods change the stack and the memory they are given. *)
Abbreviation StackM A := (ST (InitialStack * M) LoaderError A).

Definition set_sp (x : Z) : StackM unit := modify (fun s => (mkStack x (floor s.1), s.2)).

Definition push_bytes (bs : list Z) : StackM Z :=
  old ← gets (fun s => sp s.1);
  new ← lift (ok_or (checked_sub old (len bs)) StackOverflow);
  set_sp new ;;
  low ← gets (fun s => floor s.1);
  if new <? low then raise StackOverflow else
  zoom snd (fun m s => (s.1, m)) LMemory (bs_write new bs) ;;
  mret new.

Definition push_c_string (s : list Z) : StackM Z := push_bytes (s ++ [0]).

Definition push_u64 (value : Z) : StackM unit := push_bytes (to_le 8 value) ;; mret tt.

Definition stack_align_down (align : Z) : StackM unit :=
  old ← gets (fun s => sp s.1);
  new ← lift (align_down old align);
  set_sp new.

(** [for value in l { ptrs.push(self.push_c_string(memory, value)?) }]. *)
Fixpoint push_c_strings (l : list (list Z)) : StackM (list Z) :=
  match l with
  | [] => mret []
  | s :: l => p ← push_c_string s; ps ← push_c_strings l; mret (p :: ps)
  end.

Definition push_aux (e : AuxEntry) : StackM unit :=
  push_u64 (aux_value e) ;; push_u64 (aux_code (aux_kind e)).

Definition build (argv envp : list (list Z)) (input : StackAuxInput) : StackM StackBuildResult :=
  let execfn := match argv with [] => [] | s :: _ => s end in
  execfn_ptr ← push_c_string execfn;
  random_ptr ← push_bytes (replicate 16 0x52);
  env_ptrs ← push_c_strings (reverse envp);
  let env_ptrs := reverse env_ptrs in
  argv_ptrs ← push_c_strings (reverse argv);
  let argv_ptrs := reverse argv_ptrs in
  stack_align_down 16 ;;
  let aux := auxv_of input random_ptr execfn_ptr in
  for_each (reverse aux) push_aux ;;
  push_u64 0 ;;
  for_each (reverse env_ptrs) push_u64 ;;
  push_u64 0 ;;
  for_each (reverse argv_ptrs) push_u64 ;;
  push_u64 (len argv) ;;
  final ← gets (fun s => sp s.1);
  mret (mkBuildResult final aux).
End Stack.

(** ** Programs *)

(** Map and enter the interpreter, if the program names one and its bytes are
    given. *)
Definition load_interpreter (path : option (list Z)) (interpreter_bytes : option (list Z))
    (config : LoaderConfig) : ST GuestMemory LoaderError (option LoadedInterpreter) :=
  match path, interpreter_bytes with
  | Some path, Some bs =>
      image ← lift (map_err LElf (parse bs));
      load_segments image (interpreter_base config) (page_size config) ;;
      e ← lift (add64 (image_entry image) (interpreter_base config));
      dyn ← lift (map_err LElf (dynamic_entries image));
      mret (Some (mkLoadedInterpreter image path (interpreter_base config) e dyn))
  | _, _ => mret None
  end.

(** The stack region and its contents, in one memory. *)
Definition map_stack (config : LoaderConfig) : ST GuestMemory LoaderError Z :=
  stack_base ← lift (ok_or (checked_sub (stack_top config) (stack_size config)) StackOverflow);
  zoom (fun m => m) (fun m _ => m) LMemory
    (map_region stack_base (stack_size config) (Z.lor READ WRITE)
       (Some [91; 115; 116; 97; 99; 107; 93])) ;;
  mret stack_base.

Definition build_stack (top base : Z) (argv envp : list (list Z)) (input : StackAuxInput)
    : ST GuestMemory LoaderError StackBuildResult := fun m =>
  let '(r, s) := build argv envp input (mkStack top base, m) in (r, s.2).

(** Everything after the image is parsed, on the memory being built. *)
Definition load_image (image : ElfImage) (path : option (list Z)) (dyn : list DynamicEntry)
    (interpreter_bytes : option (list Z)) (argv envp : list (list Z)) (config : LoaderConfig)
    : ST GuestMemory LoaderError LoadedProgram :=
  let bias := if is_position_independent image then position_independent_base config else 0 in
  load_segments image bias (page_size config) ;;
  (if bool_decide (load_headers image = []) then raise NoLoadSegments else mret tt) ;;
  phdr ← lift (program_header_guest_address image bias);
  phdr ← lift (ok_or phdr MissingProgramHeaderAddress);
  executable_entry ← lift (add64 (image_entry image) bias);
  interpreter ← load_interpreter path interpreter_bytes config;
  let e := match interpreter with Some i => li_entry i | None => executable_entry end in
  stack_base ← map_stack config;
  result ← build_stack (stack_top config) stack_base argv envp
    (mkAuxInput phdr (program_header_entry_size (header image))
       (program_header_count (header image)) executable_entry
       (match interpreter with Some i => li_base i | None => 0 end) (page_size config));
  m ← gets (fun m => m);
  mret (mkLoadedProgram image m e executable_entry (stack_pointer result) (auxv result)
          argv envp path interpreter dyn).

Definition load_dynamic_with_config (bs : list Z) (interpreter_bytes : option (list Z))
    (argv envp : list (list Z)) (config : LoaderConfig) : res LoaderError LoadedProgram :=
  image ← map_err LElf (parse bs);
  path ← map_err LElf (interpreter_path image);
  dyn ← map_err LElf (dynamic_entries image);
  (load_image image path dyn interpreter_bytes argv envp config Memory.new).1.

Definition load_with_config (bs : list Z) (argv envp : list (list Z)) (config : LoaderConfig)
    : res LoaderError LoadedProgram :=
  load_dynamic_with_config bs None argv envp config.

Definition load_dynamic (bs : list Z) (interpreter_bytes : option (list Z))
    (argv envp : list (list Z)) : res LoaderError LoadedProgram :=
  load_dynamic_with_config bs interpreter_bytes argv envp default_config.

Definition load (bs : list Z) (argv envp : list (list Z)) : res LoaderError LoadedProgram :=
  load_with_config bs argv envp default_config.
