(* ===== verification/LoaderStack.v ===== *)
(** * The initial stack of a process

    What [InitialStack::build] leaves in memory, byte for byte, proved against
    the [ByteStore] interface. *)

From S2P Require Import Prelude Memory MemorySpec Elf Loader.

Open Scope Z_scope.

(** ** Rounding to a power of two *)

Lemma land_high_mask v k : u64 v -> 0 <= k <= 64 ->
  Z.land v (lnotw 64 (2 ^ k - 1)) = v - v mod 2 ^ k.
Proof.
  intros Hv Hk. assert (0 < 2 ^ k) by (apply Z.pow_pos_nonneg; lia).
  replace (v - v mod 2 ^ k) with (v / 2 ^ k * 2 ^ k) by (pose proof (Z.div_mod v (2 ^ k)); lia).
  apply Z.bits_inj'. intros i Hi. rewrite Z.land_spec, lnotw_spec by lia.
  rewrite Z.sub_1_r, <- Z.ones_equiv.
  rewrite Z.testbit_ones_nonneg, <- Z.shiftl_mul_pow2, <- Z.shiftr_div_pow2 by lia.
  rewrite Z.shiftl_spec by done. destruct (Z.ltb_spec i k).
  - rewrite andb_false_r, andb_false_r. symmetry. apply Z.testbit_neg_r. lia.
  - rewrite Z.shiftr_spec by lia. replace (i - k + k) with i by lia.
    destruct (Z.ltb_spec i 64); simpl; [by rewrite andb_true_r|].
    by rewrite (testbit_fits 64 v).
Qed.

Lemma align_down_ok {E} v k : u64 v -> 0 <= k < 64 ->
  align_down (E:=E) v (2 ^ k) = Ok (v - v mod 2 ^ k).
Proof.
  intros Hv Hk. unfold align_down. assert (0 < 2 ^ k) by (apply Z.pow_pos_nonneg; lia).
  rewrite (proj2 (sub64_Ok (2 ^ k) 1 (2 ^ k - 1))) by lia. simpl.
  rewrite land_high_mask by (done || lia). done.
Qed.

(** The least multiple of [p] that is not below [v]. *)
Definition round_up (v p : Z) : Z := (v + p - 1) - (v + p - 1) mod p.

Lemma round_up_bounds v p : 0 < p -> v <= round_up v p < v + p.
Proof. intros. unfold round_up. pose proof (Z.mod_pos_bound (v + p - 1) p). lia. Qed.

Lemma align_up_ok {E} v k : 0 <= v -> 0 <= k < 64 -> v + 2 ^ k < 2 ^ 64 ->
  align_up (E:=E) v (2 ^ k) = Ok (round_up v (2 ^ k)).
Proof.
  intros Hv Hk Hs. unfold align_up. assert (0 < 2 ^ k) by (apply Z.pow_pos_nonneg; lia).
  rewrite (proj2 (add64_Ok v (2 ^ k) (v + 2 ^ k))) by lia. simpl.
  rewrite (proj2 (sub64_Ok (v + 2 ^ k) 1 (v + 2 ^ k - 1))) by lia. simpl.
  apply align_down_ok; [unfold fits; lia|done].
Qed.

(** ** Pushing *)

Section Stack.
Context {M : Type} `{STORE : ByteStore M GuestMemoryError}.
Context (low top : Z).
Abbreviation StackM A := (ST (InitialStack * M) LoaderError A).
Implicit Types m : M.
Hypothesis Hlow : 0 <= low.

(** The range the stack may use is there, and what it holds. *)
Definition stack_ok m : Prop := bs_ok m /\ (low < top -> bs_rw m low (top - low)).

Definition holds m (seg : Z * list Z) : Prop :=
  seg.2 = [] \/ bs_read m seg.1 (len seg.2) = Ok seg.2.

(** [runs x p y a segs]: from the stack pointer [x], [p] returns [a] and leaves
    the pointer at [y] with [segs] stored between [y] and [x] and nothing outside
    touched, if [y] is not below the floor; otherwise it reports
    [StackOverflow]. *)
Definition runs {A} (x : Z) (p : StackM A) (y : Z) (a : A) (segs : list (Z * list Z)) : Prop :=
  y <= x /\ Forall (fun seg => y <= seg.1 /\ seg.1 + len seg.2 <= x) segs /\
  forall m, stack_ok m -> 0 <= x <= top ->
    (low <= y \/ y = x -> exists m', p (mkStack x low, m) = (Ok a, (mkStack y low, m')) /\
       stack_ok m' /\ Forall (holds m') segs /\
       forall b n, 0 <= n -> x <= b \/ b + n <= y -> bs_read m' b n = bs_read m b n) /\
    (y < low -> y < x -> exists s', p (mkStack x low, m) = (Err StackOverflow, s')).

Lemma holds_frame m m' x y seg :
  (forall b n, 0 <= n -> x <= b \/ b + n <= y -> bs_read m' b n = bs_read m b n) -> x <= seg.1 ->
  holds m seg -> holds m' seg.
Proof. intros Hf Hx [He|He]; [by left|right]. rewrite Hf; [done|apply len_nonneg|by left]. Qed.

Lemma runs_ret {A} x (a : A) : runs x (mret a) x a [].
Proof.
  split; [lia|]. split; [done|]. intros m Hm _. split; [|lia].
  intros _. by exists m.
Qed.

Lemma runs_bind {A B} x y z (p : StackM A) (f : A -> StackM B) a b s1 s2 :
  runs x p y a s1 -> runs y (f a) z b s2 -> runs x (p ≫= f) z b (s2 ++ s1).
Proof.
  intros (Hxy&Hs1&Hp) (Hyz&Hs2&Hf). split; [lia|]. split.
  { apply Forall_app. split; (eapply Forall_impl; [eassumption|]); simpl; intros; lia. }
  intros m Hm Htop. destruct (Hp m Hm Htop) as [Hok Herr]. unfold mbind, st_bind. split.
  - intros Hz. destruct Hok as (m1&->&Hm1&Hh1&Hfr1); [lia|].
    destruct (Hf m1 Hm1 ltac:(lia)) as [Hok2 _]. destruct Hok2 as (m2&->&Hm2&Hh2&Hfr2); [lia|].
    exists m2. split; [done|]. split; [done|]. split.
    + apply Forall_app. split; [done|]. rewrite Forall_forall in Hh1, Hs1 |- *.
      intros seg Hseg. apply (holds_frame m1 m2 y z); [done|by apply Hs1|by apply Hh1].
    + intros c n Hn Hc. rewrite Hfr2, Hfr1 by (done || lia). done.
  - intros Hz Hzx. destruct (decide (y < low /\ y < x)) as [[]|Hy].
    + destruct Herr as [s' ->]; [done..|]. eauto.
    + destruct Hok as (m1&->&Hm1&_); [lia|]. apply (Hf m1 Hm1); lia.
Qed.

(** Two adjacent segments are one. *)
Lemma holds_app m q q1 c2 c1 : stack_ok m -> low <= q -> q + len c2 = q1 -> q1 + len c1 <= top ->
  holds m (q, c2) -> holds m (q1, c1) -> holds m (q, c2 ++ c1).
Proof.
  intros [Hok Hrw] Hq Hq1 Ht Hh2 Hh1. unfold holds in *. simpl in *.
  destruct c2 as [|v2 c2]; [simpl; by rewrite <- Hq1, Z.add_0_r in Hh1|].
  destruct c1 as [|v1 c1]; [by rewrite app_nil_r|].
  destruct Hh1 as [|Hh1]; [done|]. destruct Hh2 as [|Hh2]; [done|]. right. rewrite len_app.
  subst q1. unfold len in *. simpl length in *. apply bs_read_app; [done| |lia|lia|done|done].
  eapply bs_rw_sub; [done|apply Hrw; lia|lia|lia|lia].
Qed.

Lemma runs_merge {A} x p y (a : A) pre q c2 q1 c1 post : q + len c2 = q1 ->
  runs x p y a (pre ++ (q, c2) :: (q1, c1) :: post) ->
  runs x p y a (pre ++ (q, c2 ++ c1) :: post).
Proof.
  intros Hq (Hxy&Hs&Hp). split; [done|]. rewrite Forall_app, !Forall_cons in Hs.
  destruct Hs as (Hs0&Hs2&Hs1&Hs). simpl in Hs1, Hs2.
  split; [rewrite Forall_app, Forall_cons; simpl; rewrite len_app; repeat split; done || lia|].
  intros m Hm Htop. destruct (Hp m Hm Htop) as [Hok Herr]. split; [|done].
  intros Hy. destruct (Hok Hy) as (m'&->&Hm'&Hh&Hfr). exists m'. split; [done|]. split; [done|].
  split; [|done]. rewrite Forall_app, !Forall_cons in Hh. destruct Hh as (Hh0&Hh2&Hh1&Hh).
  rewrite Forall_app, Forall_cons. split; [done|]. split; [|done].
  destruct Hy as [Hy|Hy]; [apply (holds_app m' q q1); done || lia|].
  left. simpl. pose proof (len_nonneg c1). pose proof (len_nonneg c2).
  destruct c1, c2; unfold len in *; simpl in *; done || lia.
Qed.

Lemma runs_push_bytes x bs : Forall (fits 8) bs -> 0 < len bs ->
  runs x (push_bytes bs) (x - len bs) (x - len bs) [(x - len bs, bs)].
Proof.
  intros Hb Hl. split; [lia|]. split; [apply Forall_singleton; simpl; lia|].
  intros m [Hm Hrw] Htop. unfold push_bytes, mbind, st_bind, gets, lift, checked_sub, set_sp, modify.
  simpl. destruct (Z.leb_spec (len bs) x); simpl; [|split; [lia|eauto]].
  destruct (Z.ltb_spec (x - len bs) low); simpl; [split; [lia|eauto]|]. split; [|lia]. intros _.
  unfold zoom. simpl. destruct (bs_write_ok m (x - len bs) bs) as (m'&->&Hm'&Hrw'&Hr&Hfr); [done..| |].
  { eapply bs_rw_sub; [done|apply Hrw; lia|lia..]. }
  exists m'. split; [done|]. split; [split; [done|intros; apply Hrw', Hrw; lia]|].
  split; [apply Forall_singleton; by right|]. intros b n Hn Hb'. apply Hfr; lia.
Qed.

(** ** Strings and words *)

Definition c_string (s : list Z) : list Z := s ++ [0].
Definition strings (l : list (list Z)) : list Z := concat (c_string <$> l).
Definition words (l : list Z) : list Z := concat (to_le 8 <$> l).

(** The pointers that [push_c_strings] returns, from the stack pointer [x]. *)
Fixpoint pushed_at (x : Z) (l : list (list Z)) : list Z :=
  match l with
  | [] => []
  | s :: l => (x - len (c_string s)) :: pushed_at (x - len (c_string s)) l
  end.

(** The addresses of consecutive strings that start at [base]. *)
Fixpoint string_addresses (base : Z) (l : list (list Z)) : list Z :=
  match l with
  | [] => []
  | s :: l => base :: string_addresses (base + len (c_string s)) l
  end.

Lemma c_string_len s : 0 < len (c_string s).
Proof. unfold c_string. rewrite len_app. pose proof (len_nonneg s). unfold len at 2. simpl. lia. Qed.

(** A push at the front of one segment extends it. *)
Lemma runs_extend {A B} x y z (p : StackM A) (f : A -> StackM B) a b c1 c2 segs :
  runs x p y a ((y, c1) :: segs) -> z + len c2 = y -> runs y (f a) z b [(z, c2)] ->
  runs x (p ≫= f) z b ((z, c2 ++ c1) :: segs).
Proof.
  intros Hp Hz Hf. apply (runs_merge x _ z b [] z c2 y c1 segs Hz).
  exact (runs_bind x y z p f a b ((y, c1) :: segs) [(z, c2)] Hp Hf).
Qed.

Lemma runs_nil {A} x (p : StackM A) y a segs :
  runs x p y a segs -> runs x p y a ((y, []) :: segs).
Proof.
  intros (Hxy&Hs&Hp). split; [done|]. split; [apply Forall_cons; unfold len; simpl; split; [lia|done]|].
  intros m Hm Ht. destruct (Hp m Hm Ht) as [Hok Herr]. split; [|done].
  intros Hy. destruct (Hok Hy) as (m'&?&?&?&?). exists m'. split; [done|]. split; [done|].
  split; [|done]. apply Forall_cons. split; [by left|done].
Qed.

Lemma runs_push_u64 x w : runs x (push_u64 w) (x - 8) tt [(x - 8, to_le 8 w)].
Proof.
  unfold push_u64. pose proof (runs_push_bytes x (to_le 8 w) (to_le_u8 8 w)) as Hp.
  assert (len (to_le 8 w) = 8) as Hl by done. rewrite Hl in Hp.
  apply (runs_bind x (x - 8) (x - 8) _ _ (x - 8) tt [(x - 8, to_le 8 w)] []); [by apply Hp|apply runs_ret].
Qed.

Lemma runs_push_c_strings l x : Forall (Forall (fits 8)) l ->
  let y := x - len (strings (reverse l)) in
  runs x (push_c_strings l) y (pushed_at x l) [(y, strings (reverse l))].
Proof.
  intros Hl. revert x. induction Hl as [|s l Hs Hl IH]; intros x y; unfold y; cbn [push_c_strings].
  { change (strings (reverse [])) with ([] : list Z). rewrite Z.sub_0_r.
    apply runs_nil, runs_ret. }
  assert (strings (reverse (s :: l)) = strings (reverse l) ++ c_string s) as ->.
  { unfold strings. rewrite reverse_cons, fmap_app, concat_app. simpl. by rewrite app_nil_r. }
  rewrite len_app. set (x1 := x - len (c_string s)).
  replace (x - (len (strings (reverse l)) + len (c_string s)))
    with (x1 - len (strings (reverse l))) by (unfold x1; lia).
  apply (runs_extend x x1 _ (push_c_string s) _ x1).
  - apply runs_push_bytes; [|apply c_string_len]. apply Forall_app. by repeat constructor.
  - lia.
  - eapply (runs_bind _ _ _ _ _ _ _ _ []); [apply IH|apply runs_ret].
Qed.

(** Pointers pushed from the last string to the first, reversed, are the
    addresses of the strings as they lie in memory. *)
Lemma reverse_pushed_at x l :
  reverse (pushed_at x (reverse l)) = string_addresses (x - len (strings l)) l.
Proof.
  assert (forall l1 s, pushed_at x (l1 ++ [s]) =
    pushed_at x l1 ++ [x - len (strings (reverse l1)) - len (c_string s)]) as Happ.
  { intros l1 s. revert x. induction l1 as [|t l1 IH]; intros x; cbn [pushed_at app].
    - change (strings (reverse [])) with ([] : list Z). rewrite Z.sub_0_r. done.
    - rewrite IH. do 3 f_equal. unfold strings.
      rewrite reverse_cons, fmap_app, concat_app, len_app. simpl. rewrite app_nil_r. lia. }
  induction l as [|s l IH]; [done|]. rewrite reverse_cons, Happ, reverse_app, reverse_involutive, IH.
  assert (len (strings (s :: l)) = len (c_string s) + len (strings l)) as Hlen
    by (unfold strings; simpl; by rewrite len_app). rewrite Hlen. cbn [string_addresses].
  simpl. f_equal; [lia|]. f_equal. lia.
Qed.

(** A loop whose body pushes [g i] for each element [i]. *)
Lemma runs_for_each {A} (body : A -> StackM unit) (g : A -> list Z) l x :
  (forall i x, runs x (body i) (x - len (g i)) tt [(x - len (g i), g i)]) ->
  let y := x - len (concat (g <$> reverse l)) in
  runs x (for_each l body) y tt [(y, concat (g <$> reverse l))].
Proof.
  intros Hbody. revert x. induction l as [|i l IH]; intros x y; unfold y; cbn [for_each].
  { change (concat (g <$> reverse [])) with ([] : list Z). rewrite Z.sub_0_r.
    apply runs_nil, runs_ret. }
  assert (concat (g <$> reverse (i :: l)) = concat (g <$> reverse l) ++ g i) as ->.
  { rewrite reverse_cons, fmap_app, concat_app. simpl. by rewrite app_nil_r. }
  rewrite len_app, Z.add_comm, Z.sub_add_distr.
  apply (runs_extend x (x - len (g i)) _ (body i) _ tt); [apply Hbody|lia|apply IH].
Qed.

(** The two words of an entry of the auxiliary vector. *)
Definition aux_words (e : AuxEntry) : list Z := [aux_code (aux_kind e); aux_value e].

Lemma words_cons w l : words (w :: l) = to_le 8 w ++ words l.
Proof. done. Qed.

Lemma words_app l1 l2 : words (l1 ++ l2) = words l1 ++ words l2.
Proof. unfold words. by rewrite fmap_app, concat_app. Qed.

Lemma len_words l : len (words l) = 8 * len l.
Proof.
  induction l as [|w l IH]; [done|]. rewrite words_cons, len_app, IH. unfold len.
  rewrite length_to_le, length_cons. lia.
Qed.

Lemma runs_push_aux e x :
  runs x (push_aux e) (x - 16) tt [(x - 16, words (aux_words e))].
Proof.
  unfold push_aux. change (words (aux_words e)) with
    (to_le 8 (aux_code (aux_kind e)) ++ to_le 8 (aux_value e) ++ []). rewrite app_nil_r.
  apply (runs_extend x (x - 8) _ _ _ tt); [apply runs_push_u64|done || (unfold len; rewrite length_to_le; lia)|].
  replace (x - 16) with (x - 8 - 8) by lia. apply runs_push_u64.
Qed.

(** Rounding the stack pointer down before something is pushed. *)
Lemma runs_align {A} x k (p : StackM A) y a segs : top < 2 ^ 64 -> 0 <= k < 64 ->
  y < x - x mod 2 ^ k -> runs (x - x mod 2 ^ k) p y a segs ->
  runs x (stack_align_down (2 ^ k) ;; p) y a segs.
Proof.
  intros Hx Hk Hy (_&Hs&Hp). pose proof (Z.mod_pos_bound x (2 ^ k) ltac:(apply Z.pow_pos_nonneg; lia)).
  split; [lia|]. split; [eapply Forall_impl; [exact Hs|]; simpl; intros; lia|].
  intros m Hm Ht. unfold stack_align_down, mbind, st_bind, gets, lift, set_sp, modify. simpl.
  rewrite align_down_ok by (done || (unfold fits; lia)). simpl. pose proof (Z.mod_le x (2 ^ k) ltac:(lia) ltac:(lia)).
  destruct (Hp m Hm ltac:(lia)) as [Hok Herr]. split.
  - intros Hor. destruct Hok as (m'&?&?&?&Hfr); [lia|]. exists m'. split; [done|]. split; [done|].
    split; [done|]. intros. apply Hfr; lia.
  - intros. apply Herr; lia.
Qed.

Lemma runs_gets x : runs x (gets (fun s => sp s.1)) x x [].
Proof. split; [lia|]. split; [done|]. intros m Hm _. split; [|lia]. intros _. by exists m. Qed.

(** ** The layout *)

(** From the lowest address: the argument strings, the environment strings, 16
    random bytes and the name of the executable. *)
Definition execfn (argv : list (list Z)) : list Z :=
  match argv with [] => [] | s :: _ => s end.

Definition strings_image (argv envp : list (list Z)) : list Z :=
  strings argv ++ strings envp ++ replicate 16 0x52 ++ c_string (execfn argv).

Definition strings_base (argv envp : list (list Z)) : Z := top - len (strings_image argv envp).

Definition argv_pointers (argv envp : list (list Z)) : list Z :=
  string_addresses (strings_base argv envp) argv.

Definition envp_base (argv envp : list (list Z)) : Z :=
  strings_base argv envp + len (strings argv).

Definition envp_pointers (argv envp : list (list Z)) : list Z :=
  string_addresses (envp_base argv envp) envp.

Definition auxv_at (argv envp : list (list Z)) (input : StackAuxInput) : list AuxEntry :=
  let random := envp_base argv envp + len (strings envp) in
  auxv_of input random (random + 16).

(** From the stack pointer up: the count, the argument pointers, the
    environment pointers, and the auxiliary vector. *)
Definition table_image (argv envp : list (list Z)) (input : StackAuxInput) : list Z :=
  [len argv] ++ argv_pointers argv envp ++ [0] ++ envp_pointers argv envp ++ [0] ++
  concat (aux_words <$> auxv_at argv envp input).

Definition final_sp (argv envp : list (list Z)) : Z :=
  let base := strings_base argv envp in
  base - base mod 16 - 8 * (31 + len argv + len envp).

Lemma len_string_addresses base l : len (string_addresses base l) = len l.
Proof.
  revert base. induction l as [|s l IH]; intros base; [done|]. unfold len in *. simpl.
  specialize (IH (base + len (c_string s))). lia.
Qed.

Lemma len_table argv envp input : len (table_image argv envp input) = 31 + len argv + len envp.
Proof.
  unfold table_image, argv_pointers, envp_pointers. rewrite !len_app, !len_string_addresses.
  change (len (concat (aux_words <$> auxv_at argv envp input))) with 28.
  change (len [len argv]) with 1. change (len [0]) with 1. lia.
Qed.

(** ** What [build] does *)

(** One contiguous push of [c]. *)
Definition pushes {A} (x : Z) (p : StackM A) (c : list Z) (a : A) : Prop :=
  runs x p (x - len c) a [(x - len c, c)].

Lemma pushes_bind {A B} x (p : StackM A) (f : A -> StackM B) c1 a c2 b :
  pushes x p c1 a -> pushes (x - len c1) (f a) c2 b -> pushes x (p ≫= f) (c2 ++ c1) b.
Proof.
  intros Hp Hf. unfold pushes. rewrite len_app.
  replace (x - (len c2 + len c1)) with (x - len c1 - len c2) by lia.
  apply (runs_extend x (x - len c1) _ p f a b c1 c2 []); [done|lia|done].
Qed.

Lemma pushes_u64 x w : pushes x (push_u64 w) (words [w]) tt.
Proof.
  unfold pushes. change (words [w]) with (to_le 8 w ++ []). rewrite app_nil_r. apply runs_push_u64.
Qed.

Lemma pushes_words x l : pushes x (for_each (reverse l) push_u64) (words l) tt.
Proof.
  unfold pushes, words. pose proof (runs_for_each push_u64 (to_le 8) (reverse l) x) as H.
  rewrite reverse_involutive in H. apply H. intros w y. apply runs_push_u64.
Qed.

Lemma pushes_auxv x l :
  pushes x (for_each (reverse l) push_aux) (words (concat (aux_words <$> l))) tt.
Proof.
  assert (words (concat (aux_words <$> l)) = concat ((fun e => words (aux_words e)) <$> l)) as ->.
  { induction l as [|e l IH]; [done|]. cbn [fmap list_fmap concat]. by rewrite words_app, IH. }
  unfold pushes. pose proof (runs_for_each push_aux (fun e => words (aux_words e)) (reverse l) x) as H.
  rewrite reverse_involutive in H. apply H. intros e y. apply runs_push_aux.
Qed.

Lemma pushes_strings x l : Forall (Forall (fits 8)) l ->
  pushes x (push_c_strings (reverse l)) (strings l) (pushed_at x (reverse l)).
Proof.
  intros Hl. unfold pushes. pose proof (runs_push_c_strings (reverse l) x) as H.
  rewrite reverse_involutive in H. apply H. by apply Forall_reverse.
Qed.

(** The tables, pushed from the end of the auxiliary vector to the count. *)
Lemma pushes_table x aux envs args n :
  let T := [n] ++ args ++ [0] ++ envs ++ [0] ++ concat (aux_words <$> aux) in
  pushes x
    (for_each (reverse aux) push_aux ;;
     push_u64 0 ;;
     for_each (reverse envs) push_u64 ;;
     push_u64 0 ;;
     for_each (reverse args) push_u64 ;;
     push_u64 n ;;
     final ← gets (fun s => sp s.1);
     mret (mkBuildResult final aux)) (words T) (mkBuildResult (x - 8 * len T) aux).
Proof.
  intros T. set (A := concat (aux_words <$> aux)).
  assert (words T = ((((([] ++ words [n]) ++ words args) ++ words [0]) ++ words envs) ++ words [0])
    ++ words A) as ->.
  { unfold T. rewrite !words_app, !app_assoc. done. }
  apply (pushes_bind _ _ _ _ tt); [apply pushes_auxv|].
  apply (pushes_bind _ _ _ _ tt); [apply pushes_u64|].
  apply (pushes_bind _ _ _ _ tt); [apply pushes_words|].
  apply (pushes_bind _ _ _ _ tt); [apply pushes_u64|].
  apply (pushes_bind _ _ _ _ tt); [apply pushes_words|].
  apply (pushes_bind _ _ _ _ tt); [apply pushes_u64|].
  rewrite !len_words. unfold T. rewrite !len_app. fold A.
  change (len [n]) with 1. change (len [0]) with 1.
  match goal with |- pushes ?y _ _ (mkBuildResult ?z _) => replace z with y by lia end.
  unfold pushes. rewrite Z.sub_0_r. apply runs_nil.
  eapply (runs_bind _ _ _ _ _ _ _ [] []); [apply runs_gets|apply runs_ret].
Qed.

Lemma build_runs argv envp input : top < 2 ^ 64 ->
  Forall (Forall (fits 8)) argv -> Forall (Forall (fits 8)) envp ->
  runs top (build argv envp input) (final_sp argv envp)
    (mkBuildResult (final_sp argv envp) (auxv_at argv envp input))
    [(final_sp argv envp, words (table_image argv envp input));
     (strings_base argv envp, strings_image argv envp)].
Proof.
  intros Htop Ha He. unfold build.
  set (e := c_string (execfn argv)). set (x1 := top - len e). set (x2 := x1 - 16).
  set (x3 := x2 - len (strings envp)). set (x4 := x3 - len (strings argv)).
  assert (strings_base argv envp = x4) as Hbase.
  { unfold strings_base, strings_image. rewrite !len_app. fold e.
    change (len (replicate 16 82)) with 16. lia. }
  assert (envp_base argv envp = x3) as Henv by (unfold envp_base; lia).
  assert (Forall (fits 8) e) as He8.
  { apply Forall_app. split; [|by repeat constructor]. destruct argv; [done|]. by apply Forall_cons in Ha as [? _]. }
  unfold strings_image. fold e. rewrite Hbase.
  apply (runs_merge _ _ _ _ [_] x4 _ x3); [lia|].
  apply (runs_merge _ _ _ _ [_; _] x3 _ x2); [lia|].
  apply (runs_merge _ _ _ _ [_; _; _] x2 _ x1); [unfold x2; change (len (replicate 16 82)) with 16; lia|].
  apply (runs_bind top x1 _ _ _ x1 _ [(x1, e)] [_; _; _; _]);
    [apply runs_push_bytes; [done|apply c_string_len]|].
  eapply (runs_bind x1 x2 _ _ _ x2 _ [(x2, _)] [_; _; _]);
    [apply (runs_push_bytes x1 (replicate 16 82)); [by repeat constructor|done]|].
  eapply (runs_bind x2 x3 _ _ _ _ _ [(x3, _)] [_; _]); [by apply pushes_strings|].
  eapply (runs_bind x3 x4 _ _ _ _ _ [(x4, _)] [_]); [by apply pushes_strings|].
  rewrite !reverse_pushed_at. fold x3 x4.
  pose proof (len_table argv envp input) as HT. pose proof (len_nonneg argv). pose proof (len_nonneg envp).
  assert (final_sp argv envp = x4 - x4 mod 16 - len (words (table_image argv envp input))) as Hfin
    by (unfold final_sp; rewrite len_words, HT, Hbase; lia).
  change 16 with (2 ^ 4). apply runs_align; [done|lia|change (2 ^ 4) with 16; rewrite Hfin, len_words; lia|].
  change (2 ^ 4) with 16. rewrite Hfin.
  assert (auxv_of input x2 x1 = auxv_at argv envp input) as ->
    by (unfold auxv_at; do 2 f_equal; lia).
  unfold table_image, argv_pointers, envp_pointers. rewrite Hbase, Henv, len_words.
  pose proof (pushes_table (x4 - x4 mod 16) (auxv_at argv envp input) (string_addresses x3 envp)
    (string_addresses x4 argv) (len argv)) as Hp. cbv zeta in Hp. unfold pushes in Hp.
  rewrite len_words in Hp.
  exact Hp.
Qed.

(** ** Reading the layout back *)

Lemma words_lookup l i w : l !! i = Some w ->
  take 8 (drop (8 * i) (words l)) = to_le 8 w.
Proof.
  revert i. induction l as [|v l IH]; intros [|i]; try done.
  - intros [= ->]. rewrite words_cons. change (8 * 0)%nat with 0%nat. rewrite drop_0. apply take_app_length'. by rewrite length_to_le.
  - intros Hi. rewrite words_cons. replace (8 * S i)%nat with (8 + 8 * i)%nat by lia.
    rewrite <- drop_drop, drop_app_length' by done. by apply IH.
Qed.

Lemma read_word m a l i w : bs_ok m -> bs_rw m a (len (words l)) -> holds m (a, words l) ->
  l !! i = Some w -> bs_read m (a + 8 * Z.of_nat i) 8 = Ok (to_le 8 w).
Proof.
  intros Hm Hrw Hh Hi. pose proof (lookup_lt_Some _ _ _ Hi) as Hlt.
  assert (len (words l) = 8 * Z.of_nat (length l)) as Hl by apply len_words.
  destruct Hh as [Hh|Hh]; simpl in Hh; [rewrite Hh in Hl; unfold len in Hl; simpl in Hl; lia|].
  rewrite (bs_read_sub m a (len (words l)) (8 * Z.of_nat i) 8 (words l)) by (done || lia).
  rewrite <- (words_lookup l i w Hi). do 2 f_equal. f_equal. lia.
Qed.

Lemma string_addresses_lookup base l i s : l !! i = Some s ->
  exists pre post, strings l = pre ++ c_string s ++ post /\
    string_addresses base l !! i = Some (base + len pre).
Proof.
  revert base i. induction l as [|t l IH]; intros base [|i]; try done.
  - intros [= ->]. exists [], (strings l). split; [done|]. simpl. f_equal. unfold len. simpl. lia.
  - intros Hi. destruct (IH (base + len (c_string t)) i Hi) as (pre&post&Hs&Ha).
    exists (c_string t ++ pre), post. split.
    + rewrite <- app_assoc, <- Hs. done.
    + cbn [string_addresses lookup list_lookup]. rewrite len_app.
      etrans; [exact Ha|]. f_equal. lia.
Qed.

(** A string that lies inside a segment that is stored. *)
Lemma read_string m a pre s post : bs_ok m -> bs_rw m a (len (pre ++ c_string s ++ post)) ->
  holds m (a, pre ++ c_string s ++ post) ->
  bs_read m (a + len pre) (len (c_string s)) = Ok (c_string s).
Proof.
  intros Hm Hrw Hh. pose proof (c_string_len s). pose proof (len_nonneg pre). pose proof (len_nonneg post).
  destruct Hh as [Hh|Hh]; simpl in Hh.
  { destruct pre; [|done]. destruct s; done. }
  etrans; [eapply (bs_read_sub m a _ (len pre) (len (c_string s)) _ Hm Hrw);
    [done|done|rewrite !len_app; lia|exact Hh]|].
  f_equal. unfold len. rewrite !Nat2Z.id, drop_app_length. by rewrite take_app_length.
Qed.
End Stack.

(** ** Properties *)

Section GuestStack.
Context (m : GuestMemory) (low top : Z) (argv envp : list (list Z)) (input : StackAuxInput).
Hypothesis Hm : wf m.
Hypothesis Hrw : rw_range m low (top - low).
Hypothesis Hlow : 0 <= low < top.
Hypothesis Htop : top < 2 ^ 64.
Hypothesis Ha : Forall (Forall (fits 8)) argv.
Hypothesis He : Forall (Forall (fits 8)) envp.

Lemma guest_stack_ok : stack_ok (M:=GuestMemory) low top m.
Proof. by split. Qed.

(** [build] on a guest memory. *)
Lemma build_guest : let sp := final_sp top argv envp in
  (low <= sp -> exists m', build argv envp input (mkStack top low, m) =
      (Ok (mkBuildResult sp (auxv_at top argv envp input)), (mkStack sp low, m')) /\
     wf m' /\ rw_range m' low (top - low) /\
     holds (M:=GuestMemory) m' (sp, words (table_image top argv envp input)) /\
     holds (M:=GuestMemory) m' (strings_base top argv envp, strings_image argv envp) /\
     forall b n, 0 <= n -> top <= b \/ b + n <= sp -> read_bytes m' b n = read_bytes m b n) /\
  (sp < low -> exists s', build argv envp input (mkStack top low, m) = (Err StackOverflow, s')).
Proof.
  intros sp. destruct (build_runs (M:=GuestMemory) low top ltac:(lia) argv envp input Htop Ha He)
    as (Hle&_&Hb). fold sp in Hle, Hb.
  destruct (Hb m guest_stack_ok ltac:(lia)) as [Hok Herr]. split; [|intros; apply Herr; lia].
  intros Hsp. destruct (Hok (or_introl Hsp)) as (m'&?&[Hm' Hrw']&Hh&Hfr).
  rewrite !Forall_cons in Hh. destruct Hh as (?&?&_).
  exists m'. split; [done|]. split; [exact Hm'|]. split; [apply Hrw'; lia|]. done.
Qed.

(** The stack as the process sees it. *)
Section Layout.
Context (m' : GuestMemory).
Hypothesis Hm' : wf m'.
Hypothesis Hrw' : rw_range m' low (top - low).
Hypothesis Hsp : low <= final_sp top argv envp.
Hypothesis Htab :
  holds (M:=GuestMemory) m' (final_sp top argv envp, words (table_image top argv envp input)).
Hypothesis Hstr :
  holds (M:=GuestMemory) m' (strings_base top argv envp, strings_image argv envp).

Lemma layout_bounds :
  final_sp top argv envp + len (words (table_image top argv envp input))
    <= strings_base top argv envp /\
  final_sp top argv envp < strings_base top argv envp /\
  strings_base top argv envp + len (strings_image argv envp) = top.
Proof.
  rewrite len_words, len_table. unfold final_sp.
  pose proof (Z.mod_pos_bound (strings_base top argv envp) 16 ltac:(lia)).
  pose proof (len_nonneg argv). pose proof (len_nonneg envp). unfold strings_base in *. lia.
Qed.

Lemma guest_word i w : 0 <= i -> table_image top argv envp input !! Z.to_nat i = Some w -> u64 w ->
  Memory.read_u64 m' (final_sp top argv envp + 8 * i) = Ok w.
Proof.
  intros H0 Hi Hw. pose proof layout_bounds as (?&?&?). unfold Memory.read_u64, read_le.
  pose proof (lookup_lt_Some _ _ _ Hi). pose proof (len_nonneg (strings_image argv envp)).
  assert (0 < len (words (table_image top argv envp input))) by (rewrite len_words; unfold len; lia).
  pose proof (read_word (M:=GuestMemory) m' (final_sp top argv envp)
    (table_image top argv envp input) (Z.to_nat i) w Hm') as Hr. rewrite Z2Nat.id in Hr by done.
  change (Z.of_nat 8) with 8.
  assert (read_bytes m' (final_sp top argv envp + 8 * i) 8 = Ok (to_le 8 w)) as ->.
  { apply Hr; [eapply rw_range_sub; [done|exact Hrw'|lia..]|done|done]. }
  cbn [mbind res_bind]. change (len (to_le 8 w) =? 8) with true. cbn iota.
  f_equal. by apply (of_le_to_le_id 8).
Qed.

(** A string of a list that is stored at [a] with [pre] before and [post] after. *)
Lemma guest_string l a pre post i s : strings_image argv envp = pre ++ strings l ++ post ->
  a = strings_base top argv envp + len pre -> l !! i = Some s ->
  exists p, string_addresses a l !! i = Some p /\ u64 p /\ read_bytes m' p (len s + 1) = Ok (s ++ [0]).
Proof.
  intros Himg -> Hi. pose proof layout_bounds as (?&?&Htt).
  destruct (string_addresses_lookup (strings_base top argv envp + len pre) l i s Hi)
    as (pre'&post'&Hs&Hp). eexists. split; [exact Hp|].
  assert (strings_image argv envp = (pre ++ pre') ++ c_string s ++ (post' ++ post)) as Himg'
    by (rewrite Himg, Hs, <- !app_assoc; done).
  pose proof Hstr as Hh. rewrite Himg' in Hh, Htt. pose proof (c_string_len s).
  rewrite !len_app in Htt. pose proof (len_nonneg pre). pose proof (len_nonneg pre').
  pose proof (len_nonneg post). pose proof (len_nonneg post').
  split; [unfold fits; lia|].
  apply read_string in Hh; [|done|].
  - unfold c_string in Hh. rewrite !len_app in Hh. rewrite <- Hh. f_equal. lia.
  - eapply rw_range_sub; [done|exact Hrw'|rewrite ?len_app; lia..].
Qed.

Lemma argv_string i s : argv !! i = Some s ->
  exists p, argv_pointers top argv envp !! i = Some p /\ u64 p /\
    read_bytes m' p (len s + 1) = Ok (s ++ [0]).
Proof.
  apply (guest_string argv _ [] (strings envp ++ replicate 16 82 ++ c_string (execfn argv)));
    [done|]. change (len []) with 0. lia.
Qed.

Lemma envp_string i s : envp !! i = Some s ->
  exists p, envp_pointers top argv envp !! i = Some p /\ u64 p /\
    read_bytes m' p (len s + 1) = Ok (s ++ [0]).
Proof.
  by apply (guest_string envp _ (strings argv) (replicate 16 82 ++ c_string (execfn argv))).
Qed.
End Layout.
End GuestStack.

(** Positions in the table. *)
Lemma lookup_after {A} (l k : list A) i n : n = len l -> 0 <= i ->
  (l ++ k) !! Z.to_nat (n + i) = k !! Z.to_nat i.
Proof.
  intros -> Hi. unfold len. rewrite lookup_app_r by lia. f_equal. lia.
Qed.

Lemma table_lookup n A E X a e : a = len A -> e = len E ->
  let T := [n] ++ A ++ [0] ++ E ++ [0] ++ X in
  T !! Z.to_nat 0 = Some n /\
  (forall i p, A !! i = Some p -> T !! Z.to_nat (1 + Z.of_nat i) = Some p) /\
  T !! Z.to_nat (1 + a) = Some 0 /\
  (forall i p, E !! i = Some p -> T !! Z.to_nat (2 + a + Z.of_nat i) = Some p) /\
  T !! Z.to_nat (2 + a + e) = Some 0 /\
  forall i w, X !! i = Some w -> T !! Z.to_nat (3 + a + e + Z.of_nat i) = Some w.
Proof.
  intros Ha He T. pose proof (len_nonneg A). pose proof (len_nonneg E).
  assert (forall i, 0 <= i -> T !! Z.to_nat (1 + i) = (A ++ [0] ++ E ++ [0] ++ X) !! Z.to_nat i)
    as H1 by (intros; by apply lookup_after).
  assert (forall i, 0 <= i -> T !! Z.to_nat (1 + a + i) = ([0] ++ E ++ [0] ++ X) !! Z.to_nat i)
    as H2 by (intros i Hi; rewrite <- Z.add_assoc, H1 by lia; by apply lookup_after).
  assert (forall i, 0 <= i -> T !! Z.to_nat (2 + a + i) = (E ++ [0] ++ X) !! Z.to_nat i) as H3.
  { intros i Hi. replace (2 + a + i) with (1 + a + (1 + i)) by lia. rewrite H2 by lia.
    by apply lookup_after. }
  assert (forall i, 0 <= i -> T !! Z.to_nat (2 + a + e + i) = ([0] ++ X) !! Z.to_nat i)
    as H4 by (intros i Hi; rewrite <- Z.add_assoc, H3 by lia; by apply lookup_after).
  split; [done|]. split; [|split; [|split; [|split]]].
  - intros i p Hi. rewrite H1, Nat2Z.id by lia. by apply lookup_app_l_Some.
  - replace (1 + a) with (1 + a + 0) by lia. by rewrite H2.
  - intros i p Hi. rewrite H3, Nat2Z.id by lia. by apply lookup_app_l_Some.
  - replace (2 + a + e) with (2 + a + e + 0) by lia. by rewrite H4.
  - intros i w Hi. replace (3 + a + e + Z.of_nat i) with (2 + a + e + (1 + Z.of_nat i)) by lia.
    rewrite H4 by lia. rewrite lookup_after by (done || lia). by rewrite Nat2Z.id.
Qed.

Lemma aux_words_lookup l i e : l !! i = Some e ->
  concat (aux_words <$> l) !! (2 * i)%nat = Some (aux_code (aux_kind e)) /\
  concat (aux_words <$> l) !! S (2 * i) = Some (aux_value e).
Proof.
  revert i. induction l as [|x l IH]; intros [|i]; try done; [by intros [= ->]|].
  intros Hi. replace (2 * S i)%nat with (S (S (2 * i))) by lia. by apply IH.
Qed.

Lemma strings_image_nonempty argv envp : strings_image argv envp <> [].
Proof.
  intros Hs. assert (len (strings_image argv envp) = 0) as Hl by by rewrite Hs.
  unfold strings_image in Hl. rewrite !len_app in Hl. change (len (replicate 16 82)) with 16 in Hl.
  pose proof (len_nonneg (strings argv)). pose proof (len_nonneg (strings envp)).
  pose proof (c_string_len (execfn argv)). lia.
Qed.

(** C24: the initial stack, byte for byte.  Where the guest may read and write
    [low, top), [build] succeeds exactly when everything fits above [low], and
    then the stack pointer is where the layout says, the count, the argument
    pointers, the environment pointers and the auxiliary vector lie at it, the
    strings they point to lie below [top], and nothing else changes.
    Otherwise it reports [StackOverflow]. *)
Theorem initial_stack_layout (m : GuestMemory) (low top : Z) (argv envp : list (list Z))
    (input : StackAuxInput) (Hm : wf m) (Hrw : rw_range m low (top - low)) (Hlow : 0 <= low < top)
    (Htop : top < 2 ^ 64) (Ha : Forall (Forall (fits 8)) argv)
    (He : Forall (Forall (fits 8)) envp) :
  let sp := final_sp top argv envp in
  let table := words (table_image top argv envp input) in
  let text := strings_image argv envp in
  if low <=? sp
  then exists m', build argv envp input (mkStack top low, m) =
      (Ok (mkBuildResult sp (auxv_at top argv envp input)), (mkStack sp low, m')) /\ wf m' /\
    read_bytes m' sp (len table) = Ok table /\
    read_bytes m' (strings_base top argv envp) (len text) = Ok text /\
    forall b n, 0 <= n -> top <= b \/ b + n <= sp -> read_bytes m' b n = read_bytes m b n
  else exists s, build argv envp input (mkStack top low, m) = (Err StackOverflow, s).
Proof.
  intros sp table text. destruct (build_guest m low top argv envp input) as [Hok Herr]; try done.
  destruct (Z.leb_spec low sp) as [Hsp|Hsp]; [|by apply Herr].
  destruct (Hok Hsp) as (m'&?&?&_&[Ht|Ht]&[Hs|Hs]&?); simpl in Ht, Hs; try done.
  - by apply strings_image_nonempty in Hs.
  - exists m'. done.
Qed.

(** C25: a process finds its arguments.  After [build], the word at the stack
    pointer is the number of arguments; the words after it point to the
    arguments, each followed by a zero byte, and end with a null pointer; then
    the environment in the same way; then the auxiliary vector. *)
Theorem process_finds_arguments (m m' : GuestMemory) (low top : Z) (argv envp : list (list Z))
    (input : StackAuxInput) (r : StackBuildResult) (st : InitialStack) (Hm : wf m)
    (Hrw : rw_range m low (top - low)) (Hlow : 0 <= low < top) (Htop : top < 2 ^ 64)
    (Ha : Forall (Forall (fits 8)) argv) (He : Forall (Forall (fits 8)) envp)
    (Hn : u64 (len argv)) (Hin : Forall (fun e => u64 (aux_value e)) (auxv r))
    (Hb : build argv envp input (mkStack top low, m) = (Ok r, (st, m'))) :
  let word i := Memory.read_u64 m' (stack_pointer r + 8 * i) in
  let c_string_at p s := read_bytes m' p (len s + 1) = Ok (s ++ [0]) in
  word 0 = Ok (len argv) /\
  (forall i s, argv !! i = Some s -> exists p, word (1 + Z.of_nat i) = Ok p /\ c_string_at p s) /\
  word (1 + len argv) = Ok 0 /\
  (forall i s, envp !! i = Some s ->
     exists p, word (2 + len argv + Z.of_nat i) = Ok p /\ c_string_at p s) /\
  word (2 + len argv + len envp) = Ok 0 /\
  (forall i e, auxv r !! i = Some e ->
     word (3 + len argv + len envp + 2 * Z.of_nat i) = Ok (aux_code (aux_kind e)) /\
     word (4 + len argv + len envp + 2 * Z.of_nat i) = Ok (aux_value e)).
Proof.
  intros word c_string_at. destruct (build_guest m low top argv envp input) as [Hok Herr]; try done.
  destruct (Z.lt_ge_cases (final_sp top argv envp) low) as [Hlt|Hge].
  { destruct (Herr Hlt) as [s Hs]. rewrite Hs in Hb. discriminate Hb. }
  destruct (Hok Hge) as (m1&Hb'&Hm1&Hrw1&Ht&Hs&_). rewrite Hb' in Hb. injection Hb as <- <- ->.
  cbn [stack_pointer auxv] in *. pose proof (len_nonneg argv). pose proof (len_nonneg envp).
  assert (forall i w, 0 <= i -> table_image top argv envp input !! Z.to_nat i = Some w -> u64 w ->
    word i = Ok w) as Hword.
  { intros i w. apply (guest_word low top argv envp input); try done; lia. }
  destruct (table_lookup (len argv) (argv_pointers top argv envp) (envp_pointers top argv envp)
    (concat (aux_words <$> auxv_at top argv envp input)) (len argv) (len envp))
    as (T0&T1&T2&T3&T4&T5); [symmetry; apply len_string_addresses..|].
  split; [by apply Hword|]. split; [|split; [|split; [|split]]].
  - intros i s Hi. destruct (argv_string low top argv envp input Hlow Htop m' Hm1 Hrw1 Hge Hs i s Hi)
      as (q&Hq&Hu&Hr). exists q. split; [|done]. apply Hword; [lia|by apply T1|done].
  - by apply Hword; [lia|..].
  - intros i s Hi. destruct (envp_string low top argv envp input Hlow Htop m' Hm1 Hrw1 Hge Hs i s Hi)
      as (q&Hq&Hu&Hr). exists q. split; [|done]. apply Hword; [lia|by apply T3|done].
  - by apply Hword; [lia|..].
  - intros i e Hi. destruct (aux_words_lookup _ _ _ Hi) as [Hc Hv].
    rewrite Forall_lookup in Hin. specialize (Hin _ _ Hi). split.
    + apply Hword; [lia| |by destruct (aux_kind e)].
      replace (2 * Z.of_nat i) with (Z.of_nat (2 * i)) by lia. by apply T5.
    + apply Hword; [lia| |done].
      replace (4 + len argv + len envp + 2 * Z.of_nat i)
        with (3 + len argv + len envp + Z.of_nat (S (2 * i))) by lia. by apply T5.
Qed.

(** The alignment of the stack at entry.  The strings are rounded down to
    16 bytes before the tables are pushed, but the tables hold
    [31 + argc + envc] words, so the stack pointer the process starts with is a
    multiple of 16 only when the number of arguments and environment strings
    together is odd. *)
Theorem initial_stack_alignment (m m' : GuestMemory) (low top : Z) (argv envp : list (list Z))
    (input : StackAuxInput) (r : StackBuildResult) (st : InitialStack) (Hm : wf m)
    (Hrw : rw_range m low (top - low)) (Hlow : 0 <= low < top) (Htop : top < 2 ^ 64)
    (Ha : Forall (Forall (fits 8)) argv) (He : Forall (Forall (fits 8)) envp)
    (Hb : build argv envp input (mkStack top low, m) = (Ok r, (st, m'))) :
  stack_pointer r mod 16 = if Z.odd (len argv + len envp) then 0 else 8.
Proof.
  destruct (build_guest m low top argv envp input) as [Hok Herr]; try done.
  destruct (Z.lt_ge_cases (final_sp top argv envp) low) as [Hlt|Hge].
  { destruct (Herr Hlt) as [s Hs]. rewrite Hs in Hb. discriminate Hb. }
  destruct (Hok Hge) as (m1&Hb'&_). rewrite Hb' in Hb. injection Hb as <- <- ->. simpl.
  unfold final_sp. set (base := strings_base top argv envp). set (n := len argv + len envp).
  replace (31 + len argv + len envp) with (31 + n) by (unfold n; lia).
  pose proof (Z.div_mod base 16 ltac:(lia)) as Hd. pose proof (Z.div_mod n 2 ltac:(lia)) as Hn.
  pose proof (Zmod_odd n) as Hodd. rewrite Hodd in Hn. symmetry.
  apply (Z.mod_unique_pos _ _ (base / 16 - n / 2 - 16)); destruct (Z.odd n); lia.
Qed.

(** A small stack, two arguments and one environment string. *)
Definition demo_stack : GuestMemory :=
  mkMemory [mkRegion 4096 512 (READ + WRITE) None (replicate 512 0)].
Definition demo_argv : list (list Z) := [[108; 115]; [45; 108]].
Definition demo_envp : list (list Z) := [[65; 61; 66]].
Definition demo_input : StackAuxInput := mkAuxInput 0x400040 56 1 0x400078 0 4096.

Definition demo_built : res LoaderError StackBuildResult * (InitialStack * GuestMemory) :=
  build demo_argv demo_envp demo_input (mkStack 4608 4096, demo_stack).

Lemma demo_stack_wf : wf demo_stack.
Proof.
  split; [|by repeat constructor]. apply Forall_singleton.
  split; try (vm_compute; congruence). apply Forall_replicate. by vm_compute.
Qed.

Lemma demo_stack_rw : rw_range demo_stack 4096 512.
Proof. eexists. split; [reflexivity|]. by split. Qed.

Lemma demo_argv_u8 : Forall (Forall (fits 8)) demo_argv.
Proof. by repeat constructor. Qed.

Lemma demo_envp_u8 : Forall (Forall (fits 8)) demo_envp.
Proof. by repeat constructor. Qed.

Lemma initial_stack_layout_witness :
  wf demo_built.2.2 /\ read_bytes demo_built.2.2 4579 6 = Ok [108; 115; 0; 45; 108; 0].
Proof.
  split; [|vm_compute; reflexivity].
  destruct (initial_stack_layout demo_stack 4096 4608 demo_argv demo_envp demo_input) as (m'&Hb&Hw&_);
    [exact demo_stack_wf|exact demo_stack_rw|lia|lia|exact demo_argv_u8|exact demo_envp_u8|].
  unfold demo_built. rewrite Hb. exact Hw.
Defined.

(** The result of the run above. *)
Lemma demo_built_ok : exists r st m', demo_built = (Ok r, (st, m')) /\
  build demo_argv demo_envp demo_input (mkStack 4608 4096, demo_stack) = (Ok r, (st, m')) /\ stack_pointer r = 4304 /\
  Forall (fun e => u64 (aux_value e)) (auxv r).
Proof.
  assert (match demo_built.1 with
          | Ok r => bool_decide (stack_pointer r = 4304 /\
              Forall (fun e => 0 <= aux_value e < 2 ^ 64) (auxv r))
          | _ => false
          end = true) as Hc by (vm_compute; reflexivity).
  unfold demo_built in *.
  destruct (build demo_argv demo_envp demo_input (mkStack 4608 4096, demo_stack))
    as [[r|e|] [st m']]; simpl in Hc; [|done..].
  apply bool_decide_eq_true in Hc as [Hs Hv]. exists r, st, m'. done.
Qed.

Lemma process_finds_arguments_witness :
  exists p, Memory.read_u64 demo_built.2.2 (4304 + 16) = Ok p /\
    read_bytes demo_built.2.2 p 3 = Ok [45; 108; 0].
Proof.
  assert (u64 (len demo_argv)) as Hn by by vm_compute.
  destruct demo_built_ok as (r&st&m'&Hd&Hb&Hsp&Hv).
  pose proof (process_finds_arguments demo_stack m' 4096 4608 demo_argv demo_envp demo_input r st
    demo_stack_wf demo_stack_rw ltac:(lia) ltac:(lia) demo_argv_u8 demo_envp_u8 Hn Hv Hb) as H.
  cbv zeta in H. destruct H as (_&Hargs&_).
  destruct (Hargs 1%nat [45; 108] eq_refl) as (p&Hp&Hs). rewrite Hsp in Hp. rewrite Hd.
  exists p. split; [exact Hp|exact Hs].
Defined.

Lemma initial_stack_alignment_witness :
  exists r, demo_built.1 = Ok r /\ stack_pointer r mod 16 = 0.
Proof.
  destruct demo_built_ok as (r&st&m'&Hd&Hb&_). exists r. split; [rewrite Hd; reflexivity|].
  rewrite (initial_stack_alignment demo_stack m' 4096 4608 demo_argv demo_envp demo_input r st);
    [reflexivity|exact demo_stack_wf|exact demo_stack_rw|lia|lia|exact demo_argv_u8
    |exact demo_envp_u8|exact Hb].
Defined.
