(* ===== verification/LoaderProps.v ===== *)
(** * Loading a program

    What the loader leaves in memory: each loadable segment with its bytes
    from the file followed by zeros, and the stack; and that it does not panic
    on images whose addresses stay inside the 64-bit space and whose segments
    are small enough to allocate. *)

From S2P Require Import Prelude Memory MemorySpec Elf ElfProps Loader LoaderStack.

Open Scope Z_scope.

(** ** One segment *)

(** What a segment has in memory: its bytes from the file, then zeros. *)
Definition file_bytes (image : ElfImage) (h : ProgramHeader) : list Z :=
  take (Z.to_nat (file_size h)) (drop (Z.to_nat (offset h)) (bytes image)).

Definition segment_image (image : ElfImage) (h : ProgramHeader) : list Z :=
  file_bytes image h ++ replicate (Z.to_nat (memory_size h - file_size h)) 0.

(** The bytes of the segment are in the file, and its pages in the 64-bit
    space. *)
Record segment_fits (image : ElfImage) (h : ProgramHeader) (bias page : Z) : Prop := {
  sf_offset : 0 <= offset h;
  sf_filesz : 0 <= file_size h <= memory_size h;
  sf_file : offset h + file_size h <= len (bytes image);
  sf_vaddr : 0 <= virtual_address h;
  sf_end : virtual_address h + memory_size h + bias + page < 2 ^ 64
}.

(** The pages of a segment. *)
Definition map_start (h : ProgramHeader) (bias page : Z) : Z :=
  virtual_address h + bias - (virtual_address h + bias) mod page.
Definition map_end (h : ProgramHeader) (bias page : Z) : Z :=
  round_up (virtual_address h + memory_size h + bias) page.

(** The pages of a segment are fewer bytes than a vector may hold. *)
Definition allocatable (h : ProgramHeader) (bias page : Z) : Prop :=
  map_end h bias page - map_start h bias page < 2 ^ 63.

Definition segment_cells (image : ElfImage) (h : ProgramHeader) (bias page : Z) (f : amap) : amap :=
  fun a => if in_range (map_start h bias page) (map_end h bias page - map_start h bias page) a
           then Some (permissions_from_header h,
                      if in_range (virtual_address h + bias) (file_size h) a
                      then default 0 (file_bytes image h !! Z.to_nat (a - (virtual_address h + bias)))
                      else 0)
           else f a.

Section Segment.
Context (image : ElfImage) (h : ProgramHeader) (bias k : Z).
Hypothesis Hbytes : Forall (fits 8) (bytes image).
Hypothesis Hlen : len (bytes image) < 2 ^ 64.
Hypothesis Hbias : 0 <= bias.
Hypothesis Hk : 0 <= k < 64.
Hypothesis Hfit : segment_fits image h bias (2 ^ k).
Let lo := map_start h bias (2 ^ k).
Let hi := map_end h bias (2 ^ k).

Lemma segment_bounds : 0 <= lo <= virtual_address h + bias /\
  virtual_address h + bias + memory_size h <= hi /\ hi < 2 ^ 64.
Proof.
  destruct Hfit. assert (0 < 2 ^ k) by (apply Z.pow_pos_nonneg; lia).
  pose proof (Z.mod_pos_bound (virtual_address h + bias) (2 ^ k) ltac:(lia)).
  pose proof (Z.mod_le (virtual_address h + bias) (2 ^ k) ltac:(lia) ltac:(lia)).
  pose proof (round_up_bounds (virtual_address h + memory_size h + bias) (2 ^ k) ltac:(lia)).
  unfold lo, hi, map_start, map_end. lia.
Qed.

Lemma len_file_bytes : len (file_bytes image h) = file_size h.
Proof.
  destruct Hfit. unfold file_bytes, len in *. rewrite length_take, length_drop. lia.
Qed.

(** [load_segment] computes the pages and maps the data into them. *)
Lemma load_segment_unfold m : load_segment image h bias (2 ^ k) m =
  zoom (fun m => m) (fun m _ => m) LMemory
    (map_with_data lo (hi - lo) (permissions_from_header h) (virtual_address h + bias - lo)
       (file_bytes image h) (Some (segment_name (virtual_address h + bias)))) m.
Proof.
  destruct Hfit. pose proof segment_bounds as (?&?&?). assert (0 < 2 ^ k) by (apply Z.pow_pos_nonneg; lia).
  unfold load_segment, mbind, st_bind, lift.
  rewrite (proj2 (add64_Ok (virtual_address h) bias (virtual_address h + bias))) by lia.
  rewrite align_down_ok by (done || (unfold fits; lia)). fold (map_start h bias (2 ^ k)). fold lo.
  unfold mbind, option_bind.
  rewrite (proj2 (checked_add_Some _ _ (virtual_address h + memory_size h))) by lia.
  rewrite (proj2 (checked_add_Some _ _ (virtual_address h + memory_size h + bias))) by lia. simpl.
  rewrite align_up_ok by lia. fold (map_end h bias (2 ^ k)). fold hi.
  rewrite (proj2 (sub64_Ok hi lo (hi - lo))) by lia.
  rewrite (proj2 (sub64_Ok _ lo (virtual_address h + bias - lo))) by lia.
  rewrite (proj2 (add64_Ok (offset h) (file_size h) (offset h + file_size h))) by lia.
  rewrite (proj2 (slice_Ok (bytes image) (file_bytes image h) (offset h) (offset h + file_size h)));
    [done|]. unfold file_bytes. split; [lia|]. split; [lia|]. do 2 f_equal. lia.
Qed.

Lemma load_segment_cases m : wf m ->
  ((lo < hi < lo + 2 ^ 63 /\ free m lo hi) /\
   exists m', load_segment image h bias (2 ^ k) m = (Ok tt, m') /\
     wf m' /\ keeps m m' /\ covers m' lo (hi - lo) (permissions_from_header h) /\
     forall a, cell m' a = segment_cells image h bias (2 ^ k) (cell m) a) \/
  ((lo + 2 ^ 63 <= hi /\ free m lo hi) /\ load_segment image h bias (2 ^ k) m = (Panic, m)) \/
  (~ (lo < hi /\ free m lo hi) /\
     exists e, load_segment image h bias (2 ^ k) m = (Err (LMemory e), m)).
Proof.
  intros Hm. rewrite load_segment_unfold. unfold zoom. pose proof segment_bounds as (?&?&?).
  pose proof len_file_bytes as Hl. destruct Hfit.
  pose proof (map_with_data_cases lo (hi - lo) (permissions_from_header h)
    (virtual_address h + bias - lo) (file_bytes image h)
    (Some (segment_name (virtual_address h + bias))) m Hm) as Hcases.
  pose proof (map_with_data_keeps lo (hi - lo) (permissions_from_header h)
    (virtual_address h + bias - lo) (file_bytes image h)
    (Some (segment_name (virtual_address h + bias))) m) as Hkeeps.
  unfold oversized in Hcases. replace (lo + (hi - lo)) with hi in * by lia.
  assert (Forall (fits 8) (file_bytes image h)) as Hf8 by by apply Forall_take, Forall_drop.
  destruct Hcases as [[[Hpos Hfree] (m'&Hmap&Hm'&Hc)]|[[(?&_&?) ->]|[Hno [e He]]]];
    [unfold fits; lia|unfold fits; lia|done|lia|lia|lia| | |].
  - left. split; [split; [lia|done]|]. exists m'. rewrite Hmap. split; [done|]. split; [done|].
    destruct (Hkeeps m' Hm) as [? ?]; [unfold fits; lia|unfold fits; lia|done|lia|lia|lia|done|].
    split; [done|]. split; [done|]. intros a. rewrite Hc. unfold segment_cells.
    replace (lo + (virtual_address h + bias - lo)) with (virtual_address h + bias) by lia.
    by rewrite Hl.
  - right. left. split; [split; [lia|done]|done].
  - right. right. rewrite He. split; [|by exists e]. intros [? ?]. apply Hno. split; [lia|done].
Qed.
End Segment.

(** ** Segments that stay *)

(** The memory holds a segment, in one region with its permissions. *)
Definition has_segment (image : ElfImage) (bias : Z) (m : GuestMemory) (h : ProgramHeader) : Prop :=
  (0 <= file_size h <= memory_size h /\ len (file_bytes image h) = file_size h /\
   virtual_address h + bias + memory_size h < 2 ^ 64) /\
  covers m (virtual_address h + bias) (memory_size h) (permissions_from_header h) /\
  forall i, 0 <= i < memory_size h -> exists b,
    cell m (virtual_address h + bias + i) = Some (permissions_from_header h, b) /\
    segment_image image h !! Z.to_nat i = Some b.

Lemma has_segment_keeps image bias m m' h : keeps m m' -> has_segment image bias m h ->
  has_segment image bias m' h.
Proof.
  intros [Hc Hr] (H0&H1&H2). split; [done|]. split; [by apply Hr|]. intros i Hi. destruct (H2 i Hi) as (b&?&?). eauto.
Qed.

Lemma has_segment_read image bias m h : wf m -> has_segment image bias m h ->
  0 < memory_size h -> contains (permissions_from_header h) READ = true ->
  read_bytes m (virtual_address h + bias) (memory_size h) = Ok (segment_image image h).
Proof.
  intros Hm ((Hf&Hl&He)&Hcov&Hc) Hn HR. eapply read_covered; [done|done| |done|exact Hcov|done|].
  - unfold segment_image. rewrite len_app, Hl. unfold len. rewrite length_replicate. lia.
  - intros i Hi. destruct (Hc i Hi) as (b&?&?). eauto.
Qed.

(** A segment avoids a range that is free. *)
Lemma has_segment_avoids image bias m h lo hi : has_segment image bias m h -> free m lo hi ->
  lo < hi -> 0 < memory_size h ->
  virtual_address h + bias + memory_size h <= lo \/ hi <= virtual_address h + bias.
Proof.
  intros (_&_&Hc) Hfree Hlt Hn.
  destruct (Z.le_gt_cases (virtual_address h + bias + memory_size h) lo); [by left|].
  destruct (Z.le_gt_cases hi (virtual_address h + bias)); [by right|exfalso].
  set (x := Z.max lo (virtual_address h + bias)).
  destruct (Hc (x - (virtual_address h + bias))) as (b&Hb&_); [unfold x; lia|].
  rewrite (Hfree (virtual_address h + bias + _)) in Hb; [done|unfold x; lia].
Qed.

Lemma segment_image_lookup image h i : 0 <= i < memory_size h -> 0 <= file_size h <= memory_size h ->
  len (file_bytes image h) = file_size h ->
  segment_image image h !! Z.to_nat i =
    Some (if i <? file_size h then default 0 (file_bytes image h !! Z.to_nat i) else 0).
Proof.
  intros Hi Hf Hl. unfold segment_image. unfold len in Hl. destruct (Z.ltb_spec i (file_size h)).
  - destruct (lookup_lt_is_Some_2 (file_bytes image h) (Z.to_nat i)) as [b Hb]; [lia|].
    rewrite Hb. by apply lookup_app_l_Some.
  - rewrite lookup_app_r by lia. apply lookup_replicate_2. lia.
Qed.

(** ** All the segments of an image *)

Section Segments.
Context (image : ElfImage) (bias k : Z).
Hypothesis Hbytes : Forall (fits 8) (bytes image).
Hypothesis Hlen : len (bytes image) < 2 ^ 64.
Hypothesis Hbias : 0 <= bias.
Hypothesis Hk : 0 <= k < 64.

Lemma load_segment_ends m h : wf m -> segment_fits image h bias (2 ^ k) ->
  allocatable h bias (2 ^ k) ->
  ends (load_segment image h bias (2 ^ k)) m
    (fun _ m' => wf m' /\ keeps m m' /\ has_segment image bias m' h).
Proof.
  intros Hm Hfit Hal. unfold ends.
  destruct (load_segment_cases image h bias k Hbytes Hlen Hbias Hk Hfit m Hm)
    as [[_ (m'&->&Hm'&Hkp&Hcov&Hc)]|[[[? _] _]|[_ [e ->]]]];
    [|unfold allocatable in Hal; lia|done].
  pose proof (segment_bounds image h bias k Hbias Hk Hfit) as (?&?&?).
  pose proof (len_file_bytes image h bias k Hk Hfit) as Hl. destruct Hfit.
  split; [done|]. split; [done|]. split; [split; [done|]; split; [done|lia]|]. split.
  - destruct Hcov as (r&?&?&?&?). exists r. split; [done|]. split; [lia|]. split; [lia|done].
  - intros i Hi. eexists. split; [|by apply segment_image_lookup].
    rewrite Hc. unfold segment_cells. rewrite (proj2 (in_range_true _ _ _)) by lia.
    replace (virtual_address h + bias + i - (virtual_address h + bias)) with i by lia.
    do 2 f_equal. unfold in_range. rewrite (proj2 (Z.leb_le _ _)) by lia. simpl.
    by replace (virtual_address h + bias + i <? virtual_address h + bias + file_size h)
      with (i <? file_size h) by (zbool; lia).
Qed.

Lemma load_list_ends hs m : wf m ->
  Forall (fun h => segment_fits image h bias (2 ^ k) /\ allocatable h bias (2 ^ k)) hs ->
  ends (for_each hs (fun h => load_segment image h bias (2 ^ k))) m
    (fun _ m' => wf m' /\ keeps m m' /\ Forall (has_segment image bias m') hs).
Proof.
  intros Hm Hfit. revert m Hm. induction Hfit as [|h hs [Hh Hal] _ IH]; intros m Hm; simpl.
  { apply ends_ret. split; [done|]. by split. }
  apply ends_bind. eapply ends_weaken; [by apply load_segment_ends|].
  intros _ m1 (Hm1&Hk1&Hs1). eapply ends_weaken; [by apply IH|].
  intros _ m2 (Hm2&Hk2&Hs2). split; [done|]. split; [by etrans|].
  constructor; [by eapply has_segment_keeps|done].
Qed.
End Segments.

(** ** Parsed images *)

(** No address of the image, moved by [bias] and rounded to a page, leaves the
    64-bit space, and no loadable segment is too large to allocate. *)
Record addresses_fit (image : ElfImage) (bias page : Z) : Prop := {
  af_headers : forall h, h ∈ program_headers image ->
    virtual_address h + memory_size h + bias + page < 2 ^ 64;
  af_sizes : forall h, h ∈ load_headers image -> allocatable h bias page;
  af_entry : image_entry image + bias < 2 ^ 64
}.

Lemma parsed_header_ranges bs image h : Forall (fits 8) bs -> len bs < 2 ^ 64 ->
  parse bs = Ok image -> h ∈ program_headers image ->
  bytes image = bs /\ load_in_file bs h /\ 0 <= offset h /\ 0 <= file_size h /\
  0 <= memory_size h /\ 0 <= virtual_address h /\
  0 <= program_header_offset (header image).
Proof.
  intros Hbs Hlen Hp Hh. destruct (parse_iff bs Hbs Hlen) as [[Hok Ha]|[[e He] _]]; [|congruence].
  rewrite Hok in Hp. injection Hp as <-. simpl in Hh. apply list_elem_of_fmap in Hh as (i&->&Hi).
  apply elem_of_upto in Hi. split; [done|]. split; [apply (ea_load bs Ha); simpl in *; lia|].
  simpl. repeat split; by apply field_nonneg.
Qed.

Lemma parsed_fits bs image bias page : Forall (fits 8) bs -> len bs < 2 ^ 64 ->
  parse bs = Ok image -> addresses_fit image bias page ->
  bytes image = bs /\
  Forall (fun h => segment_fits image h bias page /\ allocatable h bias page) (load_headers image).
Proof.
  intros Hbs Hlen Hp [Ha Hsz _]. assert (bytes image = bs) as Hb.
  { destruct (parse_iff bs Hbs Hlen) as [[Hok _]|[[e He] _]]; [|congruence].
    rewrite Hok in Hp. by injection Hp as <-. }
  split; [done|]. apply Forall_forall. intros h Hh. split; [|by apply Hsz]. unfold load_headers in Hh.
  apply list_elem_of_filter in Hh as [Hl Hh]. specialize (Ha h Hh).
  destruct (parsed_header_ranges bs image h Hbs Hlen Hp Hh) as (_&Hf&?&?&?&?&_).
  destruct (Hf Hl). split; rewrite ?Hb; lia.
Qed.

(** Where the program headers are mapped, when no address overflows. *)
Lemma program_header_guest_address_safe bs image bias page : Forall (fits 8) bs ->
  len bs < 2 ^ 64 -> parse bs = Ok image -> addresses_fit image bias page -> 0 <= bias -> 0 < page ->
  safe (program_header_guest_address image bias) (fun _ => True).
Proof.
  intros Hbs Hlen Hp [Ha _ _] Hbias Hpage. unfold program_header_guest_address.
  destruct (find_first _ _) as [h|] eqn:Hf; [|done]. apply find_first_Some in Hf as [Hh Hloc].
  specialize (Ha h Hh). destruct (parsed_header_ranges bs image h Hbs Hlen Hp Hh) as (_&Hin&?&?&?&?&?).
  apply safe_bind with (Q := fun _ => True); [|done].
  destruct (decide (ph_kind h = Phdr)) as [|Hk].
  { eapply safe_weaken; [apply safe_add64; lia|done]. }
  unfold locates_table in Hloc. rewrite bool_decide_eq_false_2 in Hloc by done.
  rewrite orb_false_l, !andb_true_iff, Z.leb_le, Z.ltb_lt in Hloc. destruct Hloc as [[Hl Hle] Hlt].
  destruct (Hin Hl). unfold saturating_add in Hlt.
  eapply safe_bind; [by apply safe_sub64|]. intros d ->.
  eapply safe_bind; [apply safe_add64; lia|]. intros a ->.
  eapply safe_weaken; [apply safe_add64; lia|done].
Qed.

(** ** The interpreter and the stack *)

Definition interpreter_segments (m : GuestMemory) (i : option LoadedInterpreter) : Prop :=
  match i with
  | None => True
  | Some i => li_entry i = image_entry (li_image i) + li_base i /\
      Forall (has_segment (li_image i) (li_base i) m) (load_headers (li_image i))
  end.

(** The interpreter's bytes, when given, have addresses that fit. *)
Definition interpreter_fits (ibs : option (list Z)) (config : LoaderConfig) : Prop :=
  forall bs, ibs = Some bs -> Forall (fits 8) bs /\ len bs < 2 ^ 64 /\
    forall image, parse bs = Ok image ->
      addresses_fit image (interpreter_base config) (page_size config).

Lemma parse_safe bs : Forall (fits 8) bs -> len bs < 2 ^ 64 ->
  safe (parse bs) (fun image => parse bs = Ok image).
Proof. intros Hbs Hlen. by destruct (parse_iff bs Hbs Hlen) as [[-> _]|[[e ->] _]]. Qed.

Lemma segment_bytes_safe bs h : safe (segment_bytes bs h) (fun _ => True).
Proof.
  unfold segment_bytes. apply safe_bind with (Q := fun _ => True); [by apply safe_ok_or|].
  intros e _. by apply safe_ok_or.
Qed.

Lemma dynamic_entries_safe image : safe (dynamic_entries image) (fun _ => True).
Proof.
  unfold dynamic_entries. destruct (header_of_kind Dynamic image) as [h|]; [|done].
  apply safe_bind with (Q := fun _ => True); [apply segment_bytes_safe|].
  intros data _. destruct (Z.eqb_spec (len data mod 16) 0) as [Hm|]; simpl; [|done].
  pose proof (Z.div_mod (len data) 16 ltac:(lia)). pose proof (len_nonneg data).
  destruct (dynamic_loop_spec (Z.to_nat (len data / 16)) data) as (es&->&_); [unfold len in *; lia|done].
Qed.

Lemma interpreter_path_safe image : safe (interpreter_path image) (fun _ => True).
Proof.
  unfold interpreter_path. destruct (header_of_kind Interp image) as [h|]; [|done].
  apply safe_bind with (Q := fun _ => True); [apply segment_bytes_safe|].
  intros data _. match goal with |- context [slice data 0 ?n] => assert (0 <= n <= len data) end.
  { destruct (position _ data) as [i|] eqn:Hi; [|pose proof (len_nonneg data); lia].
    apply position_Some in Hi as (x&Hx&_). apply lookup_lt_Some in Hx. unfold len. lia. }
  eapply safe_bind; [apply safe_slice; lia|]. intros path _. by destruct (utf8_valid path).
Qed.

Lemma load_interpreter_ends path ibs config k m : wf m -> 0 <= k < 64 ->
  page_size config = 2 ^ k -> 0 <= interpreter_base config -> interpreter_fits ibs config ->
  ends (load_interpreter path ibs config) m
    (fun i m' => wf m' /\ keeps m m' /\ interpreter_segments m' i).
Proof.
  intros Hm Hk Hpage Hbase Hfit. unfold load_interpreter.
  destruct path as [path|]; [|by apply ends_ret]. destruct ibs as [bs|]; [|by apply ends_ret].
  destruct (Hfit bs eq_refl) as (Hbs&Hlen&Ha'). apply ends_bind.
  eapply ends_lift; [by apply safe_map_err, parse_safe|]. intros image Hp.
  pose proof (Ha' image Hp) as Ha.
  destruct (parsed_fits bs image _ _ Hbs Hlen Hp Ha) as [Hb Hsf].
  apply ends_bind. unfold load_segments. rewrite Hpage in *.
  eapply ends_weaken; [apply load_list_ends; rewrite ?Hb; done|].
  intros _ m1 (Hm1&Hk1&Hs1). apply ends_bind.
  eapply ends_lift; [apply safe_add64; apply (af_entry _ _ _ Ha)|]. intros e ->.
  apply ends_bind. eapply ends_lift; [apply safe_map_err, dynamic_entries_safe|]. intros dyn _.
  by apply ends_ret.
Qed.

Lemma map_stack_ends config m : wf m -> 0 <= stack_size config < 2 ^ 63 -> u64 (stack_top config) ->
  ends (map_stack config) m
    (fun base m' => base = stack_top config - stack_size config /\ 0 <= base < stack_top config /\
       wf m' /\ keeps m m' /\ free m base (stack_top config) /\
       rw_range m' base (stack_top config - base)).
Proof.
  intros Hm Hs Ht. unfold map_stack, checked_sub. apply ends_bind.
  destruct (Z.leb_spec (stack_size config) (stack_top config)); [|done]. unfold lift, ends at 1. simpl.
  set (base := stack_top config - stack_size config). apply ends_bind. unfold ends at 1, zoom.
  assert (u64 base /\ u64 (stack_size config)) as [Hub Hus] by (unfold fits, base in *; lia).
  set (name := Some _). destruct (map_region base (stack_size config) (Z.lor READ WRITE) name m)
    as [[[]|e|] m1] eqn:Hmap; simpl; [|done|].
  - destruct (map_region_keeps _ _ _ _ _ _ Hm Hub Hus Hmap) as [Hk (r&Hr&Hb&He&Hp)].
    destruct (map_region_cases base (stack_size config) (Z.lor READ WRITE) name m Hm Hub Hus)
      as [(e&_&Herr)|[[_ Herr]|(Hpos&Hend&Hfree&m2&Hm2&Hw&_)]]; rewrite Hmap in *; [done..|]. injection Hm2 as <-.
    split; [done|]. split; [unfold base, fits in *; lia|]. split; [done|]. split; [done|].
    replace (stack_top config - base) with (stack_size config) by (unfold base; lia).
    replace (base + stack_size config) with (stack_top config) in Hfree by (unfold base; lia).
    split; [done|]. exists r. rewrite Hp. split; [|by vm_compute]. apply region_Ok_iff; [done|lia|done].
  - destruct (map_region_cases base (stack_size config) (Z.lor READ WRITE) name m Hm Hub Hus)
      as [(e&_&Herr)|[[[? _] _]|(_&_&_&m2&Hm2&_)]]; [|lia|]; by rewrite Hmap in *.
Qed.

Lemma build_stack_ends m low top argv envp input : wf m -> rw_range m low (top - low) ->
  0 <= low < top -> top < 2 ^ 64 -> Forall (Forall (fits 8)) argv -> Forall (Forall (fits 8)) envp ->
  let sp := final_sp top argv envp in
  let table := words (table_image top argv envp input) in
  ends (build_stack top low argv envp input) m (fun r m' =>
    wf m' /\ stack_pointer r = sp /\ auxv r = auxv_at top argv envp input /\ low <= sp /\
    read_bytes m' sp (len table) = Ok table /\
    read_bytes m' (strings_base top argv envp) (len (strings_image argv envp))
      = Ok (strings_image argv envp) /\
    forall b n, 0 <= n -> top <= b \/ b + n <= sp -> read_bytes m' b n = read_bytes m b n).
Proof.
  intros Hm Hrw Hlow Htop Ha He sp table. unfold ends, build_stack.
  destruct (build_guest m low top argv envp input) as [Hok Herr]; try done.
  destruct (Z.lt_ge_cases (final_sp top argv envp) low) as [Hlt|Hge].
  { by destruct (Herr Hlt) as [s ->]. }
  destruct (Hok Hge) as (m'&->&Hm'&_&[Ht|Ht]&[Hs|Hs]&Hfr); simpl in Ht, Hs; try done.
  by apply strings_image_nonempty in Hs.
Qed.

(** ** The loaded program *)

Definition bias_of (image : ElfImage) (config : LoaderConfig) : Z :=
  if is_position_independent image then position_independent_base config else 0.

(** A readable segment reads as its bytes in the file followed by zeros. *)
Definition segment_readable (image : ElfImage) (bias : Z) (m : GuestMemory) (h : ProgramHeader)
    : Prop :=
  0 < memory_size h -> contains (permissions_from_header h) READ = true ->
  read_bytes m (virtual_address h + bias) (memory_size h) = Ok (segment_image image h).

(** What a loaded program is. *)
Record program_loaded (bs : list Z) (argv envp : list (list Z)) (config : LoaderConfig)
    (p : LoadedProgram) : Prop := {
  pl_image : parse bs = Ok (lp_image p);
  pl_memory : wf (lp_memory p);
  pl_some : load_headers (lp_image p) <> [];
  pl_segments : Forall (segment_readable (lp_image p) (bias_of (lp_image p) config) (lp_memory p))
    (load_headers (lp_image p));
  pl_entry : lp_executable_entry p = image_entry (lp_image p) + bias_of (lp_image p) config;
  pl_interpreter : match lp_interpreter p with
    | None => lp_entry p = lp_executable_entry p
    | Some i => lp_entry p = image_entry (li_image i) + li_base i /\
        Forall (segment_readable (li_image i) (li_base i) (lp_memory p))
          (load_headers (li_image i))
    end;
  pl_sp : lp_stack_pointer p = final_sp (stack_top config) argv envp;
  pl_stack : exists input,
    in_entry input = lp_executable_entry p /\
    in_base input = match lp_interpreter p with Some i => li_base i | None => 0 end /\
    program_header_guest_address (lp_image p) (bias_of (lp_image p) config)
      = Ok (Some (in_phdr input)) /\
    lp_auxv p = auxv_at (stack_top config) argv envp input /\
    let table := words (table_image (stack_top config) argv envp input) in
    let text := strings_image argv envp in
    read_bytes (lp_memory p) (lp_stack_pointer p) (len table) = Ok table /\
    read_bytes (lp_memory p) (strings_base (stack_top config) argv envp) (len text) = Ok text
}.

(** A segment that was there before the stack was mapped reads the same after
    the stack is filled. *)
Lemma segment_after_stack image bias m m1 m2 h lo top sp : has_segment image bias m h ->
  free m lo top -> lo < top -> keeps m m1 -> wf m1 -> lo <= sp ->
  (forall b n, 0 <= n -> top <= b \/ b + n <= sp -> read_bytes m2 b n = read_bytes m1 b n) ->
  segment_readable image bias m2 h.
Proof.
  intros Hs Hfree Hlt Hk Hm1 Hsp Hfr Hn HR.
  destruct (has_segment_avoids image bias m h lo top Hs Hfree Hlt Hn);
    (rewrite Hfr; [apply has_segment_read; [done|by eapply has_segment_keeps|done|done]|lia|lia]).
Qed.

Section Load.
Context (bs : list Z) (ibs : option (list Z)) (argv envp : list (list Z)) (config : LoaderConfig) (k : Z).
Hypothesis Hbs : Forall (fits 8) bs.
Hypothesis Hlen : len bs < 2 ^ 64.
Hypothesis Hargv : Forall (Forall (fits 8)) argv.
Hypothesis Henvp : Forall (Forall (fits 8)) envp.
Hypothesis Hk : 0 <= k < 64.
Hypothesis Hpage : page_size config = 2 ^ k.
Hypothesis Hpie : 0 <= position_independent_base config.
Hypothesis Hbase : 0 <= interpreter_base config.
Hypothesis Hsize : 0 <= stack_size config < 2 ^ 63.
Hypothesis Htop : u64 (stack_top config).
Hypothesis Hfit : forall image, parse bs = Ok image ->
  addresses_fit image (bias_of image config) (page_size config).
Hypothesis Hifit : interpreter_fits ibs config.

Lemma load_image_ends image path dyn : parse bs = Ok image ->
  ends (load_image image path dyn ibs argv envp config) Memory.new
    (fun p _ => program_loaded bs argv envp config p).
Proof.
  intros Hp. pose proof (Hfit image Hp) as Ha. unfold load_image.
  fold (bias_of image config). set (bias := bias_of image config) in *.
  assert (0 <= bias) as Hbias by (unfold bias, bias_of; destruct (is_position_independent image); lia).
  destruct (parsed_fits bs image bias _ Hbs Hlen Hp Ha) as [Hb Hsf].
  apply ends_bind. unfold load_segments. rewrite Hpage in *.
  eapply ends_weaken; [apply load_list_ends; rewrite ?Hb; try done; by split; constructor|].
  intros _ m1 (Hm1&_&Hs1). apply ends_bind.
  destruct (bool_decide_reflect (load_headers image = [])) as [|Hne]; [apply ends_raise|apply ends_ret].
  apply ends_bind. eapply ends_lift.
  { pose proof (program_header_guest_address_safe bs image bias (2 ^ k) Hbs Hlen Hp Ha Hbias) as Hs.
    specialize (Hs ltac:(apply Z.pow_pos_nonneg; lia)).
    instantiate (1 := fun o => program_header_guest_address image bias = Ok o).
    by destruct (program_header_guest_address image bias). }
  intros phdr Hphdr. apply ends_bind.
  eapply ends_lift; [apply (safe_ok_or _ _ (fun a => phdr = Some a)); by intros|].
  intros a ->. apply ends_bind.
  eapply ends_lift; [apply safe_add64; apply (af_entry _ _ _ Ha)|]. intros ee ->.
  apply ends_bind. eapply ends_weaken; [by apply (load_interpreter_ends path ibs config k m1)|].
  intros int m2 (Hm2&Hk2&Hs2). apply ends_bind.
  eapply ends_weaken; [by apply map_stack_ends|].
  intros low m3 (Hlow&Hlt&Hm3&Hk3&Hfree&Hrw). apply ends_bind.
  eapply ends_weaken; [apply build_stack_ends; [done..|apply Htop|done|done]|].
  intros r m4 (Hm4&Hsp&Hax&Hle&Htab&Htxt&Hfr). apply ends_bind, ends_gets, ends_ret.
  assert (forall im bi hs, Forall (has_segment im bi m2) hs -> Forall (segment_readable im bi m4) hs)
    as Hread.
  { intros im bi hs Hf. eapply Forall_impl; [exact Hf|]. intros h Hh.
    by eapply (segment_after_stack im bi m2 m3 m4 h low (stack_top config)); try done; lia. }
  split; simpl; try done.
  - apply Hread. eapply Forall_impl; [exact Hs1|]. intros h. by apply has_segment_keeps.
  - destruct int as [i|]; [|done]. destruct Hs2 as [He Hs2]. split; [done|]. by apply Hread.
  - eexists. rewrite Hsp. repeat split; [..|exact Hax|exact Htab|exact Htxt]; done.
Qed.

Lemma load_safe : safe (load_dynamic_with_config bs ibs argv envp config)
  (program_loaded bs argv envp config).
Proof.
  unfold load_dynamic_with_config. eapply safe_bind; [by apply safe_map_err, parse_safe|].
  intros image Hp. eapply safe_bind; [apply safe_map_err, interpreter_path_safe|]. intros path _.
  eapply safe_bind; [apply safe_map_err, dynamic_entries_safe|]. intros dyn _.
  pose proof (load_image_ends image path dyn Hp) as H. unfold ends in H.
  by destruct (load_image image path dyn ibs argv envp config Memory.new) as [[p|e|] m].
Qed.
End Load.

(** ** Properties *)

(** C26: a loadable segment in memory.  When the segment's bytes are in the
    file and its pages in the 64-bit space, [load_segment] succeeds exactly
    when it has pages, fewer than 2^63 bytes of them, and they are all free; then
    its pages have the header's permissions, hold the bytes of the file at the
    segment's address and zeros everywhere else, and nothing else changes.  With
    free pages of 2^63 bytes or more the allocation panics and nothing changes.
    Otherwise it fails and changes nothing. *)
Theorem load_segment_effect (image : ElfImage) (h : ProgramHeader) (bias k : Z) (m : GuestMemory)
    (Hb : Forall (fits 8) (bytes image)) (Hlen : len (bytes image) < 2 ^ 64) (Hbias : 0 <= bias)
    (Hk : 0 <= k < 64) (Hfit : segment_fits image h bias (2 ^ k)) (Hm : wf m) :
  let lo := map_start h bias (2 ^ k) in
  let hi := map_end h bias (2 ^ k) in
  ((lo < hi < lo + 2 ^ 63 /\ free m lo hi) /\
   exists m', load_segment image h bias (2 ^ k) m = (Ok tt, m') /\ wf m' /\
     forall a, cell m' a = segment_cells image h bias (2 ^ k) (cell m) a) \/
  ((lo + 2 ^ 63 <= hi /\ free m lo hi) /\ load_segment image h bias (2 ^ k) m = (Panic, m)) \/
  (~ (lo < hi /\ free m lo hi) /\
   exists e, load_segment image h bias (2 ^ k) m = (Err (LMemory e), m)).
Proof.
  intros lo hi. destruct (load_segment_cases image h bias k Hb Hlen Hbias Hk Hfit m Hm)
    as [[? (m'&?&?&_&_&?)]|[?|?]]; [left|by right; left|by right; right]. split; [done|]. by exists m'.
Qed.

Lemma tiny_image_fits : segment_fits (image_at tiny_elf) tiny_segment 0 (2 ^ 4).
Proof. split; vm_compute; (split; discriminate) || discriminate || reflexivity. Qed.

Lemma load_segment_effect_witness :
  exists m', load_segment (image_at tiny_elf) tiny_segment 0 16 new = (Ok tt, m') /\ wf m' /\
    cell m' 0x400078 = Some (READ + EXECUTE, 0x0f) /\ cell m' 0x400080 = None.
Proof.
  destruct (load_segment_effect (image_at tiny_elf) tiny_segment 0 4 new)
    as [[_ (m'&H1&H2&H3)]|[[[Hbig _] _]|[Hno _]]].
  - exact tiny_elf_u8.
  - reflexivity.
  - lia.
  - lia.
  - exact tiny_image_fits.
  - split; constructor.
  - exists m'. split; [exact H1|]. split; [exact H2|]. rewrite !H3. split; vm_compute; reflexivity.
  - exfalso. apply Hbig. reflexivity.
  - exfalso. apply Hno. split; [reflexivity|]. intros a _. reflexivity.
Defined.

(** C23: a loaded program.  For any file, with or without an interpreter's
    file, whose addresses stay inside the 64-bit space and whose segments, like
    the stack, are fewer than 2^63 bytes, loading does not panic; and when it succeeds, the memory is well-formed, every readable segment of
    the executable and of the interpreter reads as its bytes in the file
    followed by zeros, also after the stack is built, the entry point is the
    interpreter's or else the executable's, and the stack pointer, tables and
    strings are those of the initial stack, with the entry point, the base of
    the interpreter and the address of the program headers in the auxiliary
    vector. *)
Theorem load_result (bs : list Z) (ibs : option (list Z)) (argv envp : list (list Z))
    (config : LoaderConfig) (k : Z) (Hbs : Forall (fits 8) bs) (Hlen : len bs < 2 ^ 64)
    (Hargv : Forall (Forall (fits 8)) argv) (Henvp : Forall (Forall (fits 8)) envp)
    (Hk : 0 <= k < 64) (Hpage : page_size config = 2 ^ k)
    (Hpie : 0 <= position_independent_base config) (Hbase : 0 <= interpreter_base config)
    (Hsize : 0 <= stack_size config < 2 ^ 63) (Htop : u64 (stack_top config))
    (Hfit : forall image, parse bs = Ok image ->
       addresses_fit image (bias_of image config) (page_size config))
    (Hifit : interpreter_fits ibs config) :
  load_dynamic_with_config bs ibs argv envp config <> Panic /\
  forall p, load_dynamic_with_config bs ibs argv envp config = Ok p ->
    program_loaded bs argv envp config p.
Proof.
  pose proof (load_safe bs ibs argv envp config k Hbs Hlen Hargv Henvp Hk Hpage Hpie Hbase Hsize
    Htop Hfit Hifit) as H. split; [by eapply safe_no_panic|]. intros p. by apply safe_Ok.
Qed.

(** Small pages and a small stack. *)
Definition demo_config : LoaderConfig := mkConfig 0x10000 512 16 0x1000 0x8000.

Lemma load_result_witness :
  exists p, load_dynamic_with_config tiny_elf None demo_argv demo_envp demo_config = Ok p /\
    lp_entry p = 0x400078 /\ program_loaded tiny_elf demo_argv demo_envp demo_config p.
Proof.
  destruct (load_result tiny_elf None demo_argv demo_envp demo_config 4) as [Hnp Hl].
  - exact tiny_elf_u8.
  - reflexivity.
  - exact demo_argv_u8.
  - exact demo_envp_u8.
  - lia.
  - reflexivity.
  - discriminate.
  - discriminate.
  - split; [discriminate|reflexivity].
  - by vm_compute.
  - intros image Hp. vm_compute in Hp. injection Hp as <-.
    split; [| |reflexivity]; intros h Hh; apply list_elem_of_singleton in Hh as ->; reflexivity.
  - intros b. discriminate.
  - eexists. split; [vm_compute; reflexivity|]. split; [reflexivity|]. apply Hl. vm_compute. reflexivity.
Defined.

(** A shared object whose segment starts at the last address. *)
Definition high_elf : list Z :=
  encode_elf 3 0 0 [mkProgramHeader Load 5 0 (2 ^ 64 - 1) 0 0 0 0x1000] [].

(** A file can make the loader panic.  [load_segment] adds the bias to a
    segment's address before the check that would report the overflow as an
    error, so there is a file that the parser accepts and on which [load]
    panics, whatever the arguments. *)
Theorem load_can_panic :
  elf_accepts high_elf /\ forall argv envp, load high_elf argv envp = Panic.
Proof.
  split; [|reflexivity].
  destruct (parse_iff high_elf) as [[_ Ha]|[[e He] _]].
  - apply encode_elf_u8. constructor.
  - reflexivity.
  - exact Ha.
  - vm_compute in He. discriminate He.
Qed.

(** A shared object with a segment of 2^63 bytes in memory and none in the file. *)
Definition large_elf : list Z :=
  encode_elf 3 0 0 [mkProgramHeader Load 6 0 0 0 0 (2 ^ 63) 0x1000] [].

(** The size of a segment in memory is the file's to choose, and its pages are
    allocated as one vector: a file the parser accepts, whose addresses all fit,
    asks for more than [isize::MAX] bytes and panics the loader. *)
Theorem large_segment_panics :
  elf_accepts large_elf /\ forall argv envp, load large_elf argv envp = Panic.
Proof.
  split; [|reflexivity].
  destruct (parse_iff large_elf) as [[_ Ha]|[[e He] _]].
  - apply encode_elf_u8. constructor.
  - reflexivity.
  - exact Ha.
  - vm_compute in He. discriminate He.
Qed.
