(* ===== verification/LoaderInv.v ===== *)
(** * Invariants of the loader

    Whatever the addresses in an image, the memory of a program that loads is
    well-formed, and its entry point and stack pointer are 64-bit numbers.
    (LoaderProps.v says when loading panics and what it leaves in memory.) *)

From S2P Require Import Prelude Memory MemorySpec Elf ElfProps Loader LoaderStack LoaderProps.

Open Scope Z_scope.

Section LoaderInv.
Abbreviation LM := (ST GuestMemory LoaderError).

Lemma align_down_fits {E} v page r : u64 v -> @align_down E v page = Ok r -> u64 r.
Proof.
  intros Hv. unfold align_down. destruct (sub64 page 1); simpl; [|done..]. intros [= <-].
  apply land_fits_l; [lia|done].
Qed.

Lemma align_up_fits {E} v page r : 0 <= v -> 0 < page -> @align_up E v page = Ok r -> u64 r.
Proof.
  intros Hv Hp. unfold align_up. destruct (add64 v page) eqn:Ha; simpl; [|done..].
  apply add64_Ok in Ha as [-> Ha]. destruct (sub64 _ 1) eqn:Hs; simpl; [|done..].
  apply sub64_Ok in Hs as [-> _]. apply align_down_fits. unfold fits. lia.
Qed.

Lemma map_with_data_wf base size p off data name : u64 base -> u64 size ->
  Forall (fits 8) data -> preserves wf (map_with_data base size p off data name).
Proof.
  intros Hb Hs Hd. unfold map_with_data.
  apply spec_bind with (Q := fun _ => True).
  - intros m Hm. split; [|done].
    destruct (map_region_cases base size p name m Hm Hb Hs) 
      as [(e&_&->)|[[_ ->]|(_&_&_&m'&->&?&_)]]; done.
  - intros _ _. apply spec_bind with (Q := fun _ => True); [by apply spec_lift|].
    intros a _. by apply load_bytes_spec.
Qed.

Lemma load_segment_wf image h bias page : Forall (fits 8) (bytes image) ->
  0 <= virtual_address h -> 0 <= memory_size h -> 0 <= bias -> 0 < page ->
  preserves wf (load_segment image h bias page).
Proof.
  intros Hb Hv Hs Hbias Hp. unfold load_segment.
  eapply spec_bind with (Q := fits 64).
  { apply spec_lift. intros a [-> Ha]%add64_Ok. unfold fits. lia. }
  intros va Hva. eapply spec_bind with (Q := fits 64).
  { apply spec_lift. intros a. by apply align_down_fits. }
  intros start Hstart. eapply spec_bind with (Q := fun e => 0 <= e).
  { apply spec_lift. intros e. destruct (_ ≫= _) as [x|] eqn:He; simpl; [|done]. intros [= <-].
    apply bind_Some in He as (y & [-> _]%checked_add_Some & [-> _]%checked_add_Some). lia. }
  intros e He. eapply spec_bind with (Q := fits 64).
  { apply spec_lift. intros a. by apply align_up_fits. }
  intros stop Hstop. eapply spec_bind with (Q := fits 64).
  { apply spec_lift. intros a [-> Ha]%sub64_Ok. unfold fits in *. lia. }
  intros size Hsize. apply spec_bind with (Q := fun _ => True); [by apply spec_lift|]. intros off _.
  apply spec_bind with (Q := fun _ => True); [by apply spec_lift|]. intros fe _.
  eapply spec_bind with (Q := Forall (fits 8)).
  { apply spec_lift. intros d Hd. by eapply slice_Forall. }
  intros d Hd. by eapply spec_zoom; [apply map_with_data_wf|..].
Qed.

(** What parsing guarantees of an image. *)
Record image_ok (image : ElfImage) : Prop := {
  io_bytes : Forall (fits 8) (bytes image);
  io_entry : 0 <= image_entry image;
  io_headers : Forall (fun h => 0 <= virtual_address h /\ 0 <= memory_size h)
                 (program_headers image)
}.

Lemma parse_image_ok bs image : Forall (fits 8) bs -> len bs < 2 ^ 64 ->
  parse bs = Ok image -> image_ok image.
Proof.
  intros Hb Hl Hp. assert (bytes image = bs /\ 0 <= image_entry image) as [Hbytes He].
  { destruct (parse_iff bs Hb Hl) as [[Hok _]|[[e He] _]]; [|congruence].
    rewrite Hok in Hp. injection Hp as <-. split; [done|]. by apply field_nonneg. }
  split; [by rewrite Hbytes|done|]. apply Forall_forall. intros h Hh.
  destruct (parsed_header_ranges bs image h Hb Hl Hp Hh) as (_&_&_&_&?&?&_). done.
Qed.

Lemma load_segments_wf image bias page : image_ok image -> 0 <= bias -> 0 < page ->
  preserves wf (load_segments image bias page).
Proof.
  intros [Hb _ Hh] Hbias Hp. apply spec_for_each. intros h Hin.
  apply list_elem_of_filter in Hin as [_ Hin]. rewrite Forall_forall in Hh.
  destruct (Hh h Hin). by apply load_segment_wf.
Qed.

(** ** The stack *)

(** The memory is well-formed and the stack pointer a 64-bit number. *)
Definition stack_ok (s : InitialStack * GuestMemory) : Prop := u64 (sp s.1) /\ wf s.2.

Lemma push_bytes_wf bs : Forall (fits 8) bs -> preserves stack_ok (push_bytes bs).
Proof.
  intros Hb s [Hs Hm]. unfold push_bytes, mbind, st_bind, gets, lift, checked_sub.
  pose proof (len_nonneg bs).
  destruct (Z.leb_spec (len bs) (sp s.1)); simpl; [|by split].
  assert (u64 (sp s.1 - len bs)) by (unfold fits in *; lia).
  destruct (_ <? floor s.1); [by split|]. unfold zoom. simpl.
  destruct (write_bytes_spec (sp s.1 - len bs) bs Hb s.2 Hm) as [Hw _].
  destruct (write_bytes _ bs s.2) as [[] m']; by split.
Qed.

Lemma push_u64_wf v : preserves stack_ok (push_u64 v).
Proof.
  apply spec_bind with (Q := fun _ => True); [apply push_bytes_wf, to_le_u8|].
  intros. by apply spec_ret.
Qed.

Lemma push_c_string_wf s : Forall (fits 8) s -> preserves stack_ok (push_c_string s).
Proof.
  intros Hs. apply push_bytes_wf, Forall_app. split; [done|]. repeat constructor; unfold fits; lia.
Qed.

Lemma push_c_strings_wf l : Forall (Forall (fits 8)) l -> preserves stack_ok (push_c_strings l).
Proof.
  induction 1 as [|s l Hs _ IH]; simpl; [by apply spec_ret|].
  apply spec_bind with (Q := fun _ => True); [by apply push_c_string_wf|]. intros p _.
  apply spec_bind with (Q := fun _ => True); [done|]. intros. by apply spec_ret.
Qed.

Lemma stack_align_down_wf align : preserves stack_ok (stack_align_down align).
Proof.
  intros s [Hs Hm]. unfold stack_align_down, mbind, st_bind, gets, lift.
  destruct (align_down (sp s.1) align) as [r| |] eqn:Hr; simpl; [|by split..].
  split; [|done]. split; [|done]. by eapply align_down_fits.
Qed.

Lemma build_wf argv envp input : Forall (Forall (fits 8)) argv -> Forall (Forall (fits 8)) envp ->
  spec stack_ok (build argv envp input) (fun r => u64 (stack_pointer r)).
Proof.
  intros Ha He. unfold build. cbv zeta.
  apply spec_bind with (Q := fun _ => True).
  { apply push_c_string_wf. destruct argv; [done|]. by apply Forall_cons in Ha as [? _]. }
  intros p _. apply spec_bind with (Q := fun _ => True).
  { apply push_bytes_wf, Forall_replicate. unfold fits. lia. }
  intros q _. apply spec_bind with (Q := fun _ => True).
  { apply push_c_strings_wf. by rewrite Forall_reverse. }
  intros env _. apply spec_bind with (Q := fun _ => True).
  { apply push_c_strings_wf. by rewrite Forall_reverse. }
  intros args _. apply spec_bind with (Q := fun _ => True); [apply stack_align_down_wf|]. intros _ _.
  apply spec_bind with (Q := fun _ => True).
  { apply spec_for_each. intros e _. unfold push_aux.
    apply spec_bind with (Q := fun _ => True); [apply push_u64_wf|]. intros. apply push_u64_wf. }
  intros _ _. do 5 (apply spec_bind with (Q := fun _ => True);
    [first [apply push_u64_wf|apply spec_for_each; intros; apply push_u64_wf]|intros _ _]).
  eapply spec_bind; [apply spec_gets; intros s [Hs _]; exact Hs|]. intros. by apply spec_ret.
Qed.

Lemma build_stack_wf top base argv envp input : u64 top -> Forall (Forall (fits 8)) argv ->
  Forall (Forall (fits 8)) envp ->
  spec wf (build_stack top base argv envp input) (fun r => u64 (stack_pointer r)).
Proof.
  intros Ht Ha He m Hm. unfold build_stack.
  destruct (build_wf argv envp input Ha He (mkStack top base, m)) as [[_ Hw] HQ]; [by split|].
  destruct (build argv envp input (mkStack top base, m)) as [r s]. by split.
Qed.

(** ** Programs *)

Record config_ok (config : LoaderConfig) : Prop := {
  co_top : u64 (stack_top config);
  co_size : 0 <= stack_size config;
  co_page : 0 < page_size config;
  co_pie : 0 <= position_independent_base config;
  co_base : 0 <= interpreter_base config
}.

Lemma default_config_ok : config_ok default_config.
Proof. by split; vm_compute. Qed.

Lemma load_interpreter_wf path ibs config : config_ok config ->
  (forall bs, ibs = Some bs -> Forall (fits 8) bs /\ len bs < 2 ^ 64) ->
  spec wf (load_interpreter path ibs config)
    (fun i => match i with Some i => u64 (li_entry i) | None => True end).
Proof.
  intros [Ht Hs Hp Hpie Hbase] Hi. unfold load_interpreter.
  destruct path as [path|]; [|by apply spec_ret]. destruct ibs as [bs|]; [|by apply spec_ret].
  destruct (Hi bs eq_refl) as [Hb Hl].
  eapply spec_bind with (Q := image_ok).
  { apply spec_lift. intros image. destruct (parse bs) as [x| |] eqn:Hx; simpl; [|done..].
    intros [= <-]. by eapply parse_image_ok. }
  intros image Hok. apply spec_bind with (Q := fun _ => True); [by apply load_segments_wf|].
  intros _ _. eapply spec_bind with (Q := fits 64).
  { apply spec_lift. intros a [-> Ha]%add64_Ok. pose proof (io_entry _ Hok). unfold fits. lia. }
  intros a Ha. apply spec_bind with (Q := fun _ => True); [by apply spec_lift|]. intros dyn _.
  by apply spec_ret.
Qed.

(** A program in memory that may run. *)
Record loaded_ok (p : LoadedProgram) : Prop := {
  lo_memory : wf (lp_memory p);
  lo_entry : u64 (lp_entry p);
  lo_sp : u64 (lp_stack_pointer p)
}.

Lemma load_image_wf image path dyn ibs argv envp config : config_ok config -> image_ok image ->
  (forall bs, ibs = Some bs -> Forall (fits 8) bs /\ len bs < 2 ^ 64) ->
  Forall (Forall (fits 8)) argv -> Forall (Forall (fits 8)) envp ->
  spec wf (load_image image path dyn ibs argv envp config) loaded_ok.
Proof.
  intros Hc Hok Hi Ha He. pose proof Hc as [Ht Hs Hp Hpie Hbase]. unfold load_image. cbv zeta.
  assert (0 <= if is_position_independent image then position_independent_base config else 0)
    as Hbias by (destruct (is_position_independent image); lia).
  apply spec_bind with (Q := fun _ => True); [by apply load_segments_wf|]. intros _ _.
  apply spec_bind with (Q := fun _ => True).
  { destruct (bool_decide _); [apply spec_raise|by apply spec_ret]. }
  intros _ _. apply spec_bind with (Q := fun _ => True); [by apply spec_lift|]. intros o _.
  apply spec_bind with (Q := fun _ => True); [by apply spec_lift|]. intros phdr _.
  eapply spec_bind with (Q := fits 64).
  { apply spec_lift. intros a [-> Hlt]%add64_Ok. pose proof (io_entry _ Hok). unfold fits. lia. }
  intros ee Hee. eapply spec_bind; [by apply load_interpreter_wf|]. intros i Hint.
  apply spec_bind with (Q := fun _ => True).
  { unfold map_stack. eapply spec_bind with (Q := fun b => u64 b /\ u64 (stack_size config)).
    - apply spec_lift. intros b. unfold checked_sub.
      destruct (Z.leb_spec (stack_size config) (stack_top config)); simpl; [|done].
      intros [= <-]. unfold fits in *. lia.
    - intros b [Hb Hss]. apply spec_bind with (Q := fun _ => True); [|intros; by apply spec_ret].
      eapply spec_zoom; [|done|done]. intros m Hm. split; [|done].
      destruct (map_region_cases b (stack_size config) (Z.lor READ WRITE)
        (Some [91; 115; 116; 97; 99; 107; 93]) m Hm Hb Hss)
        as [(e&_&->)|[[_ ->]|(_&_&_&m'&->&?&_)]]; done. }
  intros sb _. eapply spec_bind; [by apply build_stack_wf|]. intros r Hr.
  eapply spec_bind; [apply spec_gets; intros m Hm; exact Hm|]. intros m Hm.
  apply spec_ret. split; simpl; [done| |done]. by destruct i.
Qed.

Lemma load_dynamic_wf bs ibs argv envp p : Forall (fits 8) bs -> len bs < 2 ^ 64 ->
  (forall bs, ibs = Some bs -> Forall (fits 8) bs /\ len bs < 2 ^ 64) ->
  Forall (Forall (fits 8)) argv -> Forall (Forall (fits 8)) envp ->
  load_dynamic bs ibs argv envp = Ok p -> loaded_ok p.
Proof.
  intros Hb Hl Hi Ha He. unfold load_dynamic, load_dynamic_with_config.
  destruct (parse bs) as [image| |] eqn:Hp; simpl; [|done..].
  destruct (interpreter_path image) as [path| |]; simpl; [|done..].
  destruct (dynamic_entries image) as [dyn| |]; simpl; [|done..]. intros Hload.
  eapply (load_image_wf image path dyn ibs argv envp default_config); eauto using default_config_ok.
  - by eapply parse_image_ok.
  - by split; constructor.
Qed.
End LoaderInv.
