(* ===== verification/HostPath.v ===== *)
(** * Host paths: std::path on the two kinds of host

    The sources handle host paths with [std::path], whose meaning depends on the
    platform the runtime is built for: on Windows a path may start with a prefix
    (a drive, a share, a device), has two separators, and [push] replaces more
    than on Unix.  This file writes out the functions the sources use, for both
    platforms.  A [Path] is the list of its bytes: the bytes the system uses on
    Unix, WTF-8 on Windows.  ['/'] is 47, ['\\'] 92, ['.'] 46, [':'] 58, ['?'] 63. *)

From S2P Require Import Prelude.

Open Scope Z_scope.

(** [HostPlatform] of crates/ruxeon-host/src/lib.rs; [Other] is Unix. *)
Inductive HostPlatform : Type := Windows | Other.

#[export] Instance HostPlatform_eq_dec : EqDecision HostPlatform.
Proof. solve_decision. Defined.

Definition main_separator (pf : HostPlatform) : Z :=
  match pf with Windows => 92 | Other => 47 end.

Definition is_sep_byte (pf : HostPlatform) (b : Z) : bool :=
  (b =? 47) || match pf with Windows => b =? 92 | Other => false end.

(** ** Prefixes *)

Inductive Prefix : Type :=
| Verbatim (name : list Z)
| VerbatimUNC (server share : list Z)
| VerbatimDisk (drive : Z)
| DeviceNS (name : list Z)
| UNC (server share : list Z)
| Disk (drive : Z).

#[export] Instance Prefix_eq_dec : EqDecision Prefix.
Proof. solve_decision. Defined.

Definition share_len (share : list Z) : nat :=
  match share with [] => 0 | _ => S (length share) end.

(** [Prefix::len]: the bytes of the path the prefix takes. *)
Definition prefix_len (p : Prefix) : nat :=
  match p with
  | Verbatim x => 4 + length x
  | VerbatimUNC x y => 8 + length x + share_len y
  | VerbatimDisk _ => 6
  | DeviceNS x => 4 + length x
  | UNC x y => 2 + length x + share_len y
  | Disk _ => 2
  end.

Definition is_verbatim (p : Prefix) : bool :=
  match p with Verbatim _ | VerbatimUNC _ _ | VerbatimDisk _ => true | _ => false end.

Definition is_drive (p : Prefix) : bool := match p with Disk _ => true | _ => false end.

Definition has_implicit_root (p : Prefix) : bool := negb (is_drive p).

(** The bytes up to the first separator and those after it. *)
Fixpoint split_first (sep : Z -> bool) (l : list Z) : list Z * list Z :=
  match l with
  | [] => ([], [])
  | x :: l => if sep x then ([], l) else let '(a, b) := split_first sep l in (x :: a, b)
  end.

Definition verbatim_sep : Z -> bool := Z.eqb 92.

Definition is_ascii_alphabetic (b : Z) : bool :=
  ((65 <=? b) && (b <=? 90)) || ((97 <=? b) && (b <=? 122)).

Definition to_ascii_uppercase (b : Z) : Z :=
  if (97 <=? b) && (b <=? 122) then b - 32 else b.

(** [C:]. *)
Definition parse_drive (path : list Z) : option Z :=
  match path with
  | d :: c :: _ => if is_ascii_alphabetic d && (c =? 58) then Some (to_ascii_uppercase d) else None
  | _ => None
  end.

(** [C:] at the end of the path or before a separator. *)
Definition parse_drive_exact (path : list Z) : option Z :=
  match path !! 2%nat with
  | Some b => if is_sep_byte Windows b then parse_drive path else None
  | None => parse_drive path
  end.

(** The path without a literal prefix, in which ['/'] reads as ['\\']. *)
Definition strip_literal (lit path : list Z) : option (list Z) :=
  if decide (take (length lit) ((fun b => if b =? 47 then 92 else b) <$> path) = lit)
  then Some (drop (length lit) path) else None.

(** The server and the share of [server\share]. *)
Definition parse_share (sep : Z -> bool) (path : list Z) : list Z * list Z :=
  let '(server, rest) := split_first sep path in (server, (split_first sep rest).1).

Definition parse_windows_prefix (path : list Z) : option Prefix :=
  match strip_literal [92; 92] path with
  | None => Disk <$> parse_drive path
  | Some after =>
      let verbatim := match strip_literal [63; 92] after with
                      | Some rest => if existsb (Z.eqb 47) (take 4 path) then None else Some rest
                      | None => None
                      end in
      match verbatim with
      | Some rest =>
          match strip_literal [85; 78; 67; 92] rest with
          | Some rest => let '(x, y) := parse_share verbatim_sep rest in Some (VerbatimUNC x y)
          | None =>
              match parse_drive_exact rest with
              | Some d => Some (VerbatimDisk d)
              | None => Some (Verbatim (split_first verbatim_sep rest).1)
              end
          end
      | None =>
          match strip_literal [46; 92] after with
          | Some rest => Some (DeviceNS (split_first (is_sep_byte Windows) rest).1)
          | None =>
              let '(x, y) := parse_share (is_sep_byte Windows) after in
              match x, y with
              | _ :: _, _ :: _ => Some (UNC x y)
              | _, _ => None
              end
          end
      end
  end.

Definition parse_prefix (pf : HostPlatform) (path : list Z) : option Prefix :=
  match pf with Windows => parse_windows_prefix path | Other => None end.

(** ** Components *)

Inductive Component : Type :=
| CPrefix (bytes : list Z) (parsed : Prefix)
| RootDir
| CurDir
| ParentDir
| Normal (name : list Z).

(** Two prefixes are equal when they parse to the same, whatever their bytes. *)
Definition same_component (a b : Component) : bool :=
  match a, b with
  | CPrefix _ p, CPrefix _ q => bool_decide (p = q)
  | RootDir, RootDir | CurDir, CurDir | ParentDir, ParentDir => true
  | Normal x, Normal y => bool_decide (x = y)
  | _, _ => false
  end.

(** The pieces between the separators, each with the bytes from it to the end. *)
Fixpoint pieces (sep : Z -> bool) (l : list Z) : list (list Z * list Z) :=
  match l with
  | [] => [([], [])]
  | x :: l' =>
      if sep x then ([], l) :: pieces sep l'
      else match pieces sep l' with
           | [] => [([x], l)]
           | (p, _) :: ps => (x :: p, l) :: ps
           end
  end.

Definition prefix_remaining (o : option Prefix) : nat := default 0%nat (prefix_len <$> o).

Definition verbatim_path (o : option Prefix) : bool := default false (is_verbatim <$> o).

(** The bytes after the prefix start with a separator. *)
Definition has_physical_root (pf : HostPlatform) (path : list Z) : bool :=
  match drop (prefix_remaining (parse_prefix pf path)) path with
  | b :: _ => is_sep_byte pf b
  | [] => false
  end.

Definition has_root (pf : HostPlatform) (path : list Z) : bool :=
  has_physical_root pf path || default false (has_implicit_root <$> parse_prefix pf path).

(** [parse_single_component]: empty pieces, and [.] outside verbatim paths, are
    no components. *)
Definition single_component (verbatim : bool) (piece : list Z) : option Component :=
  if decide (piece = []) then None
  else if decide (piece = [46]) then (if verbatim then Some CurDir else None)
  else if decide (piece = [46; 46]) then Some ParentDir
  else Some (Normal piece).

(** A relative path that starts with [.]. *)
Definition include_cur_dir (pf : HostPlatform) (path : list Z) : bool :=
  match path with
  | b :: rest => (b =? 46) && match rest with [] => true | c :: _ => is_sep_byte pf c end
  | [] => false
  end.

(** [Path::components], each with the bytes of the path from it on. *)
Definition components_from (pf : HostPlatform) (path : list Z) : list (Component * list Z) :=
  let prefix := parse_prefix pf path in
  let rest := drop (prefix_remaining prefix) path in
  let physical := has_physical_root pf path in
  let verbatim := verbatim_path prefix in
  let sep := if verbatim then verbatim_sep else is_sep_byte pf in
  let start :=
    if physical then [(RootDir, rest)]
    else match prefix with
         | Some p => if has_implicit_root p && negb (is_verbatim p) then [(RootDir, rest)] else []
         | None => if include_cur_dir pf rest then [(CurDir, rest)] else []
         end in
  match prefix with
  | Some p => [(CPrefix (take (prefix_len p) path) p, path)]
  | None => []
  end ++ start ++
  omap (fun '(piece, from) => (fun c => (c, from)) <$> single_component verbatim piece)
    (pieces sep (if physical then drop 1 rest else rest)).

Definition components_on (pf : HostPlatform) (path : list Z) : list Component :=
  (components_from pf path).*1.

Definition is_prefix (c : Component) : bool := match c with CPrefix _ _ => true | _ => false end.

(** ** Methods of [Path] and [PathBuf] *)

Definition is_absolute_on (pf : HostPlatform) (path : list Z) : bool :=
  has_root pf path &&
  match pf with Other => true | Windows => bool_decide (is_Some (parse_prefix pf path)) end.

(** [iter_after]: what is left of a path when its first components are those of
    [base]. *)
Fixpoint iter_after (cs : list (Component * list Z)) (base : list Component)
    : option (list (Component * list Z)) :=
  match cs, base with
  | _, [] => Some cs
  | [], _ :: _ => None
  | (c, _) :: cs, b :: base => if same_component c b then iter_after cs base else None
  end.

(** [Path::strip_prefix]. *)
Definition strip_prefix (pf : HostPlatform) (path base : list Z) : option (list Z) :=
  (fun cs => match cs with (_, from) :: _ => from | [] => [] end)
    <$> iter_after (components_from pf path) (components_on pf base).

(** [Path::parent]: the bytes before the last component, if it is a name.  (A
    separator at the end of the result makes no difference to its components.) *)
Definition parent (pf : HostPlatform) (path : list Z) : option (list Z) :=
  match last (components_from pf path) with
  | Some ((Normal _ | CurDir | ParentDir), from) =>
      Some (take (length path - length from) path)
  | _ => None
  end.

(** [Path::file_name]. *)
Definition file_name (pf : HostPlatform) (path : list Z) : option (list Z) :=
  match last (components_on pf path) with Some (Normal name) => Some name | _ => None end.

(** [==] of paths compares the components. *)
Fixpoint same_components (a b : list Component) : bool :=
  match a, b with
  | [], [] => true
  | x :: a, y :: b => same_component x y && same_components a b
  | _, _ => false
  end.

Definition path_eq (pf : HostPlatform) (a b : list Z) : bool :=
  same_components (components_on pf a) (components_on pf b).

(** [PathBuf::push] on a verbatim path, which has no [.] and [..]. *)
Definition verbatim_add (buf : list Component) (c : Component) : list Component :=
  match c with
  | RootDir => take 1 buf ++ [RootDir]
  | CurDir => buf
  | ParentDir => match last buf with Some (Normal _) => take (length buf - 1) buf | _ => buf end
  | _ => buf ++ [c]
  end.

Definition component_bytes (c : Component) : list Z :=
  match c with
  | CPrefix bytes _ => bytes
  | RootDir => [92]
  | CurDir => [46]
  | ParentDir => [46; 46]
  | Normal name => name
  end.

Fixpoint print_verbatim (need_sep : bool) (cs : list Component) : list Z :=
  match cs with
  | [] => []
  | c :: cs =>
      let sep := match c with RootDir => [] | _ => if need_sep then [92] else [] end in
      let next := match c with
                  | RootDir => false
                  | CPrefix _ p => negb (is_drive p)
                  | _ => true
                  end in
      sep ++ component_bytes c ++ print_verbatim next cs
  end.

(** [PathBuf::push]. *)
Definition push_on (pf : HostPlatform) (path q : list Z) : list Z :=
  let prefix := parse_prefix pf path in
  let bare_drive := match prefix with
                    | Some p => is_drive p && bool_decide (prefix_len p = length path)
                    | None => false
                    end in
  let need_sep := match last path with Some b => negb (is_sep_byte pf b) | None => false end
                  && negb bare_drive in
  if is_absolute_on pf q || bool_decide (is_Some (parse_prefix pf q)) then q
  else if verbatim_path prefix && match q with [] => false | _ => true end then
    print_verbatim false (foldl verbatim_add (components_on pf path) (components_on pf q))
  else if has_root pf q then take (prefix_remaining prefix) path ++ q
  else if need_sep then path ++ main_separator pf :: q
  else path ++ q.

(** ** Lemmas *)

(** A path has a prefix component exactly when a prefix parses. *)
Lemma components_prefix pf path :
  existsb is_prefix (components_on pf path) = bool_decide (is_Some (parse_prefix pf path)).
Proof.
  unfold components_on, components_from. rewrite !fmap_app, !existsb_app.
  destruct (parse_prefix pf path) as [p|]; cbn [fmap list_fmap existsb is_prefix fst orb app].
  { symmetry. by apply bool_decide_eq_true. }
  rewrite bool_decide_eq_false_2 by (by intros []).
  apply orb_false_iff. split; [by repeat case_match; simplify_eq|].
  apply not_true_iff_false. rewrite existsb_exists. intros (c & Hc%list_elem_of_In & Hp).
  apply list_elem_of_fmap in Hc as ([c' from] & -> & Hc).
  apply list_elem_of_omap in Hc as ([piece from'] & _ & Hs).
  unfold single_component in Hs. cbn in Hs. by repeat case_decide; simplify_eq/=.
Qed.

(** A path that does not start with two separators has at most a drive. *)
Lemma prefix_one_separator path a b l : path = a :: b :: l ->
  is_sep_byte Windows a = false \/ is_sep_byte Windows b = false ->
  parse_windows_prefix path = Disk <$> parse_drive path.
Proof.
  intros -> Hs. unfold parse_windows_prefix, strip_literal. cbn [length].
  rewrite !fmap_cons, !firstn_cons. rewrite decide_False; [done|]. intros [= H1 H2].
  unfold is_sep_byte in Hs. revert H1 H2 Hs.
  destruct (Z.eqb_spec a 47), (Z.eqb_spec b 47), (Z.eqb_spec a 92), (Z.eqb_spec b 92);
    intros; simplify_eq/=; naive_solver.
Qed.

Lemma prefix_short path : (length path <= 1)%nat -> parse_windows_prefix path = None.
Proof.
  intros Hl. unfold parse_windows_prefix, strip_literal.
  rewrite decide_False.
  - by destruct path as [|a [|b path]]; [..|simpl in Hl; lia].
  - intros Ht. apply (f_equal length) in Ht. rewrite length_take, length_fmap in Ht.
    cbn [length] in Ht. lia.
Qed.

(** A path that starts with one slash has no prefix. *)
Lemma rooted_no_prefix pf l : (forall x l', l = x :: l' -> is_sep_byte Windows x = false) ->
  parse_prefix pf (47 :: l) = None.
Proof.
  intros Hl. destruct pf; [|done]. cbn [parse_prefix]. destruct l as [|x l'].
  - by apply prefix_short.
  - erewrite prefix_one_separator; [|done|right; by eapply Hl]. done.
Qed.

(** A name has no prefix but a drive. *)
Lemma name_prefix c : Forall (fun b => is_sep_byte Windows b = false) c ->
  parse_windows_prefix c = Disk <$> parse_drive c.
Proof.
  intros Hc. destruct c as [|a [|b c]]; [by rewrite prefix_short by (simpl; lia)..|].
  apply Forall_cons in Hc as [Ha _]. by eapply prefix_one_separator; [done|left].
Qed.

(** The pieces and what follows them hold bytes of the path, and a piece no
    separator. *)
Lemma pieces_bytes sep l p from : (p, from) ∈ pieces sep l ->
  p ⊆ l /\ from ⊆ l /\ Forall (fun b => sep b = false) p.
Proof.
  revert p from. induction l as [|x l IH]; intros p from; cbn [pieces].
  - rewrite list_elem_of_singleton. intros [= -> ->]. repeat split; done || constructor.
  - destruct (sep x) eqn:Hx.
    + rewrite elem_of_cons. intros [[= -> ->]|Hin].
      { split; [set_solver|]. split; [done|constructor]. }
      destruct (IH _ _ Hin) as (?&?&?). split; [set_solver|]. split; [set_solver|done].
    + destruct (pieces sep l) as [|[q f] ps] eqn:Hp.
      { rewrite list_elem_of_singleton. intros [= -> ->].
        split; [set_solver|]. split; [done|by repeat constructor]. }
      rewrite elem_of_cons. intros [[= -> ->]|Hin].
      * destruct (IH q f) as (?&?&?); [left|].
        split; [set_solver|]. split; [done|by constructor].
      * destruct (IH p from) as (?&?&?); [by right|].
        split; [set_solver|]. split; [set_solver|done].
Qed.

(** Where a component starts is inside the path. *)
Lemma components_from_sub pf path c from : (c, from) ∈ components_from pf path -> from ⊆ path.
Proof.
  set (rest := drop (prefix_remaining (parse_prefix pf path)) path).
  assert (rest ⊆ path) as Hr by (intros x; apply subseteq_drop).
  assert (drop 1 rest ⊆ path) as Hr1 by (intros x Hx; apply Hr; by apply subseteq_drop in Hx).
  unfold components_from. fold rest. rewrite !elem_of_app. intros [Hp|[Hs|Hb]].
  - destruct (parse_prefix pf path); [|set_solver].
    apply list_elem_of_singleton in Hp as [= _ ->]. done.
  - assert (from = rest) as ->; [|done].
    revert Hs. repeat case_match; intros Hs; set_solver.
  - apply list_elem_of_omap in Hb as ([piece from'] & Hin & Hc).
    apply pieces_bytes in Hin as (_ & Hf & _). apply fmap_Some in Hc as (c' & _ & [= _ ->]).
    destruct (has_physical_root pf path); set_solver.
Qed.

Lemma strip_prefix_sub pf path base r : strip_prefix pf path base = Some r -> r ⊆ path.
Proof.
  unfold strip_prefix. intros (cs & Hcs & ->)%fmap_Some.
  assert (forall base cs0, iter_after cs0 base = Some cs -> cs ⊆ cs0) as Hsub.
  { clear. induction base as [|b base IH]; intros [|[c f] cs0]; cbn [iter_after];
      try (intros [= <-]; done).
    destruct (same_component c b); [|done]. intros Hi%IH. set_solver. }
  apply Hsub in Hcs. destruct cs as [|[c f] cs]; [set_solver|].
  apply (components_from_sub pf path c). apply Hcs. left.
Qed.

(** The names of a Windows path. *)
Lemma component_name pf path name : Normal name ∈ components_on pf path ->
  name <> [] /\ name <> [46] /\ name <> [46; 46] /\ name ⊆ path /\
  (pf = Windows -> 92 ∉ name).
Proof.
  unfold components_on. intros ([c from] & Hc & Hin)%list_elem_of_fmap. cbn in Hc. subst c.
  unfold components_from in Hin. set (rest := drop _ _) in Hin.
  assert (rest ⊆ path) as Hr by (intros x; apply subseteq_drop).
  assert (drop 1 rest ⊆ path) as Hr1 by (intros x Hx; apply Hr; by apply subseteq_drop in Hx).
  rewrite !elem_of_app in Hin. destruct Hin as [Hp|[Hs|Hb]].
  - destruct (parse_prefix pf path); set_solver.
  - exfalso. revert Hs. repeat case_match; set_solver.
  - apply list_elem_of_omap in Hb as ([piece from'] & Hin & Hc).
    apply pieces_bytes in Hin as (Hp & _ & Hsep). apply fmap_Some in Hc as (c' & Hs & [= <- ->]).
    unfold single_component in Hs. repeat case_decide; simplify_eq/=; [by case_match|].
    do 3 (split; [done|]). split; [destruct (has_physical_root pf path); set_solver|].
    intros -> Hin. rewrite Forall_forall in Hsep. specialize (Hsep _ Hin).
    by destruct (verbatim_path _).
Qed.
