(* ===== verification/Host.v ===== *)
(** * The host: what the runtime asks of the system it runs on

    The sources reach the host through the standard library ([std::fs],
    [std::io], [SystemTime]) and the crate crossterm.  None of that is code of
    the repository: class [Host] is its interface, over an abstract state
    [World], and class [HostLaws] states the documented behaviour the runtime
    relies on.  The platform is a field of the class: the methods of paths, which
    HostPath.v writes out for both platforms, and [to_string_lossy] follow it.
    The file also holds the operations on texts of the standard library that the
    sources use, and the functions of crates/ruxeon-host/src/lib.rs. *)

From Stdlib Require Import String Ascii.
From S2P Require Import Prelude Elf HostPath.

Open Scope Z_scope.

(** ** Texts *)

(** The bytes of a string literal. *)
Definition text (s : string) : list Z :=
  (fun a => Z.of_N (N_of_ascii a)) <$> list_ascii_of_string s.

(** [str::split(c)]: the pieces between the separators, empty ones included. *)
Fixpoint split_on (c : Z) (l : list Z) : list (list Z) :=
  match l with
  | [] => [[]]
  | x :: l =>
      if x =? c then [] :: split_on c l
      else match split_on c l with
           | [] => [[x]]
           | p :: ps => (x :: p) :: ps
           end
  end.

(** [parts.join(sep)] with a separator of one byte. *)
Fixpoint join_with (c : Z) (ps : list (list Z)) : list Z :=
  match ps with
  | [] => []
  | [p] => p
  | p :: ps => p ++ c :: join_with c ps
  end.

(** [str::replace(from, to)] of one byte by one byte. *)
Definition replace_byte (from to : Z) (l : list Z) : list Z :=
  (fun x => if x =? from then to else x) <$> l.

Definition starts_with (c : Z) (l : list Z) : bool :=
  match l with x :: _ => x =? c | [] => false end.

(** U+FFFD, the replacement character. *)
Definition REPLACEMENT : list Z := [0xef; 0xbf; 0xbd].

(** [String::from_utf8_lossy], which is [Path::to_string_lossy] on Unix: every
    maximal ill-formed prefix becomes one replacement character. *)
Fixpoint from_utf8_lossy (bs : list Z) : list Z :=
  match bs with
  | [] => []
  | b0 :: bs1 =>
      if b0 <? 0x80 then b0 :: from_utf8_lossy bs1
      else if (0xc2 <=? b0) && (b0 <=? 0xdf) then
        match bs1 with
        | b1 :: bs2 =>
            if continuation b1 then b0 :: b1 :: from_utf8_lossy bs2
            else REPLACEMENT ++ from_utf8_lossy bs1
        | [] => REPLACEMENT
        end
      else if (0xe0 <=? b0) && (b0 <=? 0xef) then
        match bs1 with
        | b1 :: bs2 =>
            if second_of_three b0 b1 then
              match bs2 with
              | b2 :: bs3 =>
                  if continuation b2 then b0 :: b1 :: b2 :: from_utf8_lossy bs3
                  else REPLACEMENT ++ from_utf8_lossy bs2
              | [] => REPLACEMENT
              end
            else REPLACEMENT ++ from_utf8_lossy bs1
        | [] => REPLACEMENT
        end
      else if (0xf0 <=? b0) && (b0 <=? 0xf4) then
        match bs1 with
        | b1 :: bs2 =>
            if second_of_four b0 b1 then
              match bs2 with
              | b2 :: bs3 =>
                  if continuation b2 then
                    match bs3 with
                    | b3 :: bs4 =>
                        if continuation b3
                        then b0 :: b1 :: b2 :: b3 :: from_utf8_lossy bs4
                        else REPLACEMENT ++ from_utf8_lossy bs3
                    | [] => REPLACEMENT
                    end
                  else REPLACEMENT ++ from_utf8_lossy bs2
              | [] => REPLACEMENT
              end
            else REPLACEMENT ++ from_utf8_lossy bs1
        | [] => REPLACEMENT
        end
      else REPLACEMENT ++ from_utf8_lossy bs1
  end.

(** [Path::to_string_lossy] on Windows, where the bytes are WTF-8: a surrogate
    that stands alone becomes one replacement character. *)
Fixpoint wtf8_lossy (bs : list Z) : list Z :=
  match bs with
  | [] => []
  | b0 :: bs1 =>
      match bs1 with
      | b1 :: _ :: bs3 =>
          if (b0 =? 0xed) && (0xa0 <=? b1) then REPLACEMENT ++ wtf8_lossy bs3
          else b0 :: wtf8_lossy bs1
      | _ => b0 :: wtf8_lossy bs1
      end
  end.

(** A host [Path] is the list of its bytes. *)
Abbreviation PathBuf := (list Z).

(** ** The interface *)

(** [io::ErrorKind], as far as the sources tell the kinds apart. *)
Inductive IoErrorKind : Type :=
| NotFound | PermissionDenied | AlreadyExists | InvalidInput | WouldBlock | OtherKind.

(** What the sources ask of a [fs::Metadata]; [md_modified] is the time of
    modification since the epoch in seconds and nanoseconds. *)
Record Metadata : Type := mkMetadata {
  md_is_dir : bool;
  md_is_symlink : bool;
  md_len : Z;
  md_readonly : bool;
  md_modified : option (Z * Z)
}.

(** A [fs::DirEntry]: its name and whether its [file_type] is a directory. *)
Record DirEntry : Type := mkDirEntry {
  de_file_name : list Z;
  de_is_dir : res IoErrorKind bool
}.

Record OpenOptions : Type := mkOpenOptions {
  oo_read : bool;
  oo_write : bool;
  oo_create : bool;
  oo_truncate : bool;
  oo_append : bool
}.

Class Host : Type := {
  (** the platform the runtime is built for, [current_platform] *)
  platform : HostPlatform;
  World : Type;
  (** an open [std::fs::File] *)
  File : Type;
  (** [std::fs] *)
  symlink_metadata : PathBuf -> World -> res IoErrorKind Metadata;
  metadata : PathBuf -> World -> res IoErrorKind Metadata;
  read_link : PathBuf -> World -> res IoErrorKind PathBuf;
  read_dir : PathBuf -> World -> res IoErrorKind (list (res IoErrorKind DirEntry));
  fs_read : PathBuf -> World -> res IoErrorKind (list Z);
  create_dir : PathBuf -> ST World IoErrorKind unit;
  remove_dir : PathBuf -> ST World IoErrorKind unit;
  remove_file : PathBuf -> ST World IoErrorKind unit;
  (** files: [read] into a buffer of the given length returns the bytes read *)
  open_file : OpenOptions -> PathBuf -> ST World IoErrorKind File;
  file_read : File -> Z -> ST World IoErrorKind (list Z);
  file_write : File -> list Z -> ST World IoErrorKind Z;
  file_seek_start : File -> Z -> ST World IoErrorKind unit;
  file_seek_end : File -> ST World IoErrorKind unit;
  file_position : File -> ST World IoErrorKind Z;
  file_try_clone : File -> ST World IoErrorKind File;
  file_metadata : File -> World -> res IoErrorKind Metadata;
  (** the standard streams *)
  stdin_read : Z -> ST World IoErrorKind (list Z);
  stdout_write_all : list Z -> ST World IoErrorKind unit;
  stdout_flush : ST World IoErrorKind unit;
  stderr_write_all : list Z -> ST World IoErrorKind unit;
  stderr_flush : ST World IoErrorKind unit;
  stdin_is_terminal : World -> bool;
  (** crossterm *)
  event_poll : World -> res IoErrorKind bool;
  crossterm_size : World -> option (Z * Z);
  enable_raw_mode : ST World IoErrorKind unit;
  disable_raw_mode : ST World IoErrorKind unit;
  (** seconds and nanoseconds since the epoch; an error before the epoch *)
  system_time : ST World unit (Z * Z);
  sleep : Z -> Z -> World -> World;
  (** [DefaultHasher] over the fields of the metadata and the path *)
  metadata_hash : Metadata -> option PathBuf -> Z;
  (** the order in which a [HashMap] visits its entries, which Rust leaves open *)
  visit : forall {A}, gmap Z A -> list (Z * A);
  visit_perm : forall {A} (m : gmap Z A), visit m ≡ₚ map_to_list m
}.

(** [m] does not panic, and a value it returns satisfies [Q]. *)
Definition behaves {S E A} (m : ST S E A) (Q : A -> Prop) : Prop :=
  forall s, safe (m s).1 Q.

(** The target of a link: bytes without NUL; on Windows, a target with a prefix
    comes from a name space whose only separator is the backslash, and in which
    no name holds a slash. *)
Definition link_target `{Host} (t : PathBuf) : Prop :=
  Forall u8 t /\ (0 ∉ t) /\ (is_Some (parse_prefix platform t) -> 47 ∉ t).

(** The longest name of a directory entry on Linux. *)
Definition NAME_MAX : Z := 255.

(** The documented behaviour of the host the runtime relies on: no call panics,
    a vector holds at most [isize::MAX] bytes, a read fills at most the buffer, a
    write takes at most the bytes given, the target of a link is a path of the host, and
    numbers are in the range of their types. *)
Class HostLaws `{Host} : Prop := {
  symlink_metadata_ok : forall p w, safe (symlink_metadata p w) (fun md => u64 (md_len md));
  metadata_ok : forall p w, safe (metadata p w) (fun md => u64 (md_len md));
  read_link_ok : forall p w, safe (read_link p w) link_target;
  read_dir_ok : forall p w, safe (read_dir p w)
    (Forall (fun e => safe e (fun d => Forall u8 (de_file_name d) /\
                                       len (de_file_name d) <= NAME_MAX /\
                                       safe (de_is_dir d) (fun _ => True))));
  fs_read_ok : forall p w, safe (fs_read p w) (fun bs => Forall u8 bs /\ len bs < 2 ^ 63);
  create_dir_ok : forall p, behaves (create_dir p) (fun _ => True);
  remove_dir_ok : forall p, behaves (remove_dir p) (fun _ => True);
  remove_file_ok : forall p, behaves (remove_file p) (fun _ => True);
  open_file_ok : forall o p, behaves (open_file o p) (fun _ => True);
  file_read_ok : forall f n, behaves (file_read f n) (fun bs => Forall u8 bs /\ len bs <= n);
  file_write_ok : forall f bs, behaves (file_write f bs) (fun n => 0 <= n <= len bs);
  file_seek_start_ok : forall f n, behaves (file_seek_start f n) (fun _ => True);
  file_seek_end_ok : forall f, behaves (file_seek_end f) (fun _ => True);
  file_position_ok : forall f, behaves (file_position f) u64;
  file_try_clone_ok : forall f, behaves (file_try_clone f) (fun _ => True);
  file_metadata_ok : forall f w, safe (file_metadata f w) (fun md => u64 (md_len md));
  stdin_read_ok : forall n, behaves (stdin_read n) (fun bs => Forall u8 bs /\ len bs <= n);
  stdout_write_all_ok : forall bs, behaves (stdout_write_all bs) (fun _ => True);
  stdout_flush_ok : behaves stdout_flush (fun _ => True);
  stderr_write_all_ok : forall bs, behaves (stderr_write_all bs) (fun _ => True);
  stderr_flush_ok : behaves stderr_flush (fun _ => True);
  event_poll_ok : forall w, safe (event_poll w) (fun _ => True);
  crossterm_size_ok : forall w c r, crossterm_size w = Some (c, r) -> u16 c /\ u16 r;
  enable_raw_mode_ok : behaves enable_raw_mode (fun _ => True);
  disable_raw_mode_ok : behaves disable_raw_mode (fun _ => True);
  system_time_ok : behaves system_time (fun t => u64 (fst t) /\ 0 <= snd t < 1000000000);
  metadata_hash_ok : forall md p, u64 (metadata_hash md p)
}.

(** ** Paths of the host *)

Section Paths.
Context `{Host}.

Definition is_absolute (p : PathBuf) : bool := is_absolute_on platform p.

Definition path_push (p q : PathBuf) : PathBuf := push_on platform p q.

Definition to_string_lossy (p : PathBuf) : list Z :=
  match platform with Windows => wtf8_lossy p | Other => from_utf8_lossy p end.
End Paths.

(** ** crates/ruxeon-host/src/lib.rs *)

Record TerminalSize : Type := mkTerminalSize {
  ts_rows : Z;
  ts_cols : Z;
  ts_xpixel : Z;
  ts_ypixel : Z
}.

Section Functions.
Context `{Host}.

Lemma elem_of_visit {A} (m : gmap Z A) i x : (i, x) ∈ visit m <-> m !! i = Some x.
Proof. by rewrite visit_perm, elem_of_map_to_list. Qed.

Lemma NoDup_fst_visit {A} (m : gmap Z A) : NoDup (visit m).*1.
Proof. rewrite visit_perm. apply NoDup_fst_map_to_list. Qed.

Definition terminal_size (w : World) : option TerminalSize :=
  option_map (fun '(cols, rows) => mkTerminalSize rows cols 0 0) (crossterm_size w).

(** [stdin_ready(Duration::ZERO)], the only timeout used. *)
Definition stdin_ready (w : World) : res IoErrorKind bool :=
  if negb (stdin_is_terminal w) then Ok true else event_poll w.

Definition set_raw_mode (raw : bool) : ST World IoErrorKind unit := fun w =>
  if negb (stdin_is_terminal w) then (Ok tt, w)
  else (if raw then enable_raw_mode else disable_raw_mode) w.

(** The result of [disable_raw_mode] is ignored. *)
Definition reset_terminal_mode (w : World) : World := (disable_raw_mode w).2.
End Functions.
