(* ===== verification/ExampleHost.v ===== *)
(** * A small host in memory

    An executable instance of the interface of Host.v, with a file system of
    directories, files and symbolic links kept by full path, open files with a
    shared position, the standard streams and a clock.  It shows that the laws
    of [HostLaws] can be met and makes the witnesses executable; it models no
    code of the repository. *)

From Stdlib Require Import String.
From S2P Require Import Prelude Elf HostPath Host.

Open Scope Z_scope.

Inductive node : Type :=
| NDir
| NFile (content : list Z)
| NLink (target : list Z).

Record world : Type := mkWorld {
  nodes : gmap (list Z) node;
  opened : list (list Z * Z);
  input : list Z;
  output : list Z;
  errors : list Z;
  clock : Z;
  raw_mode : bool;
  tty : bool
}.

Definition bytes_of (l : list Z) : list Z := wrap 8 <$> l.

Definition set_nodes (f : gmap (list Z) node -> gmap (list Z) node) (w : world) : world :=
  mkWorld (f (nodes w)) (opened w) (input w) (output w) (errors w) (clock w) (raw_mode w)
    (tty w).

Definition set_opened (f : list (list Z * Z) -> list (list Z * Z)) (w : world) : world :=
  mkWorld (nodes w) (f (opened w)) (input w) (output w) (errors w) (clock w) (raw_mode w)
    (tty w).

Definition set_streams (i o e : list Z) (w : world) : world :=
  mkWorld (nodes w) (opened w) i o e (clock w) (raw_mode w) (tty w).

Definition set_raw (b : bool) (w : world) : world :=
  mkWorld (nodes w) (opened w) (input w) (output w) (errors w) (clock w) b (tty w).

Definition tick (t : Z) (w : world) : world :=
  mkWorld (nodes w) (opened w) (input w) (output w) (errors w) (clock w + t) (raw_mode w)
    (tty w).

Definition metadata_of (n : node) : Metadata :=
  match n with
  | NDir => mkMetadata true false 0 false None
  | NFile content => mkMetadata false false (wrap 64 (len content)) false None
  | NLink target => mkMetadata false true (wrap 64 (len target)) false None
  end.

Definition ex_symlink_metadata (p : list Z) (w : world) : res IoErrorKind Metadata :=
  ok_or (metadata_of <$> nodes w !! p) NotFound.

(** Links are not followed: the paths the runtime asks about hold none. *)
Definition ex_read_link (pf : HostPlatform) (p : list Z) (w : world) : res IoErrorKind (list Z) :=
  match nodes w !! p with
  | Some (NLink target) =>
      let t := bytes_of target in
      if existsb (Z.eqb 0) t ||
         (bool_decide (is_Some (parse_prefix pf t)) && existsb (Z.eqb 47) t)
      then Err InvalidInput else Ok t
  | Some _ => Err InvalidInput
  | None => Err NotFound
  end.

Definition ex_fs_read (p : list Z) (w : world) : res IoErrorKind (list Z) :=
  match nodes w !! p with
  | Some (NFile content) =>
      if len content <? 2 ^ 63 then Ok (bytes_of content) else Err OtherKind
  | Some _ => Err OtherKind
  | None => Err NotFound
  end.

Definition child_name (p q : list Z) : option (list Z) :=
  let prefix := p ++ [47] in
  if decide (take (length prefix) q = prefix)
  then Some (drop (length prefix) q) else None.

Definition ex_read_dir (p : list Z) (w : world)
    : res IoErrorKind (list (res IoErrorKind DirEntry)) :=
  Ok (omap (fun '(q, n) =>
        name ← child_name p q;
        if NAME_MAX <? len name then None else
        Some (Ok (mkDirEntry (bytes_of name)
                    (Ok (match n with NDir => true | _ => false end)))))
      (map_to_list (nodes w))).

Definition ex_create_dir (p : list Z) : ST world IoErrorKind unit := fun w =>
  match nodes w !! p with
  | Some _ => (Err AlreadyExists, w)
  | None => (Ok tt, set_nodes (<[p := NDir]>) w)
  end.

Definition ex_remove (p : list Z) : ST world IoErrorKind unit := fun w =>
  match nodes w !! p with
  | Some _ => (Ok tt, set_nodes (delete p) w)
  | None => (Err NotFound, w)
  end.

Definition ex_open (o : OpenOptions) (p : list Z) : ST world IoErrorKind nat := fun w =>
  let fd := length (opened w) in
  match nodes w !! p with
  | Some (NFile content) =>
      let w := if oo_truncate o then set_nodes (<[p := NFile []]>) w else w in
      (Ok fd, set_opened (fun l => l ++ [(p, 0)]) w)
  | Some _ => (Err OtherKind, w)
  | None =>
      if oo_create o
      then (Ok fd, set_opened (fun l => l ++ [(p, 0)]) (set_nodes (<[p := NFile []]>) w))
      else (Err NotFound, w)
  end.

Definition content_of (p : list Z) (w : world) : list Z :=
  match nodes w !! p with Some (NFile content) => bytes_of content | _ => [] end.

Definition ex_file_read (f : nat) (n : Z) : ST world IoErrorKind (list Z) := fun w =>
  match opened w !! f with
  | Some (p, pos) =>
      let bs := take (Z.to_nat n) (drop (Z.to_nat pos) (content_of p w)) in
      if n <? 0 then (Err InvalidInput, w)
      else (Ok bs, set_opened (<[f := (p, pos + len bs)]>) w)
  | None => (Err OtherKind, w)
  end.

Definition ex_file_write (f : nat) (bs : list Z) : ST world IoErrorKind Z := fun w =>
  match opened w !! f with
  | Some (p, pos) =>
      let old := content_of p w in
      let new := take (Z.to_nat pos) old ++ bs ++ drop (Z.to_nat (pos + len bs)) old in
      (Ok (len bs), set_opened (<[f := (p, pos + len bs)]>) (set_nodes (<[p := NFile new]>) w))
  | None => (Err OtherKind, w)
  end.

Definition ex_seek (f : nat) (position : world -> list Z -> Z) : ST world IoErrorKind unit :=
  fun w =>
  match opened w !! f with
  | Some (p, _) => (Ok tt, set_opened (<[f := (p, position w p)]>) w)
  | None => (Err OtherKind, w)
  end.

Definition ex_position (f : nat) : ST world IoErrorKind Z := fun w =>
  match opened w !! f with
  | Some (_, pos) => (Ok (wrap 64 pos), w)
  | None => (Err OtherKind, w)
  end.

Definition ex_file_metadata (f : nat) (w : world) : res IoErrorKind Metadata :=
  match opened w !! f with
  | Some (p, _) => ex_symlink_metadata p w
  | None => Err OtherKind
  end.

Definition ex_stdin_read (n : Z) : ST world IoErrorKind (list Z) := fun w =>
  if n <? 0 then (Err InvalidInput, w) else
  (Ok (take (Z.to_nat n) (bytes_of (input w))),
   set_streams (drop (Z.to_nat n) (input w)) (output w) (errors w) w).

(** The host on either platform. *)
Definition host_on (pf : HostPlatform) : Host := {|
  platform := pf;
  World := world;
  File := nat;
  symlink_metadata := ex_symlink_metadata;
  metadata := ex_symlink_metadata;
  read_link := ex_read_link pf;
  read_dir := ex_read_dir;
  fs_read := ex_fs_read;
  create_dir := ex_create_dir;
  remove_dir := ex_remove;
  remove_file := ex_remove;
  open_file := ex_open;
  file_read := ex_file_read;
  file_write := ex_file_write;
  file_seek_start f n := ex_seek f (fun _ _ => n);
  file_seek_end f := ex_seek f (fun w p => len (content_of p w));
  file_position := ex_position;
  file_try_clone f := mret f;
  file_metadata := ex_file_metadata;
  stdin_read := ex_stdin_read;
  stdout_write_all bs := modify (fun w => set_streams (input w) (output w ++ bs) (errors w) w);
  stdout_flush := mret tt;
  stderr_write_all bs := modify (fun w => set_streams (input w) (output w) (errors w ++ bs) w);
  stderr_flush := mret tt;
  stdin_is_terminal := tty;
  event_poll w := Ok (negb (bool_decide (input w = [])));
  crossterm_size w := if tty w then Some (132, 43) else None;
  enable_raw_mode := modify (set_raw true);
  disable_raw_mode := modify (set_raw false);
  system_time w := (Ok (wrap 64 (clock w), 0), tick 1 w);
  sleep s _ := tick s;
  metadata_hash md _ := wrap 64 (md_len md);
  visit _ m := map_to_list m;
  visit_perm _ m := Permutation_refl _
|}.

(** The host the witnesses use is a Unix host. *)
#[export] Instance example_host : Host := host_on Other.

Lemma bytes_of_u8 l : Forall u8 (bytes_of l).
Proof. apply Forall_fmap, Forall_true. intros x. by apply wrap_fits. Qed.

Lemma no_byte b l : existsb (Z.eqb b) l = false -> b ∉ l.
Proof.
  intros E Hin. apply not_true_iff_false in E. destruct E. apply existsb_exists.
  exists b. by rewrite Z.eqb_refl, <- list_elem_of_In.
Qed.

Lemma metadata_of_len n : u64 (md_len (metadata_of n)).
Proof. destruct n; simpl; [done|by apply wrap_fits..]. Qed.

Lemma ex_symlink_metadata_ok p w :
  safe (ex_symlink_metadata p w) (fun md => u64 (md_len md)).
Proof.
  unfold ex_symlink_metadata. destruct (nodes w !! p); simpl; [apply metadata_of_len|done].
Qed.

Lemma take_u8 n l : 0 <= n -> Forall u8 l -> Forall u8 (take (Z.to_nat n) l) /\
  len (take (Z.to_nat n) l) <= n.
Proof. intros. split; [by apply Forall_take|]. unfold len. rewrite length_take. lia. Qed.

Lemma content_of_u8 p w : Forall u8 (content_of p w).
Proof. unfold content_of. destruct (nodes w !! p) as [[]|]; try done. apply bytes_of_u8. Qed.

Lemma ex_read_dir_ok p w : safe (ex_read_dir p w)
  (Forall (fun e => safe e (fun d => Forall u8 (de_file_name d) /\
                                     len (de_file_name d) <= NAME_MAX /\
                                     safe (de_is_dir d) (fun _ => True)))).
Proof.
  simpl. induction (map_to_list (nodes w)) as [|[q n] l IH]; [constructor|].
  simpl. destruct (child_name p q) as [name|]; simpl; [|done].
  destruct (Z.ltb_spec NAME_MAX (len name)); simpl; [done|].
  constructor; [|done]. split; [apply bytes_of_u8|]. split; [|done].
  unfold len in *. simpl. unfold bytes_of. rewrite length_fmap. done.
Qed.

Lemma host_on_laws pf : HostLaws (H:=host_on pf).
Proof.
  split; cbn; try (intros; done); try (intros; apply ex_symlink_metadata_ok).
  - intros p w. unfold ex_read_link. destruct (nodes w !! p) as [[]|]; simpl; try done.
    destruct (existsb (Z.eqb 0) (bytes_of target)) eqn:E0; simpl; [done|].
    destruct (bool_decide_reflect (is_Some (parse_prefix pf (bytes_of target))));
      destruct (existsb (Z.eqb 47) (bytes_of target)) eqn:E1; simpl; try done;
      (split; [apply bytes_of_u8|]); (split; [by apply no_byte|]); intros; by apply no_byte || done.
  - apply ex_read_dir_ok.
  - intros p w. unfold ex_fs_read. destruct (nodes w !! p) as [[]|]; simpl; try done.
    destruct (Z.ltb_spec (len content) (2 ^ 63)); simpl; [|done].
    split; [apply bytes_of_u8|]. unfold len, bytes_of in *. by rewrite length_fmap.
  - intros p w. unfold ex_create_dir. by destruct (nodes w !! p).
  - intros p w. unfold ex_remove. by destruct (nodes w !! p).
  - intros p w. unfold ex_remove. by destruct (nodes w !! p).
  - intros o p w. unfold ex_open. destruct (nodes w !! p) as [[]|]; try done.
    by destruct (oo_create o).
  - intros f n w. unfold ex_file_read. destruct (opened w !! f) as [[p pos]|]; [|done].
    destruct (Z.ltb_spec n 0); [done|]. simpl.
    apply take_u8; [lia|]. apply Forall_drop, content_of_u8.
  - intros f bs w. unfold ex_file_write. destruct (opened w !! f) as [[p pos]|]; [|done].
    simpl. pose proof (len_nonneg bs). lia.
  - intros f n w. unfold ex_seek. by destruct (opened w !! f) as [[]|].
  - intros f w. unfold ex_seek. by destruct (opened w !! f) as [[]|].
  - intros f w. unfold ex_position. destruct (opened w !! f) as [[]|]; [|done].
    by apply wrap_fits.
  - intros f w. unfold ex_file_metadata. destruct (opened w !! f) as [[]|]; [|done].
    apply ex_symlink_metadata_ok.
  - intros n w. unfold ex_stdin_read. destruct (Z.ltb_spec n 0); [done|]. simpl.
    apply take_u8; [lia|apply bytes_of_u8].
  - intros w c r. destruct (tty w); [|done]. by intros [= <- <-].
  - intros w. simpl. split; [by apply wrap_fits|lia].
  - intros md _. by apply wrap_fits.
Qed.

#[export] Instance example_host_laws : HostLaws (H:=example_host) := host_on_laws Other.
