(* ===== verification/Fs.v ===== *)
(** * The guest file system: crates/ruxeon-fs/src/lib.rs

    Guest paths, their lexical normalization, the resolution of symbolic links
    inside the root directory, and the virtual files under /dev and /proc.

    Host paths are those of the platform of the host (HostPath.v): on Unix
    [Path::components] never yields a [Component::Prefix], so that the checks for
    a Windows prefix are false and the part of [symlink_target_guest_path] after
    its first [return] is not reached; on Windows they are.  A [String] is the
    list of its bytes; ['/'] is 47, ['\\'] 92, ['.'] 46. *)

From Stdlib Require Import String.
From S2P Require Import Prelude Elf HostPath Host.

Open Scope Z_scope.

(** ** Data *)

Definition MAX_SYMLINK_EXPANSIONS : Z := 40.

Inductive FsError : Type := EmptyPath | WindowsPrefix | NulByte | TooManySymlinks.

#[export] Instance FsError_eq_dec : EqDecision FsError.
Proof. solve_decision. Defined.

Record GuestPath : Type := mkGuestPath { raw : list Z }.

Record RootFs : Type := mkRootFs { host_root : PathBuf }.

Inductive VirtualFile : Type :=
| DevNull | DevZero | DevRandom | DevURandom | ProcSelfExe | ProcVersion | ProcCpuInfo
| ProcMemInfo.

#[export] Instance VirtualFile_eq_dec : EqDecision VirtualFile.
Proof. solve_decision. Defined.

Inductive ResolvedPath : Type :=
| RHost (guest : GuestPath) (host : PathBuf)
| RVirtual (guest : GuestPath) (file : VirtualFile).

(** ** Guest paths *)

Definition root : GuestPath := mkGuestPath [47].

Definition is_nonempty {A} (l : list A) : bool := match l with [] => false | _ => true end.

(** [split('/').filter(|part| !part.is_empty())]. *)
Definition split_path (s : list Z) : list (list Z) :=
  List.filter is_nonempty (split_on 47 s).

Definition components (g : GuestPath) : list (list Z) := split_path (raw g).

(** [if parts.is_empty() { "/" } else { format!("/{}", parts.join("/")) }]. *)
Definition guest_from_components (parts : list (list Z)) : GuestPath :=
  if is_nonempty parts then mkGuestPath (47 :: join_with 47 parts) else root.

(** [Vec::pop], its result ignored. *)
Definition pop_part {A} (l : list A) : list A := take (length l - 1) l.

(** The body of the loop over the parts of the new path. *)
Definition add_part (parts : list (list Z)) (part : list Z) : list (list Z) :=
  if decide (part = [] \/ part = [46]) then parts
  else if decide (part = [46; 46]) then pop_part parts
  else parts ++ [part].

Section Fs.
Context `{Host}.

(** Some component of a host path is a Windows prefix. *)
Definition has_windows_prefix (path : list Z) : bool :=
  existsb is_prefix (components_on platform path).

Definition from_parts (cwd path : list Z) : res FsError GuestPath :=
  if negb (is_nonempty path) then Err EmptyPath
  else if existsb (Z.eqb 0) path then Err NulByte
  else if has_windows_prefix path then Err WindowsPrefix
  else
    let normalized := replace_byte 92 47 path in
    let parts := if starts_with 47 normalized then [] else split_path cwd in
    Ok (guest_from_components (foldl add_part parts (split_on 47 normalized))).

Definition parse_path (path : list Z) : res FsError GuestPath := from_parts [47] path.

Definition join (g : GuestPath) (path : list Z) : res FsError GuestPath :=
  from_parts (raw g) path.

(** ** Virtual files *)

Definition from_guest_path (path : list Z) : option VirtualFile :=
  if decide (path = text "/dev/null") then Some DevNull
  else if decide (path = text "/dev/zero") then Some DevZero
  else if decide (path = text "/dev/random") then Some DevRandom
  else if decide (path = text "/dev/urandom") then Some DevURandom
  else if decide (path = text "/proc/self/exe") then Some ProcSelfExe
  else if decide (path = text "/proc/version") then Some ProcVersion
  else if decide (path = text "/proc/cpuinfo") then Some ProcCpuInfo
  else if decide (path = text "/proc/meminfo") then Some ProcMemInfo
  else None.

(** The loop of both [deterministic_random] functions: a 64-bit xorshift. *)
Fixpoint xorshift (n : nat) (state : Z) : list Z :=
  match n with
  | O => []
  | S n =>
      let state := Z.lxor state (wrap 64 (Z.shiftl state 7)) in
      let state := Z.lxor state (Z.shiftr state 9) in
      let state := Z.lxor state (wrap 64 (Z.shiftl state 8)) in
      wrap 8 state :: xorshift n state
  end.

Definition RANDOM_SEED : Z := 0x52555845_4f4e.

Definition virtual_write (v : VirtualFile) (bytes : list Z) : Z :=
  match v with DevNull => len bytes | _ => 0 end.

(** [deterministic_random], seeded with the clock. *)
Definition fs_random (n : Z) {E} : ST World E (list Z) := fun w =>
  let '(t, w) := system_time w in
  let nanos := match t with
               | Ok (secs, nanos) => wrap 64 (secs * 1000000000 + nanos)
               | _ => RANDOM_SEED
               end in
  (capacity n ;; Ok (xorshift (Z.to_nat n) (Z.lxor nanos RANDOM_SEED)), w).

Definition newline : list Z := [10].
Definition tab : list Z := [9].

(** [read_bytes]; the bytes are cut to [max_len] at the end. *)
Definition read_virtual {E} (v : VirtualFile) (proc_self_exe : list Z) (max_len : Z)
    : ST World E (list Z) :=
  bytes ← match v with
          | DevNull => mret []
          | DevZero => lift (capacity max_len ;; Ok (replicate (Z.to_nat max_len) 0))
          | DevRandom | DevURandom => fs_random max_len
          | ProcSelfExe => mret proc_self_exe
          | ProcVersion =>
              mret (text "Linux version 6.0.0-ruxeon (ruxeon) #1 x86_64" ++ newline)
          | ProcCpuInfo =>
              mret (text "processor" ++ tab ++ text ": 0" ++ newline
                    ++ text "vendor_id" ++ tab ++ text ": Ruxeon" ++ newline
                    ++ text "model name" ++ tab ++ text ": Ruxeon virtual x86_64"
                    ++ newline ++ newline)
          | ProcMemInfo =>
              mret (text "MemTotal:        1048576 kB" ++ newline
                    ++ text "MemFree:          524288 kB" ++ newline)
          end;
  mret (take (Z.to_nat (Z.min max_len (len bytes))) bytes).

(** ** Resolution *)

Definition host_path (fs : RootFs) (g : GuestPath) : PathBuf :=
  foldl path_push (host_root fs) (components g).

(** The names among the components of a host path. *)
Definition path_components (path : PathBuf) : list (list Z) :=
  omap (fun c => match c with Normal part => Some part | _ => None end)
    (components_on platform path).

Definition guest_from_names (names : list (list Z)) : GuestPath :=
  guest_from_components (to_string_lossy <$> names).

Definition guest_from_host_relative (path : PathBuf) : GuestPath :=
  guest_from_names (path_components path).

(** A target below the parent of the root directory: the name of the root
    directory itself is left out. *)
Definition guest_beside_root (root_name : option (list Z)) (relative : PathBuf) : GuestPath :=
  let relative_components := path_components relative in
  match root_name, relative_components with
  | Some name, first :: rest =>
      if decide (first = name) then guest_from_names rest else guest_from_names relative_components
  | _, _ => guest_from_names relative_components
  end.

Definition symlink_target_guest_path (fs : RootFs) (parent_guest : GuestPath) (target : PathBuf)
    : res FsError GuestPath :=
  let target_text := to_string_lossy target in
  if negb (has_windows_prefix target) then
    if is_absolute target then parse_path target_text else join parent_guest target_text
  else
    match strip_prefix platform target (host_root fs) with
    | Some relative => Ok (guest_from_host_relative relative)
    | None =>
        match parent platform (host_root fs) ≫= strip_prefix platform target with
        | Some relative => Ok (guest_beside_root (file_name platform (host_root fs)) relative)
        | None => Err WindowsPrefix
        end
    end.

(** How one pass over the components ends: all of them are resolved, or a link
    was found and the pass starts again on another path. *)
Inductive Pass : Type :=
| Resolved (parts : list (list Z))
| Expanded (next : GuestPath).

(** The path that replaces [resolved/component/rest] when [component] is a
    link. *)
Definition expand_link (fs : RootFs) (w : World) (resolved : list (list Z))
    (component : list Z) (rest : list (list Z)) : res FsError GuestPath :=
  let candidate_host := host_path fs (guest_from_components (resolved ++ [component])) in
  target ← match read_link candidate_host w with
           | Ok t => Ok t
           | Err _ => Ok component
           | Panic => Panic
           end;
  next_guest ← symlink_target_guest_path fs (guest_from_components resolved) target;
  if is_nonempty rest then join next_guest (join_with 47 rest) else Ok next_guest.

(** The inner loop; [expansions] counts the links found so far. *)
Fixpoint pass (fs : RootFs) (w : World) (expansions : Z) (resolved todo : list (list Z))
    : res FsError (Pass * Z) :=
  match todo with
  | [] => Ok (Resolved resolved, expansions)
  | component :: rest =>
      let candidate_host := host_path fs (guest_from_components (resolved ++ [component])) in
      match symlink_metadata candidate_host w with
      | Ok md =>
          if md_is_symlink md then
            let expansions := expansions + 1 in
            if MAX_SYMLINK_EXPANSIONS <? expansions then Err TooManySymlinks else
            next ← expand_link fs w resolved component rest;
            Ok (Expanded next, expansions)
          else pass fs w expansions (resolved ++ [component]) rest
      | Err NotFound => Ok (Resolved (resolved ++ component :: rest), expansions)
      | Err _ => pass fs w expansions (resolved ++ [component]) rest
      | Panic => Panic
      end
  end.

(** The outer loop, [None] when the fuel runs out. *)
Fixpoint resolve_loop (fuel : nat) (fs : RootFs) (w : World) (guest : GuestPath)
    (expansions : Z) : option (res FsError GuestPath) :=
  match fuel with
  | O => None
  | S fuel =>
      match pass fs w expansions [] (components guest) with
      | Ok (Resolved parts, _) => Some (Ok (guest_from_components parts))
      | Ok (Expanded next, expansions) => resolve_loop fuel fs w next expansions
      | Err e => Some (Err e)
      | Panic => Some Panic
      end
  end.

(** One pass more than the number of links that may be expanded. *)
Definition RESOLVE_FUEL : nat := 41.

Definition resolve_guest_path (fs : RootFs) (cwd : GuestPath) (path : list Z) (w : World)
    : res FsError GuestPath :=
  guest ← join cwd path;
  default Panic (resolve_loop RESOLVE_FUEL fs w guest 0).

Definition resolve (fs : RootFs) (cwd : GuestPath) (path : list Z) (w : World)
    : res FsError ResolvedPath :=
  guest ← resolve_guest_path fs cwd path w;
  match from_guest_path (raw guest) with
  | Some file => Ok (RVirtual guest file)
  | None => Ok (RHost guest (host_path fs guest))
  end.

Definition resolve_host (fs : RootFs) (cwd : GuestPath) (path : list Z) (w : World)
    : res FsError (GuestPath * PathBuf) :=
  r ← resolve fs cwd path w;
  match r with
  | RHost guest host => Ok (guest, host)
  | RVirtual guest _ => Ok (guest, host_path fs guest)
  end.

Definition resolved_guest (r : ResolvedPath) : GuestPath :=
  match r with RHost guest _ | RVirtual guest _ => guest end.

Definition resolved_host (r : ResolvedPath) : option PathBuf :=
  match r with RHost _ host => Some host | RVirtual _ _ => None end.

Definition resolved_file (r : ResolvedPath) : option VirtualFile :=
  match r with RVirtual _ file => Some file | RHost _ _ => None end.
End Fs.
