(* ===== verification/FsProps.v ===== *)
(** * Path normalization and symbolic links: what resolution guarantees

    A normalized path has only plain components, and printing it and splitting
    it again are inverse.  Resolution expands the first link of the path, at
    most forty times: it always returns, its result is the end of a chain of
    expansions, and no component of it is a link, so that the host path does not
    leave the root directory, on Windows unless a component names a drive. *)

From stdpp Require Import relations.
From Stdlib Require Import String.
From S2P Require Import Prelude Elf HostPath Host ExampleHost Fs.

Open Scope Z_scope.

(** ** Normalized paths *)

(** A component that the file system reads as a plain name. *)
Record plain (c : list Z) : Prop := {
  plain_nonempty : c <> [];
  plain_not_dot : c <> [46];
  plain_not_dotdot : c <> [46; 46];
  plain_slash : 47 ∉ c;
  plain_backslash : 92 ∉ c;
  plain_nul : 0 ∉ c
}.

#[export] Instance plain_dec c : Decision (plain c).
Proof.
  refine (cast_if (decide (c <> [] /\ c <> [46] /\ c <> [46; 46] /\ (47 ∉ c) /\ (92 ∉ c) /\ (0 ∉ c))));
    [by constructor; naive_solver|by intros []; naive_solver].
Defined.

(** A path built from plain components, as every path the code makes. *)
Definition proper (g : GuestPath) : Prop :=
  exists ps, Forall plain ps /\ g = guest_from_components ps.

Lemma split_on_nonempty c l : split_on c l <> [].
Proof.
  induction l as [|x l IH]; simpl; [done|]. destruct (x =? c); [done|].
  by destruct (split_on c l).
Qed.

Lemma split_on_app c p l : c ∉ p -> split_on c (p ++ c :: l) = p :: split_on c l.
Proof.
  induction p as [|x p IH]; intros Hp; simpl.
  - by rewrite Z.eqb_refl.
  - apply not_elem_of_cons in Hp as [Hx Hp]. rewrite (IH Hp).
    destruct (Z.eqb_spec x c); [congruence|done].
Qed.

Lemma split_on_single c p : c ∉ p -> split_on c p = [p].
Proof.
  induction p as [|x p IH]; intros Hp; simpl; [done|].
  apply not_elem_of_cons in Hp as [Hx Hp]. rewrite (IH Hp).
  destruct (Z.eqb_spec x c); [congruence|done].
Qed.

(** Splitting what was joined. *)
Lemma split_on_join c ps : ps <> [] -> Forall (fun p => c ∉ p) ps ->
  split_on c (join_with c ps) = ps.
Proof.
  intros Hne Hps. induction Hps as [|p ps Hp Hps IH]; [done|].
  destruct ps as [|q ps]; [by apply split_on_single|].
  cbn [join_with]. rewrite split_on_app by done. f_equal. by apply IH.
Qed.

(** The pieces of a split hold bytes of the text, and no separator. *)
Lemma split_on_pieces c l p : p ∈ split_on c l -> (c ∉ p) /\ p ⊆ l.
Proof.
  revert p. induction l as [|x l IH]; intros p; simpl.
  - rewrite list_elem_of_singleton. intros ->. set_solver.
  - destruct (Z.eqb_spec x c) as [->|Hx].
    + rewrite elem_of_cons. intros [->|Hp]; [set_solver|]. destruct (IH p Hp). set_solver.
    + destruct (split_on c l) as [|q qs] eqn:Hs; [by apply split_on_nonempty in Hs|].
      rewrite elem_of_cons. intros [->|Hp].
      * destruct (IH q) as [H1 H2]; [set_solver|]. set_solver.
      * destruct (IH p) as [H1 H2]; set_solver.
Qed.

Lemma filter_nonempty_id (ps : list (list Z)) :
  Forall (fun p => p <> []) ps -> List.filter is_nonempty ps = ps.
Proof. induction 1 as [|p ps Hp _ IH]; simpl; [done|]. rewrite IH. by destruct p. Qed.

Lemma plain_no_slash ps : Forall plain ps -> Forall (fun p => 47 ∉ p) ps.
Proof. intros. eapply Forall_impl; [done|]. by intros ? []. Qed.

Lemma plain_all_nonempty ps : Forall plain ps -> Forall (fun p => p <> []) ps.
Proof. intros. eapply Forall_impl; [done|]. by intros ? []. Qed.

Lemma components_of ps : Forall plain ps -> components (guest_from_components ps) = ps.
Proof.
  intros Hps. unfold components, split_path, guest_from_components.
  destruct ps as [|p ps]; [done|]. cbn [is_nonempty raw].
  change (split_on 47 (47 :: join_with 47 (p :: ps)))
    with ([] :: split_on 47 (join_with 47 (p :: ps))).
  rewrite split_on_join by (auto using plain_no_slash).
  change (List.filter is_nonempty ([] :: p :: ps)) with (List.filter is_nonempty (p :: ps)).
  by apply filter_nonempty_id, plain_all_nonempty.
Qed.

Lemma proper_components g : proper g ->
  Forall plain (components g) /\ g = guest_from_components (components g).
Proof. intros (ps & Hps & ->). by rewrite components_of. Qed.

Lemma proper_root : proper root.
Proof. by exists []. Qed.

(** ** Joining *)

(** A byte string in which a component can have no forbidden byte. *)
Definition clean (l : list Z) : Prop := (92 ∉ l) /\ (0 ∉ l).

Lemma add_part_plain parts p : Forall plain parts -> 47 ∉ p -> clean p ->
  Forall plain (add_part parts p).
Proof.
  intros Hps Hs [Hb Hn]. unfold add_part.
  case_decide as H1; [done|]. case_decide as H2; [by apply Forall_take|].
  apply Forall_app. split; [done|]. apply Forall_singleton. constructor; tauto.
Qed.

Lemma foldl_add_part_plain ps parts : Forall plain parts ->
  (forall p, p ∈ ps -> (47 ∉ p) /\ clean p) -> Forall plain (foldl add_part parts ps).
Proof.
  revert parts. induction ps as [|p ps IH]; intros parts Hparts Hps; simpl; [done|].
  apply IH; [|intros q Hq; apply Hps; by right].
  destruct (Hps p) as [H1 H2]; [by left|].
  by apply add_part_plain.
Qed.

Lemma existsb_nul l : existsb (Z.eqb 0) l = false <-> 0 ∉ l.
Proof.
  induction l as [|x l IH]; cbn [existsb]; [split; [intros _; apply not_elem_of_nil|done]|].
  rewrite orb_false_iff, IH, not_elem_of_cons. destruct (Z.eqb_spec 0 x); intuition congruence.
Qed.

Lemma replace_byte_clean l : 0 ∉ l -> clean (replace_byte 92 47 l).
Proof.
  intros H0. unfold clean, replace_byte. rewrite !list_elem_of_fmap.
  split; intros (x & Hx & Hl); destruct (Z.eqb_spec x 92); congruence.
Qed.

Lemma replace_byte_id l : 92 ∉ l -> replace_byte 92 47 l = l.
Proof.
  unfold replace_byte. induction l as [|x l IH]; intros H; [done|].
  apply not_elem_of_cons in H as [Hx Hl]. rewrite fmap_cons, IH by done.
  destruct (Z.eqb_spec x 92); congruence.
Qed.

(** Joining a path to a proper one: the three errors, or a proper path. *)
Lemma join_cases `{Host} g path : proper g ->
  (path = [] /\ join g path = Err EmptyPath) \/
  (path <> [] /\ (0 ∈ path) /\ join g path = Err NulByte) \/
  (path <> [] /\ (0 ∉ path) /\ has_windows_prefix path = true /\
   join g path = Err WindowsPrefix) \/
  (path <> [] /\ (0 ∉ path) /\ has_windows_prefix path = false /\
   exists g', join g path = Ok g' /\ proper g').
Proof.
  intros [Hg _]%proper_components. unfold join, from_parts.
  destruct path as [|x path]; [by left|]. right. cbn [is_nonempty negb].
  destruct (existsb (Z.eqb 0) (x :: path)) eqn:H0.
  - left. split; [done|]. split; [|done].
    destruct (decide (0 ∈ x :: path)) as [|Hn]; [done|].
    apply existsb_nul in Hn. congruence.
  - right. apply existsb_nul in H0. destruct (has_windows_prefix (x :: path)); [by left|right].
    do 3 (split; [done|]). eexists. split; [done|]. eexists. split; [|done].
    apply foldl_add_part_plain.
    + by destruct (starts_with _ _).
    + intros p Hp%split_on_pieces. pose proof (replace_byte_clean _ H0) as [Hb Hn].
      destruct Hp as [Hs Hsub]. unfold clean. set_solver.
Qed.

(** A join that succeeds, or fails with an error that is not the bound. *)
Lemma join_total `{Host} g path : proper g ->
  (exists e, join g path = Err e /\ e <> TooManySymlinks) \/
  (exists g', join g path = Ok g' /\ proper g').
Proof.
  intros Hg. destruct (join_cases g path Hg)
    as [[_ ->]|[(_ & _ & ->)|[(_ & _ & _ & ->)|(_ & _ & _ & g' & -> & Hg')]]]; eauto.
Qed.

Lemma join_proper `{Host} g path g' : proper g -> join g path = Ok g' -> proper g'.
Proof.
  intros Hg Hj. destruct (join_total g path Hg) as [(e & E & _)|(g2 & E & Hg2)]; congruence.
Qed.

Lemma foldl_add_plain ps parts : Forall plain ps -> foldl add_part parts ps = parts ++ ps.
Proof.
  intros Hps. revert parts. induction Hps as [|p ps [] _ IH]; intros parts; simpl.
  - by rewrite app_nil_r.
  - rewrite IH. unfold add_part. rewrite !decide_False by naive_solver.
    by rewrite <- app_assoc.
Qed.

Lemma join_with_elem c ps x : x ∈ join_with c ps -> x = c \/ exists p, p ∈ ps /\ (x ∈ p).
Proof.
  induction ps as [|p [|q ps] IH]; cbn [join_with]; [set_solver..|].
  rewrite elem_of_app, elem_of_cons. intros [|[|H%IH]]; [set_solver..|].
  destruct H as [|(r & Hr & Hx)]; set_solver.
Qed.

Lemma join_with_clean ps : Forall plain ps ->
  (0 ∉ join_with 47 ps) /\ (92 ∉ join_with 47 ps).
Proof.
  rewrite Forall_forall.
  intros Hps. split; intros [|(p & Hp & Hx)]%join_with_elem; try done;
    by destruct (Hps p Hp).
Qed.

Lemma join_with_head p ps : Forall plain (p :: ps) ->
  exists x l, join_with 47 (p :: ps) = x :: l /\ is_sep_byte Windows x = false.
Proof.
  intros [Hp _]%Forall_cons. destruct Hp as [Hne _ _ Hs Hb _].
  destruct p as [|x p]; [done|]. exists x.
  assert (is_sep_byte Windows x = false) as Hx.
  { unfold is_sep_byte. apply orb_false_iff. rewrite !Z.eqb_neq. set_solver. }
  destruct ps as [|q ps]; cbn [join_with app]; eexists; split; done.
Qed.

(** Printing a proper path and parsing it again. *)
Lemma parse_raw `{Host} cwd g : proper cwd -> proper g -> join cwd (raw g) = Ok g.
Proof.
  intros Hc (ps & Hps & ->). destruct (join_with_clean ps Hps) as [H0 Hb].
  unfold join, from_parts, guest_from_components, has_windows_prefix.
  destruct ps as [|p ps].
  { cbn [is_nonempty raw negb root]. rewrite components_prefix, rooted_no_prefix by done. done. }
  cbn [is_nonempty raw negb]. rewrite components_prefix, rooted_no_prefix.
  2:{ intros x l E. destruct (join_with_head p ps Hps) as (y & l' & E' & Hy). congruence. }
  rewrite (bool_decide_eq_false_2 (is_Some None)) by (by intros []).
  assert (forall x, x <> 47 -> x ∉ join_with 47 (p :: ps) -> x ∉ 47 :: join_with 47 (p :: ps))
    as Hcons by (intros x ??; by apply not_elem_of_cons).
  rewrite (proj2 (existsb_nul _)), replace_byte_id by auto.
  cbn [starts_with]. rewrite Z.eqb_refl.
  change (split_on 47 (47 :: join_with 47 (p :: ps)))
    with ([] :: split_on 47 (join_with 47 (p :: ps))).
  rewrite split_on_join; [|done|by apply plain_no_slash].
  change (foldl add_part [] ([] :: p :: ps)) with (foldl add_part [] (p :: ps)).
  by rewrite foldl_add_plain.
Qed.

(** ** Names of the host *)

(** The lossy text of a WTF-8 name holds its bytes and those of the replacement
    character, and is as short only when nothing is replaced. *)
Lemma wtf8_lossy_elem l x : x ∈ wtf8_lossy l -> (x ∈ l) \/ (x ∈ REPLACEMENT).
Proof.
  assert (forall n l, (length l <= n)%nat -> x ∈ wtf8_lossy l -> (x ∈ l) \/ (x ∈ REPLACEMENT)) as Hn;
    [|by apply (Hn (length l))].
  clear l. induction n as [|n IH]; intros l Hl; [destruct l; [set_solver|simpl in Hl; lia]|].
  destruct l as [|b0 bs1]; [set_solver|]. cbn [wtf8_lossy]. simpl in Hl.
  assert (x ∈ b0 :: wtf8_lossy bs1 -> (x ∈ b0 :: bs1) \/ (x ∈ REPLACEMENT)) as Hkeep.
  { rewrite !elem_of_cons. intros [->|Hx]; [tauto|]. destruct (IH bs1 ltac:(lia) Hx); tauto. }
  destruct bs1 as [|b1 [|b2 bs3]]; [done|done|]. destruct (_ && _); [|done].
  rewrite elem_of_app. intros [Hx|Hx]; [by right|].
  destruct (IH bs3) as [?|?]; [simpl in Hl; lia|done|set_solver|by right].
Qed.

Lemma wtf8_lossy_short l : (length (wtf8_lossy l) < 3)%nat -> wtf8_lossy l = l.
Proof.
  assert (forall l, (length l < 3)%nat -> wtf8_lossy l = l) as Hs
    by (intros [|a [|b [|c l']]]; simpl; intros; done || lia).
  destruct l as [|a [|b [|c l']]]; [done..|]. intros Hl. exfalso. revert Hl.
  cbn [wtf8_lossy]. destruct (_ && _); [cbn [REPLACEMENT app length]; lia|].
  destruct l' as [|d l'].
  - simpl. lia.
  - destruct (_ && _); cbn [REPLACEMENT app length]; [lia|]. destruct l'; [simpl; lia|].
    destruct (_ && _); cbn [REPLACEMENT app length]; lia.
Qed.

Lemma plain_lossy c : plain c -> plain (wtf8_lossy c).
Proof.
  intros [H1 H2 H3 H4 H5 H6].
  assert (forall l, (length l < 3)%nat -> c <> l -> wtf8_lossy c <> l) as Hshort.
  { intros l Hl Hc E. apply Hc. rewrite <- E. symmetry. apply wtf8_lossy_short. by rewrite E. }
  assert (forall b, (b ∉ REPLACEMENT) -> b ∉ c -> b ∉ wtf8_lossy c) as Hb
    by (intros b ?? []%wtf8_lossy_elem; done).
  split; (apply Hshort || apply Hb); try done; try (simpl; lia); unfold REPLACEMENT; set_solver.
Qed.

(** A path made of the names of a part of a Windows target is proper. *)
Lemma names_proper `{Host} names : platform = Windows ->
  Forall plain names -> proper (guest_from_names names).
Proof.
  intros Hw Hn. exists (to_string_lossy <$> names). split; [|done].
  apply Forall_fmap. eapply Forall_impl; [exact Hn|]. intros c Hc. cbn.
  unfold to_string_lossy. rewrite Hw. by apply plain_lossy.
Qed.

Lemma path_components_plain `{Host} path : platform = Windows -> (0 ∉ path) -> (47 ∉ path) ->
  Forall plain (path_components path).
Proof.
  intros Hw H0 H47. apply Forall_forall. intros name Hn. unfold path_components in Hn.
  apply list_elem_of_omap in Hn as (c & Hc & E). destruct c; simplify_eq/=.
  apply component_name in Hc as (?&?&?&Hsub&Hb). split; try done; [set_solver|by apply Hb|set_solver].
Qed.

Lemma relative_proper `{Host} r target : platform = Windows -> (0 ∉ target) -> (47 ∉ target) ->
  r ⊆ target ->
  proper (guest_from_host_relative r) /\ forall name, proper (guest_beside_root name r).
Proof.
  intros Hw H0 H47 Hr.
  assert (Forall plain (path_components r)) as Hp by (apply path_components_plain; set_solver).
  split; [by apply names_proper|]. intros name. unfold guest_beside_root.
  destruct name as [name|]; [|by apply names_proper].
  destruct (path_components r) as [|c cs]; [by apply names_proper|].
  apply Forall_cons in Hp as [Hc Hcs]. case_decide; apply names_proper; auto.
Qed.

(** ** Resolution *)

Section Resolve.
Context `{HostLaws} (fs : RootFs) (w : World).
Implicit Types ps pre : list (list Z).

(** The host path of a list of components. *)
Definition host_at ps : PathBuf := host_path fs (guest_from_components ps).

Definition link_at ps : Prop :=
  exists md, symlink_metadata (host_at ps) w = Ok md /\ md_is_symlink md = true.

Definition missing_at ps : Prop := symlink_metadata (host_at ps) w = Err NotFound.

(** Every component so far exists and is not a link. *)
Definition walked ps : Prop :=
  forall pre, pre <> [] -> pre `prefix_of` ps -> ~ link_at pre /\ ~ missing_at pre.

(** No component is a link, except below one that does not exist. *)
Definition settled ps : Prop :=
  forall pre, pre <> [] -> pre `prefix_of` ps -> link_at pre ->
    exists pre', pre' <> [] /\ pre' `prefix_of` pre /\ pre' <> pre /\ missing_at pre'.

(** The first link of [ps] is the component [c]. *)
Record first_link ps resolved c rest : Prop := {
  fl_split : ps = resolved ++ c :: rest;
  fl_link : link_at (resolved ++ [c]);
  fl_walked : walked resolved
}.

(** One expansion: the first link is replaced by its target. *)
Definition expands (g g' : GuestPath) : Prop :=
  exists resolved c rest, first_link (components g) resolved c rest /\
    expand_link fs w resolved c rest = Ok g'.

Lemma prefix_snoc ps c pre : pre `prefix_of` ps ++ [c] ->
  pre `prefix_of` ps \/ pre = ps ++ [c].
Proof.
  intros [k Hk]. destruct k as [|x k _] using rev_ind.
  - right. by rewrite app_nil_r in Hk.
  - left. rewrite app_assoc in Hk. apply app_inj_tail in Hk as [-> _]. by exists k.
Qed.

Lemma walked_snoc ps c : walked ps -> ~ link_at (ps ++ [c]) -> ~ missing_at (ps ++ [c]) ->
  walked (ps ++ [c]).
Proof. intros Hw Hl Hm pre Hne [Hp| ->]%prefix_snoc; [by apply Hw|done]. Qed.

Lemma walked_settled ps : walked ps -> settled ps.
Proof. intros Hw pre Hne Hp Hl. by destruct (Hw pre Hne Hp) as [? _]. Qed.

Lemma missing_settled ps c rest : walked ps -> missing_at (ps ++ [c]) ->
  settled (ps ++ c :: rest).
Proof.
  intros Hw Hm pre Hne Hp Hl.
  destruct (decide (length pre <= length ps)%nat) as [Hle|Hgt].
  - exfalso. destruct (Hw pre) as [Hn _]; [done| |done].
    destruct (prefix_weak_total pre ps (ps ++ c :: rest)) as [Hq|[k ->]];
      [done|by exists (c :: rest)|done|].
    rewrite length_app in Hle. destruct k; [|simpl in Hle; lia]. by rewrite app_nil_r.
  - assert (ps ++ [c] `prefix_of` pre) as Hpre.
    { destruct (prefix_weak_total (ps ++ [c]) pre (ps ++ c :: rest)) as [Hq|Hq];
        [by exists rest; rewrite <- app_assoc|done|done|].
      apply prefix_snoc in Hq as [Hq| ->]; [|done]. apply prefix_length in Hq. lia. }
    exists (ps ++ [c]). split; [by destruct ps|]. split; [done|]. split; [|done].
    intros <-. destruct Hl as (md & Hmd & _). unfold missing_at in Hm. congruence.
Qed.

(** A pass over the components: it stops at the first link, or goes through. *)
Lemma pass_cases expansions resolved todo : walked resolved ->
  (exists resolved' c rest, first_link (resolved ++ todo) resolved' c rest /\
     pass fs w expansions resolved todo =
       (if MAX_SYMLINK_EXPANSIONS <? expansions + 1 then Err TooManySymlinks
        else next ← expand_link fs w resolved' c rest; Ok (Expanded next, expansions + 1))) \/
  (settled (resolved ++ todo) /\
   pass fs w expansions resolved todo = Ok (Resolved (resolved ++ todo), expansions)).
Proof.
  revert resolved. induction todo as [|c rest IH]; intros resolved Hw; cbn [pass].
  { right. rewrite app_nil_r. by split; [apply walked_settled|]. }
  pose proof (symlink_metadata_ok (host_at (resolved ++ [c])) w) as Hsafe.
  assert (~ link_at (resolved ++ [c]) -> ~ missing_at (resolved ++ [c]) ->
    (exists resolved' c' rest', first_link (resolved ++ c :: rest) resolved' c' rest' /\
       pass fs w expansions (resolved ++ [c]) rest =
       (if MAX_SYMLINK_EXPANSIONS <? expansions + 1 then Err TooManySymlinks
        else next ← expand_link fs w resolved' c' rest';
             Ok (Expanded next, expansions + 1))) \/
    (settled (resolved ++ c :: rest) /\
     pass fs w expansions (resolved ++ [c]) rest =
       Ok (Resolved (resolved ++ c :: rest), expansions))) as Hgo.
  { intros Hl Hm. replace (resolved ++ c :: rest) with ((resolved ++ [c]) ++ rest)
      by (by rewrite <- app_assoc).
    apply IH. by apply walked_snoc. }
  unfold link_at, missing_at in Hgo.
  fold (host_at (resolved ++ [c])).
  destruct (symlink_metadata (host_at (resolved ++ [c])) w) as [md|e|] eqn:Hmd;
    [|destruct e|done].
  - destruct (md_is_symlink md) eqn:Hs.
    + left. exists resolved, c, rest. split; [|done]. split; [done| |done]. by exists md.
    + apply Hgo; [|congruence]. intros (md' & Hmd' & Hs'). congruence.
  - right. split; [|done]. by apply missing_settled.
  - apply Hgo; [|congruence]. intros (md' & Hmd' & _). congruence.
  - apply Hgo; [|congruence]. intros (md' & Hmd' & _). congruence.
  - apply Hgo; [|congruence]. intros (md' & Hmd' & _). congruence.
  - apply Hgo; [|congruence]. intros (md' & Hmd' & _). congruence.
  - apply Hgo; [|congruence]. intros (md' & Hmd' & _). congruence.
Qed.
(** The first link is unique, and there is none in a settled path. *)
Lemma first_link_le ps r c rest r' c' rest' : first_link ps r c rest ->
  first_link ps r' c' rest' -> (length r' <= length r)%nat.
Proof.
  intros [Hs Hl _] [Hs' _ Hw']. destruct (decide (length r' <= length r)%nat); [done|].
  exfalso. destruct (Hw' (r ++ [c])) as [Hn _]; [by destruct r| |done].
  destruct (prefix_weak_total (r ++ [c]) r' ps) as [Hp|Hp]; [..|done|].
  - exists rest. by rewrite <- app_assoc.
  - by exists (c' :: rest').
  - apply prefix_snoc in Hp as [Hp| ->]; [|done]. apply prefix_length in Hp. lia.
Qed.

Lemma first_link_unique ps r c rest r' c' rest' : first_link ps r c rest ->
  first_link ps r' c' rest' -> r = r' /\ c = c' /\ rest = rest'.
Proof.
  intros H1 H2. pose proof (first_link_le _ _ _ _ _ _ _ H1 H2).
  pose proof (first_link_le _ _ _ _ _ _ _ H2 H1).
  destruct H1 as [-> _ _], H2 as [Hs _ _].
  apply app_inj_1 in Hs as [-> Hs]; [|lia]. by injection Hs as -> ->.
Qed.

Lemma settled_no_link ps r c rest : settled ps -> first_link ps r c rest -> False.
Proof.
  intros Hst [-> Hl Hw]. destruct (Hst (r ++ [c])) as (pre & Hne & Hp & Hn & Hm); [..|done|].
  - by destruct r.
  - exists rest. by rewrite <- app_assoc.
  - apply prefix_snoc in Hp as [Hp|]; [|done]. by destruct (Hw pre Hne Hp).
Qed.

Lemma expands_det g g1 g2 : expands g g1 -> expands g g2 -> g1 = g2.
Proof.
  intros (r & c & rest & H1 & E1) (r' & c' & rest' & H2 & E2).
  destruct (first_link_unique _ _ _ _ _ _ _ H1 H2) as (<- & <- & <-). congruence.
Qed.

Lemma settled_stuck g : settled (components g) -> forall g', ~ expands g g'.
Proof. intros Hs g' (r & c & rest & Hfl & _). by edestruct settled_no_link. Qed.

Lemma failing_stuck g r c rest e : first_link (components g) r c rest ->
  expand_link fs w r c rest = Err e -> forall g', ~ expands g g'.
Proof.
  intros Hfl He g' (r' & c' & rest' & Hfl' & He').
  destruct (first_link_unique _ _ _ _ _ _ _ Hfl Hfl') as (<- & <- & <-). congruence.
Qed.

(** The target of a link is a proper path, or one of three errors. *)
Lemma target_cases dir target : proper dir -> (0 ∉ target) ->
  (is_Some (parse_prefix platform target) -> 47 ∉ target) ->
  (exists e, symlink_target_guest_path fs dir target = Err e /\ e <> TooManySymlinks) \/
  (exists g, symlink_target_guest_path fs dir target = Ok g /\ proper g).
Proof.
  intros Hp Hnul H47. unfold symlink_target_guest_path, has_windows_prefix.
  rewrite components_prefix. case_bool_decide as Hpre; cbn [negb].
  - assert (platform = Windows) as Hw by (by destruct platform; [|destruct Hpre]).
    pose proof (fun r => relative_proper r target Hw Hnul (H47 Hpre)) as Hrel.
    destruct (strip_prefix platform target (host_root fs)) as [r|] eqn:E1.
    { right. eexists. split; [done|]. apply strip_prefix_sub in E1. by apply Hrel. }
    destruct (parent platform (host_root fs) ≫= _) as [r|] eqn:E2; [|left; eauto].
    apply bind_Some in E2 as (b & _ & E2%strip_prefix_sub).
    right. eexists. split; [done|]. by apply Hrel.
  - unfold parse_path. change (from_parts [47]) with (join root).
    destruct (is_absolute target); apply join_total; [apply proper_root|done].
Qed.

Lemma expand_link_cases resolved c rest : Forall plain (resolved ++ c :: rest) ->
  (exists e, expand_link fs w resolved c rest = Err e /\ e <> TooManySymlinks) \/
  (exists g, expand_link fs w resolved c rest = Ok g /\ proper g).
Proof.
  intros [Hr [Hc Hrest]%Forall_cons]%Forall_app. unfold expand_link.
  fold (host_at (resolved ++ [c])).
  pose proof (read_link_ok (host_at (resolved ++ [c])) w) as Hsafe.
  assert (exists target, match read_link (host_at (resolved ++ [c])) w with
    | Ok t => Ok t | Err _ => Ok c | Panic => Panic end = @Ok FsError _ target /\
    (0 ∉ target) /\ (is_Some (parse_prefix platform target) -> 47 ∉ target))
    as (target & -> & Hnul & H47).
  { destruct (read_link _ _) as [t|e|]; [|by exists c; destruct Hc|done].
    exists t. destruct Hsafe as (_ & ? & ?). done. }
  cbn [mbind res_bind].
  destruct (target_cases (guest_from_components resolved) target) as [(e & -> & He)|(g & -> & Hg)];
    [by exists resolved|done|done|by left; exists e|]. cbn [mbind res_bind].
  destruct rest as [|c' rest]; [by right; exists g|]. cbn [is_nonempty]. by apply join_total.
Qed.

(** What the result of the outer loop says, with [k] links expanded before. *)
Definition outcome (k : nat) (g : GuestPath) (r : res FsError GuestPath) : Prop :=
  match r with
  | Ok g' => exists n, (k + n <= 40)%nat /\ nsteps expands n g g' /\
               settled (components g') /\ proper g'
  | Err TooManySymlinks => exists n g', (k + n = 40)%nat /\ nsteps expands n g g' /\
               exists resolved c rest, first_link (components g') resolved c rest
  | Err e => exists n g' resolved c rest, (k + n < 40)%nat /\ nsteps expands n g g' /\
               first_link (components g') resolved c rest /\
               expand_link fs w resolved c rest = Err e
  | Panic => False
  end.

Lemma outcome_step k g g' r : expands g g' -> outcome (S k) g' r -> outcome k g r.
Proof.
  intros Hg. destruct r as [g2|[]|]; simpl.
  - intros (n & Hn & Hs & Hr). exists (S n). split; [lia|]. by split; [eapply nsteps_l|].
  - intros (n & g2 & a & c & rest & Hn & Hs & Hr). exists (S n), g2, a, c, rest.
    split; [lia|]. by split; [eapply nsteps_l|].
  - intros (n & g2 & a & c & rest & Hn & Hs & Hr). exists (S n), g2, a, c, rest.
    split; [lia|]. by split; [eapply nsteps_l|].
  - intros (n & g2 & a & c & rest & Hn & Hs & Hr). exists (S n), g2, a, c, rest.
    split; [lia|]. by split; [eapply nsteps_l|].
  - intros (n & g2 & Hn & Hs & Hr). exists (S n), g2.
    split; [lia|]. by split; [eapply nsteps_l|].
  - done.
Qed.

(** The loop returns when the fuel is more than the expansions left, and its
    result does not depend on the fuel. *)
Lemma resolve_loop_spec fuel k g : proper g -> (k <= 40)%nat -> (40 - k < fuel)%nat ->
  exists r, (forall fuel', (fuel <= fuel')%nat ->
      resolve_loop fuel' fs w g (Z.of_nat k) = Some r) /\ outcome k g r.
Proof.
  revert k g. induction fuel as [|fuel IH]; intros k g Hg Hk Hf; [lia|].
  destruct (proper_components g Hg) as [Hps Heq].
  assert (walked []) as Hw0 by (intros pre Hne Hp%prefix_nil_inv; done).
  destruct (pass_cases (Z.of_nat k) [] (components g) Hw0)
    as [(r & c & rest & Hfl & Hpass)|[Hset Hpass]]; cbn [app] in *; last first.
  { exists (Ok g). split.
    - intros [|fuel'] Hle; [lia|]. cbn [resolve_loop]. rewrite Hpass. by rewrite <- Heq.
    - exists 0%nat. split; [lia|]. split; [constructor|done]. }
  unfold MAX_SYMLINK_EXPANSIONS in Hpass. destruct (Z.ltb_spec 40 (Z.of_nat k + 1)).
  { exists (Err TooManySymlinks). split.
    - intros [|fuel'] Hle; [lia|]. cbn [resolve_loop]. by rewrite Hpass.
    - exists 0%nat, g. split; [lia|]. split; [constructor|eauto]. }
  pose proof Hfl as [Hsplit _ _]. rewrite Hsplit in Hps.
  destruct (expand_link_cases r c rest Hps) as [(e & He & Hne)|(g' & Hok & Hg')].
  - exists (Err e). split.
    + intros [|fuel'] Hle; [lia|]. cbn [resolve_loop]. by rewrite Hpass, He.
    + assert (exists n g' r c rest, (k + n < 40)%nat /\ nsteps expands n g g' /\
        first_link (components g') r c rest /\ expand_link fs w r c rest = Err e)
        by (exists 0%nat, g, r, c, rest; split; [lia|]; split; [constructor|done]).
      by destruct e.
  - destruct (IH (S k) g' Hg') as (res & Hres & Hout); [lia..|].
    exists res. split.
    + intros [|fuel'] Hle; [lia|]. cbn [resolve_loop]. rewrite Hpass, Hok.
      cbn [mbind res_bind]. replace (Z.of_nat k + 1) with (Z.of_nat (S k)) by lia.
      apply Hres. lia.
    + eapply outcome_step; [|done]. exists r, c, rest. by split.
Qed.

Lemma resolve_outcome cwd path g : proper cwd -> join cwd path = Ok g ->
  outcome 0 g (resolve_guest_path fs cwd path w).
Proof.
  intros Hc Hj. unfold resolve_guest_path. rewrite Hj. cbn [mbind res_bind].
  assert (proper g) as Hg.
  { by eapply join_proper. }
  destruct (resolve_loop_spec RESOLVE_FUEL 0 g Hg) as (r & Hr & Ho); unfold RESOLVE_FUEL; [lia..|].
  change (Z.of_nat 0) with 0 in Hr. by rewrite Hr.
Qed.
End Resolve.

(** ** Chains of a deterministic relation *)

Section Chains.
Context {A : Type} (R : A -> A -> Prop) (R_det : forall x y z, R x y -> R x z -> y = z).

Lemma nsteps_stuck n m x y z : nsteps R n x y -> (forall y', ~ R y y') -> nsteps R m x z ->
  (m <= n)%nat.
Proof.
  intros Hn. revert m. induction Hn as [x|n x x' y Hx Hn IH]; intros m Hst Hm.
  - inversion Hm; subst; [lia|]. by edestruct Hst.
  - inversion Hm as [|m' ? x2 ? Hx2 Hm']; subst; [lia|].
    rewrite <- (R_det _ _ _ Hx Hx2) in Hm'. apply le_n_S. by apply IH.
Qed.

Lemma nsteps_det n x y z : nsteps R n x y -> nsteps R n x z -> y = z.
Proof.
  intros Hn. induction Hn as [x|n x x' y Hx Hn IH]; intros Hz; inversion Hz; subst; [done|].
  apply IH. by rewrite (R_det x x' y0).
Qed.
End Chains.

(** ** Host paths *)

(** A root directory given in the usual way: not empty, without a separator at
    its end; on Windows, not a share, a device or a verbatim path, and not a drive
    alone. *)
Record confining_root (pf : HostPlatform) (p : PathBuf) : Prop := {
  cr_nonempty : p <> [];
  cr_last : forall b, last p = Some b -> is_sep_byte pf b = false;
  cr_share : pf = Windows -> strip_literal [92; 92] p = None;
  cr_drive : pf = Windows -> is_Some (parse_drive p) -> length p <> 2%nat
}.

(** A component that names no drive, where there are drives. *)
Definition drive_free (pf : HostPlatform) (c : list Z) : Prop :=
  pf = Windows -> parse_drive c = None.

Lemma plain_no_sep c : plain c -> Forall (fun b => is_sep_byte Windows b = false) c.
Proof.
  intros [_ _ _ Hs Hb _]. apply Forall_forall. intros b Hin. unfold is_sep_byte.
  apply orb_false_iff. rewrite !Z.eqb_neq. split; by intros ->.
Qed.

Lemma sep_on_windows pf b : is_sep_byte Windows b = false -> is_sep_byte pf b = false.
Proof. unfold is_sep_byte. destruct pf; [done|]. by intros [-> _]%orb_false_iff. Qed.

Lemma plain_relative pf c : plain c -> drive_free pf c ->
  parse_prefix pf c = None /\ has_root pf c = false /\ is_absolute_on pf c = false.
Proof.
  intros Hc Hd. assert (parse_prefix pf c = None) as Hp.
  { destruct pf; [|done]. cbn [parse_prefix]. rewrite name_prefix by by apply plain_no_sep.
    by rewrite Hd. }
  assert (has_root pf c = false) as Hr.
  { unfold has_root, has_physical_root. rewrite Hp. cbn. rewrite orb_false_r.
    pose proof (plain_no_sep c Hc) as Hs. destruct c as [|b c]; [done|].
    apply Forall_cons in Hs as [Hb _]. by apply sep_on_windows. }
  unfold is_absolute_on. by rewrite Hr.
Qed.

Lemma confining_prefix pf p : confining_root pf p -> verbatim_path (parse_prefix pf p) = false /\
  match parse_prefix pf p with
  | Some x => is_drive x && bool_decide (prefix_len x = length p) = false
  | None => True
  end.
Proof.
  intros [_ _ Hs Hd]. destruct pf; [|done]. cbn [parse_prefix]. unfold parse_windows_prefix.
  rewrite Hs by done. destruct (parse_drive p) as [d|]; [|done]. cbn. split; [done|].
  apply bool_decide_eq_false. intros E. by apply (Hd eq_refl); [eexists|].
Qed.

Lemma push_plain pf p c : confining_root pf p -> plain c -> drive_free pf c ->
  push_on pf p c = p ++ main_separator pf :: c /\ confining_root pf (p ++ main_separator pf :: c).
Proof.
  intros Hp Hc Hd. destruct (plain_relative pf c Hc Hd) as (Hpc & Hrc & Hac).
  destruct (confining_prefix pf p Hp) as [Hv Hb]. pose proof Hp as [Hne Hl Hs Hdr]. split.
  - unfold push_on. rewrite Hac, Hpc, Hrc, Hv.
    rewrite (bool_decide_eq_false_2 (is_Some None)) by (by intros []). cbn [orb andb].
    destruct (last p) as [b|] eqn:El; [|by apply last_None in El].
    rewrite (Hl b eq_refl). destruct (parse_prefix pf p); by rewrite ?Hb.
  - split.
    + by destruct p.
    + intros b. rewrite last_app_cons. pose proof (plain_nonempty c Hc) as Hcne.
      destruct c as [|x c]; [done|]. rewrite last_cons_cons. intros Hin%last_Some_elem_of.
      apply sep_on_windows. pose proof (plain_no_sep _ Hc) as Hf. rewrite Forall_forall in Hf. auto.
    + intros ->. specialize (Hs eq_refl). destruct p as [|x [|y p]]; [done| |].
      * unfold strip_literal. cbn [length app]. rewrite fmap_cons, firstn_cons.
        rewrite decide_False; [done|]. intros [= E]. specialize (Hl x eq_refl).
        unfold is_sep_byte in Hl. destruct (Z.eqb_spec x 47); [done|]. by rewrite E in Hl.
      * unfold strip_literal in *. destruct (decide (_ = [92; 92])) as [|Hne2] in Hs; [done|].
        rewrite decide_False; [done|]. exact Hne2.
    + intros _ _. rewrite length_app. destruct p; [done|]. destruct Hc as [Hcne _ _ _ _ _].
      destruct c; [done|]. simpl. lia.
Qed.

(** Below such a root, the host path of components that name no drive is the
    root followed by the components. *)
Lemma push_all_plain pf p ps : confining_root pf p -> Forall plain ps ->
  Forall (drive_free pf) ps ->
  foldl (push_on pf) p ps = p ++ concat (cons (main_separator pf) <$> ps).
Proof.
  intros Hp Hps. revert p Hp. induction Hps as [|c ps Hc _ IH]; intros p Hp Hd.
  - by rewrite app_nil_r.
  - apply Forall_cons in Hd as [Hdc Hd].
    destruct (push_plain pf p c Hp Hc Hdc) as [E Hp']. cbn [foldl]. rewrite E, IH by done.
    by rewrite <- app_assoc.
Qed.

Section Results.
Context `{HostLaws} (fs : RootFs) (w : World).

(** A settled path resolves to itself. *)
Lemma resolve_settled cwd g : proper cwd -> proper g -> settled fs w (components g) ->
  resolve_guest_path fs cwd (raw g) w = Ok g.
Proof.
  intros Hc Hg Hs. pose proof (resolve_outcome fs w cwd (raw g) g Hc (parse_raw cwd g Hc Hg)) as Ho.
  assert (forall n g', nsteps (expands fs w) n g g' -> g' = g) as Hstuck.
  { intros n g' Hn. inversion Hn as [|? ? ? ? (r & c & rest & Hfl & _)]; subst; [done|].
    by edestruct settled_no_link. }
  destruct (resolve_guest_path fs cwd (raw g) w) as [g'|[]|]; simpl in Ho; [|exfalso..|done].
  - destruct Ho as (n & _ & ->%Hstuck & _). done.
  - destruct Ho as (n & g' & r & c & rest & _ & ->%Hstuck & Hfl & _). by edestruct settled_no_link.
  - destruct Ho as (n & g' & r & c & rest & _ & ->%Hstuck & Hfl & _). by edestruct settled_no_link.
  - destruct Ho as (n & g' & r & c & rest & _ & ->%Hstuck & Hfl & _). by edestruct settled_no_link.
  - destruct Ho as (n & g' & _ & ->%Hstuck & r & c & rest & Hfl). by edestruct settled_no_link.
Qed.

Lemma resolve_guest_proper cwd path g : proper cwd ->
  resolve_guest_path fs cwd path w = Ok g -> proper g /\ settled fs w (components g).
Proof.
  intros Hc Hr. destruct (join cwd path) as [g0|e|] eqn:Hj.
  - pose proof (resolve_outcome fs w cwd path g0 Hc Hj) as Ho. rewrite Hr in Ho.
    by destruct Ho as (n & _ & _ & ? & ?).
  - unfold resolve_guest_path in Hr. by rewrite Hj in Hr.
  - unfold resolve_guest_path in Hr. by rewrite Hj in Hr.
Qed.

(** C10: resolving a path always returns.  Forty-one passes are enough: with any
    larger number of passes the loop ends with the same result, whatever links
    the host has, cycles included. *)
Theorem resolve_terminates cwd path g fuel : proper cwd -> join cwd path = Ok g ->
  (RESOLVE_FUEL <= fuel)%nat ->
  resolve_loop fuel fs w g 0 = Some (resolve_guest_path fs cwd path w) /\
  resolve_guest_path fs cwd path w <> Panic.
Proof.
  intros Hc Hj Hf. assert (proper g) as Hg.
  { by eapply join_proper. }
  destruct (resolve_loop_spec fs w RESOLVE_FUEL 0 g Hg) as (r & Hr & Ho);
    unfold RESOLVE_FUEL; [lia..|].
  change (Z.of_nat 0) with 0 in Hr. unfold resolve_guest_path. rewrite Hj.
  cbn [mbind res_bind]. rewrite !Hr by (unfold RESOLVE_FUEL in *; lia). split; [done|].
  intros Hp. cbn in Hp. by rewrite Hp in Ho.
Qed.

(** C8: resolution is the expansion of links.  Starting from the normalized
    path, the first link is replaced by its target (read relative to the root
    directory or to the link's directory; on Windows a target with a prefix is
    read relative to the root directory of the host, or to the directory above
    it) followed by the rest of the path; the result is the path that at most forty such expansions reach and that has no
    link left, and the error [TooManySymlinks] means that the path reached by
    forty expansions still has one. *)
Theorem resolve_exact cwd path g0 : proper cwd -> join cwd path = Ok g0 ->
  (forall g, resolve_guest_path fs cwd path w = Ok g <->
     exists n, (n <= 40)%nat /\ nsteps (expands fs w) n g0 g /\ settled fs w (components g)) /\
  (resolve_guest_path fs cwd path w = Err TooManySymlinks <->
     exists g resolved c rest, nsteps (expands fs w) 40 g0 g /\
       first_link fs w (components g) resolved c rest).
Proof.
  intros Hc Hj. pose proof (resolve_outcome fs w cwd path g0 Hc Hj) as Ho.
  pose proof (expands_det fs w) as Hdet.
  pose proof (settled_stuck fs w) as Hst. pose proof (failing_stuck fs w) as Herr.
  split; [intros g|]; split; intros Hr.
  - rewrite Hr in Ho. destruct Ho as (n & ? & ? & ? & _). by exists n.
  - destruct Hr as (n & Hn & Hs & Hset).
    destruct (resolve_guest_path fs cwd path w) as [g'|e|]; [| |done].
    + destruct Ho as (n' & Hn' & Hs' & Hset' & _).
      assert (n = n') as <-.
      { pose proof (nsteps_stuck _ Hdet _ _ _ _ _ Hs (Hst _ Hset) Hs').
        pose proof (nsteps_stuck _ Hdet _ _ _ _ _ Hs' (Hst _ Hset') Hs). lia. }
      by rewrite (nsteps_det _ Hdet _ _ _ _ Hs Hs').
    + exfalso. assert (exists n' g' r c rest, nsteps (expands fs w) n' g0 g' /\
        first_link fs w (components g') r c rest /\
        ((exists e', expand_link fs w r c rest = Err e') \/ n' = 40%nat))
        as (n' & g' & r & c & rest & Hs' & Hfl & Hend).
      { destruct e; destruct Ho as (n' & g' & Ho); [naive_solver eauto 10..|].
        destruct Ho as (Hn' & Hs' & r & c & rest & Hfl).
        exists n', g', r, c, rest. split; [done|]. split; [done|]. right. lia. }
      pose proof (nsteps_stuck _ Hdet _ _ _ _ _ Hs (Hst _ Hset) Hs') as Hle.
      assert (n' = n) as ->.
      { destruct Hend as [[e' He']| ->]; [|lia].
        pose proof (nsteps_stuck _ Hdet _ _ _ _ _ Hs' (Herr _ _ _ _ _ Hfl He') Hs). lia. }
      rewrite (nsteps_det _ Hdet _ _ _ _ Hs' Hs) in Hfl. by edestruct settled_no_link.
  - rewrite Hr in Ho. destruct Ho as (n & g & Hn & Hs & r & c & rest & Hfl).
    replace n with 40%nat in Hs by lia. by exists g, r, c, rest.
  - destruct Hr as (g & r & c & rest & Hs & Hfl).
    destruct (resolve_guest_path fs cwd path w) as [g'|e|]; [| |done].
    + exfalso. destruct Ho as (n' & Hn' & Hs' & Hset' & _).
      pose proof (nsteps_stuck _ Hdet _ _ _ _ _ Hs' (Hst _ Hset') Hs) as Hle.
      replace n' with 40%nat in Hs' by lia.
      rewrite (nsteps_det _ Hdet _ _ _ _ Hs Hs') in Hfl. by edestruct settled_no_link.
    + destruct e; [exfalso..|done];
        destruct Ho as (n' & g' & r' & c' & rest' & Hn' & Hs' & Hfl' & He');
        pose proof (nsteps_stuck _ Hdet _ _ _ _ _ Hs' (Herr _ _ _ _ _ Hfl' He') Hs); lia.
Qed.

(** On a Windows host a component that is a drive takes the place of the root
    directory: [push] clears the path, and what follows is below the drive. *)
Theorem drive_replaces_root d ps : platform = Windows -> is_ascii_alphabetic d = true ->
  Forall plain ps -> plain [d; 58] ->
  host_path fs (guest_from_components ([d; 58] :: ps)) = foldl path_push [d; 58] ps.
Proof.
  intros Hw Hd Hps Hp. unfold host_path. rewrite components_of by by constructor.
  cbn [foldl]. f_equal. unfold path_push, push_on. rewrite Hw. cbn [parse_prefix].
  rewrite name_prefix by by apply plain_no_sep. unfold parse_drive. rewrite Hd. cbn.
  by rewrite orb_true_r.
Qed.
End Results.

(** ** Witnesses *)

(** A root directory with a link: /bin is a link to usr/bin. *)
Definition example_root : RootFs := mkRootFs (text "/srv/root").

Definition example_world : world :=
  mkWorld (list_to_map [(text "/srv/root/bin", NLink (text "usr/bin"));
                        (text "/srv/root/usr", NDir);
                        (text "/srv/root/usr/bin", NDir);
                        (text "/srv/root/usr/bin/sh", NFile [1; 2; 3]);
                        (text "/srv/root/loop", NLink (text "/loop/x"))])
    [] [] [] [] 0 false false.

Definition bin_sh : GuestPath := mkGuestPath (text "/bin/sh").
Definition usr_bin_sh : GuestPath := mkGuestPath (text "/usr/bin/sh").

(** The guest path /D:/secret in the root directory C:\root of a Windows host: no
    prefix is seen in it, and the host path is on the other drive. *)
Example windows_escape :
  resolve (H:=host_on Windows) (mkRootFs (text "C:\root")) root (text "/D:/secret")
    (mkWorld ∅ [] [] [] [] 0 false false) =
  Ok (RHost (mkGuestPath (text "/D:/secret")) (text "D:secret")).
Proof. vm_compute. reflexivity. Qed.

Lemma resolve_terminates_witness :
  resolve_loop 60 example_root example_world (mkGuestPath (text "/loop")) 0 =
    Some (Err TooManySymlinks) /\
  resolve_guest_path example_root root (text "loop") example_world = Err TooManySymlinks.
Proof.
  destruct (resolve_terminates (H:=example_host) example_root example_world root (text "loop")
              (mkGuestPath (text "/loop")) 60) as [H1 _].
  - apply proper_root.
  - vm_compute. reflexivity.
  - unfold RESOLVE_FUEL. lia.
  - assert (resolve_guest_path (H:=example_host) example_root root (text "loop") example_world
      = Err TooManySymlinks) as E by (vm_compute; reflexivity).
    rewrite E in H1. split; [exact H1|exact E].
Defined.

Lemma resolve_exact_witness : exists n, (n <= 40)%nat /\
  nsteps (expands (H:=example_host) example_root example_world) n bin_sh usr_bin_sh /\
  settled (H:=example_host) example_root example_world (components usr_bin_sh).
Proof.
  destruct (resolve_exact (H:=example_host) example_root example_world root
              (text "../bin/./sh") bin_sh) as [H1 _].
  - apply proper_root.
  - vm_compute. reflexivity.
  - apply (H1 usr_bin_sh). vm_compute. reflexivity.
Defined.

