(* ===== verification/LinuxAbi.v ===== *)
(** * The Linux binary interface: crates/ruxeon-linux/src/lib.rs

    The constants, error numbers and system call numbers of the interface, the
    conversion of arguments, and the encoders and decoders of the structures
    that calls pass through guest memory: [stat], [utsname], [timespec],
    [sysinfo], C strings and vectors of strings. *)

From Stdlib Require Import String.
From S2P Require Import Prelude Memory Elf Host Fs.

Open Scope Z_scope.

(** ** Constants *)

(** [(-100i64) as u64]. *)
Definition AT_FDCWD : Z := wrap 64 (-100).
Definition AT_REMOVEDIR : Z := 0x200.
Definition STAT_SIZE : Z := 144.
Definition UTSNAME_FIELD_SIZE : Z := 65.
Definition UTSNAME_SIZE : Z := UTSNAME_FIELD_SIZE * 6.

(** The source writes the open flags and file modes in octal. *)
Definition O_ACCMODE : Z := 0x3.
Definition O_WRONLY : Z := 0x1.
Definition O_RDWR : Z := 0x2.
Definition O_CREAT : Z := 0x40.
Definition O_TRUNC : Z := 0x200.
Definition O_APPEND : Z := 0x400.
Definition O_NONBLOCK : Z := 0x800.
Definition O_DIRECTORY : Z := 0x10000.

Definition PROT_READ : Z := 0x1.
Definition PROT_WRITE : Z := 0x2.
Definition PROT_EXEC : Z := 0x4.

Definition MAP_PRIVATE : Z := 0x02.
Definition MAP_FIXED : Z := 0x10.
Definition MAP_ANONYMOUS : Z := 0x20.

Definition ARCH_SET_FS : Z := 0x1002.
Definition ARCH_GET_FS : Z := 0x1003.

Definition F_DUPFD : Z := 0.
Definition F_GETFD : Z := 1.
Definition F_SETFD : Z := 2.
Definition F_GETFL : Z := 3.
Definition F_SETFL : Z := 4.
Definition F_DUPFD_CLOEXEC : Z := 1030.
Definition FD_CLOEXEC : Z := 1.

Definition POLLIN : Z := 0x001.
Definition POLLOUT : Z := 0x004.
Definition POLLNVAL : Z := 0x020.

Definition CLOCK_REALTIME : Z := 0.
Definition CLOCK_MONOTONIC : Z := 1.

Definition TIOCGWINSZ : Z := 0x5413.
Definition TIOCSWINSZ : Z := 0x5414.
Definition TCGETS : Z := 0x5401.
Definition TCSETS : Z := 0x5402.
Definition TCSETSW : Z := 0x5403.
Definition TCSETSF : Z := 0x5404.
Definition TIOCGPGRP : Z := 0x540f.
Definition TIOCSPGRP : Z := 0x5410.

Definition GLIBC_PTHREAD_TID_OFFSET : Z := 0x2d0.

(** ** Errors *)

Inductive Errno : Type :=
| Perm | NoEnt | Intr | Io | NxIo | Badf | Child | Again | NoMem | Acces | Fault | Busy
| Exist | NotDir | IsDir | Inval | MFile | NoTty | EPipe | ELoop | NoSys | NoData | NamTooLong.

#[export] Instance Errno_eq_dec : EqDecision Errno.
Proof. solve_decision. Defined.

(** [self as i64]. *)
Definition errno_code (e : Errno) : Z :=
  match e with
  | Perm => 1 | NoEnt => 2 | Intr => 4 | Io => 5 | NxIo => 6 | Badf => 9 | Child => 10
  | Again => 11 | NoMem => 12 | Acces => 13 | Fault => 14 | Busy => 16 | Exist => 17
  | NotDir => 20 | IsDir => 21 | Inval => 22 | MFile => 24 | NoTty => 25 | EPipe => 32
  | ELoop => 40 | NoSys => 38 | NoData => 61 | NamTooLong => 36
  end.

Definition linux_return (e : Errno) : Z := - errno_code e.

Inductive SyscallError : Type :=
| SMemory (e : GuestMemoryError)
| SErrno (e : Errno).

(** [From<FsError>]. *)
Definition of_fs_error (e : FsError) : SyscallError :=
  match e with
  | EmptyPath => SErrno NoEnt
  | WindowsPrefix | NulByte => SErrno Inval
  | TooManySymlinks => SErrno ELoop
  end.

Definition map_io_errno (k : IoErrorKind) : SyscallError :=
  match k with
  | NotFound => SErrno NoEnt
  | PermissionDenied => SErrno Acces
  | AlreadyExists => SErrno Exist
  | InvalidInput => SErrno Inval
  | WouldBlock => SErrno Again
  | OtherKind => SErrno Io
  end.

(** ** System call numbers *)

Inductive SyscallNumber : Type :=
| Sys_Read | Sys_Write | Sys_Readv | Sys_Writev | Sys_Open | Sys_Close | Sys_Stat
| Sys_Fstat | Sys_Lstat | Sys_Mmap | Sys_Mprotect | Sys_Munmap | Sys_Brk
| Sys_RtSigreturn | Sys_Ioctl | Sys_Pipe | Sys_Select | Sys_Poll | Sys_Dup | Sys_Dup2
| Sys_Nanosleep | Sys_Clone | Sys_Fork | Sys_VFork | Sys_Execve | Sys_Wait4 | Sys_Kill
| Sys_Fcntl | Sys_Mkdir | Sys_Rmdir | Sys_Unlink | Sys_Getdents | Sys_Times
| Sys_Sysinfo | Sys_Access | Sys_ArchPrctl | Sys_Getpid | Sys_Sendfile | Sys_Getppid
| Sys_Getpgrp | Sys_Gettid | Sys_Getuid | Sys_Getgid | Sys_Setpgid | Sys_Getpgid
| Sys_Geteuid | Sys_Getegid | Sys_Getcwd | Sys_Chdir | Sys_Readlink | Sys_Uname
| Sys_Sigaltstack | Sys_Getdents64 | Sys_ClockGettime | Sys_Pselect6 | Sys_Ppoll
| Sys_Dup3 | Sys_Pipe2 | Sys_Openat | Sys_Mkdirat | Sys_Unlinkat | Sys_Newfstatat
| Sys_RtSigaction | Sys_RtSigprocmask | Sys_SetTidAddress | Sys_SetRobustList
| Sys_Prlimit64 | Sys_Getrandom | Sys_Exit | Sys_ExitGroup | Sys_Other (number : Z).

(** [raw]: the number of a call in the Linux x86-64 table. *)
Definition syscall_raw (n : SyscallNumber) : Z :=
  match n with
  | Sys_Read => 0 | Sys_Write => 1 | Sys_Readv => 19 | Sys_Writev => 20 | Sys_Open => 2
  | Sys_Close => 3 | Sys_Stat => 4 | Sys_Fstat => 5 | Sys_Lstat => 6 | Sys_Poll => 7
  | Sys_Mmap => 9 | Sys_Mprotect => 10 | Sys_Munmap => 11 | Sys_Brk => 12
  | Sys_RtSigreturn => 15 | Sys_RtSigaction => 13 | Sys_RtSigprocmask => 14
  | Sys_Ioctl => 16 | Sys_Pipe => 22 | Sys_Select => 23 | Sys_Dup => 32
  | Sys_Dup2 => 33 | Sys_Nanosleep => 35 | Sys_Clone => 56 | Sys_Fork => 57
  | Sys_VFork => 58 | Sys_Execve => 59 | Sys_Wait4 => 61 | Sys_Kill => 62
  | Sys_Fcntl => 72 | Sys_Mkdir => 83 | Sys_Rmdir => 84 | Sys_Unlink => 87
  | Sys_Getdents => 78 | Sys_Sysinfo => 99 | Sys_Times => 100 | Sys_Getuid => 102
  | Sys_Getgid => 104 | Sys_Geteuid => 107 | Sys_Getegid => 108 | Sys_Setpgid => 109
  | Sys_Getppid => 110 | Sys_Getpgrp => 111 | Sys_Getpgid => 121
  | Sys_Sigaltstack => 131 | Sys_Access => 21 | Sys_ArchPrctl => 158
  | Sys_Gettid => 186 | Sys_Getpid => 39 | Sys_Sendfile => 40 | Sys_Getcwd => 79
  | Sys_Chdir => 80 | Sys_Readlink => 89 | Sys_Uname => 63 | Sys_Getdents64 => 217
  | Sys_ClockGettime => 228 | Sys_Openat => 257 | Sys_Mkdirat => 258
  | Sys_Unlinkat => 263 | Sys_Newfstatat => 262 | Sys_Pselect6 => 270
  | Sys_Ppoll => 271 | Sys_SetTidAddress => 218 | Sys_SetRobustList => 273
  | Sys_Dup3 => 292 | Sys_Pipe2 => 293 | Sys_Prlimit64 => 302 | Sys_Getrandom => 318
  | Sys_Exit => 60 | Sys_ExitGroup => 231 | Sys_Other number => number
  end.

Definition syscall_name (n : SyscallNumber) : list Z :=
  text match n with
  | Sys_Read => "read" | Sys_Write => "write" | Sys_Readv => "readv"
  | Sys_Writev => "writev" | Sys_Open => "open" | Sys_Close => "close"
  | Sys_Stat => "stat" | Sys_Fstat => "fstat" | Sys_Lstat => "lstat"
  | Sys_Mmap => "mmap" | Sys_Mprotect => "mprotect" | Sys_Munmap => "munmap"
  | Sys_Brk => "brk" | Sys_RtSigreturn => "rt_sigreturn" | Sys_Ioctl => "ioctl"
  | Sys_Pipe => "pipe" | Sys_Select => "select" | Sys_Poll => "poll" | Sys_Dup => "dup"
  | Sys_Dup2 => "dup2" | Sys_Nanosleep => "nanosleep" | Sys_Clone => "clone"
  | Sys_Fork => "fork" | Sys_VFork => "vfork" | Sys_Execve => "execve"
  | Sys_Wait4 => "wait4" | Sys_Kill => "kill" | Sys_Fcntl => "fcntl"
  | Sys_Mkdir => "mkdir" | Sys_Rmdir => "rmdir" | Sys_Unlink => "unlink"
  | Sys_Getdents => "getdents" | Sys_Times => "times" | Sys_Sysinfo => "sysinfo"
  | Sys_Access => "access" | Sys_ArchPrctl => "arch_prctl" | Sys_Getpid => "getpid"
  | Sys_Sendfile => "sendfile" | Sys_Getppid => "getppid" | Sys_Getpgrp => "getpgrp"
  | Sys_Gettid => "gettid" | Sys_Getuid => "getuid" | Sys_Getgid => "getgid"
  | Sys_Setpgid => "setpgid" | Sys_Getpgid => "getpgid" | Sys_Geteuid => "geteuid"
  | Sys_Getegid => "getegid" | Sys_Getcwd => "getcwd" | Sys_Chdir => "chdir"
  | Sys_Readlink => "readlink" | Sys_Uname => "uname"
  | Sys_Sigaltstack => "sigaltstack" | Sys_Getdents64 => "getdents64"
  | Sys_ClockGettime => "clock_gettime" | Sys_Pselect6 => "pselect6"
  | Sys_Ppoll => "ppoll" | Sys_Dup3 => "dup3" | Sys_Pipe2 => "pipe2"
  | Sys_Openat => "openat" | Sys_Mkdirat => "mkdirat" | Sys_Unlinkat => "unlinkat"
  | Sys_Newfstatat => "newfstatat" | Sys_RtSigaction => "rt_sigaction"
  | Sys_RtSigprocmask => "rt_sigprocmask" | Sys_SetTidAddress => "set_tid_address"
  | Sys_SetRobustList => "set_robust_list" | Sys_Prlimit64 => "prlimit64"
  | Sys_Getrandom => "getrandom" | Sys_Exit => "exit" | Sys_ExitGroup => "exit_group"
  | Sys_Other _ => "unknown"
  end%string.

(** The arms of [From<u64>], in the order of the source. *)
Definition syscall_table : list (Z * SyscallNumber) :=
  [(0, Sys_Read); (1, Sys_Write); (19, Sys_Readv); (20, Sys_Writev); (2, Sys_Open);
  (3, Sys_Close); (4, Sys_Stat); (5, Sys_Fstat); (6, Sys_Lstat); (7, Sys_Poll);
  (9, Sys_Mmap); (10, Sys_Mprotect); (11, Sys_Munmap); (12, Sys_Brk);
  (13, Sys_RtSigaction); (14, Sys_RtSigprocmask); (15, Sys_RtSigreturn);
  (16, Sys_Ioctl); (21, Sys_Access); (22, Sys_Pipe); (23, Sys_Select); (32, Sys_Dup);
  (33, Sys_Dup2); (35, Sys_Nanosleep); (39, Sys_Getpid); (40, Sys_Sendfile);
  (56, Sys_Clone); (57, Sys_Fork); (58, Sys_VFork); (59, Sys_Execve); (60, Sys_Exit);
  (61, Sys_Wait4); (62, Sys_Kill); (63, Sys_Uname); (72, Sys_Fcntl); (83, Sys_Mkdir);
  (84, Sys_Rmdir); (87, Sys_Unlink); (78, Sys_Getdents); (79, Sys_Getcwd);
  (80, Sys_Chdir); (89, Sys_Readlink); (99, Sys_Sysinfo); (100, Sys_Times);
  (102, Sys_Getuid); (104, Sys_Getgid); (107, Sys_Geteuid); (108, Sys_Getegid);
  (109, Sys_Setpgid); (110, Sys_Getppid); (111, Sys_Getpgrp); (121, Sys_Getpgid);
  (131, Sys_Sigaltstack); (158, Sys_ArchPrctl); (186, Sys_Gettid);
  (217, Sys_Getdents64); (218, Sys_SetTidAddress); (228, Sys_ClockGettime);
  (231, Sys_ExitGroup); (257, Sys_Openat); (258, Sys_Mkdirat); (263, Sys_Unlinkat);
  (262, Sys_Newfstatat); (270, Sys_Pselect6); (271, Sys_Ppoll);
  (273, Sys_SetRobustList); (292, Sys_Dup3); (293, Sys_Pipe2); (302, Sys_Prlimit64);
  (318, Sys_Getrandom)].

Definition syscall_from (value : Z) : SyscallNumber :=
  match find_first (fun p => value =? p.1) syscall_table with
  | Some (_, n) => n
  | None => Sys_Other value
  end.

#[export] Instance SyscallNumber_eq_dec : EqDecision SyscallNumber.
Proof. solve_decision. Defined.

Record SyscallInput : Type := mkInput { in_number : Z; in_args : list Z }.

Record ExecveRequest : Type := mkExecve {
  ex_guest_path : list Z;
  ex_host_path : PathBuf;
  ex_rootfs : option PathBuf;
  ex_argv : list (list Z);
  ex_envp : list (list Z)
}.

Inductive SyscallOutcome : Type :=
| Return (value : Z)
| Blocked
| ExitWith (code : Z)
| Execve (request : ExecveRequest).

Definition return_value (o : SyscallOutcome) : Z :=
  match o with
  | Return value => value
  | Blocked => 0
  | ExitWith code => code
  | Execve _ => 0
  end.

Record SyscallTrace : Type := mkSyscallTrace {
  st_number : Z;
  st_name : list Z;
  st_args : list Z;
  st_return_value : Z
}.

(** ** Arguments *)

Abbreviation SysRes := (res SyscallError).

Definition fd_arg (value : Z) : SysRes Z :=
  if value <? 2 ^ 31 then Ok value else Err (SErrno Badf).

Definition fd_arg_allow_at_fdcwd (value : Z) : SysRes (option Z) :=
  if value =? AT_FDCWD then Ok None else fd ← fd_arg value; Ok (Some fd).

(** [usize] has 64 bits: the conversion does not fail. *)
Definition usize_arg (value : Z) : SysRes Z := Ok value.

(** The bit test [flags & mask != 0]. *)
Definition has_bit (flags mask : Z) : bool := negb (Z.land flags mask =? 0).

Definition memory_permissions (prot : Z) : Z :=
  let p := 0 in
  let p := if has_bit prot PROT_READ then Z.lor p READ else p in
  let p := if has_bit prot PROT_WRITE then Z.lor p WRITE else p in
  if has_bit prot PROT_EXEC then Z.lor p EXECUTE else p.

(** [((value - 1) / align + 1) * align], whose product may overflow. *)
Definition align_up (value align : Z) : SysRes Z :=
  if value =? 0 then Ok 0 else mul64 ((value - 1) / align + 1) align.

Definition align_usize (value align : Z) : SysRes Z :=
  if value =? 0 then Ok 0 else mul64 ((value - 1) / align + 1) align.

(** A pid as [u32], [None] for any child. *)
Definition wait_requested_pid (raw : Z) : option Z :=
  let value := signed 64 raw in
  if value <=? 0 then None else Some (wrap 32 value).

(** [deterministic_random] of this crate, with a fixed seed. *)
Definition deterministic_random (n : Z) : SysRes (list Z) :=
  capacity n ;; Ok (xorshift (Z.to_nat n) RANDOM_SEED).

(** ** Structures in guest memory *)

(** An operation on guest memory, its errors converted by [?]. *)
Definition on_mem {A} (m : MemM A) : ST GuestMemory SyscallError A :=
  zoom (fun s => s) (fun t _ => t) SMemory m.

Definition read_mem {A} (f : GuestMemory -> res GuestMemoryError A)
    : ST GuestMemory SyscallError A :=
  reads (fun m => map_err SMemory (f m)).

Abbreviation SysMem := (ST GuestMemory SyscallError).

(** [write_u16], [write_u32] and [write_u64] into a buffer of bytes. *)
Definition put_le (n : nat) (bytes : list Z) (offset value : Z) : SysRes (list Z) :=
  splice bytes offset (to_le n value).
Definition put_u16 := put_le 2.
Definition put_u32 := put_le 4.
Definition put_u64 := put_le 8.

Record StatData : Type := mkStat {
  sd_dev : Z;
  sd_ino : Z;
  sd_nlink : Z;
  sd_mode : Z;
  sd_size : Z;
  sd_blocks : Z
}.

(** [size.div_ceil(512)]. *)
Definition stat_regular (dev ino nlink size : Z) : StatData :=
  mkStat dev ino nlink 0x81a4 size ((size + 511) / 512).
Definition stat_directory (dev ino nlink : Z) : StatData := mkStat dev ino nlink 0x41ed 0 0.
Definition stat_char_device : StatData := mkStat 5 1 1 0x21b6 0 0.

Definition stat_bytes (data : StatData) : SysRes (list Z) :=
  let bytes := replicate (Z.to_nat STAT_SIZE) 0 in
  bytes ← put_u64 bytes 0 (sd_dev data);
  bytes ← put_u64 bytes 8 (sd_ino data);
  bytes ← put_u64 bytes 16 (sd_nlink data);
  bytes ← put_u32 bytes 24 (sd_mode data);
  bytes ← put_u64 bytes 48 (sd_size data);
  bytes ← put_u64 bytes 56 4096;
  put_u64 bytes 64 (sd_blocks data).

Definition write_stat (addr : Z) (data : StatData) : SysMem unit :=
  bytes ← lift (stat_bytes data);
  on_mem (write_bytes addr bytes).

Definition uname_fields : list (list Z) :=
  text <$> ["Linux"; "ruxeon"; "6.0.0-ruxeon"; "#1 Ruxeon user-mode"; "x86_64";
            "ruxeon"]%string.

(** The loop over the fields, from [index] on. *)
Fixpoint uname_bytes (index : Z) (fields : list (list Z)) (bytes : list Z)
    : SysRes (list Z) :=
  match fields with
  | [] => Ok bytes
  | field :: fields =>
      let offset := index * UTSNAME_FIELD_SIZE in
      let n := Z.min (len field) (UTSNAME_FIELD_SIZE - 1) in
      raw ← slice field 0 n;
      bytes ← splice bytes offset raw;
      uname_bytes (index + 1) fields bytes
  end.

Definition write_uname (addr : Z) : SysMem unit :=
  bytes ← lift (uname_bytes 0 uname_fields (replicate (Z.to_nat UTSNAME_SIZE) 0));
  on_mem (write_bytes addr bytes).

(** The loop of [read_c_string]; [fuel] is what is left of 4096 offsets. *)
Fixpoint read_c_loop (fuel : nat) (m : GuestMemory) (addr offset : Z) (bytes : list Z)
    : SysRes (list Z) :=
  match fuel with
  | O => Err (SErrno NamTooLong)
  | S fuel =>
      a ← add64 addr offset;
      byte ← map_err SMemory (read_u8 m a);
      if byte =? 0 then
        if utf8_valid bytes then Ok bytes else Err (SErrno Inval)
      else read_c_loop fuel m addr (offset + 1) (bytes ++ [byte])
  end.

Definition C_STRING_MAX : nat := 4096.

Definition read_c_string (m : GuestMemory) (addr : Z) : SysRes (list Z) :=
  read_c_loop C_STRING_MAX m addr 0 [].

Fixpoint read_vector_loop (fuel : nat) (m : GuestMemory) (addr index : Z)
    (values : list (list Z)) : SysRes (list (list Z)) :=
  match fuel with
  | O => Err (SErrno Inval)
  | S fuel =>
      a ← add64 addr (index * 8);
      ptr ← map_err SMemory (Memory.read_u64 m a);
      if ptr =? 0 then Ok values
      else s ← read_c_string m ptr;
           read_vector_loop fuel m addr (index + 1) (values ++ [s])
  end.

Definition read_string_vector (m : GuestMemory) (addr : Z) : SysRes (list (list Z)) :=
  if addr =? 0 then Ok [] else read_vector_loop C_STRING_MAX m addr 0 [].

Definition read_timespec (addr : Z) : SysMem (Z * Z) :=
  if addr =? 0 then raise (SErrno Fault) else
  secs ← read_mem (fun m => Memory.read_u64 m addr);
  a ← lift (add64 addr 8);
  nanos ← read_mem (fun m => Memory.read_u64 m a);
  mret (secs, nanos).

Definition write_timespec (addr : Z) (value : Z * Z) : SysMem unit :=
  if addr =? 0 then raise (SErrno Fault) else
  on_mem (write_u64 addr value.1) ;;
  a ← lift (add64 addr 8);
  on_mem (write_u64 a value.2).

Definition sysinfo_bytes : SysRes (list Z) :=
  let bytes := replicate 112 0 in
  bytes ← put_u64 bytes 0 0;
  bytes ← put_u64 bytes 8 0;
  bytes ← put_u64 bytes 16 0;
  bytes ← put_u64 bytes 24 0;
  bytes ← put_u64 bytes 32 (1024 * 1024 * 1024);
  bytes ← put_u64 bytes 40 (512 * 1024 * 1024);
  bytes ← put_u64 bytes 48 0;
  bytes ← put_u64 bytes 56 0;
  bytes ← put_u64 bytes 64 0;
  bytes ← put_u16 bytes 72 1;
  put_u32 bytes 80 4096.

Definition write_sysinfo (addr : Z) : SysMem unit :=
  if addr =? 0 then raise (SErrno Fault) else
  bytes ← lift sysinfo_bytes;
  on_mem (write_bytes addr bytes).

(** ** What depends on the host *)

Section AbiHost.
Context `{Host}.

(** [metadata_identity]: the device, the hash as inode number, the links. *)
Definition metadata_identity (md : Metadata) (path : option PathBuf) : Z * Z * Z :=
  (1, Z.max (metadata_hash md path) 1, 1).

Definition stat_from_metadata (md : Metadata) (path : option PathBuf) : StatData :=
  let '(dev, ino, nlink) := metadata_identity md path in
  if md_is_dir md then stat_directory dev ino nlink
  else stat_regular dev ino nlink (md_len md).

(** [write_stat_data_for_path]. *)
Definition stat_for_path (path : PathBuf) (w : World) : SysRes StatData :=
  md ← map_err map_io_errno (metadata path w);
  Ok (stat_from_metadata md (Some path)).

(** An operation of the host, its errors converted to error numbers. *)
Definition on_host {A} (m : ST World IoErrorKind A) : ST World SyscallError A :=
  zoom (fun w => w) (fun t _ => t) map_io_errno m.

Definition clock_now (clock : Z) : ST World SyscallError (Z * Z) :=
  if (clock =? CLOCK_REALTIME) || (clock =? CLOCK_MONOTONIC)
  then zoom (fun w => w) (fun t _ => t) (fun _ => SErrno Inval) system_time
  else raise (SErrno Inval).
End AbiHost.
