(* ===== verification/Terminal.v ===== *)
(** * The terminal of a process: crates/ruxeon-linux/src/lib.rs

    The [termios] and [winsize] structures of the guest, their layout in guest
    memory, and the terminal state that the [ioctl] calls read and change. *)

From S2P Require Import Prelude Memory Elf Host Fs LinuxAbi.

Open Scope Z_scope.

(** ** Data *)

Definition TERMIOS_SIZE : Z := 36.
Definition NCCS : Z := 19.
Definition BRKINT : Z := 0x0002.
Definition ICRNL : Z := 0x0100.
Definition IXON : Z := 0x0400.
Definition OPOST : Z := 0x0001.
Definition ONLCR : Z := 0x0004.
Definition B38400 : Z := 0x000f.
Definition CS8 : Z := 0x0030.
Definition CREAD : Z := 0x0080.
Definition ISIG : Z := 0x0001.
Definition ICANON : Z := 0x0002.
Definition ECHO : Z := 0x0008.
Definition ECHOE : Z := 0x0010.
Definition ECHOK : Z := 0x0020.
Definition IEXTEN : Z := 0x8000.

(** [cc] is an array of [NCCS] bytes. *)
Record LinuxTermios : Type := mkTermios {
  iflag : Z;
  oflag : Z;
  cflag : Z;
  lflag : Z;
  line : Z;
  cc : list Z
}.

Record LinuxWinsize : Type := mkWinsize {
  rows : Z;
  cols : Z;
  xpixel : Z;
  ypixel : Z
}.

Record TerminalState : Type := mkTerminal {
  termios : LinuxTermios;
  winsize : LinuxWinsize;
  winsize_overridden : bool
}.

(** ** [LinuxTermios] *)

(** [u32::from_le_bytes(bytes[i..i + 4])]. *)
Definition termios_word (bytes : list Z) (i : Z) : SysRes Z :=
  w ← slice bytes i (i + 4); Ok (of_le w).

Definition termios_of_bytes (bytes : list Z) : SysRes LinuxTermios :=
  cc ← slice bytes 17 (17 + NCCS);
  iflag ← termios_word bytes 0;
  oflag ← termios_word bytes 4;
  cflag ← termios_word bytes 8;
  lflag ← termios_word bytes 12;
  line ← index bytes 16;
  Ok (mkTermios iflag oflag cflag lflag line cc).

Definition termios_read_from_memory (addr : Z) : SysMem LinuxTermios :=
  bytes ← read_mem (fun m => read_bytes m addr TERMIOS_SIZE);
  lift (termios_of_bytes bytes).

Definition termios_bytes (t : LinuxTermios) : SysRes (list Z) :=
  let bytes := replicate (Z.to_nat TERMIOS_SIZE) 0 in
  bytes ← put_u32 bytes 0 (iflag t);
  bytes ← put_u32 bytes 4 (oflag t);
  bytes ← put_u32 bytes 8 (cflag t);
  bytes ← put_u32 bytes 12 (lflag t);
  bytes ← splice bytes 16 [line t];
  splice bytes 17 (cc t).

Definition termios_write_to_memory (t : LinuxTermios) (addr : Z) : SysMem unit :=
  bytes ← lift (termios_bytes t);
  on_mem (write_bytes addr bytes).

Definition termios_raw_mode (t : LinuxTermios) : bool := Z.land (lflag t) ICANON =? 0.

(** The assignments [cc[i] = b] of [Default]. *)
Definition termios_default : LinuxTermios :=
  mkTermios (Z.lor (Z.lor BRKINT ICRNL) IXON) (Z.lor OPOST ONLCR) (Z.lor (Z.lor B38400 CS8) CREAD)
    (Z.lor (Z.lor (Z.lor (Z.lor (Z.lor ISIG ICANON) ECHO) ECHOE) ECHOK) IEXTEN) 0
    [3; 28; 127; 21; 4; 0; 1; 0; 17; 19; 26; 0; 18; 15; 23; 22; 0; 0; 0].

(** ** [LinuxWinsize] *)

Definition winsize_from_host (size : option TerminalSize) : LinuxWinsize :=
  let size := default (mkTerminalSize 24 80 0 0) size in
  mkWinsize (Z.max (ts_rows size) 1) (Z.max (ts_cols size) 1) (ts_xpixel size)
    (ts_ypixel size).

Definition winsize_read_from_memory (addr : Z) : SysMem LinuxWinsize :=
  rows ← read_mem (fun m => Memory.read_u16 m addr);
  a ← lift (add64 addr 2);
  cols ← read_mem (fun m => Memory.read_u16 m a);
  a ← lift (add64 addr 4);
  xpixel ← read_mem (fun m => Memory.read_u16 m a);
  a ← lift (add64 addr 6);
  ypixel ← read_mem (fun m => Memory.read_u16 m a);
  mret (mkWinsize rows cols xpixel ypixel).

Definition winsize_write_to_memory (s : LinuxWinsize) (addr : Z) : SysMem unit :=
  on_mem (write_u16 addr (rows s)) ;;
  a ← lift (add64 addr 2);
  on_mem (write_u16 a (cols s)) ;;
  a ← lift (add64 addr 4);
  on_mem (write_u16 a (xpixel s)) ;;
  a ← lift (add64 addr 6);
  on_mem (write_u16 a (ypixel s)).

(** ** [TerminalState] *)

Section Terminal.
Context `{Host}.

Definition terminal_default (w : World) : TerminalState :=
  mkTerminal termios_default (winsize_from_host (terminal_size w)) false.

Definition current_winsize (t : TerminalState) (w : World) : LinuxWinsize :=
  if winsize_overridden t then winsize t else winsize_from_host (terminal_size w).

Definition write_winsize (t : TerminalState) (w : World) (addr : Z) : SysMem unit :=
  winsize_write_to_memory (current_winsize t w) addr.

Definition read_winsize (t : TerminalState) (addr : Z) : SysMem TerminalState :=
  s ← winsize_read_from_memory addr;
  mret (mkTerminal (termios t) s true).

Definition write_termios (t : TerminalState) (addr : Z) : SysMem unit :=
  termios_write_to_memory (termios t) addr.

Definition read_termios (t : TerminalState) (addr : Z) : SysMem TerminalState :=
  x ← termios_read_from_memory addr;
  mret (mkTerminal x (winsize t) (winsize_overridden t)).

Definition apply_host_mode (t : TerminalState) : ST World SyscallError unit :=
  on_host (set_raw_mode (termios_raw_mode (termios t))).
End Terminal.
