(* ===== verification/Fd.v ===== *)
(** * File descriptors: crates/ruxeon-linux/src/lib.rs

    The descriptor table of a process, its entries (standard streams, host
    files, directories, virtual files, pipe ends and buffers) and the
    operations on them.

    The ends of a pipe and their duplicates, in one process or in several after
    a fork, share one [Arc<Mutex<Vec<u8>>>].  The vectors live in the list
    [buffers] of the state every process shares, and an [Arc] is an index into
    it; cloning an [Arc] copies the index.  The lock is never poisoned, because
    no code panics while holding it.  A call that reads into a buffer of [n]
    bytes returns the bytes it has put at the front of the buffer. *)

From Stdlib Require Import String.
From S2P Require Import Prelude Memory Elf Host Fs LinuxAbi.

Open Scope Z_scope.

Section Fd.
Context `{Host}.

(** ** Data *)

(** What all processes share: the host and the pipe buffers. *)
Record Shared : Type := mkShared {
  world : World;
  buffers : list (list Z)
}.

Record DirectoryEntry : Type := mkDirectoryEntry { den_name : list Z; den_kind : Z }.

Record DirectoryFd : Type := mkDirectoryFd {
  dir_path : PathBuf;
  dir_entries : list DirectoryEntry;
  dir_cursor : Z
}.

Record VirtualFd : Type := mkVirtualFd {
  vf_file : VirtualFile;
  vf_data : list Z;
  vf_cursor : Z
}.

Inductive FdEntry : Type :=
| Stdin
| Stdout
| Stderr
| EFile (file : File)
| EDirectory (directory : DirectoryFd)
| EVirtual (file : VirtualFd)
| PipeRead (buffer : nat)
| PipeWrite (buffer : nat)
| EBuffer (buffer : nat).

Record FdSlot : Type := mkSlot {
  entry : FdEntry;
  slot_close_on_exec : bool;
  status_flags : Z
}.

Record FdTable : Type := mkFdTable {
  entries : gmap Z FdSlot;
  next_fd : Z
}.

(** A method of the table: it may change the table and the shared state. *)
Record FdState : Type := mkFdState { table : FdTable; shared : Shared }.

Abbreviation FdM := (ST FdState SyscallError).

Definition errno {A} (e : Errno) : FdM A := raise (SErrno e).

Definition on_world {A} (m : ST World SyscallError A) : FdM A :=
  zoom (fun s => world (shared s))
    (fun w s => mkFdState (table s) (mkShared w (buffers (shared s)))) (fun e => e) m.

Definition set_table (f : FdTable -> FdTable) : FdM unit :=
  modify (fun s => mkFdState (f (table s)) (shared s)).

Definition set_entries (f : gmap Z FdSlot -> gmap Z FdSlot) : FdM unit :=
  set_table (fun t => mkFdTable (f (entries t)) (next_fd t)).

Definition set_buffers (f : list (list Z) -> list (list Z)) : FdM unit :=
  modify (fun s => mkFdState (table s) (mkShared (world (shared s)) (f (buffers (shared s))))).

(** [self.entries.get(&fd).ok_or(Errno::Badf)?]. *)
Definition slot_at (fd : Z) : FdM FdSlot :=
  reads (fun s => ok_or (entries (table s) !! fd) (SErrno Badf)).

(** The plain [+] on [i32]. *)
Definition add_i32 (a b : Z) : SysRes Z := if a + b <? 2 ^ 31 then Ok (a + b) else Panic.

(** ** Slots and entries *)

Definition slot_new (e : FdEntry) : FdSlot := mkSlot e false 0.

Definition with_close_on_exec (b : bool) (s : FdSlot) : FdSlot :=
  mkSlot (entry s) b (status_flags s).

Definition fd_new : FdTable :=
  mkFdTable (<[2 := slot_new Stderr]> (<[1 := slot_new Stdout]> {[0 := slot_new Stdin]})) 3.

(** [FdEntry::duplicate]: a host file is cloned by the host. *)
Definition entry_duplicate (e : FdEntry) : FdM FdEntry :=
  match e with
  | EFile file => f ← on_world (on_host (file_try_clone file)); mret (EFile f)
  | e => mret e
  end.

Definition slot_duplicate (s : FdSlot) : FdM FdSlot :=
  e ← entry_duplicate (entry s); mret (mkSlot e false (status_flags s)).

Definition read_ready (s : FdSlot) (sh : Shared) : bool :=
  match entry s with
  | Stdin =>
      if has_bit (status_flags s) O_NONBLOCK
      then match stdin_ready (world sh) with Ok b => b | _ => false end
      else true
  | EFile _ | EVirtual _ | EDirectory _ => true
  | PipeRead b | EBuffer b =>
      match buffers sh !! b with Some (_ :: _) => true | _ => false end
  | Stdout | Stderr | PipeWrite _ => false
  end.

Definition write_ready (s : FdSlot) : bool :=
  match entry s with
  | Stdout | Stderr | EFile _ | EVirtual _ | PipeWrite _ | EBuffer _ => true
  | _ => false
  end.

(** ** Allocation of descriptors *)

(** The loop of [next_available_from]; [None] when the fuel runs out. *)
Fixpoint next_free (fuel : nat) (es : gmap Z FdSlot) (fd : Z) : option (SysRes Z) :=
  match fuel with
  | O => None
  | S fuel =>
      match es !! fd with
      | None => Some (Ok fd)
      | Some _ => match add_i32 fd 1 with
                  | Ok fd => next_free fuel es fd
                  | r => Some r
                  end
      end
  end.

(** One round more than there are descriptors. *)
Definition next_available_from (t : FdTable) (min_fd : Z) : SysRes Z :=
  default Panic (next_free (S (size (entries t))) (entries t) (Z.max min_fd 0)).

Definition insert_slot (slot : FdSlot) : FdM Z :=
  fd ← reads (fun s => next_available_from (table s) (next_fd (table s)));
  n ← reads (fun s => add_i32 (next_fd (table s)) 1);
  set_table (fun t => mkFdTable (<[fd := slot]> (entries t)) n) ;;
  mret fd.

Definition fd_insert (e : FdEntry) : FdM Z := insert_slot (slot_new e).

Definition set_slot (fd : Z) (slot : FdSlot) : FdM unit :=
  n ← lift (add_i32 fd 1);
  set_table (fun t => mkFdTable (<[fd := slot]> (entries t)) (Z.max (next_fd t) n)).

Definition fd_set (fd : Z) (e : FdEntry) : FdM unit := set_slot fd (slot_new e).

Definition install_buffer (fd : Z) (buffer : nat) : FdM unit := fd_set fd (EBuffer buffer).

Definition close (fd : Z) : FdM unit :=
  if fd <=? 2 then mret tt
  else slot_at fd ;; set_entries (delete fd).

Definition duplicate (old_fd min_fd : Z) (close_on_exec : bool) : FdM Z :=
  old ← slot_at old_fd;
  slot ← slot_duplicate old;
  new_fd ← reads (fun s => next_available_from (table s) min_fd);
  set_slot new_fd (with_close_on_exec close_on_exec slot) ;;
  mret new_fd.

Definition duplicate_to (old_fd new_fd : Z) (close_on_exec : bool) : FdM Z :=
  if old_fd =? new_fd then
    slot ← slot_at new_fd;
    (if close_on_exec
     then set_entries (<[new_fd := with_close_on_exec true slot]>) else mret tt) ;;
    mret new_fd
  else
    old ← slot_at old_fd;
    slot ← slot_duplicate old;
    set_entries (delete new_fd) ;;
    set_slot new_fd (with_close_on_exec close_on_exec slot) ;;
    mret new_fd.

(** [Arc::new(Mutex::new(Vec::new()))]. *)
Definition new_buffer : FdM nat :=
  b ← gets (fun s => length (buffers (shared s)));
  set_buffers (fun l => l ++ [[]]) ;;
  mret b.

Definition pipe (close_on_exec : bool) : FdM (Z * Z) :=
  buffer ← new_buffer;
  read_fd ← insert_slot (with_close_on_exec close_on_exec (slot_new (PipeRead buffer)));
  write_fd ← insert_slot (with_close_on_exec close_on_exec (slot_new (PipeWrite buffer)));
  mret (read_fd, write_fd).

Definition fcntl (fd cmd arg : Z) : FdM Z :=
  if cmd =? F_DUPFD then min ← lift (fd_arg arg); duplicate fd min false
  else if cmd =? F_DUPFD_CLOEXEC then min ← lift (fd_arg arg); duplicate fd min true
  else if cmd =? F_GETFD then
    slot ← slot_at fd; mret (if slot_close_on_exec slot then FD_CLOEXEC else 0)
  else if cmd =? F_SETFD then
    slot ← slot_at fd;
    set_entries (<[fd := with_close_on_exec (has_bit arg FD_CLOEXEC) slot]>) ;;
    mret 0
  else if cmd =? F_GETFL then slot ← slot_at fd; mret (signed 64 (status_flags slot))
  else if cmd =? F_SETFL then
    slot ← slot_at fd;
    set_entries (<[fd := mkSlot (entry slot) (slot_close_on_exec slot) arg]>) ;;
    mret 0
  else errno Inval.

(** [retain(|fd, slot| *fd <= 2 || !slot.close_on_exec)]. *)
Definition close_on_exec (t : FdTable) : FdTable :=
  mkFdTable (filter (fun p => (p.1 <=? 2) || negb (slot_close_on_exec p.2) = true) (entries t))
    (next_fd t).

(** The loop of [duplicate_all], over the slots in the order of [visit]. *)
Fixpoint duplicate_slots (l : list (Z * FdSlot)) (acc : gmap Z FdSlot)
    : FdM (gmap Z FdSlot) :=
  match l with
  | [] => mret acc
  | (fd, slot) :: l =>
      e ← entry_duplicate (entry slot);
      duplicate_slots l
        (<[fd := mkSlot e (slot_close_on_exec slot) (status_flags slot)]> acc)
  end.

Definition duplicate_all : FdM FdTable :=
  es ← gets (fun s => visit (entries (table s)));
  es' ← duplicate_slots es ∅;
  n ← gets (fun s => next_fd (table s));
  mret (mkFdTable es' n).

Definition poll_events (fd requested : Z) (s : FdState) : Z :=
  match entries (table s) !! fd with
  | None => POLLNVAL
  | Some slot =>
      let revents := 0 in
      let revents := if has_bit requested POLLIN && read_ready slot (shared s)
                     then Z.lor revents POLLIN else revents in
      if has_bit requested POLLOUT && write_ready slot
      then Z.lor revents POLLOUT else revents
  end.

(** ** Directories *)

Fixpoint directory_entries (es : list (res IoErrorKind DirEntry)) (acc : list DirectoryEntry)
    : SysRes (list DirectoryEntry) :=
  match es with
  | [] => Ok acc
  | e :: es =>
      e ← map_err map_io_errno e;
      is_dir ← map_err map_io_errno (de_is_dir e);
      directory_entries es
        (acc ++ [mkDirectoryEntry (to_string_lossy (de_file_name e))
                   (if is_dir : bool then 4 else 8)])
  end.

Definition directory_open (path : PathBuf) (w : World) : SysRes DirectoryFd :=
  es ← map_err map_io_errno (read_dir path w);
  entries ← directory_entries es
              [mkDirectoryEntry (text ".") 4; mkDirectoryEntry (text "..") 4];
  Ok (mkDirectoryFd path entries 0).

(** The bytes of one record, a [linux_dirent64]. *)
Definition dirent_bytes (cursor reclen : Z) (e : DirectoryEntry) : list Z :=
  let name := den_name e in
  to_le 8 (cursor + 1) ++ to_le 8 (cursor + 1) ++ to_le 2 reclen ++ [den_kind e] ++ name ++
  [0] ++ replicate (Z.to_nat (reclen - (19 + len name + 1))) 0.

(** The loop of [write_getdents64], over the entries from the cursor on, into
    an output of [room] bytes. *)
Fixpoint getdents_loop (room : Z) (es : list DirectoryEntry) (cursor : Z) (output : list Z)
    : SysRes (list Z * Z) :=
  match es with
  | [] => Ok (output, cursor)
  | e :: es =>
      reclen ← align_usize (19 + len (den_name e) + 1) 8;
      if room <? len output + reclen then Ok (output, cursor)
      else getdents_loop room es (cursor + 1) (output ++ dirent_bytes cursor reclen e)
  end.

Definition write_getdents64 (d : DirectoryFd) (room : Z) : SysRes (list Z * DirectoryFd) :=
  r ← getdents_loop room (drop (Z.to_nat (dir_cursor d)) (dir_entries d)) (dir_cursor d) [];
  Ok (r.1, mkDirectoryFd (dir_path d) (dir_entries d) r.2).

(** ** Virtual files *)

Definition is_device (v : VirtualFile) : bool :=
  match v with DevNull | DevZero | DevRandom | DevURandom => true | _ => false end.

Definition virtual_fd_new (v : VirtualFile) (executable_path : list Z)
    : ST World SyscallError VirtualFd :=
  data ← if is_device v then mret [] else read_virtual v executable_path u64_max;
  mret (mkVirtualFd v data 0).

Definition virtual_fd_read (f : VirtualFd) (n : Z)
    : ST World SyscallError (list Z * VirtualFd) :=
  match vf_file f with
  | DevNull => mret ([], f)
  | DevZero | DevRandom | DevURandom =>
      data ← read_virtual (vf_file f) [] n; mret (data, f)
  | _ =>
      let remaining := saturating_sub (len (vf_data f)) (vf_cursor f) in
      let count := Z.min n remaining in
      e ← lift (add64 (vf_cursor f) count);
      data ← lift (slice (vf_data f) (vf_cursor f) e);
      mret (data, mkVirtualFd (vf_file f) (vf_data f) e)
  end.

Definition virtual_fd_stat (f : VirtualFd) : StatData :=
  if is_device (vf_file f) then stat_char_device
  else stat_regular 0x1000 0x1000 1 (len (vf_data f)).

(** ** Reading, writing and listing *)

Definition set_entry (fd : Z) (slot : FdSlot) (e : FdEntry) : FdM unit :=
  set_entries (<[fd := mkSlot e (slot_close_on_exec slot) (status_flags slot)]>).

Definition getdents64 (fd room : Z) : FdM (list Z) :=
  slot ← slot_at fd;
  match entry slot with
  | EDirectory d =>
      r ← lift (write_getdents64 d room);
      set_entry fd slot (EDirectory r.2) ;;
      mret r.1
  | _ => errno NotDir
  end.

(** [buffer.drain(..count)] of the first bytes of a buffer. *)
Definition drain (b : nat) (n : Z) : FdM (list Z) :=
  buffer ← reads (fun s => expect (buffers (shared s) !! b));
  let count := Z.to_nat (Z.min n (len buffer)) in
  set_buffers (<[b := drop count buffer]>) ;;
  mret (take count buffer).

(** [buffer.extend_from_slice(bytes)]. *)
Definition extend (b : nat) (bytes : list Z) : FdM Z :=
  buffer ← reads (fun s => expect (buffers (shared s) !! b));
  set_buffers (<[b := buffer ++ bytes]>) ;;
  mret (len bytes).

Definition read (fd n : Z) : FdM (list Z) :=
  slot ← slot_at fd;
  match entry slot with
  | Stdin =>
      blocked ← (if has_bit (status_flags slot) O_NONBLOCK
                 then ready ← reads (fun s => map_err map_io_errno
                                                (stdin_ready (world (shared s))));
                      mret (negb ready)
                 else mret false);
      if blocked : bool then errno Again else on_world (on_host (stdin_read n))
  | EFile file => on_world (on_host (file_read file n))
  | EVirtual file =>
      r ← on_world (virtual_fd_read file n);
      set_entry fd slot (EVirtual r.2) ;;
      mret r.1
  | PipeRead b | EBuffer b => drain b n
  | Stdout | Stderr | PipeWrite _ | EDirectory _ => errno Badf
  end.

Definition write (fd : Z) (bytes : list Z) : FdM Z :=
  slot ← slot_at fd;
  match entry slot with
  | Stdout =>
      on_world (on_host (stdout_write_all bytes)) ;;
      on_world (on_host stdout_flush) ;;
      mret (len bytes)
  | Stderr =>
      on_world (on_host (stderr_write_all bytes)) ;;
      on_world (on_host stderr_flush) ;;
      mret (len bytes)
  | EFile file => on_world (on_host (file_write file bytes))
  | EVirtual file => mret (virtual_write (vf_file file) bytes)
  | PipeWrite b | EBuffer b => extend b bytes
  | Stdin | PipeRead _ | EDirectory _ => errno Badf
  end.

Definition stat (fd : Z) : FdM StatData :=
  slot ← slot_at fd;
  match entry slot with
  | EFile file =>
      md ← reads (fun s => map_err map_io_errno (file_metadata file (world (shared s))));
      mret (stat_from_metadata md None)
  | EDirectory d => reads (fun s => stat_for_path (dir_path d) (world (shared s)))
  | EVirtual file => mret (virtual_fd_stat file)
  | Stdin | Stdout | Stderr | PipeRead _ | PipeWrite _ | EBuffer _ => mret stat_char_device
  end.
End Fd.
