(* ===== verification/Process.v ===== *)
(** * Processes, wait queues and the scheduler: crates/ruxeon-linux/src/lib.rs

    The state of a process, the table of processes with their wait queues, and
    the round-robin scheduler.  A [ProcessId] and a [ThreadId] are [u32]
    numbers; a [HashMap] is a [gmap], and where the order in which the code
    visits one matters, it is that of [visit]. *)

From Stdlib Require Import String.
From S2P Require Import Prelude Memory Registers Elf Host Fs LinuxAbi Terminal Fd.

Open Scope Z_scope.

Section Process.
Context `{Host}.

(** ** Data *)

Record LinuxProcess : Type := mkProcess {
  p_pid : Z;
  p_tid : Z;
  p_ppid : Z;
  p_pgid : Z;
  p_next_child_pid : Z;
  p_cwd : GuestPath;
  p_rootfs : option RootFs;
  p_executable_path : list Z;
  p_brk_base : Z;
  p_brk : Z;
  p_mmap_next : Z;
  p_fs_base : Z;
  p_set_tid_address : Z;
  p_fd_table : FdTable;
  p_terminal : TerminalState;
  p_trace : list SyscallTrace
}.

Inductive ProcessState : Type := Runnable | Waiting | Exited.

#[export] Instance ProcessState_eq_dec : EqDecision ProcessState.
Proof. solve_decision. Defined.

(** The exit code, an [i32]. *)
Record ExitStatus : Type := mkExitStatus { exit_code : Z }.

(** [((self.code as u32) & 0xff) << 8]. *)
Definition wait_status (s : ExitStatus) : Z :=
  wrap 32 (Z.shiftl (Z.land (wrap 32 (exit_code s)) 0xff) 8).

Record SignalState : Type := mkSignals { pending : list Z }.

Definition signal_enqueue (signal : Z) (s : SignalState) : SignalState :=
  mkSignals (pending s ++ [signal]).

Definition signal_take_next (s : SignalState) : option Z * SignalState :=
  match pending s with
  | [] => (None, s)
  | x :: l => (Some x, mkSignals l)
  end.

Record LinuxThread : Type := mkThread {
  t_tid : Z;
  t_process_id : Z;
  t_registers : Registers;
  t_state : ProcessState
}.

Record ProcessRecord : Type := mkRecord {
  pr_process : LinuxProcess;
  pr_memory : GuestMemory;
  pr_threads : gmap Z LinuxThread;
  pr_parent : option Z;
  pr_children : list Z;
  pr_state : ProcessState;
  pr_exit_status : option ExitStatus;
  pr_signal_state : SignalState
}.

(** A [VecDeque] of exited children. *)
Record WaitQueue : Type := mkWaitQueue { exited : list (Z * ExitStatus) }.

Record ProcessTable : Type := mkProcessTable {
  records : gmap Z ProcessRecord;
  wait_queues : gmap Z WaitQueue;
  next_pid : Z
}.

(** A [VecDeque] of process and thread numbers. *)
Record Scheduler : Type := mkScheduler { run_queue : list (Z * Z) }.
(** ** A process *)

Definition set_p_fd_table (t : FdTable) (p : LinuxProcess) : LinuxProcess :=
  mkProcess (p_pid p) (p_tid p) (p_ppid p) (p_pgid p) (p_next_child_pid p) (p_cwd p)
    (p_rootfs p) (p_executable_path p) (p_brk_base p) (p_brk p) (p_mmap_next p) (p_fs_base p)
    (p_set_tid_address p) t (p_terminal p) (p_trace p).

Definition with_executable (rootfs : option PathBuf) (executable_path : list Z) (w : World)
    : LinuxProcess :=
  mkProcess 1000 1000 1 1000 1001 root (option_map mkRootFs rootfs) executable_path
    0x700000000000 0x700000000000 0x710000000000 0 0 fd_new (terminal_default w) [].

Definition process_new (rootfs : option PathBuf) (w : World) : LinuxProcess :=
  with_executable rootfs (text "/proc/self/exe") w.

Definition apply_exec (executable_path : list Z) (p : LinuxProcess) : LinuxProcess :=
  mkProcess (p_pid p) (p_tid p) (p_ppid p) (p_pgid p) (p_next_child_pid p) (p_cwd p)
    (p_rootfs p) executable_path (p_brk_base p) (p_brk p) (p_mmap_next p) 0 0
    (close_on_exec (p_fd_table p)) (p_terminal p) (p_trace p).

(** The plain [+] on [u32]. *)
Definition add_u32 (a b : Z) : SysRes Z := if a + b <? 2 ^ 32 then Ok (a + b) else Panic.

(** [try_clone_for_child]: the descriptors are duplicated through the host. *)
Definition try_clone_for_child (p : LinuxProcess) (child_pid : Z)
    : ST Shared SyscallError LinuxProcess := fun sh =>
  match add_u32 child_pid 1 with
  | Ok next =>
      let '(r, s) := duplicate_all (mkFdState (p_fd_table p) sh) in
      (t ← r;
       Ok (mkProcess child_pid child_pid (p_pid p) (p_pgid p) next (p_cwd p) (p_rootfs p)
             (p_executable_path p) (p_brk_base p) (p_brk p) (p_mmap_next p) (p_fs_base p)
             (p_set_tid_address p) t (p_terminal p) []),
       shared s)
  | Err e => (Err e, sh)
  | Panic => (Panic, sh)
  end.

(** ** Records *)

Definition set_pr_threads (ts : gmap Z LinuxThread) (r : ProcessRecord) : ProcessRecord :=
  mkRecord (pr_process r) (pr_memory r) ts (pr_parent r) (pr_children r) (pr_state r)
    (pr_exit_status r) (pr_signal_state r).

Definition set_pr_state (s : ProcessState) (r : ProcessRecord) : ProcessRecord :=
  mkRecord (pr_process r) (pr_memory r) (pr_threads r) (pr_parent r) (pr_children r) s
    (pr_exit_status r) (pr_signal_state r).

Definition set_pr_children (l : list Z) (r : ProcessRecord) : ProcessRecord :=
  mkRecord (pr_process r) (pr_memory r) (pr_threads r) (pr_parent r) l (pr_state r)
    (pr_exit_status r) (pr_signal_state r).

Definition set_pr_memory (m : GuestMemory) (r : ProcessRecord) : ProcessRecord :=
  mkRecord (pr_process r) m (pr_threads r) (pr_parent r) (pr_children r) (pr_state r)
    (pr_exit_status r) (pr_signal_state r).

Definition set_pr_process (p : LinuxProcess) (r : ProcessRecord) : ProcessRecord :=
  mkRecord p (pr_memory r) (pr_threads r) (pr_parent r) (pr_children r) (pr_state r)
    (pr_exit_status r) (pr_signal_state r).

Definition set_t_registers (x : Registers) (t : LinuxThread) : LinuxThread :=
  mkThread (t_tid t) (t_process_id t) x (t_state t).

Definition set_t_state (s : ProcessState) (t : LinuxThread) : LinuxThread :=
  mkThread (t_tid t) (t_process_id t) (t_registers t) s.

Definition main_thread_registers (r : ProcessRecord) : option Registers :=
  t_registers <$> pr_threads r !! p_tid (pr_process r).

Definition set_main_thread_registers (x : Registers) (r : ProcessRecord) : ProcessRecord :=
  set_pr_threads (alter (set_t_registers x) (p_tid (pr_process r)) (pr_threads r)) r.

(** [mark_exited], and the same assignments in [exit_process]. *)
Definition mark_exited (code : Z) (r : ProcessRecord) : ProcessRecord :=
  mkRecord (pr_process r) (pr_memory r) (set_t_state Exited <$> pr_threads r) (pr_parent r)
    (pr_children r) Exited (Some (mkExitStatus code)) (pr_signal_state r).

(** A process that waited becomes runnable, with its waiting threads. *)
Definition wake_thread (t : LinuxThread) : LinuxThread :=
  if decide (t_state t = Waiting) then set_t_state Runnable t else t.

Definition wake (r : ProcessRecord) : ProcessRecord :=
  set_pr_threads (wake_thread <$> pr_threads r) (set_pr_state Runnable r).

(** ** Wait queues *)

Definition queue_push (pid : Z) (status : ExitStatus) (q : WaitQueue) : WaitQueue :=
  mkWaitQueue (exited q ++ [(pid, status)]).

Definition requested_matches (requested : option Z) (pid : Z) : bool :=
  match requested with Some r => r =? pid | None => true end.

Definition pop_matching (requested : option Z) (q : WaitQueue)
    : option (Z * ExitStatus) * WaitQueue :=
  match position (fun e => requested_matches requested e.1) (exited q) with
  | None => (None, q)
  | Some i => (exited q !! i, mkWaitQueue (delete i (exited q)))
  end.

(** ** The table *)

Definition table_new : ProcessTable := mkProcessTable ∅ ∅ 1000.

Definition set_records (f : gmap Z ProcessRecord -> gmap Z ProcessRecord) (t : ProcessTable)
    : ProcessTable := mkProcessTable (f (records t)) (wait_queues t) (next_pid t).

Definition set_wait_queues (f : gmap Z WaitQueue -> gmap Z WaitQueue) (t : ProcessTable)
    : ProcessTable := mkProcessTable (records t) (f (wait_queues t)) (next_pid t).

(** [self.wait_queues.entry(pid).or_default()]. *)
Definition queue_of (t : ProcessTable) (pid : Z) : WaitQueue :=
  default (mkWaitQueue []) (wait_queues t !! pid).

Definition ensure_queue (pid : Z) (t : ProcessTable) : ProcessTable :=
  set_wait_queues (<[pid := queue_of t pid]>) t.

(** The record of a new process with one thread. *)
Definition new_record (p : LinuxProcess) (m : GuestMemory) (regs : Registers)
    (pid : Z) (parent : option Z) : ProcessRecord :=
  mkRecord p m {[p_tid p := mkThread (p_tid p) pid regs Runnable]} parent [] Runnable None
    (mkSignals []).

Definition insert_initial (p : LinuxProcess) (m : GuestMemory) (regs : Registers)
    (t : ProcessTable) : SysRes (Z * ProcessTable) :=
  next ← add_u32 (p_pid p) 1;
  let t := mkProcessTable (records t) (wait_queues t) (Z.max (next_pid t) next) in
  let t := set_records (<[p_pid p := new_record p m regs (p_pid p) None]>) t in
  Ok (p_pid p, ensure_queue (p_pid p) t).

Definition table_get (t : ProcessTable) (pid : Z) : option ProcessRecord := records t !! pid.

Definition table_take (pid : Z) (t : ProcessTable) : option ProcessRecord * ProcessTable :=
  (records t !! pid, set_records (delete pid) t).

Definition insert_record (pid : Z) (r : ProcessRecord) (t : ProcessTable) : ProcessTable :=
  set_records (<[pid := r]>) t.

(** The loop of [allocate_pid]; [None] when the fuel runs out. *)
Fixpoint allocate_loop (fuel : nat) (rs : gmap Z ProcessRecord) (next : Z)
    : option (SysRes (Z * Z)) :=
  match fuel with
  | O => None
  | S fuel =>
      match add_u32 next 1 with
      | Ok next' =>
          match rs !! next with
          | None => Some (Ok (next, next'))
          | Some _ => allocate_loop fuel rs next'
          end
      | Err e => Some (Err e)
      | Panic => Some Panic
      end
  end.

(** One round more than there are processes. *)
Definition allocate_pid (t : ProcessTable) : SysRes (Z * ProcessTable) :=
  r ← default Panic (allocate_loop (S (size (records t))) (records t) (next_pid t));
  Ok (r.1, mkProcessTable (records t) (wait_queues t) r.2).

(** The thread number in the memory of a new child: at the address given to
    [set_tid_address], and in the thread control block where it is mapped. *)
Definition child_memory (p : LinuxProcess) : SysMem unit :=
  (if p_set_tid_address p =? 0 then mret tt
   else on_mem (write_u32 (p_set_tid_address p) (p_tid p))) ;;
  if p_fs_base p =? 0 then mret tt
  else
    a ← lift (add64 (p_fs_base p) GLIBC_PTHREAD_TID_OFFSET);
    mapped ← gets (fun m => permissions_at m a);
    match mapped with
    | Some _ => on_mem (write_u32 a (p_tid p))
    | None => mret tt
    end.

(** [fork_from_process]: the table and the shared state may have changed when it
    fails. *)
Definition fork_from_process (p : LinuxProcess) (m : GuestMemory) (regs : Registers)
    : ST (ProcessTable * Shared) SyscallError Z := fun '(t, sh) =>
  match allocate_pid t with
  | Err e => (Err e, (t, sh))
  | Panic => (Panic, (t, sh))
  | Ok (child_pid, t) =>
      match try_clone_for_child p child_pid sh with
      | (Err e, sh) => (Err e, (t, sh))
      | (Panic, sh) => (Panic, (t, sh))
      | (Ok child, sh) =>
          match child_memory child m with
          | (Err e, _) => (Err e, (t, sh))
          | (Panic, _) => (Panic, (t, sh))
          | (Ok _, m') =>
              let r := new_record child m' (Registers.set_rax 0 regs) child_pid (Some (p_pid p)) in
              let t := insert_record child_pid r t in
              let t := ensure_queue (p_pid p) (ensure_queue child_pid t) in
              (Ok child_pid,
               (set_records
                  (alter (fun r => set_pr_children (pr_children r ++ [child_pid]) r) (p_pid p)) t,
                sh))
          end
      end
  end.

Definition push_exit (parent pid : Z) (status : ExitStatus) (t : ProcessTable) : ProcessTable :=
  set_wait_queues (<[parent := queue_push pid status (queue_of t parent)]>) t.

Definition exit_process (pid code : Z) (t : ProcessTable) : ProcessTable :=
  let parent := records t !! pid ≫= pr_parent in
  let t := set_records (alter (mark_exited code) pid) t in
  match parent with
  | Some parent =>
      set_records (alter wake parent) (push_exit parent pid (mkExitStatus code) t)
  | None => t
  end.

Definition record_exit (pid : Z) (parent : option Z) (code : Z) (t : ProcessTable)
    : ProcessTable :=
  let t := exit_process pid code t in
  match parent with
  | Some parent =>
      let already_queued :=
        match wait_queues t !! parent with
        | Some q => existsb (fun e => e.1 =? pid) (exited q)
        | None => false
        end in
      let t := if already_queued then t else push_exit parent pid (mkExitStatus code) t in
      set_records (alter wake parent) t
  | None => t
  end.

Definition wait4 (parent : Z) (requested : option Z) (t : ProcessTable)
    : option (Z * ExitStatus) * ProcessTable :=
  match wait_queues t !! parent with
  | None => (None, t)
  | Some q =>
      let '(waited, q') := pop_matching requested q in
      let t := set_wait_queues (<[parent := q']>) t in
      match waited with
      | None => (None, t)
      | Some (pid, status) =>
          let t := set_wait_queues (delete pid) (set_records (delete pid) t) in
          (Some (pid, status),
           set_records (alter (fun r => set_pr_children
             (List.filter (fun c => negb (c =? pid)) (pr_children r)) r) parent) t)
      end
  end.

Definition has_child (t : ProcessTable) (parent : Z) (requested : option Z) : bool :=
  existsb (fun '(pid, r) =>
    bool_decide (pr_parent r = Some parent) && requested_matches requested pid)
    (map_to_list (records t)).

(** ** The scheduler *)

Definition enqueue (pid tid : Z) (s : Scheduler) : Scheduler :=
  if decide ((pid, tid) ∈ run_queue s) then s else mkScheduler (run_queue s ++ [(pid, tid)]).

Definition enqueue_process (r : ProcessRecord) (s : Scheduler) : Scheduler :=
  foldl (fun s '(_, t) =>
    if decide (t_state t = Runnable) then enqueue (t_process_id t) (t_tid t) s else s)
    s (visit (pr_threads r)).

Definition thread_runnable (t : ProcessTable) (e : Z * Z) : bool :=
  match records t !! e.1 with
  | Some r => match pr_threads r !! e.2 with
              | Some th => bool_decide (t_state th = Runnable)
              | None => false
              end
  | None => false
  end.

(** The loop of [next_thread]: entries that cannot run are dropped. *)
Fixpoint next_loop (t : ProcessTable) (q : list (Z * Z)) : option (Z * Z) * list (Z * Z) :=
  match q with
  | [] => (None, [])
  | e :: q => if thread_runnable t e then (Some e, q ++ [e]) else next_loop t q
  end.

Definition next_thread (t : ProcessTable) (s : Scheduler) : option (Z * Z) * Scheduler :=
  let '(r, q) := next_loop t (run_queue s) in (r, mkScheduler q).
End Process.
