(* ===== verification/Syscalls.v ===== *)
(** * The system calls: crates/ruxeon-linux/src/lib.rs

    The methods of [LinuxProcess] that implement calls, the vectored and
    file-to-file transfers, and the dispatcher.  The state of a call is the
    [Kernel]: the calling process, its memory (the [SyscallContext]), what all
    processes share, and the process table when the caller passes one. *)

From Stdlib Require Import String.
From S2P Require Import Prelude Memory Registers Elf Host Fs LinuxAbi Terminal Fd Process.

Open Scope Z_scope.

Section Syscalls.
Context `{Host}.

Record Kernel : Type := mkKernel {
  k_process : LinuxProcess;
  k_memory : GuestMemory;
  k_shared : Shared;
  k_table : option ProcessTable
}.

Abbreviation KM := (ST Kernel SyscallError).
Abbreviation FdM := (ST FdState SyscallError).

Definition fail {A} (e : Errno) : KM A := raise (SErrno e).

(** An operation on guest memory. *)
Definition in_memory {A} (m : SysMem A) : KM A :=
  zoom k_memory (fun m k => mkKernel (k_process k) m (k_shared k) (k_table k)) (fun e => e) m.

(** An operation on the descriptor table of the process. *)
Definition in_fds {A} (m : FdM A) : KM A :=
  zoom (fun k => mkFdState (p_fd_table (k_process k)) (k_shared k))
    (fun s k => mkKernel (set_p_fd_table (table s) (k_process k)) (k_memory k) (shared s)
                  (k_table k)) (fun e => e) m.

(** An operation on the host. *)
Definition in_world {A} (m : ST World SyscallError A) : KM A := in_fds (on_world m).

(** A question to the host. *)
Definition ask_host {A} (f : World -> res IoErrorKind A) : KM A :=
  reads (fun k => map_err map_io_errno (f (world (k_shared k)))).

Definition set_proc (f : LinuxProcess -> LinuxProcess) : KM unit :=
  modify (fun k => mkKernel (f (k_process k)) (k_memory k) (k_shared k) (k_table k)).

Definition proc {A} (f : LinuxProcess -> A) : KM A := gets (fun k => f (k_process k)).

(** [Path::is_dir] and [Path::exists]. *)
Definition path_is_dir (p : PathBuf) (w : World) : bool :=
  match metadata p w with Ok md => md_is_dir md | _ => false end.
Definition path_exists (p : PathBuf) (w : World) : bool :=
  match metadata p w with Ok _ => true | _ => false end.

(** ** Fields of a process *)

Definition set_p_brk (x : Z) (p : LinuxProcess) : LinuxProcess :=
  mkProcess (p_pid p) (p_tid p) (p_ppid p) (p_pgid p) (p_next_child_pid p) (p_cwd p)
    (p_rootfs p) (p_executable_path p) (p_brk_base p) x (p_mmap_next p) (p_fs_base p)
    (p_set_tid_address p) (p_fd_table p) (p_terminal p) (p_trace p).

Definition set_p_mmap_next (x : Z) (p : LinuxProcess) : LinuxProcess :=
  mkProcess (p_pid p) (p_tid p) (p_ppid p) (p_pgid p) (p_next_child_pid p) (p_cwd p)
    (p_rootfs p) (p_executable_path p) (p_brk_base p) (p_brk p) x (p_fs_base p)
    (p_set_tid_address p) (p_fd_table p) (p_terminal p) (p_trace p).

Definition set_p_fs_base (x : Z) (p : LinuxProcess) : LinuxProcess :=
  mkProcess (p_pid p) (p_tid p) (p_ppid p) (p_pgid p) (p_next_child_pid p) (p_cwd p)
    (p_rootfs p) (p_executable_path p) (p_brk_base p) (p_brk p) (p_mmap_next p) x
    (p_set_tid_address p) (p_fd_table p) (p_terminal p) (p_trace p).

Definition set_p_set_tid_address (x : Z) (p : LinuxProcess) : LinuxProcess :=
  mkProcess (p_pid p) (p_tid p) (p_ppid p) (p_pgid p) (p_next_child_pid p) (p_cwd p)
    (p_rootfs p) (p_executable_path p) (p_brk_base p) (p_brk p) (p_mmap_next p) (p_fs_base p)
    x (p_fd_table p) (p_terminal p) (p_trace p).

Definition set_p_pgid (x : Z) (p : LinuxProcess) : LinuxProcess :=
  mkProcess (p_pid p) (p_tid p) (p_ppid p) x (p_next_child_pid p) (p_cwd p)
    (p_rootfs p) (p_executable_path p) (p_brk_base p) (p_brk p) (p_mmap_next p) (p_fs_base p)
    (p_set_tid_address p) (p_fd_table p) (p_terminal p) (p_trace p).

Definition set_p_next_child_pid (x : Z) (p : LinuxProcess) : LinuxProcess :=
  mkProcess (p_pid p) (p_tid p) (p_ppid p) (p_pgid p) x (p_cwd p)
    (p_rootfs p) (p_executable_path p) (p_brk_base p) (p_brk p) (p_mmap_next p) (p_fs_base p)
    (p_set_tid_address p) (p_fd_table p) (p_terminal p) (p_trace p).

Definition set_p_cwd (x : GuestPath) (p : LinuxProcess) : LinuxProcess :=
  mkProcess (p_pid p) (p_tid p) (p_ppid p) (p_pgid p) (p_next_child_pid p) x
    (p_rootfs p) (p_executable_path p) (p_brk_base p) (p_brk p) (p_mmap_next p) (p_fs_base p)
    (p_set_tid_address p) (p_fd_table p) (p_terminal p) (p_trace p).

Definition set_p_terminal (x : TerminalState) (p : LinuxProcess) : LinuxProcess :=
  mkProcess (p_pid p) (p_tid p) (p_ppid p) (p_pgid p) (p_next_child_pid p) (p_cwd p)
    (p_rootfs p) (p_executable_path p) (p_brk_base p) (p_brk p) (p_mmap_next p) (p_fs_base p)
    (p_set_tid_address p) (p_fd_table p) x (p_trace p).

Definition push_p_trace (x : SyscallTrace) (p : LinuxProcess) : LinuxProcess :=
  mkProcess (p_pid p) (p_tid p) (p_ppid p) (p_pgid p) (p_next_child_pid p) (p_cwd p)
    (p_rootfs p) (p_executable_path p) (p_brk_base p) (p_brk p) (p_mmap_next p) (p_fs_base p)
    (p_set_tid_address p) (p_fd_table p) (p_terminal p) (p_trace p ++ [x]).

(** ** Paths *)

Definition normalize_guest_path (p : LinuxProcess) (path : list Z) : SysRes GuestPath :=
  map_err of_fs_error (join (p_cwd p) path).

(** A path without a root directory: the host path is the guest path. *)
Definition resolve_plain (p : LinuxProcess) (path : list Z) : SysRes ResolvedPath :=
  guest ← normalize_guest_path p path;
  match from_guest_path (raw guest) with
  | Some file => Ok (RVirtual guest file)
  | None => Ok (RHost guest (raw guest))
  end.

(** A path relative to an open directory. *)
Definition resolve_at (p : LinuxProcess) (fd : Z) (path : list Z) : SysRes ResolvedPath :=
  match entries (p_fd_table p) !! fd with
  | Some slot =>
      match entry slot with
      | EDirectory d =>
          guest ← map_err of_fs_error (parse_path path);
          Ok (RHost guest (path_push (dir_path d) (replace_byte 47 92 path)))
      | _ => Err (SErrno Badf)
      end
  | None => Err (SErrno Badf)
  end.

Definition resolve_path (dirfd : option Z) (path : list Z) : KM ResolvedPath :=
  reads (fun k =>
    let p := k_process k in
    if negb (is_nonempty path) then Err (SErrno NoEnt)
    else match (if starts_with 47 path then None else dirfd) with
    | None =>
        match p_rootfs p with
        | Some fs => map_err of_fs_error (resolve fs (p_cwd p) path (world (k_shared k)))
        | None => resolve_plain p path
        end
    | Some fd => resolve_at p fd path
    end).

Definition mkdir_guest_path (dirfd : option Z) (path : list Z) : KM Z :=
  r ← resolve_path dirfd path;
  match r with
  | RVirtual _ _ => fail Acces
  | RHost _ host => in_world (on_host (create_dir host)) ;; mret 0
  end.

Definition remove_guest_path (dirfd : option Z) (path : list Z) (remove_directory : bool)
    : KM Z :=
  r ← resolve_path dirfd path;
  match r with
  | RVirtual _ _ => fail Acces
  | RHost _ host =>
      (if remove_directory then in_world (on_host (remove_dir host))
       else in_world (on_host (remove_file host))) ;;
      mret 0
  end.

Definition open_options (flags : Z) : OpenOptions :=
  let mode := Z.land flags O_ACCMODE in
  mkOpenOptions (negb (mode =? O_WRONLY)) ((mode =? O_WRONLY) || (mode =? O_RDWR))
    (has_bit flags O_CREAT) (has_bit flags O_TRUNC) (has_bit flags O_APPEND).

Definition open_guest_path (dirfd : option Z) (path : list Z) (flags : Z) : KM Z :=
  r ← resolve_path dirfd path;
  match r with
  | RVirtual _ file =>
      exe ← proc p_executable_path;
      v ← in_world (virtual_fd_new file exe);
      in_fds (fd_insert (EVirtual v))
  | RHost _ host =>
      if has_bit flags O_DIRECTORY then
        is_dir ← gets (fun k => path_is_dir host (world (k_shared k)));
        if negb is_dir then fail NotDir else
        d ← reads (fun k => directory_open host (world (k_shared k)));
        in_fds (fd_insert (EDirectory d))
      else
        file ← in_world (on_host (open_file (open_options flags) host));
        (if has_bit flags O_APPEND then in_world (on_host (file_seek_end file))
         else mret tt) ;;
        in_fds (fd_insert (EFile file))
  end.

Definition write_stat_for_guest_path (dirfd : option Z) (path : list Z) (addr : Z)
    : KM unit :=
  r ← resolve_path dirfd path;
  match r with
  | RVirtual _ file =>
      exe ← proc p_executable_path;
      v ← in_world (virtual_fd_new file exe);
      in_memory (write_stat addr (virtual_fd_stat v))
  | RHost _ host =>
      data ← reads (fun k => stat_for_path host (world (k_shared k)));
      in_memory (write_stat addr data)
  end.

Definition execve_request (guest_path : list Z) (argv_addr envp_addr : Z)
    : KM ExecveRequest :=
  r ← resolve_path None guest_path;
  match r with
  | RVirtual _ _ => fail Acces
  | RHost _ host =>
      fs ← proc p_rootfs;
      argv ← reads (fun k => read_string_vector (k_memory k) argv_addr);
      envp ← reads (fun k => read_string_vector (k_memory k) envp_addr);
      mret (mkExecve guest_path host (option_map host_root fs) argv envp)
  end.

(** ** Memory *)

Definition process_brk (requested : Z) : KM Z :=
  base ← proc p_brk_base;
  brk ← proc p_brk;
  if (requested =? 0) || (requested <? base) then mret brk
  else
    (if requested <? brk then
       unmap_start ← lift (align_up requested PAGE_SIZE);
       unmap_end ← lift (align_up brk PAGE_SIZE);
       if unmap_start <? unmap_end
       then in_memory (on_mem (unmap_range unmap_start (unmap_end - unmap_start)))
       else mret tt
     else if brk <? requested then
       map_start ← lift (align_up brk PAGE_SIZE);
       map_end ← lift (align_up requested PAGE_SIZE);
       if map_start <? map_end
       then in_memory (on_mem (map_region map_start (map_end - map_start) (Z.lor READ WRITE)
                                 (Some (text "[brk]"))))
       else mret tt
     else mret tt) ;;
    set_proc (set_p_brk requested) ;;
    mret requested.

(** No region overlaps the range the caller asks for. *)
Definition hint_is_free (m : GuestMemory) (addr size : Z) : bool :=
  match checked_add addr size with
  | Some e => negb (existsb (fun r => (addr <? r_end r) && (r_base r <? e)) (regions m))
  | None => false
  end.

(** The address of a new mapping; the next free area moves on when it is used. *)
Definition mmap_address (requested_addr size flags : Z) : KM Z :=
  free ← gets (fun k => hint_is_free (k_memory k) requested_addr size);
  if has_bit flags MAP_FIXED then
    if negb (requested_addr mod PAGE_SIZE =? 0) then fail Inval else mret requested_addr
  else if negb (requested_addr =? 0) && free then mret requested_addr
  else
    address ← proc p_mmap_next;
    step ← lift (add64 size PAGE_SIZE);
    set_proc (fun p => set_p_mmap_next (saturating_add (p_mmap_next p) step) p) ;;
    mret address.

(** [read_sendfile_chunk]: up to [n] bytes of a file, from [offset] when one is
    given, with the position of the file restored; returns the bytes and the new
    offset. *)
Definition read_sendfile_chunk (fd : Z) (offset : option Z) (n : Z)
    : FdM (list Z * option Z) :=
  slot ← slot_at fd;
  match entry slot with
  | EFile file =>
      saved ← (match offset with
               | Some o =>
                   current ← on_world (on_host (file_position file));
                   on_world (on_host (file_seek_start file o)) ;;
                   mret (Some current)
               | None => mret None
               end);
      data ← on_world (on_host (file_read file n));
      (match saved with
       | Some position => on_world (on_host (file_seek_start file position))
       | None => mret tt
       end) ;;
      mret (data, option_map (fun o => saturating_add o (len data)) offset)
  | EVirtual file =>
      let file' := match offset with
                   | Some o => mkVirtualFd (vf_file file) (vf_data file) o
                   | None => file
                   end in
      r ← on_world (virtual_fd_read file' n);
      let after := match offset with
                   | Some _ => mkVirtualFd (vf_file r.2) (vf_data r.2) (vf_cursor file)
                   | None => r.2
                   end in
      set_entry fd slot (EVirtual after) ;;
      mret (r.1, option_map (fun o => saturating_add o (len r.1)) offset)
  | EDirectory _ => errno IsDir
  | _ => errno Inval
  end.

Definition load_mmap_backing (address length fd offset flags : Z) : KM unit :=
  if negb (has_bit flags MAP_PRIVATE) then fail Inval else
  fd ← lift (fd_arg fd);
  read_len ← lift (usize_arg length);
  lift (capacity read_len) ;;
  r ← in_fds (read_sendfile_chunk fd (Some offset) read_len);
  if 0 <? len r.1 then in_memory (on_mem (load_bytes address r.1)) else mret tt.

Definition mmap (requested_addr length prot flags fd offset : Z) : KM Z :=
  if length =? 0 then fail Inval
  else if negb (offset mod PAGE_SIZE =? 0) then fail Inval
  else
    size ← lift (align_up length PAGE_SIZE);
    address ← mmap_address requested_addr size flags;
    (if has_bit flags MAP_FIXED then in_memory (on_mem (unmap_range address size))
     else mret tt) ;;
    in_memory (on_mem (map_region address size (memory_permissions prot)
                         (Some (text "[mmap]")))) ;;
    (if has_bit flags MAP_ANONYMOUS then mret tt
     else load_mmap_backing address length fd offset flags) ;;
    mret address.

(** ** The terminal *)

Definition require_terminal_fd (fd : Z) : KM unit :=
  slot ← in_fds (slot_at fd);
  match entry slot with
  | Stdin | Stdout | Stderr => mret tt
  | _ => fail NoTty
  end.

(** [if arg != 0 { body }]. *)
Definition unless_null (arg : Z) (body : KM unit) : KM unit :=
  if arg =? 0 then mret tt else body.

Definition ioctl (fd request arg : Z) : KM Z :=
  if request =? TIOCGWINSZ then
    require_terminal_fd fd ;;
    unless_null arg
      (t ← proc p_terminal;
       w ← gets (fun k => world (k_shared k));
       in_memory (write_winsize t w arg)) ;;
    mret 0
  else if request =? TIOCSWINSZ then
    require_terminal_fd fd ;;
    unless_null arg
      (t ← proc p_terminal;
       t' ← in_memory (read_winsize t arg);
       set_proc (set_p_terminal t')) ;;
    mret 0
  else if request =? TCGETS then
    require_terminal_fd fd ;;
    unless_null arg (t ← proc p_terminal; in_memory (write_termios t arg)) ;;
    mret 0
  else if (request =? TCSETS) || (request =? TCSETSW) || (request =? TCSETSF) then
    require_terminal_fd fd ;;
    unless_null arg
      (t ← proc p_terminal;
       t' ← in_memory (read_termios t arg);
       set_proc (set_p_terminal t') ;;
       in_world (apply_host_mode t')) ;;
    mret 0
  else if request =? TIOCGPGRP then
    require_terminal_fd fd ;;
    unless_null arg (pgid ← proc p_pgid; in_memory (on_mem (write_u32 arg pgid))) ;;
    mret 0
  else if request =? TIOCSPGRP then require_terminal_fd fd ;; mret 0
  else fail Inval.

(** ** Vectored and file-to-file transfers *)

(** The loop of [poll_fds], from [index] on, over [n] more descriptors. *)
Fixpoint poll_loop (n : nat) (addr index ready : Z) : KM Z :=
  match n with
  | O => mret ready
  | S n =>
      offset ← lift (mul64 index 8);
      base ← lift (add64 addr offset);
      fd ← in_memory (read_mem (fun m => Memory.read_u32 m base));
      a ← lift (add64 base 4);
      events ← in_memory (read_mem (fun m => Memory.read_u16 m a));
      revents ← in_fds (gets (poll_events (signed 32 fd) (signed 16 events)));
      a ← lift (add64 base 6);
      in_memory (on_mem (write_u16 a revents)) ;;
      poll_loop n addr (index + 1) (if revents =? 0 then ready else ready + 1)
  end.

Definition poll_fds (addr count : Z) : KM Z := poll_loop (Z.to_nat count) addr 0 0.

(** The base and the length of the [index]-th entry of a vector of buffers. *)
Definition read_iovec (iov_addr index : Z) : KM (Z * Z) :=
  offset ← lift (mul64 index 16);
  entry ← lift (add64 iov_addr offset);
  base ← in_memory (read_mem (fun m => Memory.read_u64 m entry));
  a ← lift (add64 entry 8);
  length ← in_memory (read_mem (fun m => Memory.read_u64 m a));
  length ← lift (usize_arg length);
  mret (base, length).

Fixpoint writev_loop (n : nat) (fd iov_addr index total : Z) : KM Z :=
  match n with
  | O => mret total
  | S n =>
      e ← read_iovec iov_addr index;
      if e.2 =? 0 then writev_loop n fd iov_addr (index + 1) total
      else
        bytes ← in_memory (read_mem (fun m => read_bytes m e.1 e.2));
        count ← in_fds (write fd bytes);
        total ← lift (add64 total count);
        writev_loop n fd iov_addr (index + 1) total
  end.

Definition writev (fd iov_addr iov_count : Z) : KM Z :=
  total ← writev_loop (Z.to_nat iov_count) fd iov_addr 0 0;
  mret (signed 64 total).

Fixpoint readv_loop (n : nat) (fd iov_addr index total : Z) : KM Z :=
  match n with
  | O => mret total
  | S n =>
      e ← read_iovec iov_addr index;
      if e.2 =? 0 then readv_loop n fd iov_addr (index + 1) total
      else
        lift (capacity e.2) ;;
        bytes ← in_fds (read fd e.2);
        in_memory (on_mem (write_bytes e.1 bytes)) ;;
        total ← lift (add64 total (len bytes));
        if len bytes <? e.2 then mret total
        else readv_loop n fd iov_addr (index + 1) total
  end.

Definition readv (fd iov_addr iov_count : Z) : KM Z :=
  total ← readv_loop (Z.to_nat iov_count) fd iov_addr 0 0;
  mret (signed 64 total).

Definition CHUNK_SIZE : Z := 8192.

(** The inner loop of [sendfile]: write all of [chunk].  Each round writes at
    least one byte, so the length of the chunk is enough fuel. *)
Fixpoint write_chunk (fuel : nat) (out_fd : Z) (chunk : list Z) : FdM unit :=
  match fuel with
  | O => mret tt
  | S fuel =>
      if is_nonempty chunk then
        count ← write out_fd chunk;
        if count =? 0 then errno Io
        else write_chunk fuel out_fd (drop (Z.to_nat count) chunk)
      else mret tt
  end.

(** The outer loop: each round transfers at least one byte, so [count] rounds
    are enough. *)
Fixpoint sendfile_loop (fuel : nat) (out_fd in_fd : Z) (offset : option Z)
    (count total : Z) : FdM (Z * option Z) :=
  match fuel with
  | O => mret (total, offset)
  | S fuel =>
      if total <? count then
        r ← read_sendfile_chunk in_fd offset (Z.min (count - total) CHUNK_SIZE);
        if len r.1 =? 0 then mret (total, r.2)
        else
          write_chunk (length r.1) out_fd r.1 ;;
          sendfile_loop fuel out_fd in_fd r.2 count (total + len r.1)
      else mret (total, offset)
  end.

Definition sendfile (out_fd in_fd offset_addr count : Z) : KM Z :=
  if count =? 0 then mret 0 else
  offset ← (if offset_addr =? 0 then mret None
            else o ← in_memory (read_mem (fun m => Memory.read_u64 m offset_addr));
                 mret (Some o));
  r ← in_fds (sendfile_loop (Z.to_nat count) out_fd in_fd offset count 0);
  (match r.2 with
   | Some o => in_memory (on_mem (write_u64 offset_addr o))
   | None => mret tt
   end) ;;
  mret (signed 64 r.1).

(** ** Dispatch *)

Definition arg (args : list Z) (i : nat) : Z := nth i args 0.

(** A path argument. *)
Definition path_arg (addr : Z) : KM (list Z) :=
  reads (fun k => read_c_string (k_memory k) addr).

Definition O_CLOEXEC : Z := 0x80000.

Definition syscall_read (args : list Z) : KM Z :=
  fd ← lift (fd_arg (arg args 0));
  n ← lift (usize_arg (arg args 2));
  lift (capacity n) ;;
  bytes ← in_fds (read fd n);
  in_memory (on_mem (write_bytes (arg args 1) bytes)) ;;
  mret (len bytes).

Definition syscall_write (args : list Z) : KM Z :=
  fd ← lift (fd_arg (arg args 0));
  n ← lift (usize_arg (arg args 2));
  bytes ← in_memory (read_mem (fun m => read_bytes m (arg args 1) n));
  in_fds (write fd bytes).

Definition syscall_getdents64 (args : list Z) : KM Z :=
  fd ← lift (fd_arg (arg args 0));
  n ← lift (usize_arg (arg args 2));
  lift (capacity n) ;;
  bytes ← in_fds (getdents64 fd n);
  in_memory (on_mem (write_bytes (arg args 1) bytes)) ;;
  mret (len bytes).

Definition syscall_pipe (args : list Z) (cloexec : bool) : KM Z :=
  fds ← in_fds (pipe cloexec);
  in_memory (on_mem (write_u32 (arg args 0) fds.1)) ;;
  a ← lift (add64 (arg args 0) 4);
  in_memory (on_mem (write_u32 a fds.2)) ;;
  mret 0.

Definition syscall_dup3 (args : list Z) : KM Z :=
  if arg args 0 =? arg args 1 then fail Inval else
  old ← lift (fd_arg (arg args 0));
  new ← lift (fd_arg (arg args 1));
  in_fds (duplicate_to old new (has_bit (arg args 2) O_CLOEXEC)).

Definition syscall_dup2 (args : list Z) : KM Z :=
  old ← lift (fd_arg (arg args 0));
  new ← lift (fd_arg (arg args 1));
  in_fds (duplicate_to old new false).

Definition syscall_munmap (args : list Z) : KM Z :=
  size ← lift (align_up (arg args 1) PAGE_SIZE);
  in_memory (on_mem (unmap_range (arg args 0) size)) ;;
  mret 0.

Definition syscall_mprotect (args : list Z) : KM Z :=
  size ← lift (align_up (arg args 1) PAGE_SIZE);
  size ← lift (usize_arg size);
  in_memory (on_mem (protect (arg args 0) size (memory_permissions (arg args 2)))) ;;
  mret 0.

Definition syscall_arch_prctl (args : list Z) : KM Z :=
  if arg args 0 =? ARCH_SET_FS then set_proc (set_p_fs_base (arg args 1)) ;; mret 0
  else if arg args 0 =? ARCH_GET_FS then
    fs_base ← proc p_fs_base;
    in_memory (on_mem (write_u64 (arg args 1) fs_base)) ;;
    mret 0
  else fail Inval.

Definition syscall_setpgid (args : list Z) : KM Z :=
  set_proc (fun p => set_p_pgid (if arg args 1 =? 0 then p_pid p else wrap 32 (arg args 1)) p) ;;
  mret 0.

Definition syscall_getcwd (args : list Z) : KM Z :=
  cwd ← proc p_cwd;
  let bytes := raw cwd ++ [0] in
  n ← lift (usize_arg (arg args 1));
  if n <? len bytes then fail NoEnt else
  in_memory (on_mem (write_bytes (arg args 0) bytes)) ;;
  mret (signed 64 (arg args 0)).

Definition syscall_chdir (args : list Z) : KM Z :=
  path ← path_arg (arg args 0);
  r ← resolve_path None path;
  match resolved_host r with
  | None => fail NotDir
  | Some host =>
      is_dir ← gets (fun k => path_is_dir host (world (k_shared k)));
      if negb is_dir then fail NoEnt else
      set_proc (set_p_cwd (resolved_guest r)) ;; mret 0
  end.

Definition syscall_access (args : list Z) : KM Z :=
  path ← path_arg (arg args 0);
  r ← resolve_path None path;
  match r with
  | RVirtual _ _ => mret 0
  | RHost _ host =>
      found ← gets (fun k => path_exists host (world (k_shared k)));
      if found : bool then mret 0 else fail NoEnt
  end.

Definition syscall_readlink (args : list Z) : KM Z :=
  path ← path_arg (arg args 0);
  r ← resolve_path None path;
  target ← match r with
           | RVirtual _ ProcSelfExe => proc p_executable_path
           | RVirtual _ _ => fail Inval
           | RHost _ host => t ← ask_host (read_link host); mret (to_string_lossy t)
           end;
  max ← lift (usize_arg (arg args 2));
  let n := Z.min (len target) max in
  bytes ← lift (slice target 0 n);
  in_memory (on_mem (write_bytes (arg args 1) bytes)) ;;
  mret n.

Definition syscall_clock_gettime (args : list Z) : KM Z :=
  now ← in_world (clock_now (arg args 0));
  in_memory (write_timespec (arg args 1) now) ;;
  mret 0.

Definition syscall_nanosleep (args : list Z) : KM Z :=
  t ← in_memory (read_timespec (arg args 0));
  (if arg args 1 =? 0 then mret tt
   else
     in_memory (on_mem (write_u64 (arg args 1) 0)) ;;
     a ← lift (add64 (arg args 1) 8);
     in_memory (on_mem (write_u64 a 0))) ;;
  in_world (modify (sleep t.1 (Z.min t.2 999999999))) ;;
  mret 0.

Definition syscall_times (args : list Z) : KM Z :=
  (if arg args 0 =? 0 then mret tt
   else for_each [0; 8; 16; 24] (fun offset =>
     a ← lift (add64 (arg args 0) offset);
     in_memory (on_mem (write_u64 a 0)))) ;;
  mret 0.

(** An operation on the process table, when there is one. *)
Definition with_table {A} (f : ProcessTable -> A * ProcessTable) : KM (option A) := fun k =>
  match k_table k with
  | None => (Ok None, k)
  | Some t => let '(a, t) := f t in
              (Ok (Some a), mkKernel (k_process k) (k_memory k) (k_shared k) (Some t))
  end.

Definition syscall_exit (args : list Z) : KM SyscallOutcome :=
  let code := signed 32 (arg args 0) in
  pid ← proc p_pid;
  with_table (fun t => (tt, exit_process pid code t)) ;;
  mret (ExitWith code).

Definition syscall_wait4 (args : list Z) : KM SyscallOutcome :=
  let requested := wait_requested_pid (arg args 0) in
  let nohang := has_bit (arg args 2) 0x1 in
  self ← proc p_pid;
  waited ← with_table (wait4 self requested);
  match waited with
  | Some (Some (pid, status)) =>
      unless_null (arg args 1)
        (in_memory (on_mem (write_u32 (arg args 1) (wait_status status)))) ;;
      mret (Return pid)
  | Some None =>
      child ← gets (fun k => match k_table k with
                             | Some t => has_child t self requested
                             | None => false
                             end);
      if child : bool then mret (if nohang then Return 0 else Blocked) else fail Child
  | None =>
      unless_null (arg args 1) (in_memory (on_mem (write_u32 (arg args 1) 0))) ;;
      mret (Return 0)
  end.

Definition syscall_fork (regs : option Registers) : KM Z := fun k =>
  match k_table k, regs with
  | Some t, Some regs =>
      let '(r, (t, sh)) := fork_from_process (k_process k) (k_memory k) regs (t, k_shared k) in
      (r, mkKernel (k_process k) (k_memory k) sh (Some t))
  | _, _ =>
      let pid := p_next_child_pid (k_process k) in
      (next ← lift (add_u32 pid 1);
       set_proc (set_p_next_child_pid next) ;;
       mret pid) k
  end.

Definition syscall_set_tid_address (args : list Z) : KM Z :=
  set_proc (set_p_set_tid_address (arg args 0)) ;;
  tid ← proc p_tid;
  unless_null (arg args 0) (in_memory (on_mem (write_u32 (arg args 0) tid))) ;;
  mret tid.

Definition syscall_getrandom (args : list Z) : KM Z :=
  n ← lift (usize_arg (arg args 1));
  bytes ← lift (deterministic_random n);
  in_memory (on_mem (write_bytes (arg args 0) bytes)) ;;
  mret (signed 64 n).

Definition syscall_execve (args : list Z) : KM SyscallOutcome :=
  guest_path ← path_arg (arg args 0);
  request ← execve_request guest_path (arg args 1) (arg args 2);
  mret (Execve request).

(** The calls that return a number. *)
Definition dispatch_value (number : SyscallNumber) (args : list Z) (regs : option Registers)
    : KM Z :=
  match number with
  | Sys_Read => syscall_read args
  | Sys_Write => syscall_write args
  | Sys_Writev =>
      fd ← lift (fd_arg (arg args 0)); n ← lift (usize_arg (arg args 2)); writev fd (arg args 1) n
  | Sys_Readv =>
      fd ← lift (fd_arg (arg args 0)); n ← lift (usize_arg (arg args 2)); readv fd (arg args 1) n
  | Sys_Sendfile =>
      out ← lift (fd_arg (arg args 0));
      in_ ← lift (fd_arg (arg args 1));
      n ← lift (usize_arg (arg args 3));
      sendfile out in_ (arg args 2) n
  | Sys_Open => path ← path_arg (arg args 0); open_guest_path None path (arg args 1)
  | Sys_Mkdir => path ← path_arg (arg args 0); mkdir_guest_path None path
  | Sys_Rmdir => path ← path_arg (arg args 0); remove_guest_path None path true
  | Sys_Unlink => path ← path_arg (arg args 0); remove_guest_path None path false
  | Sys_Openat =>
      path ← path_arg (arg args 1);
      dirfd ← lift (fd_arg_allow_at_fdcwd (arg args 0));
      open_guest_path dirfd path (arg args 2)
  | Sys_Mkdirat =>
      path ← path_arg (arg args 1);
      dirfd ← lift (fd_arg_allow_at_fdcwd (arg args 0));
      mkdir_guest_path dirfd path
  | Sys_Unlinkat =>
      path ← path_arg (arg args 1);
      dirfd ← lift (fd_arg_allow_at_fdcwd (arg args 0));
      remove_guest_path dirfd path (has_bit (arg args 2) AT_REMOVEDIR)
  | Sys_Close => fd ← lift (fd_arg (arg args 0)); in_fds (close fd) ;; mret 0
  | Sys_Pipe => syscall_pipe args false
  | Sys_Pipe2 => syscall_pipe args (has_bit (arg args 1) O_CLOEXEC)
  | Sys_Dup => fd ← lift (fd_arg (arg args 0)); in_fds (duplicate fd 0 false)
  | Sys_Dup2 => syscall_dup2 args
  | Sys_Dup3 => syscall_dup3 args
  | Sys_Fcntl => fd ← lift (fd_arg (arg args 0)); in_fds (fcntl fd (arg args 1) (arg args 2))
  | Sys_Getdents | Sys_Getdents64 => syscall_getdents64 args
  | Sys_Stat | Sys_Lstat =>
      path ← path_arg (arg args 0); write_stat_for_guest_path None path (arg args 1) ;; mret 0
  | Sys_Fstat =>
      fd ← lift (fd_arg (arg args 0));
      data ← in_fds (stat fd);
      in_memory (write_stat (arg args 1) data) ;; mret 0
  | Sys_Newfstatat =>
      path ← path_arg (arg args 1);
      dirfd ← lift (fd_arg_allow_at_fdcwd (arg args 0));
      write_stat_for_guest_path dirfd path (arg args 2) ;; mret 0
  | Sys_Brk => b ← process_brk (arg args 0); mret (signed 64 b)
  | Sys_Mmap =>
      a ← mmap (arg args 0) (arg args 1) (arg args 2) (arg args 3) (arg args 4) (arg args 5);
      mret (signed 64 a)
  | Sys_Munmap => syscall_munmap args
  | Sys_Mprotect => syscall_mprotect args
  | Sys_ArchPrctl => syscall_arch_prctl args
  | Sys_Getpid => proc p_pid
  | Sys_Getppid => proc p_ppid
  | Sys_Getpgrp | Sys_Getpgid => proc p_pgid
  | Sys_Gettid => proc p_tid
  | Sys_Getuid | Sys_Getgid | Sys_Geteuid | Sys_Getegid => mret 0
  | Sys_Setpgid => syscall_setpgid args
  | Sys_Uname => in_memory (write_uname (arg args 0)) ;; mret 0
  | Sys_Getcwd => syscall_getcwd args
  | Sys_Chdir => syscall_chdir args
  | Sys_Access => syscall_access args
  | Sys_Readlink => syscall_readlink args
  | Sys_Ioctl => fd ← lift (fd_arg (arg args 0)); ioctl fd (arg args 1) (arg args 2)
  | Sys_ClockGettime => syscall_clock_gettime args
  | Sys_Nanosleep => syscall_nanosleep args
  | Sys_Times => syscall_times args
  | Sys_Sysinfo => in_memory (write_sysinfo (arg args 0)) ;; mret 0
  | Sys_Poll | Sys_Ppoll => n ← lift (usize_arg (arg args 1)); poll_fds (arg args 0) n
  | Sys_Select | Sys_Pselect6 => mret 0
  | Sys_Kill => mret 0
  | Sys_Clone | Sys_Fork | Sys_VFork => syscall_fork regs
  | Sys_RtSigaction | Sys_RtSigprocmask | Sys_RtSigreturn | Sys_Sigaltstack
  | Sys_SetRobustList | Sys_Prlimit64 => mret 0
  | Sys_SetTidAddress => syscall_set_tid_address args
  | Sys_Getrandom => syscall_getrandom args
  | Sys_Exit | Sys_ExitGroup | Sys_Wait4 | Sys_Execve | Sys_Other _ => fail NoSys
  end.

Definition dispatch_inner (number : SyscallNumber) (args : list Z) (regs : option Registers)
    : KM SyscallOutcome :=
  match number with
  | Sys_Exit | Sys_ExitGroup => syscall_exit args
  | Sys_Wait4 => syscall_wait4 args
  | Sys_Execve => syscall_execve args
  | Sys_Other _ => fail NoSys
  | number => value ← dispatch_value number args regs; mret (Return value)
  end.

(** The outcome of a call: errors become negative error numbers. *)
Definition outcome_of (r : SysRes SyscallOutcome) : res Empty_set SyscallOutcome :=
  match r with
  | Ok o => Ok o
  | Err (SErrno e) => Ok (Return (linux_return e))
  | Err (SMemory _) => Ok (Return (linux_return Fault))
  | Panic => Panic
  end.

Definition dispatch_with_process_model (input : SyscallInput) (regs : option Registers)
    : ST Kernel Empty_set SyscallOutcome := fun k =>
  let number := syscall_from (in_number input) in
  let '(r, k) := dispatch_inner number (in_args input) regs k in
  (outcome ← (fun k => (outcome_of r, k));
   modify (fun k => mkKernel
     (push_p_trace (mkSyscallTrace (in_number input) (syscall_name number) (in_args input)
                      (return_value outcome)) (k_process k))
     (k_memory k) (k_shared k) (k_table k)) ;;
   mret outcome) k.

(** [dispatch]: without a process table. *)
Definition dispatch (input : SyscallInput) : ST Kernel Empty_set SyscallOutcome :=
  dispatch_with_process_model input None.
End Syscalls.
