(* ===== verification/RunLoop.v ===== *)
(** * The run loop: crates/ruxeon-cli/src/main.rs

    Loading a program from the root directory and running it: the loop that
    takes the next thread from the scheduler, lets the interpreter execute one
    block, and serves the system call the block ends with.

    What only prints (the trace, the summary of unsupported instructions, the
    messages of errors), the parsing of the command line and the texts that
    [anyhow] attaches to errors are left out. *)

From Stdlib Require Import String.
From S2P Require Import Prelude Memory Registers Ir Iced Cpu Interp Elf Loader Host Fs LinuxAbi Terminal Fd Process Syscalls.

Open Scope Z_scope.

Definition DEFAULT_MAX_STEPS : Z := 5000000.

(** Why a program image could not be loaded. *)
Inductive ImageError : Type :=
| InterpreterElf (e : ElfError)
| InterpreterWithoutRootfs (path : list Z)
| InterpreterPath (e : FsError)
| InterpreterVirtual (path : list Z)
| InterpreterRead (e : IoErrorKind)
| ImageLoader (e : LoaderError).

Inductive RunError : Type :=
| GuestStep (pid : Z) (program : list Z) (rip : Z) (source : CpuError)
| NoRunnableProcess
| NoMainThread
| ProgramRead (e : IoErrorKind)
| ProgramImage (e : ImageError)
| ExecveRead (e : IoErrorKind)
| ExecveImage (e : ImageError)
| StepLimitExceeded
| GuestExited (code : Z).

(** ** Unsupported instructions *)

Record UnsupportedInstructionEncounter : Type := mkEncounter {
  ue_pid : Z;
  ue_program : list Z;
  ue_record : UnsupportedInstructionRecord
}.

Record UnsupportedInstructionLog : Type := mkLog {
  seen : gset (list Z);
  log_entries : list UnsupportedInstructionEncounter
}.

Definition hex_digit (d : Z) : Z := if d <? 10 then 48 + d else 87 + d.

(** [format!("{byte:02x}")] joined with spaces. *)
Definition format_raw_bytes (bytes : list Z) : list Z :=
  join_with 32 ((fun b => [hex_digit (b / 16); hex_digit (b mod 16)]) <$> bytes).

Definition log_record (pid : Z) (program : list Z) (r : UnsupportedInstructionRecord)
    (l : UnsupportedInstructionLog) : UnsupportedInstructionLog :=
  let key := program ++ text "|" ++ u_mnemonic r ++ text "|" ++ format_raw_bytes (u_raw_bytes r) in
  if decide (key ∈ seen l) then l
  else mkLog ({[key]} ∪ seen l) (log_entries l ++ [mkEncounter pid program r]).

Section RunLoop.
Context `{HOST : Host} `{ICED : Iced}.

(** ** Loading *)

Definition translate_program_path (rootfs : option PathBuf) (program : PathBuf) (w : World)
    : PathBuf :=
  match rootfs with
  | None => program
  | Some r =>
      match resolve (mkRootFs r) root (to_string_lossy program) w with
      | Ok (RHost _ host) => host
      | _ => program
      end
  end.

(** The bytes of the interpreter a program asks for. *)
Definition load_interpreter_bytes (rootfs : option PathBuf) (bytes : list Z) (w : World)
    : res ImageError (option (list Z)) :=
  image ← map_err InterpreterElf (parse bytes);
  path ← map_err InterpreterElf (interpreter_path image);
  match path with
  | None => Ok None
  | Some path =>
      match rootfs with
      | None => Err (InterpreterWithoutRootfs path)
      | Some r =>
          resolved ← map_err InterpreterPath (resolve (mkRootFs r) root path w);
          match resolved with
          | RVirtual _ _ => Err (InterpreterVirtual path)
          | RHost _ host => bs ← map_err InterpreterRead (fs_read host w); Ok (Some bs)
          end
      end
  end.

Definition load_program_image (rootfs : option PathBuf) (bytes : list Z)
    (argv envp : list (list Z)) (w : World) : res ImageError LoadedProgram :=
  interpreter_bytes ← load_interpreter_bytes rootfs bytes w;
  map_err ImageLoader (load_dynamic bytes interpreter_bytes argv envp).

(** The registers a program starts with. *)
Definition initial_registers (loaded : LoadedProgram) : Registers :=
  set_rsp (lp_stack_pointer loaded) (set_rip (lp_entry loaded) default_registers).

Definition execve_state (p : LinuxProcess) (request : ExecveRequest) (w : World)
    : res RunError (GuestMemory * Registers * LinuxProcess) :=
  bytes ← map_err ExecveRead (fs_read (ex_host_path request) w);
  loaded ← map_err ExecveImage
    (load_program_image (ex_rootfs request) bytes (ex_argv request) (ex_envp request) w);
  Ok (lp_memory loaded, initial_registers loaded, apply_exec (ex_guest_path request) p).

(** ** The state of the loop *)

(** The arguments of [run_until_exit] and its local variables, with what all
    processes share; [clock_reads] counts the readings of the clock. *)
Record System : Type := mkSystem {
  process_table : ProcessTable;
  scheduler : Scheduler;
  execution_caches : gmap Z ExecutionCache;
  unsupported_log : UnsupportedInstructionLog;
  trace_records : list TraceRecord;
  initial_exit_code : option Z;
  sys_shared : Shared;
  clock_reads : nat
}.

Abbreviation RunM := (ST System RunError).

Definition set_ptable (f : ProcessTable -> ProcessTable) (s : System) : System :=
  mkSystem (f (process_table s)) (scheduler s) (execution_caches s) (unsupported_log s)
    (trace_records s) (initial_exit_code s) (sys_shared s) (clock_reads s).

Definition set_scheduler (x : Scheduler) (s : System) : System :=
  mkSystem (process_table s) x (execution_caches s) (unsupported_log s)
    (trace_records s) (initial_exit_code s) (sys_shared s) (clock_reads s).

Definition set_log (f : UnsupportedInstructionLog -> UnsupportedInstructionLog) (s : System)
    : System :=
  mkSystem (process_table s) (scheduler s) (execution_caches s) (f (unsupported_log s))
    (trace_records s) (initial_exit_code s) (sys_shared s) (clock_reads s).

Definition set_exit_code (x : option Z) (s : System) : System :=
  mkSystem (process_table s) (scheduler s) (execution_caches s) (unsupported_log s)
    (trace_records s) x (sys_shared s) (clock_reads s).

Definition set_sys_shared (x : Shared) (s : System) : System :=
  mkSystem (process_table s) (scheduler s) (execution_caches s) (unsupported_log s)
    (trace_records s) (initial_exit_code s) x (clock_reads s).

(** What [into_state] gives back to the loop: the cache and the trace. *)
Definition keep_interpreter (pid : Z) (i : Interpreter) (s : System) : System :=
  mkSystem (process_table s) (scheduler s) (<[pid := cache i]> (execution_caches s))
    (unsupported_log s) (trace_records s ++ trace i) (initial_exit_code s) (sys_shared s)
    (clock i).

(** [execution_caches.remove(&pid)]. *)
Definition remove_cache (pid : Z) (s : System) : System :=
  mkSystem (process_table s) (scheduler s) (delete pid (execution_caches s))
    (unsupported_log s) (trace_records s) (initial_exit_code s) (sys_shared s)
    (clock_reads s).

(** The memory and registers that [into_state] gives back to the record. *)
Definition absorb (i : Interpreter) (r : ProcessRecord) : ProcessRecord :=
  set_main_thread_registers (registers i) (set_pr_memory (memory i) r).

Definition enqueue_runnable (s : System) : System :=
  set_scheduler
    (foldl (fun sch p => enqueue_process p.2 sch) (scheduler s)
       (visit (records (process_table s)))) s.

(** [sync_children]. *)
Definition children_in (t : ProcessTable) (pid : Z) : list Z :=
  omap (fun p => if decide (pr_parent p.2 = Some pid) then Some p.1 else None)
    (visit (records t)).

Definition sync_children (r : ProcessRecord) (t : ProcessTable) (pid : Z) : ProcessRecord :=
  set_pr_children (children_in t pid) r.

(** ** One round *)

(** A process that ended: [Halted] and [Exit]. *)
Definition finish_process (pid initial_pid code : Z) (r : ProcessRecord) (i : Interpreter)
    : RunM unit :=
  modify (set_ptable (record_exit pid (pr_parent r) code)) ;;
  modify (keep_interpreter pid i) ;;
  modify (set_ptable (insert_record pid (mark_exited code (absorb i r)))) ;;
  if pid =? initial_pid then modify (set_exit_code (Some code)) else mret tt.

(** The process goes back into the table. *)
Definition put_back (pid : Z) (r : ProcessRecord) (i : Interpreter) : RunM unit :=
  modify (keep_interpreter pid i) ;;
  modify (fun s => set_ptable
    (insert_record pid (sync_children (absorb i r) (process_table s) pid)) s).

(** The end of a round. *)
Definition resume (pid : Z) (r : ProcessRecord) (i : Interpreter) : RunM unit :=
  put_back pid r i ;;
  if decide (pr_state r = Runnable) then modify enqueue_runnable else mret tt.

(** The process waits, with its main thread. *)
Definition set_waiting (r : ProcessRecord) : ProcessRecord :=
  set_pr_threads (alter (set_t_state Waiting) (p_tid (pr_process r)) (pr_threads r))
    (set_pr_state Waiting r).

Definition MEMORY_MODIFYING_SYSCALLS : list Z := [9; 10; 11; 12].

(** A change of the interpreter's registers. *)
Definition update_registers (f : Registers -> Registers) (i : Interpreter) : Interpreter :=
  Cpu.set_registers (f (registers i)) i.

(** Serve a system call of process [pid]; the process itself is not in the
    table meanwhile. *)
Definition serve (pid initial_pid : Z) (trap : SyscallTrap) (r : ProcessRecord)
    (i : Interpreter) : RunM unit := fun s =>
  let k := mkKernel (pr_process r) (memory i) (sys_shared s) (Some (process_table s)) in
  let '(o, k) := dispatch_with_process_model (mkInput (number trap) (args trap))
                   (Some (registers i)) k in
  let s := set_sys_shared (k_shared k) (set_ptable (fun t => default t (k_table k)) s) in
  let r := set_pr_process (k_process k) r in
  let i := Cpu.set_memory (k_memory k) i in
  let '(cleared, i) := if decide (number trap ∈ MEMORY_MODIFYING_SYSCALLS)
                       then clear_block_cache i else (Ok tt, i) in
  let i := update_registers (set_fs_base (p_fs_base (pr_process r))) i in
  match cleared, o with
  | Ok _, Ok (Return value) =>
      resume pid r (update_registers (set_rax (wrap 64 value)) i) s
  | Ok _, Ok Blocked => (put_back pid (set_waiting r) i ;; modify enqueue_runnable) s
  | Ok _, Ok (ExitWith code) =>
      (finish_process pid initial_pid code r i ;; modify enqueue_runnable) s
  | Ok _, Ok (Execve request) =>
      match execve_state (pr_process r) request (world (sys_shared s)) with
      | Ok (m, regs, p) =>
          let '(c, i) := replace_state m regs i in
          match c with
          | Ok _ => resume pid (set_pr_process p r) i s
          | _ => (Panic, s)
          end
      | Err e => (Err e, s)
      | Panic => (Panic, s)
      end
  | _, _ => (Panic, s)
  end.

(** Execute one block of process [pid]. *)
Definition run_process (trace : bool) (pid initial_pid : Z) (r : ProcessRecord)
    (regs : Registers) : RunM unit := fun s =>
  let i := mkInterpreter (pr_memory r) regs trace []
             (default default_cache (execution_caches s !! pid)) (clock_reads s) in
  let s := remove_cache pid s in
  let r := set_pr_memory Memory.new r in
  match step_block i with
  | (Err source, i) =>
      let program := p_executable_path (pr_process r) in
      let s := match unsupported_instruction source with
               | Some u => set_log (log_record pid program u) s
               | None => s
               end in
      (Err (GuestStep pid program (rip regs) source), s)
  | (Panic, _) => (Panic, s)
  | (Ok Continue, i) => resume pid r i s
  | (Ok (Halted code), i) => finish_process pid initial_pid code r i s
  | (Ok (Syscall trap), i) => serve pid initial_pid trap r i s
  end.

(** One round of the loop: [Some code] when [run_until_exit] returns. *)
Definition round (trace : bool) (initial_pid : Z) : RunM (option Z) := fun s =>
  let '(next, sch) := next_thread (process_table s) (scheduler s) in
  let s := set_scheduler sch s in
  match next with
  | None =>
      match initial_exit_code s with
      | Some code => (Ok (Some code), s)
      | None => (Err NoRunnableProcess, s)
      end
  | Some (pid, _) =>
      let '(taken, t) := table_take pid (process_table s) in
      let s := set_ptable (fun _ => t) s in
      match taken with
      | None => (Ok None, s)
      | Some r =>
          if decide (pr_state r = Runnable) then
            match main_thread_registers r with
            | None => (Err NoMainThread, s)
            | Some regs => (run_process trace pid initial_pid r regs ;; mret None) s
            end
          else (Ok None, set_ptable (insert_record pid r) s)
      end
  end.

(** The loop, for [n] more rounds. *)
Fixpoint rounds (n : nat) (trace : bool) (initial_pid : Z) : RunM Z :=
  match n with
  | O => raise StepLimitExceeded
  | S n =>
      code ← round trace initial_pid;
      match code with
      | Some code => mret code
      | None => rounds n trace initial_pid
      end
  end.

Definition run_until_exit (trace : bool) (initial_pid : Z) : RunM Z :=
  rounds (Z.to_nat DEFAULT_MAX_STEPS) trace initial_pid.

(** ** A whole run *)

(** The system before the first round. *)
Definition initial_system (rootfs : option PathBuf) (program : PathBuf)
    (loaded : LoadedProgram) (w : World) : SysRes (Z * System) :=
  start ← insert_initial (with_executable rootfs (to_string_lossy program) w)
            (lp_memory loaded) (initial_registers loaded) table_new;
  let '(pid, t) := start in
  let sch := match table_get t pid with
             | Some r => enqueue_process r (mkScheduler [])
             | None => mkScheduler []
             end in
  Ok (pid, mkSystem t sch {[pid := default_cache]} (mkLog ∅ []) [] None (mkShared w []) 0).

(** The part of [run_program] before the loop: the program is read and loaded. *)
Definition started (rootfs : option PathBuf) (program : PathBuf) (args envp : list (list Z))
    (w : World) : res RunError (Z * System) :=
  bytes ← map_err ProgramRead (fs_read (translate_program_path rootfs program w) w);
  loaded ← map_err ProgramImage
    (load_program_image rootfs bytes (to_string_lossy program :: args) envp w);
  match initial_system rootfs program loaded w with
  | Ok start => Ok start
  | _ => Panic
  end.

(** What [run_program] makes of the exit code. *)
Definition exit_result (code : Z) : res RunError unit :=
  if code =? 0 then Ok tt else Err (GuestExited code).

(** [run_program], with the environment of the host given. *)
Definition run_program (rootfs : option PathBuf) (program : PathBuf) (args : list (list Z))
    (trace : bool) (envp : list (list Z)) (w : World) : res RunError unit * World :=
  match started rootfs program args envp w with
  | Ok (pid, s) =>
      let '(r, s) := run_until_exit trace pid s in
      (code ← r; exit_result code,
       reset_terminal_mode (world (sys_shared s)))
  | Err e => (Err e, reset_terminal_mode w)
  | Panic => (Panic, reset_terminal_mode w)
  end.

(** ** The commands *)

Inductive Command : Type :=
| CRun (rootfs : option PathBuf) (trace : bool) (program : PathBuf) (args : list (list Z))
| CShell (rootfs : PathBuf)
| CTrace (program : PathBuf) (args : list (list Z)).

(** [main], after the command line is parsed. *)
Definition main (command : Command) (envp : list (list Z)) (w : World)
    : res RunError unit * World :=
  match command with
  | CRun rootfs trace program args => run_program rootfs program args trace envp w
  | CShell rootfs => run_program (Some rootfs) (text "/bin/sh") [] false envp w
  | CTrace program args => run_program None program args true envp w
  end.
End RunLoop.

(** ** The environment *)

Definition DEFAULT_PATH : list Z :=
  text "PATH=/usr/local/sbin:/usr/local/bin:/usr/sbin:/usr/bin:/sbin:/bin".

(** [eq_ignore_ascii_case]. *)
Definition to_lower (c : Z) : Z := if (65 <=? c) && (c <=? 90) then c + 32 else c.

Definition is_path_key (key : list Z) : bool :=
  bool_decide (to_lower <$> key = to_lower <$> text "PATH").

(** [host_environment], from the variables of the host. *)
Definition host_environment (vars : list (list Z * list Z)) : list (list Z) :=
  let env := (fun '(key, value) =>
                if is_path_key key then DEFAULT_PATH else key ++ text "=" ++ value) <$> vars in
  if existsb (fun v => is_path_key v.1) vars then env else env ++ [DEFAULT_PATH].
