(* ===== verification/FdProps.v ===== *)
(** * Descriptors, pipes and directories: what the table guarantees

    Descriptors are allocated free and as low as asked; the duplicates of a pipe
    end, in any process, act on one queue of bytes; [exec] keeps the descriptors
    it should and a fork shares all of them; a directory read in pieces yields
    every entry once. *)

From Stdlib Require Import String.
From S2P Require Import Prelude Memory Elf Host ExampleHost Fs LinuxAbi Fd.

Open Scope Z_scope.

(** ** Allocation *)

Section Alloc.
Context `{Host}.

(** Every descriptor from [a] up to [b] is in use. *)
Definition all_used (es : gmap Z FdSlot) (a b : Z) : Prop :=
  forall x, a <= x < b -> is_Some (es !! x).

Lemma next_free_None fuel es fd : next_free fuel es fd = None ->
  all_used es fd (fd + Z.of_nat fuel).
Proof.
  revert fd. induction fuel as [|fuel IH]; intros fd Hn x Hx; [lia|].
  cbn [next_free] in Hn. destruct (es !! fd) eqn:Hfd; [|done].
  unfold add_i32 in Hn. destruct (fd + 1 <? 2 ^ 31); [|done].
  destruct (decide (x = fd)) as [->|]; [by rewrite Hfd|]. apply (IH (fd + 1) Hn). lia.
Qed.

Lemma next_free_Some fuel es fd r : next_free fuel es fd = Some r ->
  (exists x, r = Ok x /\ fd <= x /\ es !! x = None /\ all_used es fd x /\
     (fd < 2 ^ 31 -> x < 2 ^ 31)) \/
  (r = Panic /\ all_used es fd (2 ^ 31)).
Proof.
  revert fd. induction fuel as [|fuel IH]; intros fd Hn; [done|].
  cbn [next_free] in Hn. destruct (es !! fd) eqn:Hfd.
  - unfold add_i32 in Hn. destruct (Z.ltb_spec (fd + 1) (2 ^ 31)).
    + destruct (IH _ Hn) as [(x & -> & Hle & Hx & Hu & Hb)|[-> Hu]].
      * left. exists x. split; [done|]. split; [lia|]. split; [done|]. split; [|lia].
        intros y Hy. destruct (decide (y = fd)) as [->|]; [by rewrite Hfd|]. apply Hu. lia.
      * right. split; [done|]. intros y Hy.
        destruct (decide (y = fd)) as [->|]; [by rewrite Hfd|]. apply Hu. lia.
    + right. simplify_eq. split; [done|]. intros y Hy.
      assert (y = fd) as -> by lia. by rewrite Hfd.
  - left. simplify_eq. exists fd. split; [done|]. split; [lia|]. split; [done|].
    split; [intros y; lia|done].
Qed.

(** [next_available_from] returns the lowest free descriptor from the given one
    on; it panics only when none is left below [i32::MAX]. *)
Lemma next_available_from_spec t min_fd :
  (exists x, next_available_from t min_fd = Ok x /\ Z.max min_fd 0 <= x /\
     entries t !! x = None /\ all_used (entries t) (Z.max min_fd 0) x /\
     (min_fd < 2 ^ 31 -> x < 2 ^ 31)) \/
  (next_available_from t min_fd = Panic /\ all_used (entries t) (Z.max min_fd 0) (2 ^ 31)).
Proof.
  unfold next_available_from.
  destruct (next_free _ _ _) as [r|] eqn:Hn.
  - destruct (next_free_Some _ _ _ _ Hn) as [(x & -> & Hle & Hx & Hu & Hb)|[-> Hu]].
    + left. exists x. do 4 (split; [done|]). intros. apply Hb. lia.
    + by right.
  - exfalso. apply next_free_None in Hn.
    assert (S (size (entries t)) <= size (entries t))%nat; [|lia].
    apply (consecutive_keys _ (Z.max min_fd 0)). intros i Hi. apply Hn. lia.
Qed.
(** ** Buffers are kept by everything but reads and writes *)

(** Buffer [b] holds [c]. *)
Definition has_buffer (b : nat) (c : list Z) (s : FdState) : Prop :=
  buffers (shared s) !! b = Some c.

Section Keep.
Context (b : nat) (c : list Z).
Abbreviation I := (has_buffer b c).

Lemma keep_world {A} (m : ST World SyscallError A) : preserves I (on_world m).
Proof. intros s Hs. unfold on_world, zoom. by destruct (m _). Qed.

Lemma keep_table f : preserves I (set_table f).
Proof. by intros s Hs. Qed.

Lemma keep_slot_at fd : preserves I (slot_at fd).
Proof. by apply spec_reads. Qed.

Lemma keep_new_buffer : preserves I new_buffer.
Proof.
  intros s Hs. split; [|done]. unfold I, has_buffer in *. simpl.
  by apply lookup_app_l_Some.
Qed.
End Keep.
End Alloc.

#[export] Hint Resolve keep_world keep_table keep_slot_at keep_new_buffer : keep.

(** Decompose a method into its steps, which all keep the buffers. *)
Ltac keep_steps :=
  repeat first
    [ progress auto with keep
    | match goal with |- forall _, _ => intros end
    | apply spec_ret; done
    | apply spec_raise
    | apply spec_gets; done
    | apply spec_reads; done
    | apply spec_lift; done
    | apply spec_bind with (Q := fun _ => True); [|intros ? _] ].

Section KeepOps.
Context `{Host} (b : nat) (c : list Z).
Abbreviation I := (has_buffer b c).

Lemma keep_entry_duplicate e : preserves I (entry_duplicate e).
Proof. destruct e; simpl; keep_steps. Qed.
#[local] Hint Resolve keep_entry_duplicate : keep.

Lemma keep_slot_duplicate s : preserves I (slot_duplicate s).
Proof. unfold slot_duplicate. keep_steps. Qed.
#[local] Hint Resolve keep_slot_duplicate : keep.

Lemma keep_insert_slot s : preserves I (insert_slot s).
Proof. unfold insert_slot. keep_steps. Qed.

Lemma keep_set_slot fd s : preserves I (set_slot fd s).
Proof. unfold set_slot. keep_steps. Qed.
#[local] Hint Resolve keep_insert_slot keep_set_slot : keep.

Lemma keep_close fd : preserves I (close fd).
Proof. unfold close, set_entries. destruct (fd <=? 2); keep_steps. Qed.

Lemma keep_duplicate old min cl : preserves I (duplicate old min cl).
Proof. unfold duplicate. keep_steps. Qed.
#[local] Hint Resolve keep_duplicate : keep.

Lemma keep_duplicate_to old new cl : preserves I (duplicate_to old new cl).
Proof.
  unfold duplicate_to, set_entries. destruct (old =? new), cl; keep_steps.
Qed.

Lemma keep_pipe cl : preserves I (pipe cl).
Proof. unfold pipe. keep_steps. Qed.

Lemma keep_fcntl fd cmd arg : preserves I (fcntl fd cmd arg).
Proof. unfold fcntl, set_entries, errno. repeat case_match; keep_steps. Qed.

Lemma keep_duplicate_slots l acc : preserves I (duplicate_slots l acc).
Proof.
  revert acc. induction l as [|[fd s] l IH]; intros acc; simpl; [by apply spec_ret|].
  eapply spec_bind; [apply keep_entry_duplicate|]. intros e _. apply IH.
Qed.

Lemma keep_duplicate_all : preserves I duplicate_all.
Proof.
  pose proof keep_duplicate_slots. unfold duplicate_all. keep_steps.
Qed.
End KeepOps.

#[export] Hint Resolve keep_close keep_duplicate keep_duplicate_to keep_pipe keep_fcntl
  keep_duplicate_all keep_insert_slot keep_set_slot : keep.

(** ** Pipes as queues *)

Section Pipes.
Context `{Host}.

(** The descriptor operations of a process, each the call of one method; [OpFork]
    gives the duplicate of the table to process [child]. *)
Inductive fd_op : Type :=
| OpRead (fd n : Z)
| OpWrite (fd : Z) (bytes : list Z)
| OpClose (fd : Z)
| OpDup (old min : Z) (cloexec : bool)
| OpDupTo (old new : Z) (cloexec : bool)
| OpPipe (cloexec : bool)
| OpFcntl (fd cmd arg : Z)
| OpExec
| OpFork (child : nat).

(** The tables of all processes and what they share. *)
Record Tables : Type := mkTables { tables : gmap nat FdTable; common : Shared }.

(** Run a method on the table of process [who]. *)
Definition run_method {A} (who : nat) (t : FdTable) (m : ST FdState SyscallError A) (T : Tables)
    : SysRes A * Tables :=
  let '(r, s) := m (mkFdState t (common T)) in
  (r, mkTables (<[who := table s]> (tables T)) (shared s)).

Definition reads_buffer (t : FdTable) (fd : Z) (b : nat) : bool :=
  match entry <$> entries t !! fd with
  | Some (PipeRead b') | Some (EBuffer b') => bool_decide (b' = b)
  | _ => false
  end.

Definition writes_buffer (t : FdTable) (fd : Z) (b : nat) : bool :=
  match entry <$> entries t !! fd with
  | Some (PipeWrite b') | Some (EBuffer b') => bool_decide (b' = b)
  | _ => false
  end.

(** One operation: the new state, the bytes it took from buffer [b] and those it
    put into it. *)
Definition op_step (b : nat) (who : nat) (o : fd_op) (T : Tables)
    : list Z * list Z * Tables :=
  match tables T !! who with
  | None => ([], [], T)
  | Some t =>
      match o with
      | OpRead fd n =>
          let '(r, T) := run_method who t (read fd n) T in
          (match r with
           | Ok bytes => if reads_buffer t fd b then bytes else []
           | _ => []
           end, [], T)
      | OpWrite fd bytes =>
          let '(r, T) := run_method who t (write fd bytes) T in
          ([], if is_ok r && writes_buffer t fd b then bytes else [], T)
      | OpClose fd => ([], [], (run_method who t (close fd) T).2)
      | OpDup old min cl => ([], [], (run_method who t (duplicate old min cl) T).2)
      | OpDupTo old new cl => ([], [], (run_method who t (duplicate_to old new cl) T).2)
      | OpPipe cl => ([], [], (run_method who t (pipe cl) T).2)
      | OpFcntl fd cmd arg => ([], [], (run_method who t (fcntl fd cmd arg) T).2)
      | OpExec => ([], [], mkTables (<[who := close_on_exec t]> (tables T)) (common T))
      | OpFork child =>
          let '(r, T) := run_method who t duplicate_all T in
          ([], [], match r with
                   | Ok t' => mkTables (<[child := t']> (tables T)) (common T)
                   | _ => T
                   end)
      end
  end.

(** A sequence of operations by any processes. *)
Fixpoint ops_run (b : nat) (l : list (nat * fd_op)) (T : Tables)
    : list Z * list Z * Tables :=
  match l with
  | [] => ([], [], T)
  | (who, o) :: l =>
      let '(got, sent, T) := op_step b who o T in
      let '(got', sent', T) := ops_run b l T in
      (got ++ got', sent ++ sent', T)
  end.

Definition holds (b : nat) (c : list Z) (T : Tables) : Prop := buffers (common T) !! b = Some c.

(** A method that keeps the buffers keeps them for all processes. *)
Lemma run_method_keeps {A} b c who t (m : ST FdState SyscallError A) T :
  preserves (has_buffer b c) m -> holds b c T -> holds b c (run_method who t m T).2.
Proof.
  intros Hm HT. unfold run_method, holds. pose proof (Hm (mkFdState t (common T)) HT) as [Hs _].
  by destruct (m _).
Qed.

(** The shared state with buffer [b] replaced. *)
Definition with_buffer (b : nat) (c : list Z) (s : FdState) : FdState :=
  mkFdState (table s) (mkShared (world (shared s)) (<[b := c]> (buffers (shared s)))).

Lemma drain_buffer b b' c n s : has_buffer b c s ->
  if bool_decide (b' = b)
  then exists got rest, drain b' n s = (Ok got, with_buffer b rest s) /\ c = got ++ rest
  else has_buffer b c (drain b' n s).2.
Proof.
  intros Hb. unfold drain, reads, mbind, st_bind, has_buffer in *. case_bool_decide as Hbb.
  - subst b'. rewrite Hb. cbn [expect]. do 2 eexists. split; [done|]. by rewrite take_drop.
  - destruct (buffers (shared s) !! b'); [|done]. simpl. by rewrite list_lookup_insert_ne.
Qed.

Lemma extend_buffer b b' c bytes s : has_buffer b c s ->
  if bool_decide (b' = b)
  then extend b' bytes s = (Ok (len bytes), with_buffer b (c ++ bytes) s)
  else has_buffer b c (extend b' bytes s).2.
Proof.
  intros Hb. unfold extend, reads, mbind, st_bind, has_buffer in *. case_bool_decide as Hbb.
  - subst b'. by rewrite Hb.
  - destruct (buffers (shared s) !! b'); [|done]. simpl. by rewrite list_lookup_insert_ne.
Qed.

(** What a method that starts with the slot of [fd] does. *)
Lemma bind_slot_at {A} fd (f : FdSlot -> ST FdState SyscallError A) s :
  (slot_at fd ≫= f) s =
  match entries (table s) !! fd with
  | Some slot => f slot s
  | None => (Err (SErrno Badf), s)
  end.
Proof. unfold slot_at, mbind, st_bind, reads. by destruct (entries (table s) !! fd). Qed.

(** What a read and a write do to buffer [b]. *)
Lemma read_buffer b c fd n s : has_buffer b c s ->
  if reads_buffer (table s) fd b
  then exists got rest, read fd n s = (Ok got, with_buffer b rest s) /\ c = got ++ rest
  else has_buffer b c (read fd n s).2.
Proof.
  intros Hb. unfold read, reads_buffer. rewrite bind_slot_at.
  destruct (entries (table s) !! fd) as [slot|]; simpl; [|done].
  destruct (entry slot) as [| | |file|d|v|b'|b'|b']; try done; try by apply drain_buffer.
  - apply (spec_bind (has_buffer b c) _ _ (fun _ => True) (fun _ => True)); [| |done].
    + destruct (has_bit _ _); keep_steps.
    + intros [] _; unfold errno; keep_steps.
  - by apply keep_world.
  - apply (spec_bind (has_buffer b c) _ _ (fun _ => True) (fun _ => True)); [| |done];
      [|intros r _; unfold set_entry, set_entries]; keep_steps.
Qed.

Lemma write_buffer b c fd bytes s : has_buffer b c s ->
  if writes_buffer (table s) fd b
  then write fd bytes s = (Ok (len bytes), with_buffer b (c ++ bytes) s)
  else has_buffer b c (write fd bytes s).2.
Proof.
  intros Hb. unfold write, writes_buffer. rewrite bind_slot_at.
  destruct (entries (table s) !! fd) as [slot|]; simpl; [|done].
  destruct (entry slot) as [| | |file|d|v|b'|b'|b']; try done; try by apply extend_buffer.
  - apply (spec_bind (has_buffer b c) _ _ (fun _ => True) (fun _ => True)); [| |done]; keep_steps.
  - apply (spec_bind (has_buffer b c) _ _ (fun _ => True) (fun _ => True)); [| |done]; keep_steps.
  - by apply keep_world.
Qed.

(** One operation takes from the front and adds at the back. *)
Lemma op_step_fifo b who o T c : holds b c T ->
  let '(got, sent, T') := op_step b who o T in
  exists c', holds b c' T' /\ got ++ c' = c ++ sent.
Proof.
  intros HT. unfold op_step.
  assert (forall T', holds b c T' -> exists c', holds b c' T' /\ [] ++ c' = c ++ []) as Hkeep
    by (intros T' HT'; exists c; rewrite app_nil_r; done).
  destruct (tables T !! who) as [t|]; [|by apply Hkeep].
  assert (has_buffer b c (mkFdState t (common T))) as Hs by done.
  destruct o as [fd n|fd bytes|fd|old min cl|old new cl|cl|fd cmd arg| |child];
    try (apply Hkeep, run_method_keeps; auto with keep; done).
  - unfold run_method. pose proof (read_buffer b c fd n _ Hs) as Hr. cbn [table] in Hr.
    destruct (reads_buffer t fd b).
    + destruct Hr as (got & rest & -> & ->). exists rest. split; [|by rewrite app_nil_r].
      unfold holds. simpl. apply list_lookup_insert_eq. by eapply lookup_lt_Some.
    + destruct (read fd n _) as [r s']. destruct r; by apply Hkeep.
  - unfold run_method. pose proof (write_buffer b c fd bytes _ Hs) as Hw. cbn [table] in Hw.
    destruct (writes_buffer t fd b).
    + rewrite Hw. simpl. exists (c ++ bytes). split; [|done].
      unfold holds. simpl. apply list_lookup_insert_eq. by eapply lookup_lt_Some.
    + destruct (write fd bytes _) as [r s']. rewrite andb_false_r. by apply Hkeep.
  - by apply Hkeep.
  - pose proof (run_method_keeps b c who t duplicate_all T (keep_duplicate_all b c) HT) as Hk.
    destruct (run_method who t duplicate_all T) as [r T']. destruct r; by apply Hkeep.
Qed.

(** C13: a pipe is a queue.  In any sequence of descriptor operations by any
    processes (reads, writes, closes, duplications, new pipes, [fcntl], exec and
    fork), however they are interleaved and whether or not they fail, the bytes
    taken from a buffer, followed by what is left in it, are what it held at
    first followed by the bytes put into it, in order: nothing is lost,
    duplicated or reordered. *)
Theorem pipe_is_fifo b l T c : holds b c T ->
  let '(got, sent, T') := ops_run b l T in
  exists rest, holds b rest T' /\ got ++ rest = c ++ sent.
Proof.
  revert T c. induction l as [|[who o] l IH]; intros T c HT; cbn [ops_run].
  - exists c. split; [done|]. by rewrite app_nil_r.
  - pose proof (op_step_fifo b who o T c HT) as Hstep.
    destruct (op_step b who o T) as [[got sent] T1]. destruct Hstep as (c1 & HT1 & E1).
    specialize (IH T1 c1 HT1). destruct (ops_run b l T1) as [[got' sent'] T2].
    destruct IH as (rest & HT2 & E2). exists rest. split; [done|].
    by rewrite <- app_assoc, E2, app_assoc, E1, app_assoc.
Qed.
End Pipes.

(** ** Duplication *)

Section Duplicate.
Context `{Host}.

(** The entry a duplicate has: the same, or a clone of a host file. *)
Definition same_entry (e e' : FdEntry) : Prop :=
  e' = e \/ exists f f', e = EFile f /\ e' = EFile f'.

Lemma entry_duplicate_spec e s e' s' : entry_duplicate e s = (Ok e', s') ->
  same_entry e e' /\ table s' = table s /\ buffers (shared s') = buffers (shared s).
Proof.
  destruct e as [| | |f| | | | |]; try (intros [= <- <-]; split; [by left|done]).
  unfold entry_duplicate, on_world, on_host, zoom, mbind, st_bind.
  destruct (file_try_clone f (world (shared s))) as [[f'|k|] w]; simpl; [|done..].
  intros [= <- <-]. split; [right; eauto|done].
Qed.

(** Descriptors that differ only by the clones of host files. *)
Definition same_slot (s s' : FdSlot) : Prop :=
  same_entry (entry s) (entry s') /\ slot_close_on_exec s' = slot_close_on_exec s /\
  status_flags s' = status_flags s.

(** The result of [dup] and of [fcntl]'s [F_DUPFD].  A successful call
    returns the lowest descriptor from [min_fd] on that was free; it refers to
    the same file, pipe or buffer with the same status flags and the given
    close-on-exec flag, every other descriptor and every buffer is unchanged.  A
    descriptor that is not open gives [EBADF] and changes nothing. *)
Theorem duplicate_result old_fd min_fd cl s r s' : min_fd < 2 ^ 31 ->
  duplicate old_fd min_fd cl s = (r, s') ->
  match entries (table s) !! old_fd with
  | None => r = Err (SErrno Badf) /\ s' = s
  | Some slot => forall fd, r = Ok fd ->
      Z.max min_fd 0 <= fd < 2 ^ 31 /\ entries (table s) !! fd = None /\
      all_used (entries (table s)) (Z.max min_fd 0) fd /\
      buffers (shared s') = buffers (shared s) /\
      exists e, same_entry (entry slot) e /\
        entries (table s') = <[fd := mkSlot e cl (status_flags slot)]> (entries (table s))
  end.
Proof.
  intros Hmin. unfold duplicate. rewrite bind_slot_at.
  destruct (entries (table s) !! old_fd) as [slot|]; [|by intros [= <- <-]].
  unfold slot_duplicate. intros Hd fd ->. revert Hd. unfold mbind, st_bind.
  destruct (entry_duplicate (entry slot) s) as [[e|x|] s1] eqn:He; [|done..].
  apply entry_duplicate_spec in He as (Hse & Ht & Hb). simpl.
  destruct (next_available_from_spec (table s1) min_fd)
    as [(x & Hx & Hle & Hfree & Hused & Hlt)|[Hx _]]; unfold reads; rewrite Hx; [|done].
  unfold set_slot, mbind, st_bind, lift, add_i32, set_table, modify.
  destruct (Z.ltb_spec (x + 1) (2 ^ 31)); [|done]. intros [= <- <-]. rewrite Ht in Hfree, Hused. simpl.
  do 4 (split; [done || lia|]). exists e. by rewrite Ht.
Qed.

(** ** Exec and fork *)

Lemma close_on_exec_lookup t fd :
  entries (close_on_exec t) !! fd =
  match entries t !! fd with
  | Some s => if (fd <=? 2) || negb (slot_close_on_exec s) then Some s else None
  | None => None
  end.
Proof.
  unfold close_on_exec. cbn [entries]. rewrite map_lookup_filter.
  destruct (entries t !! fd) as [s|]; simpl; [|done].
  unfold guard. destruct ((fd <=? 2) || negb (slot_close_on_exec s)); by case_decide.
Qed.

Lemma duplicate_slots_spec l acc s es s' : NoDup l.*1 -> (forall fd, fd ∈ l.*1 -> acc !! fd = None) ->
  duplicate_slots l acc s = (Ok es, s') ->
  table s' = table s /\ buffers (shared s') = buffers (shared s) /\
  (forall fd, fd ∉ l.*1 -> es !! fd = acc !! fd) /\
  (forall fd slot, (fd, slot) ∈ l -> exists slot', es !! fd = Some slot' /\ same_slot slot slot').
Proof.
  revert acc s. induction l as [|[fd slot] l IH]; intros acc s Hnd Hacc; cbn [duplicate_slots].
  { intros [= <- <-]. repeat split; try done. intros ? ? Hin. by apply elem_of_nil in Hin. }
  unfold mbind, st_bind. destruct (entry_duplicate (entry slot) s) as [[e|x|] s1] eqn:He; [|done..].
  apply entry_duplicate_spec in He as (Hse & Ht & Hb).
  cbn [fmap list_fmap fst] in *. apply NoDup_cons in Hnd as [Hfd Hnd]. intros Hd.
  apply IH in Hd as (Ht' & Hb' & Hout & Hin); [|done|].
  - split; [congruence|]. split; [congruence|]. split.
    + intros fd' [Hne Hl]%not_elem_of_cons. rewrite (Hout fd' Hl). by apply lookup_insert_ne.
    + intros fd' slot' [[= -> ->]|Hl]%elem_of_cons; [|by apply Hin].
      rewrite (Hout fd Hfd), lookup_insert_eq. eexists. by split.
  - intros fd' Hl. rewrite lookup_insert_ne; [|by intros ->]. apply Hacc. by right.
Qed.

Lemma duplicate_all_spec s t s' : duplicate_all s = (Ok t, s') ->
  table s' = table s /\ buffers (shared s') = buffers (shared s) /\
  next_fd t = next_fd (table s) /\
  forall fd, option_Forall2 same_slot (entries (table s) !! fd) (entries t !! fd).
Proof.
  unfold duplicate_all, gets, mbind, st_bind.
  destruct (duplicate_slots (visit (entries (table s))) ∅ s) as [[es|x|] s1] eqn:Hd; [|done..].
  intros [= <- <-]. apply duplicate_slots_spec in Hd as (Ht & Hb & Hout & Hin);
    [|apply NoDup_fst_visit|intros; apply lookup_empty].
  cbn [next_fd entries]. do 2 (split; [congruence|]). split; [by rewrite Ht|].
  intros fd. destruct (entries (table s) !! fd) as [slot|] eqn:Hfd.
  - destruct (Hin fd slot) as (slot' & -> & Hs); [by apply elem_of_visit|]. by constructor.
  - rewrite Hout, lookup_empty; [constructor|].
    intros ([fd' slot] & -> & Hl%elem_of_visit)%list_elem_of_fmap. simpl in *. congruence.
Qed.

(** C37: descriptors across fork and exec.  A fork gives the child the same
    descriptors with the same flags, sharing every pipe and buffer, and leaves
    the parent's table alone; an exec closes exactly the descriptors above 2
    that have the close-on-exec flag. *)
Theorem fork_then_exec_descriptors s child s' : duplicate_all s = (Ok child, s') ->
  table s' = table s /\ buffers (shared s') = buffers (shared s) /\
  (forall fd, option_Forall2 same_slot (entries (table s) !! fd) (entries child !! fd)) /\
  (forall fd, is_Some (entries (close_on_exec child) !! fd) <->
     exists slot, entries (table s) !! fd = Some slot /\
       (fd <= 2 \/ slot_close_on_exec slot = false)).
Proof.
  intros Hd. apply duplicate_all_spec in Hd as (Ht & Hb & _ & Hs).
  do 3 (split; [done|]). intros fd. rewrite close_on_exec_lookup.
  destruct (Hs fd) as [slot slot' (He & Hc & Hf)|].
  - rewrite Hc. destruct (Z.leb_spec fd 2) as [Hle|Hgt]; simpl.
    + split; [eauto|done].
    + destruct (slot_close_on_exec slot) eqn:E; simpl.
      * split; [by intros []|]. intros (? & [= <-] & [|]); [lia|congruence].
      * split; [eauto|done].
  - split; [by intros []|by intros (? & ? & _)].
Qed.
End Duplicate.

(** ** Directories *)

(** What a program reads from a buffer of [linux_dirent64] records: number,
    kind and name of every record, found with the length of the record. *)
Fixpoint decode_dirents (fuel : nat) (bytes : list Z) : option (list (Z * Z * list Z)) :=
  match fuel, bytes with
  | _, [] => Some []
  | O, _ => None
  | S fuel, _ =>
      let reclen := of_le (take 2 (drop 16 bytes)) in
      kind ← bytes !! 18%nat;
      n ← position (fun b => b =? 0) (drop 19 bytes);
      rest ← decode_dirents fuel (drop (Z.to_nat reclen) bytes);
      Some ((of_le (take 8 bytes), kind, take n (drop 19 bytes)) :: rest)
  end.

(** The length of the record of an entry. *)
Definition record_len (e : DirectoryEntry) : Z := ((19 + len (den_name e)) / 8 + 1) * 8.

(** A name without a zero byte whose record fits the 16-bit length field. *)
Definition listable (e : DirectoryEntry) : Prop := (0 ∉ den_name e) /\ len (den_name e) <= 65000.

Lemma record_len_bounds e : listable e ->
  20 + len (den_name e) <= record_len e <= 28 + len (den_name e).
Proof.
  intros _. unfold record_len. pose proof (len_nonneg (den_name e)).
  pose proof (Z.div_mod (19 + len (den_name e)) 8). pose proof (Z.mod_pos_bound (19 + len (den_name e)) 8).
  lia.
Qed.

Lemma align_record e : listable e -> align_usize (19 + len (den_name e) + 1) 8 = Ok (record_len e).
Proof.
  intros He. pose proof (len_nonneg (den_name e)). pose proof (record_len_bounds e He) as Hb.
  destruct He as [_ Hl]. unfold align_usize, record_len in *.
  destruct (Z.eqb_spec (19 + len (den_name e) + 1) 0); [lia|].
  replace (19 + len (den_name e) + 1 - 1) with (19 + len (den_name e)) by lia.
  unfold mul64, checked_mul. destruct (Z.ltb_spec (((19 + len (den_name e)) / 8 + 1) * 8) (2 ^ 64)); [done|].
  lia.
Qed.

Lemma dirent_bytes_len k e : listable e -> len (dirent_bytes k (record_len e) e) = record_len e.
Proof.
  intros He. pose proof (record_len_bounds e He). unfold dirent_bytes.
  rewrite !len_app. unfold len in *. rewrite !length_to_le, length_replicate. simpl. lia.
Qed.

Lemma position_app_zero name rest : 0 ∉ name ->
  position (fun b => b =? 0) (name ++ 0 :: rest) = Some (length name).
Proof.
  induction name as [|x name IH]; intros Hn; [done|].
  apply not_elem_of_cons in Hn as [Hx Hn]. cbn [position app].
  destruct (Z.eqb_spec x 0); [congruence|]. by rewrite IH.
Qed.

Lemma decode_dirent fuel k e rest : listable e -> 0 <= k < 2 ^ 63 ->
  decode_dirents (S fuel) (dirent_bytes k (record_len e) e ++ rest) =
  (l ← decode_dirents fuel rest; Some ((k + 1, den_kind e, den_name e) :: l)).
Proof.
  intros He Hk. pose proof (record_len_bounds e He) as Hb. pose proof (dirent_bytes_len k e He) as Hl.
  destruct He as [Hn Hlen]. pose proof (len_nonneg (den_name e)).
  set (rec := dirent_bytes k (record_len e) e) in *.
  assert (drop (Z.to_nat (record_len e)) (rec ++ rest) = rest) as Hdrop
    by (apply drop_app_length'; unfold len in Hl; lia).
  assert (rec = to_le 8 (k + 1) ++ to_le 8 (k + 1) ++ to_le 2 (record_len e) ++
    den_kind e :: den_name e ++ 0 :: replicate (Z.to_nat (record_len e - (19 + len (den_name e) + 1))) 0)
    as Hrec by done.
  assert (of_le (take 2 (drop 16 (rec ++ rest))) = record_len e) as Hrl.
  { rewrite Hrec, <- !app_assoc. rewrite (drop_app_add' (to_le 8 (k + 1)) _ 8 8) by done.
    rewrite drop_app_length' by done. rewrite take_app_length' by done.
    apply of_le_to_le_id. unfold fits. change (2 ^ (8 * Z.of_nat 2)) with 65536. lia. }
  assert (drop 19 (rec ++ rest) = den_name e ++ 0 ::
    (replicate (Z.to_nat (record_len e - (19 + len (den_name e) + 1))) 0 ++ rest)) as Hname.
  { rewrite Hrec, <- !app_assoc. rewrite (drop_app_add' (to_le 8 (k + 1)) _ 8 11) by done.
    rewrite (drop_app_add' (to_le 8 (k + 1)) _ 8 3) by done.
    rewrite (drop_app_add' (to_le 2 _) _ 2 1) by done. simpl. by rewrite <- app_assoc. }
  assert ((rec ++ rest) !! 18%nat = Some (den_kind e)) as Hkind by (by rewrite Hrec).
  assert (of_le (take 8 (rec ++ rest)) = k + 1) as Hino.
  { rewrite Hrec, <- !app_assoc. rewrite take_app_length' by done.
    apply of_le_to_le_id. unfold fits. change (2 ^ (8 * Z.of_nat 8)) with 18446744073709551616.
    change (2 ^ 63) with 9223372036854775808 in Hk. lia. }
  assert (exists x l, rec ++ rest = x :: l) as (x & l & Hcons) by (rewrite Hrec; eexists _, _; done).
  unfold decode_dirents at 1. rewrite Hcons. fold decode_dirents. rewrite <- Hcons.
  rewrite Hrl, Hdrop, Hname, Hkind, Hino, position_app_zero by done. cbn [mbind option_bind].
  by rewrite take_app_length.
Qed.

(** The records of the entries [es], the first of which has number [k + 1]. *)
Fixpoint records_of (k : Z) (es : list DirectoryEntry) : list (Z * Z * list Z) :=
  match es with
  | [] => []
  | e :: es => (k + 1, den_kind e, den_name e) :: records_of (k + 1) es
  end.

Fixpoint bytes_of_entries (k : Z) (es : list DirectoryEntry) : list Z :=
  match es with
  | [] => []
  | e :: es => dirent_bytes k (record_len e) e ++ bytes_of_entries (k + 1) es
  end.

(** The loop writes the records of the longest run of entries that fits. *)
Lemma getdents_loop_spec room es k out : Forall listable es ->
  exists n, getdents_loop room es k out =
      Ok (out ++ bytes_of_entries k (take n es), k + Z.of_nat n) /\ (n <= length es)%nat /\
    (len out <= room -> len (out ++ bytes_of_entries k (take n es)) <= room) /\
    (forall e, es !! n = Some e ->
       room < len (out ++ bytes_of_entries k (take n es)) + record_len e).
Proof.
  intros Hes. revert k out. induction Hes as [|e es He _ IH]; intros k out.
  { exists 0%nat. simpl. rewrite app_nil_r, Z.add_0_r. by repeat split. }
  cbn [getdents_loop]. rewrite align_record by done. cbn [mbind res_bind].
  destruct (Z.ltb_spec room (len out + record_len e)).
  - exists 0%nat. simpl. rewrite app_nil_r, Z.add_0_r. repeat split; [lia|done|].
    by intros ? [= <-].
  - destruct (IH (k + 1) (out ++ dirent_bytes k (record_len e) e)) as (n & -> & Hn & Hroom & Hnext).
    rewrite <- app_assoc in *. exists (S n). cbn [take bytes_of_entries].
    split; [do 2 f_equal; lia|]. split; [simpl; lia|]. split; [|done].
    intros _. apply Hroom. rewrite len_app, dirent_bytes_len by done. lia.
Qed.

Lemma decode_entries k es fuel : Forall listable es -> 0 <= k -> k + len es < 2 ^ 63 ->
  (length es <= fuel)%nat ->
  decode_dirents fuel (bytes_of_entries k es) = Some (records_of k es).
Proof.
  intros Hes. revert k fuel. induction Hes as [|e es He _ IH]; intros k fuel Hk Hlt Hf.
  { by destruct fuel. }
  destruct fuel as [|fuel]; [simpl in Hf; lia|]. cbn [bytes_of_entries records_of].
  unfold len in *. simpl in Hlt, Hf. rewrite decode_dirent by (done || lia). by rewrite IH by lia.
Qed.

(** C38: listing a directory.  However small the buffer, a call returns whole
    records for the entries that follow the cursor, as many as fit, with their
    numbers, kinds and names, and moves the cursor past exactly these: calls in
    sequence list every entry once and in order.  When nothing is returned, the
    directory is at its end or the next record is larger than the buffer. *)
Theorem getdents_lists_entries d room : Forall listable (dir_entries d) ->
  0 <= dir_cursor d -> len (dir_entries d) < 2 ^ 62 -> dir_cursor d < 2 ^ 62 ->
  exists n out, let read := take n (drop (Z.to_nat (dir_cursor d)) (dir_entries d)) in
    write_getdents64 d room =
      Ok (out, mkDirectoryFd (dir_path d) (dir_entries d) (dir_cursor d + Z.of_nat n)) /\
    (0 <= room -> len out <= room) /\
    decode_dirents n out = Some (records_of (dir_cursor d) read) /\
    (n <= length (drop (Z.to_nat (dir_cursor d)) (dir_entries d)))%nat /\
    (forall e, dir_entries d !! (Z.to_nat (dir_cursor d) + n)%nat = Some e ->
       room < len out + record_len e).
Proof.
  intros Hes Hc Hlen Hcur.
  destruct (getdents_loop_spec room (drop (Z.to_nat (dir_cursor d)) (dir_entries d))
              (dir_cursor d) []) as (n & Hloop & Hn & Hroom & Hnext); [by apply Forall_drop|].
  cbn [app] in *. exists n, (bytes_of_entries (dir_cursor d)
    (take n (drop (Z.to_nat (dir_cursor d)) (dir_entries d)))). cbn zeta.
  split; [unfold write_getdents64; by rewrite Hloop|].
  split; [intros; apply Hroom; done|]. split.
  - apply decode_entries; [by apply Forall_take, Forall_drop|done| |rewrite length_take; lia].
    unfold len in *. rewrite length_take, length_drop.
    change (2 ^ 63) with (2 ^ 62 + 2 ^ 62). lia.
  - split; [done|]. intros e He. apply Hnext. by rewrite lookup_drop.
Qed.

(** ** Witnesses *)

Definition empty_world : ExampleHost.world := mkWorld ∅ [] [] [] [] 0 false false.

Definition is_none {A} (o : option A) : bool := match o with None => true | Some _ => false end.

(** A process whose descriptors 3 and 4 are the ends of pipe 0. *)
Definition example_tables : Tables (H:=example_host) :=
  let '(_, s) := pipe false (mkFdState fd_new (mkShared (H:=example_host) empty_world [])) in
  mkTables {[0%nat := table s]} (shared s).

(** Fork, write through a duplicate in the parent and in the child, read in
    both. *)
Definition example_ops : list (nat * fd_op) :=
  [(0%nat, OpFork 1); (0%nat, OpDup 4 0 false); (0%nat, OpWrite 5 [97; 98; 99]);
   (1%nat, OpWrite 4 [100; 101]); (1%nat, OpRead 3 4); (0%nat, OpClose 4); (0%nat, OpRead 3 10)].

Lemma pipe_is_fifo_witness :
  let '(got, sent, T) := ops_run 0 example_ops example_tables in
  got = [97; 98; 99; 100; 101] /\ sent = [97; 98; 99; 100; 101] /\
  exists rest, holds 0 rest T /\ got ++ rest = [] ++ sent.
Proof.
  pose proof (pipe_is_fifo 0 example_ops example_tables [] eq_refl) as Hf.
  remember (ops_run 0 example_ops example_tables) as r eqn:Hr.
  destruct r as [[got sent] T].
  assert ((got, sent) = ([97; 98; 99; 100; 101], [97; 98; 99; 100; 101])) as [= -> ->].
  { change (got, sent) with (got, sent, T).1. rewrite Hr. vm_compute. reflexivity. }
  split; [reflexivity|]. split; [reflexivity|exact Hf].
Defined.

(** The state after [pipe] on a new table. *)
Definition piped_state : FdState (H:=example_host) :=
  (pipe true (mkFdState fd_new (mkShared (H:=example_host) empty_world []))).2.

Lemma duplicate_result_witness :
  entries (table piped_state) !! 5 = None /\ all_used (entries (table piped_state)) 0 5.
Proof.
  pose proof (duplicate_result 4 0 false piped_state (duplicate 4 0 false piped_state).1
    (duplicate 4 0 false piped_state).2 ltac:(lia) ltac:(by destruct (duplicate _ _ _ _))) as Hd.
  assert ((duplicate 4 0 false piped_state).1 = Ok 5) as E by (vm_compute; reflexivity).
  assert (is_none (entries (table piped_state) !! 4) = false) as H4 by (vm_compute; reflexivity).
  destruct (entries (table piped_state) !! 4) as [slot|]; [|discriminate H4].
  destruct (Hd 5 E) as (_ & Hn & Hu & _). split; [exact Hn|exact Hu].
Defined.

Lemma fork_then_exec_descriptors_witness : exists child s',
  duplicate_all piped_state = (Ok child, s') /\
  entries (close_on_exec child) !! 3 = None /\
  (forall fd, is_Some (entries (close_on_exec child) !! fd) <->
     exists slot, entries (table piped_state) !! fd = Some slot /\
       (fd <= 2 \/ slot_close_on_exec slot = false)).
Proof.
  assert (is_ok (duplicate_all piped_state).1 = true) as Hok by (vm_compute; reflexivity).
  assert (match (duplicate_all piped_state).1 with
          | Ok child => is_none (entries (close_on_exec child) !! 3)
          | _ => false end = true) as Hn by (vm_compute; reflexivity).
  destruct (duplicate_all piped_state) as [[child|e|] s'] eqn:Hd; [|discriminate Hok..].
  cbn [fst] in Hn. destruct (entries (close_on_exec child) !! 3) eqn:Hn'; [discriminate Hn|].
  exists child, s'. split; [reflexivity|]. split; [exact Hn'|].
  exact (proj2 (proj2 (proj2 (fork_then_exec_descriptors piped_state child s' Hd)))).
Defined.

Definition example_directory : DirectoryFd :=
  mkDirectoryFd (text "/tmp")
    [mkDirectoryEntry (text ".") 4; mkDirectoryEntry (text "..") 4;
     mkDirectoryEntry (text "hello") 8] 0.

Lemma getdents_lists_entries_witness : exists n out,
  write_getdents64 example_directory 60 =
    Ok (out, mkDirectoryFd (text "/tmp") (dir_entries example_directory) (0 + Z.of_nat n)) /\
  decode_dirents n out = Some (records_of 0 (take n (dir_entries example_directory))).
Proof.
  destruct (getdents_lists_entries example_directory 60) as (n & out & H1 & _ & H2 & _).
  - repeat (constructor; [split; [by vm_compute; set_solver|by vm_compute]|]). constructor.
  - done.
  - done.
  - done.
  - exists n, out. split; [exact H1|exact H2].
Defined.
