(* ===== verification/ProcessProps.v ===== *)
(** * Processes: fork, exit, wait and scheduling

    What a child gets from a fork; that an exit status is delivered to the
    parent, once, with the code of the exit; that the scheduler is fair. *)

From Stdlib Require Import String.
From S2P Require Import Prelude Memory MemorySpec Registers Elf Host ExampleHost Fs LinuxAbi Terminal Fd FdProps Process.

Open Scope Z_scope.

(** ** The scheduler *)

Section Scheduler.
Context `{Host}.

(** A call of [next_thread] with the table at that time, followed by calls of
    [enqueue]. *)
Record sched_round : Type := mkRound { at_table : ProcessTable; adds : list (Z * Z) }.

Definition sched_step (r : sched_round) (s : Scheduler) : option (Z * Z) * Scheduler :=
  let '(e, s) := next_thread (at_table r) s in
  (e, foldl (fun s e => enqueue e.1 e.2 s) s (adds r)).

(** The threads chosen in a sequence of rounds. *)
Fixpoint schedule (rs : list sched_round) (s : Scheduler) : list (option (Z * Z)) :=
  match rs with
  | [] => []
  | r :: rs => let '(e, s) := sched_step r s in e :: schedule rs s
  end.

Lemma next_loop_runnable t q e q' : next_loop t q = (Some e, q') -> thread_runnable t e = true.
Proof.
  induction q as [|x q IH]; simpl; [done|].
  destruct (thread_runnable t x) eqn:Hx; [by intros [= <- <-]|done].
Qed.

(** A runnable thread in the queue is chosen, or moves forward. *)
Lemma next_loop_progress t q i e : q !! i = Some e -> thread_runnable t e = true ->
  exists y q', next_loop t q = (Some y, q') /\
    (y = e \/ exists j, (j < i)%nat /\ q' !! j = Some e).
Proof.
  revert i. induction q as [|x q IH]; intros i Hi He; [done|]. cbn [next_loop].
  destruct (thread_runnable t x) eqn:Hx.
  - do 2 eexists. split; [done|]. destruct i as [|i]; [left; by simplify_eq/=|right].
    exists i. split; [lia|]. by apply lookup_app_l_Some.
  - destruct i as [|i]; [simplify_eq/=; congruence|].
    destruct (IH i Hi He) as (y & q' & -> & [->|(j & Hj & Hq')]).
    + do 2 eexists. split; [done|by left].
    + do 2 eexists. split; [done|right]. exists j. split; [lia|done].
Qed.

(** [enqueue] keeps every entry where it is. *)
Lemma enqueue_lookup pid tid s i e : run_queue s !! i = Some e ->
  run_queue (enqueue pid tid s) !! i = Some e.
Proof. unfold enqueue. case_decide; [done|]. by apply lookup_app_l_Some. Qed.

Lemma enqueue_all_lookup l s i e : run_queue s !! i = Some e ->
  run_queue (foldl (fun s e => enqueue e.1 e.2 s) s l) !! i = Some e.
Proof. revert s. induction l as [|x l IH]; intros s Hs; simpl; [done|]. by apply IH, enqueue_lookup. Qed.

(** The scheduler is fair.  A thread that is [i] places from the front of
    the queue and can run is chosen within the next [i + 1] rounds, whatever
    other threads start, stop, wait or are added meanwhile; and a thread that is
    chosen can run. *)
Theorem scheduler_fair rs s i e : run_queue s !! i = Some e -> (i < length rs)%nat ->
  Forall (fun r => thread_runnable (at_table r) e = true) (take (S i) rs) ->
  exists k, (k <= i)%nat /\ schedule rs s !! k = Some (Some e) /\
    forall r s, (next_thread r s).1 = Some e -> thread_runnable r e = true.
Proof.
  intros Hi Hlen Hrun.
  assert (forall r s, (next_thread r s).1 = Some e -> thread_runnable r e = true) as Hsound.
  { intros r0 s0. unfold next_thread. destruct (next_loop r0 (run_queue s0)) as [o q] eqn:Hn.
    simpl. intros ->. by eapply next_loop_runnable. }
  revert s i Hi Hlen Hrun. induction rs as [|r rs IH]; intros s i Hi Hlen Hrun; [simpl in Hlen; lia|].
  cbn [take] in Hrun. apply Forall_cons in Hrun as [He Hrun]. cbn [schedule].
  unfold sched_step, next_thread.
  destruct (next_loop_progress (at_table r) (run_queue s) i e Hi He)
    as (y & q' & -> & [->|(j & Hj & Hq')]).
  - exists 0%nat. split; [lia|]. by split.
  - destruct (IH (foldl (fun s e => enqueue e.1 e.2 s) (mkScheduler q') (adds r)) j)
      as (k & Hk & Hs & _).
    + by apply enqueue_all_lookup.
    + simpl in Hlen. lia.
    + replace (take (S j) rs) with (take (S j) (take i rs)) by (rewrite take_take; f_equal; lia).
      by apply Forall_take.
    + exists (S k). split; [lia|]. by split.
Qed.
End Scheduler.

(** ** Fork *)

Section Fork.
Context `{Host}.

Lemma allocate_loop_None fuel rs next : allocate_loop fuel rs next = None ->
  forall x, next <= x < next + Z.of_nat fuel -> is_Some (rs !! x).
Proof.
  revert next. induction fuel as [|fuel IH]; intros next Hn x Hx; [lia|].
  cbn [allocate_loop] in Hn. unfold add_u32 in Hn.
  destruct (next + 1 <? 2 ^ 32); [|done]. destruct (rs !! next) eqn:Hr; [|done].
  destruct (decide (x = next)) as [->|]; [by rewrite Hr|]. apply (IH (next + 1) Hn). lia.
Qed.

Lemma allocate_loop_Some fuel rs next r : allocate_loop fuel rs next = Some r ->
  r = Panic \/ exists x, r = Ok (x, x + 1) /\ next <= x /\ rs !! x = None /\ x + 1 < 2 ^ 32.
Proof.
  revert next. induction fuel as [|fuel IH]; intros next Hn; [done|].
  cbn [allocate_loop] in Hn. unfold add_u32 in Hn.
  destruct (Z.ltb_spec (next + 1) (2 ^ 32)); [|left; congruence].
  destruct (rs !! next) eqn:Hr.
  - destruct (IH _ Hn) as [->|(x & -> & Hx & Hrest)]; [by left|]. right. exists x.
    split; [done|]. split; [lia|done].
  - right. simplify_eq. exists next. split; [done|]. split; [lia|done].
Qed.

(** A new pid is free and not below the next one; [allocate_pid] panics only
    when the numbers run out. *)
Lemma allocate_pid_spec t :
  allocate_pid t = Panic \/
  exists x, allocate_pid t = Ok (x, mkProcessTable (records t) (wait_queues t) (x + 1)) /\
    next_pid t <= x /\ records t !! x = None /\ x + 1 < 2 ^ 32.
Proof.
  unfold allocate_pid. destruct (allocate_loop _ _ _) as [r|] eqn:Hn.
  - apply allocate_loop_Some in Hn as [->|(x & -> & Hx)]; [by left|]. right. by exists x.
  - exfalso. pose proof (allocate_loop_None _ _ _ Hn) as Hall.
    assert (S (size (records t)) <= size (records t))%nat; [|lia].
    apply (consecutive_keys _ (next_pid t)). intros i Hi. apply Hall. lia.
Qed.

(** The words of memory that hold a child's thread number. *)
Definition tid_word (p : LinuxProcess) (a : Z) : Prop :=
  (p_set_tid_address p <> 0 /\ p_set_tid_address p <= a < p_set_tid_address p + 4) \/
  (p_fs_base p <> 0 /\ p_fs_base p + GLIBC_PTHREAD_TID_OFFSET <= a <
     p_fs_base p + GLIBC_PTHREAD_TID_OFFSET + 4).

Lemma write_u32_other addr v m m' : wf m -> write_u32 addr v m = (Ok tt, m') ->
  wf m' /\ forall a, ~ addr <= a < addr + 4 -> cell m' a = cell m a.
Proof.
  intros Hm. unfold write_u32.
  destruct (write_bytes_cases addr (to_le 4 v) m Hm (to_le_u8 4 v))
    as [[e ->]|(m1 & r & -> & Hw & _ & _ & _ & _ & Hc)]; [done|].
  intros [= <-]. split; [done|]. intros a Ha. rewrite Hc. unfold a_store.
  rewrite (proj2 (in_range_false _ _ _)); [done|]. exact Ha.
Qed.

Lemma on_mem_Ok {A} (m : MemM A) s a s' : on_mem m s = (Ok a, s') -> m s = (Ok a, s').
Proof. unfold on_mem, zoom. destruct (m s) as [[] ]; simpl; [|done..]. by intros [= <- <-]. Qed.

Lemma child_memory_spec p m m' : wf m -> child_memory p m = (Ok tt, m') ->
  wf m' /\ forall a, ~ tid_word p a -> cell m' a = cell m a.
Proof.
  intros Hm. unfold child_memory, mbind, st_bind.
  destruct (Z.eqb_spec (p_set_tid_address p) 0) as [Ht|Ht]; cbn [mret st_ret].
  - destruct (Z.eqb_spec (p_fs_base p) 0) as [Hf|Hf]; [by intros [= <-]|].
    unfold lift, add64. destruct (checked_add _ _) as [x|] eqn:Hx; cbn [expect]; [|done].
    apply checked_add_Some in Hx as [-> _]. cbn [gets].
    destruct (permissions_at _ _); [|by intros [= <-]].
    intros [Hw Hc]%on_mem_Ok%write_u32_other; [|done]. split; [done|].
    intros a Ha. apply Hc. intros Hr. apply Ha. right. done.
  - destruct (on_mem _ m) as [[[]|e|] m1] eqn:Hwr; [|done..].
    apply on_mem_Ok, write_u32_other in Hwr as [Hw1 Hc1]; [|done].
    assert (forall a, ~ tid_word p a -> cell m1 a = cell m a) as Hc1'.
    { intros a Ha. apply Hc1. intros Hr. apply Ha. left. done. }
    destruct (Z.eqb_spec (p_fs_base p) 0) as [Hf|Hf]; [by intros [= <-]|].
    unfold lift, add64. destruct (checked_add _ _) as [x|] eqn:Hx; cbn [expect]; [|done].
    apply checked_add_Some in Hx as [-> _]. cbn [gets].
    destruct (permissions_at _ _); [|by intros [= <-]].
    intros [Hw Hc]%on_mem_Ok%write_u32_other; [|done]. split; [done|].
    intros a Ha. rewrite Hc; [by apply Hc1'|]. intros Hr. apply Ha. right. done.
Qed.

Lemma try_clone_spec p pid sh child sh' : try_clone_for_child p pid sh = (Ok child, sh') ->
  buffers sh' = buffers sh /\
  (forall fd, option_Forall2 same_slot (entries (p_fd_table p) !! fd)
     (entries (p_fd_table child) !! fd)) /\
  child = mkProcess pid pid (p_pid p) (p_pgid p) (pid + 1) (p_cwd p) (p_rootfs p)
    (p_executable_path p) (p_brk_base p) (p_brk p) (p_mmap_next p) (p_fs_base p)
    (p_set_tid_address p) (p_fd_table child) (p_terminal p) [].
Proof.
  unfold try_clone_for_child, add_u32. destruct (pid + 1 <? 2 ^ 32); [|done].
  destruct (duplicate_all (mkFdState (p_fd_table p) sh)) as [[t|e|] s] eqn:Hd; simpl; [|done..].
  intros [= <- <-]. apply duplicate_all_spec in Hd as (_ & Hb & _ & Hs). done.
Qed.
(** C18: what a fork makes.  A successful [fork_from_process] adds one process,
    with a new number, that has the caller as parent, its descriptors, a copy of
    its registers with [rax] zero and a copy of its memory that differs only in
    the words holding the thread number; its thread can be scheduled.  Of the
    other processes only the caller's list of children changes, and a fork that
    fails adds no process. *)
Theorem fork_result p m regs t sh r t' sh' : wf m -> p_pid p < next_pid t ->
  fork_from_process p m regs (t, sh) = (r, (t', sh')) ->
  match r with
  | Ok child =>
      next_pid t <= child < next_pid t' /\ records t !! child = None /\
      buffers sh' = buffers sh /\ thread_runnable t' (child, child) = true /\
      (exists c, records t' !! child = Some c /\ pr_parent c = Some (p_pid p) /\
         p_pid (pr_process c) = child /\ p_ppid (pr_process c) = p_pid p /\
         main_thread_registers c = Some (Registers.set_rax 0 regs) /\
         wf (pr_memory c) /\ (forall a, ~ tid_word p a -> cell (pr_memory c) a = cell m a) /\
         forall fd, option_Forall2 same_slot (entries (p_fd_table p) !! fd)
                      (entries (p_fd_table (pr_process c)) !! fd)) /\
      (forall q, q <> child -> records t' !! q =
         (if decide (q = p_pid p)
          then (fun x => set_pr_children (pr_children x ++ [child]) x) <$> records t !! q
          else records t !! q))
  | Err _ => records t' = records t /\ wait_queues t' = wait_queues t
  | Panic => True
  end.
Proof.
  intros Hm Hp. unfold fork_from_process.
  destruct (allocate_pid_spec t) as [->|(x & -> & Hx & Hfree & Hlt)]; [by intros [= <- <- <-]|].
  destruct (try_clone_for_child p x sh) as [[c|e|] sh1] eqn:Hc;
    [|by intros [= <- <- <-]|by intros [= <- <- <-]].
  apply try_clone_spec in Hc as (Hb & Hfd & Hcv).
  destruct (child_memory c m) as [[[]|e|] m'] eqn:Hcm;
    [|by intros [= <- <- <-]|by intros [= <- <- <-]].
  apply child_memory_spec in Hcm as [Hw Hcell]; [|done].
  set (rec := new_record c m' (Registers.set_rax 0 regs) x (Some (p_pid p))).
  intros [= <- Ht' <-].
  assert (records t' = alter (fun r => set_pr_children (pr_children r ++ [x]) r) (p_pid p)
    (<[x := rec]> (records t))) as Hrt by (by rewrite <- Ht').
  assert (next_pid t' = x + 1) as Hnt by (by rewrite <- Ht').
  split; [lia|]. split; [done|]. split; [done|].
  assert (p_tid c = x /\ p_pid c = x /\ p_ppid c = p_pid p) as (Htid & Hpid & Hppid)
    by (rewrite Hcv; done).
  assert (records t' !! x = Some rec) as Hrec.
  { rewrite Hrt, lookup_alter_ne by lia. apply lookup_insert_eq. }
  split; [|split].
  - unfold thread_runnable. cbn [fst snd]. rewrite Hrec. cbn [pr_threads rec new_record].
    rewrite Htid, lookup_singleton_eq. done.
  - exists rec. split; [done|]. split; [done|]. split; [done|]. split; [done|]. split.
    { unfold main_thread_registers. cbn [pr_threads pr_process rec new_record].
      by rewrite lookup_singleton_eq. }
    split; [done|]. split; [|done]. intros a Ha. apply Hcell. intros Ht. apply Ha.
    rewrite Hcv in Ht. done.
  - intros q Hq. rewrite Hrt. destruct (decide (q = p_pid p)) as [->|Hqp].
    + rewrite lookup_alter_eq. by rewrite lookup_insert_ne by done.
    + rewrite lookup_alter_ne by done. by rewrite lookup_insert_ne by done.
Qed.
End Fork.
