(* ===== verification/ProcessWait.v ===== *)
(** * Exit and wait as a transition system

    The steps that processes take on the table, as the run loop takes them: the
    record of the running process is taken out, the call is served, and a record
    goes back.  By induction on the steps, every exit status reaches the parent
    exactly once. *)

From Stdlib Require Import String.
From S2P Require Import Prelude Memory MemorySpec Registers Elf Host ExampleHost Fs LinuxAbi Terminal Fd FdProps Process ProcessProps.

Open Scope Z_scope.

Section Wait.
Context `{Host}.

(** ** Steps *)

Inductive pevent : Type :=
| EvExit (pid : Z) (parent : option Z) (code : Z)
| EvReap (parent pid : Z) (status : ExitStatus).

(** [pid] can run: it is runnable and so is one of its threads. *)
Record runs (t : ProcessTable) (pid : Z) (r : ProcessRecord) : Prop := {
  runs_record : records t !! pid = Some r;
  runs_state : pr_state r = Runnable;
  runs_thread : exists tid, thread_runnable t (pid, tid) = true
}.

(** The running process changes its record but not who it is. *)
Record continues_as (r r' : ProcessRecord) : Prop := {
  ca_pid : p_pid (pr_process r') = p_pid (pr_process r);
  ca_parent : pr_parent r' = pr_parent r;
  ca_status : pr_exit_status r' = pr_exit_status r
}.

Definition reap_event (parent : Z) (o : option (Z * ExitStatus)) : list pevent :=
  match o with Some (c, st) => [EvReap parent c st] | None => [] end.

(** The table without the running process. *)
Definition without (pid : Z) (t : ProcessTable) : ProcessTable := (table_take pid t).2.

Inductive tstep : ProcessTable -> list pevent -> ProcessTable -> Prop :=
| ts_run t pid r r' : runs t pid r -> continues_as r r' ->
    tstep t [] (insert_record pid r' (without pid t))
| ts_fork t pid r r' m regs sh child t1 sh' : runs t pid r -> continues_as r r' ->
    fork_from_process (pr_process r) m regs (without pid t, sh) = (Ok child, (t1, sh')) ->
    tstep t [] (insert_record pid r' t1)
| ts_exit t pid r r' code : runs t pid r -> continues_as r r' ->
    tstep t [EvExit pid (pr_parent r) code]
      (insert_record pid (mark_exited code r')
         (record_exit pid (pr_parent r) code (exit_process pid code (without pid t))))
| ts_wait t pid r r' requested o t1 : runs t pid r -> continues_as r r' ->
    wait4 pid requested (without pid t) = (o, t1) ->
    tstep t (reap_event pid o) (insert_record pid r' t1).

(** The events of a run from [t0]. *)
Inductive history (t0 : ProcessTable) : list pevent -> ProcessTable -> Prop :=
| hist_nil : history t0 [] t0
| hist_step ev t e t' : history t0 ev t -> tstep t e t' -> history t0 (ev ++ e) t'.

Definition reaped_of (e : pevent) : option Z :=
  match e with EvReap _ c _ => Some c | _ => None end.
Definition reaped (ev : list pevent) : list Z := omap reaped_of ev.

(** ** The invariant *)

(** A process that has exited has no thread left to run. *)
Definition at_rest (r : ProcessRecord) : Prop :=
  forall tid th, pr_threads r !! tid = Some th -> t_state th = Exited.

Record hinv (ev : list pevent) (t : ProcessTable) : Prop := {
  h_id : forall pid r, records t !! pid = Some r ->
    p_pid (pr_process r) = pid /\ pid < next_pid t /\
    forall p, pr_parent r = Some p -> p < next_pid t;
  h_rest : forall pid r st, records t !! pid = Some r -> pr_exit_status r = Some st -> at_rest r;
  h_queue : forall p q c st, wait_queues t !! p = Some q -> (c, st) ∈ exited q ->
    exists r, records t !! c = Some r /\ pr_parent r = Some p /\ pr_exit_status r = Some st;
  h_nodup : forall p q, wait_queues t !! p = Some q -> NoDup (exited q).*1;
  h_exit : forall pid par code, EvExit pid par code ∈ ev -> pid < next_pid t /\
    (pid ∈ reaped ev \/ exists r, records t !! pid = Some r /\ pr_parent r = par /\
       pr_exit_status r = Some (mkExitStatus code));
  h_status : forall pid r st, records t !! pid = Some r -> pr_exit_status r = Some st ->
    EvExit pid (pr_parent r) (exit_code st) ∈ ev;
  h_reaped : NoDup (reaped ev) /\
    forall c, c ∈ reaped ev -> records t !! c = None /\ c < next_pid t;
  h_reap : forall p c st, EvReap p c st ∈ ev -> EvExit c (Some p) (exit_code st) ∈ ev;
  h_kept : forall c r p st, records t !! c = Some r -> pr_parent r = Some p ->
    pr_exit_status r = Some st -> is_Some (records t !! p) ->
    exists q, wait_queues t !! p = Some q /\ (c, st) ∈ exited q
}.

(** ** Similar records *)

(** What the invariant reads of a record. *)
Record similar (r r' : ProcessRecord) : Prop := {
  sim_pid : p_pid (pr_process r') = p_pid (pr_process r);
  sim_parent : pr_parent r' = pr_parent r;
  sim_status : pr_exit_status r' = pr_exit_status r;
  sim_rest : at_rest r -> at_rest r'
}.

Lemma similar_refl r : similar r r.
Proof. by split. Qed.

Lemma similar_wake r : similar r (wake r).
Proof.
  split; try done. intros Hr tid th. unfold wake, set_pr_threads. cbn [pr_threads].
  rewrite lookup_fmap. intros (th0 & Hth & ->)%fmap_Some. specialize (Hr tid th0 Hth).
  unfold wake_thread. by rewrite Hr.
Qed.

Lemma similar_children l r : similar r (set_pr_children l r).
Proof. by split. Qed.

(** [t'] has the processes of [t] other than [pid], up to similarity. *)
Definition others (pid : Z) (t t' : ProcessTable) : Prop :=
  forall q, q <> pid -> option_Forall2 similar (records t !! q) (records t' !! q).

Lemma runs_alive ev t pid r : hinv ev t -> runs t pid r -> pr_exit_status r = None.
Proof.
  intros Hi [Hr _ (tid & Ht)]. destruct (pr_exit_status r) as [st|] eqn:Hst; [|done].
  exfalso. pose proof (h_rest ev t Hi pid r st Hr Hst tid) as Hrest.
  unfold thread_runnable in Ht. cbn [fst snd] in Ht. rewrite Hr in Ht.
  destruct (pr_threads r !! tid) as [th|]; [|done].
  apply bool_decide_eq_true in Ht. specialize (Hrest th eq_refl). congruence.
Qed.

(** Looking up a process in the table after a step. *)
Lemma others_lookup pid t t' q r' : others pid t t' -> q <> pid ->
  records t' !! q = Some r' -> exists r, records t !! q = Some r /\ similar r r'.
Proof. intros Ho Hq Hr. destruct (Ho q Hq); [|done]. simplify_eq. eauto. Qed.

Lemma others_lookup_rev pid t t' q r : others pid t t' -> q <> pid ->
  records t !! q = Some r -> exists r', records t' !! q = Some r' /\ similar r r'.
Proof. intros Ho Hq Hr. destruct (Ho q Hq); [|done]. simplify_eq. eauto. Qed.

(** The queues of [t'] are those of [t] and empty ones. *)
Definition same_queues (t t' : ProcessTable) : Prop :=
  (forall p q, wait_queues t !! p = Some q -> wait_queues t' !! p = Some q) /\
  (forall p q, wait_queues t' !! p = Some q -> wait_queues t !! p = Some q \/ exited q = []).

(** A step that changes no queue and keeps the running process alive. *)
Lemma hinv_keep ev t pid r t' r' : hinv ev t -> runs t pid r -> others pid t t' ->
  records t' !! pid = Some r' -> continues_as r r' -> next_pid t' = next_pid t ->
  same_queues t t' -> hinv ev t'.
Proof.
  intros Hi Hr Ho Hr' Hc Hn [Hw1 Hw2]. pose proof (runs_alive _ _ _ _ Hi Hr) as Halive.
  destruct Hr as [Hrec _ _], Hc as [Hcp Hcpar Hcst].
  assert (pr_exit_status r' = None) as Halive' by congruence.
  assert (forall q x, records t' !! q = Some x ->
    exists y, records t !! q = Some y /\ p_pid (pr_process x) = p_pid (pr_process y) /\
      pr_parent x = pr_parent y /\ pr_exit_status x = pr_exit_status y /\
      (is_Some (pr_exit_status x) -> at_rest y -> at_rest x)) as Hback.
  { intros q x Hx. destruct (decide (q = pid)) as [->|Hq].
    - simplify_eq. exists r. do 4 (split; [done|]). by rewrite Halive'; intros [].
    - destruct (others_lookup _ _ _ _ _ Ho Hq Hx) as (y & Hy & []). exists y. auto. }
  assert (forall q x, records t !! q = Some x ->
    exists y, records t' !! q = Some y /\ pr_parent y = pr_parent x /\
      pr_exit_status y = pr_exit_status x) as Hfwd.
  { intros q x Hx. destruct (decide (q = pid)) as [->|Hq]; [simplify_eq; by exists r'|].
    destruct (others_lookup_rev _ _ _ _ _ Ho Hq Hx) as (y & Hy & []). by exists y. }
  split.
  - intros q x Hx. destruct (Hback q x Hx) as (y & Hy & -> & -> & _). rewrite Hn. by apply (h_id ev t Hi).
  - intros q x st Hx Hst. destruct (Hback q x Hx) as (y & Hy & _ & _ & Es & Hrest).
    apply Hrest; [by rewrite Hst|]. apply (h_rest ev t Hi q y st Hy). congruence.
  - intros p q c st [Hq|Hq]%Hw2 Hin; [|rewrite Hq in Hin; by apply elem_of_nil in Hin].
    destruct (h_queue ev t Hi p q c st Hq Hin) as (x & Hx & Hp & Hs).
    destruct (Hfwd c x Hx) as (y & Hy & Ep & Es). exists y. split; [done|]. split; congruence.
  - intros p q [Hq|Hq]%Hw2; [by apply (h_nodup ev t Hi p)|]. rewrite Hq. apply NoDup_nil_2.
  - intros q par code Hin. rewrite Hn. destruct (h_exit ev t Hi q par code Hin) as [Hlt [Hrp|(x & Hx & Hp & Hs)]].
    + by split; [|left].
    + split; [done|]. right. destruct (Hfwd q x Hx) as (y & Hy & Ep & Es). exists y.
      split; [done|]. split; congruence.
  - intros q x st Hx Hst. destruct (Hback q x Hx) as (y & Hy & _ & Ep & Es & _).
    rewrite Ep. apply (h_status ev t Hi q y st Hy). congruence.
  - destruct (h_reaped ev t Hi) as [Hnd Hre]. split; [done|]. intros c Hc. rewrite Hn.
    destruct (Hre c Hc) as [Hnone Hlt]. split; [|done].
    destruct (records t' !! c) as [x|] eqn:Hx; [|done].
    destruct (Hback c x Hx) as (y & Hy & _). congruence.
  - apply (h_reap ev t Hi).
  - intros c x p st Hx Hp Hst [z Hz].
    destruct (Hback c x Hx) as (y & Hy & _ & Ep & Es & _).
    destruct (Hback p z Hz) as (z' & Hz' & _).
    destruct (h_kept ev t Hi c y p st Hy) as (q & Hq & Hin); [congruence..|by exists z'|].
    exists q. auto.
Qed.

(** A new process, with a number never used before. *)
Lemma hinv_add ev t c rec n : hinv ev t -> next_pid t <= c < n -> p_pid (pr_process rec) = c ->
  (forall p, pr_parent rec = Some p -> p < next_pid t) -> pr_exit_status rec = None ->
  hinv ev (mkProcessTable (<[c := rec]> (records t)) (wait_queues t) n).
Proof.
  intros Hi Hc Hpid Hpar Hst.
  assert (records t !! c = None) as Hfree.
  { destruct (records t !! c) as [x|] eqn:Hx; [|done].
    destruct (h_id ev t Hi c x Hx) as (_ & ? & _). lia. }
  assert (forall q x, <[c := rec]> (records t) !! q = Some x ->
    (q = c /\ x = rec) \/ (q <> c /\ records t !! q = Some x)) as Hback.
  { intros q x [[<- <-]|[? ?]]%lookup_insert_Some; auto. }
  assert (forall q x, records t !! q = Some x -> <[c := rec]> (records t) !! q = Some x) as Hfwd.
  { intros q x Hx. rewrite lookup_insert_ne; [done|]. intros ->. congruence. }
  split; cbn [records wait_queues next_pid].
  - intros q x [[-> ->]|[_ Hx]]%Hback.
    + split; [done|]. split; [lia|]. intros p Hp. specialize (Hpar p Hp). lia.
    + destruct (h_id ev t Hi q x Hx) as (? & ? & Hp). split; [done|]. split; [lia|].
      intros p Hpp. specialize (Hp p Hpp). lia.
  - intros q x st [[-> ->]|[_ Hx]]%Hback; [congruence|]. by apply (h_rest ev t Hi q).
  - intros p q c' st Hq Hin. destruct (h_queue ev t Hi p q c' st Hq Hin) as (x & Hx & ?).
    exists x. auto.
  - apply (h_nodup ev t Hi).
  - intros q par code Hin. destruct (h_exit ev t Hi q par code Hin) as [Hlt [Hr|(x & Hx & ?)]];
      (split; [lia|]); [by left|]. right. exists x. auto.
  - intros q x st [[-> ->]|[_ Hx]]%Hback; [congruence|]. by apply (h_status ev t Hi q).
  - destruct (h_reaped ev t Hi) as [Hnd Hre]. split; [done|]. intros c' Hin.
    destruct (Hre c' Hin) as [Hnone Hlt]. split; [|lia]. rewrite lookup_insert_ne; [done|lia].
  - apply (h_reap ev t Hi).
  - intros c' x p st [[-> ->]|[Hne Hx]]%Hback Hp Hs [z [[-> ->]|[_ Hz]]%Hback]; try congruence.
    + destruct (h_id ev t Hi c' x Hx) as (_ & _ & Hlt). specialize (Hlt c Hp). lia.
    + by apply (h_kept ev t Hi c' x p st Hx Hp Hs).
Qed.

Lemma without_lookup pid t q : q <> pid -> records (without pid t) !! q = records t !! q.
Proof. intros Hq. unfold without, table_take. simpl. by rewrite lookup_delete_ne. Qed.

Lemma without_self pid t : records (without pid t) !! pid = None.
Proof. unfold without, table_take. simpl. apply lookup_delete_eq. Qed.

(** An exit of a process that is not in the table changes nothing. *)
Lemma exit_absent pid code t : records t !! pid = None -> exit_process pid code t = t.
Proof.
  intros Hp. unfold exit_process, set_records. rewrite Hp. cbn [mbind option_bind].
  replace (alter (mark_exited code) pid (records t)) with (records t); [by destruct t|].
  symmetry. apply map_eq. intros q. destruct (decide (q = pid)) as [->|Hq].
  - by rewrite lookup_alter_eq, Hp.
  - by rewrite lookup_alter_ne.
Qed.

Lemma ensure_queue_same p t : same_queues t (ensure_queue p t).
Proof.
  unfold same_queues, ensure_queue, set_wait_queues, queue_of. cbn [wait_queues]. split.
  - intros x q Hq. destruct (decide (x = p)) as [->|Hx]; [by rewrite lookup_insert_eq, Hq|].
    by rewrite lookup_insert_ne.
  - intros x q [[<- <-]|[? ?]]%lookup_insert_Some; [|by left].
    destruct (wait_queues t !! p); [by left|by right].
Qed.

Lemma same_queues_trans t1 t2 t3 : same_queues t1 t2 -> same_queues t2 t3 -> same_queues t1 t3.
Proof.
  intros [A1 B1] [A2 B2]. split; [auto|]. intros p q Hq. destruct (B2 p q Hq); auto.
Qed.

Lemma runs_insert t t' pid r : records t' !! pid = records t !! pid -> runs t pid r -> runs t' pid r.
Proof.
  intros He [Hr Hs (tid & Ht)]. split; [by rewrite He|done|]. exists tid.
  unfold thread_runnable in *. cbn [fst snd] in *. by rewrite He.
Qed.

Lemma hinv_fork_step ev t pid r r' m regs sh child t1 sh' : hinv ev t -> runs t pid r ->
  continues_as r r' ->
  fork_from_process (pr_process r) m regs (without pid t, sh) = (Ok child, (t1, sh')) ->
  hinv ev (insert_record pid r' t1).
Proof.
  intros Hi Hr Hc. destruct (h_id ev t Hi pid r (runs_record _ _ _ Hr)) as (Hpid & Hlt & _).
  unfold fork_from_process.
  destruct (allocate_pid_spec (without pid t)) as [->|(x & -> & Hx & Hfree & _)]; [done|].
  change (next_pid (without pid t)) with (next_pid t) in Hx.
  destruct (try_clone_for_child (pr_process r) x sh) as [[c|e|] sh1] eqn:Hcl; [|done..].
  apply try_clone_spec in Hcl as (_ & _ & Hcv).
  destruct (child_memory c m) as [[[]|e|] m'] eqn:Hcm; [|done..].
  set (rec := new_record c m' (Registers.set_rax 0 regs) x (Some (p_pid (pr_process r)))).
  intros [= <- <- <-].
  set (t2 := mkProcessTable (<[x := rec]> (records t)) (wait_queues t) (x + 1)).
  assert (hinv ev t2) as Hi2.
  { apply hinv_add; [done|lia| | |done]; [|intros p [= <-]; lia].
    cbn [rec pr_process new_record]. by rewrite Hcv. }
  assert (x <> pid) as Hxp by lia.
  eapply (hinv_keep ev t2 pid r _ r' Hi2).
  - eapply runs_insert; [|exact Hr]. unfold t2. cbn [records]. by rewrite lookup_insert_ne.
  - intros q Hq. cbn [records insert_record set_records ensure_queue set_wait_queues].
    rewrite lookup_insert_ne by done. rewrite Hpid, lookup_alter_ne by done.
    unfold t2. cbn [records]. destruct (decide (q = x)) as [->|Hqx].
    + rewrite !lookup_insert_eq. constructor. apply similar_refl.
    + rewrite !lookup_insert_ne by done. unfold without, table_take. cbn [records set_records snd].
      rewrite lookup_delete_ne by done. destruct (records t !! q); constructor. apply similar_refl.
  - apply lookup_insert_eq.
  - done.
  - done.
  - apply (same_queues_trans _ (ensure_queue x t2)); [apply ensure_queue_same|].
    apply (ensure_queue_same (p_pid (pr_process r)) (ensure_queue x t2)).
Qed.
Lemma reaped_app ev e : reaped (ev ++ e) = reaped ev ++ reaped e.
Proof. apply omap_app. Qed.

(** The queue of the parent after an exit that was not queued before. *)
Lemma record_exit_absent pid p code t : records t !! pid = None ->
  (forall q, wait_queues t !! p = Some q -> pid ∉ (exited q).*1) ->
  record_exit pid (Some p) code (exit_process pid code t) =
    set_records (alter wake p) (push_exit p pid (mkExitStatus code) t).
Proof.
  intros Hp Hq. unfold record_exit. rewrite !(exit_absent pid code t Hp).
  destruct (wait_queues t !! p) as [q|] eqn:E; [|done].
  destruct (existsb (fun e => e.1 =? pid) (exited q)) eqn:Hex; [|done].
  exfalso. apply existsb_exists in Hex as ([c st] & Hin%list_elem_of_In & Hc).
  simpl in Hc. apply Z.eqb_eq in Hc as ->. apply (Hq q eq_refl).
  apply list_elem_of_fmap. by exists (pid, st).
Qed.

(** What an exit does to the table. *)
Lemma exit_step_effect ev t pid r code r' : hinv ev t -> runs t pid r ->
  let T := insert_record pid (mark_exited code r')
    (record_exit pid (pr_parent r) code (exit_process pid code (without pid t))) in
  others pid t T /\ records T !! pid = Some (mark_exited code r') /\ next_pid T = next_pid t /\
  wait_queues T = match pr_parent r with
    | Some p => <[p := queue_push pid (mkExitStatus code) (queue_of t p)]> (wait_queues t)
    | None => wait_queues t
    end.
Proof.
  intros Hi Hr T. pose proof (runs_alive ev t pid r Hi Hr) as Halive.
  assert (forall p q, wait_queues t !! p = Some q -> pid ∉ (exited q).*1) as Hnq.
  { intros p q Hq ([c st] & -> & Hin)%list_elem_of_fmap.
    destruct (h_queue ev t Hi p q c st Hq Hin) as (x & Hx & _ & Hst).
    pose proof (runs_record _ _ _ Hr). simpl in *. congruence. }
  assert (records (without pid t) !! pid = None) as Hself by apply without_self.
  unfold T. destruct (pr_parent r) as [p|].
  - rewrite record_exit_absent by (exact Hself || exact (Hnq p)). split; [|by split; [apply lookup_insert_eq|]].
    intros q Hq. cbn [records insert_record set_records push_exit set_wait_queues].
    rewrite lookup_insert_ne by done. destruct (decide (q = p)) as [->|Hqp].
    + rewrite lookup_alter_eq, without_lookup by done. destruct (records t !! p); simpl; constructor.
      apply similar_wake.
    + rewrite lookup_alter_ne, without_lookup by done. destruct (records t !! q); constructor.
      apply similar_refl.
  - unfold record_exit. rewrite !(exit_absent pid code (without pid t) Hself). split; [|by split; [apply lookup_insert_eq|]].
    intros q Hq. cbn [records insert_record set_records].
    rewrite lookup_insert_ne, without_lookup by done. destruct (records t !! q); constructor.
    apply similar_refl.
Qed.

(** The queues after an exit: the old ones, and the new entry at the parent. *)
Lemma pushed_queues t par pid st p q c st' :
  match par with
  | Some p => <[p := queue_push pid st (queue_of t p)]> (wait_queues t)
  | None => wait_queues t
  end !! p = Some q -> (c, st') ∈ exited q ->
  (exists q0, wait_queues t !! p = Some q0 /\ (c, st') ∈ exited q0) \/
  (par = Some p /\ c = pid /\ st' = st).
Proof.
  intros Hq Hin. destruct par as [p'|]; [|left; eauto].
  apply lookup_insert_Some in Hq as [[<- <-]|[_ Hq]]; [|left; eauto].
  unfold queue_push, queue_of in Hin. cbn [exited] in Hin.
  apply elem_of_app in Hin as [Hin|Hin%list_elem_of_singleton]; [|right; by simplify_eq].
  destruct (wait_queues t !! p') as [q0|]; [left; eauto|by apply elem_of_nil in Hin].
Qed.

Lemma hinv_exit_step ev t pid r r' code : hinv ev t -> runs t pid r -> continues_as r r' ->
  hinv (ev ++ [EvExit pid (pr_parent r) code])
    (insert_record pid (mark_exited code r')
       (record_exit pid (pr_parent r) code (exit_process pid code (without pid t)))).
Proof.
  intros Hi Hr [Hcp Hcpar _]. pose proof (runs_alive ev t pid r Hi Hr) as Halive.
  destruct (h_id ev t Hi pid r (runs_record _ _ _ Hr)) as (Hpid & Hlt & Hplt).
  destruct (exit_step_effect ev t pid r code r' Hi Hr) as (Ho & Hself & Hn & Hw).
  set (T := insert_record _ _ _) in *. clearbody T.
  assert (forall x, x ∈ reaped ev -> x <> pid) as Hnr.
  { intros x Hx ->. destruct (h_reaped ev t Hi) as [_ Hre]. destruct (Hre pid Hx) as [Hnone _].
    pose proof (runs_record _ _ _ Hr). congruence. }
  assert (forall p q, wait_queues t !! p = Some q -> pid ∉ (exited q).*1) as Hnq.
  { intros p q Hq ([c st] & -> & Hin)%list_elem_of_fmap.
    destruct (h_queue ev t Hi p q c st Hq Hin) as (x & Hx & _ & Hst).
    pose proof (runs_record _ _ _ Hr). simpl in *. congruence. }
  assert (forall q x, records T !! q = Some x -> (q = pid /\ x = mark_exited code r') \/
    (q <> pid /\ exists y, records t !! q = Some y /\ similar y x)) as Hback.
  { intros q x Hx. destruct (decide (q = pid)) as [->|Hq]; [left; split; congruence|right].
    split; [done|]. by eapply others_lookup. }
  assert (reaped (ev ++ [EvExit pid (pr_parent r) code]) = reaped ev) as Hre
    by (rewrite reaped_app; apply app_nil_r).
  split.
  - intros q x [[-> ->]|(Hq & y & Hy & Hs)]%Hback; rewrite Hn.
    + cbn [pr_process mark_exited pr_parent]. rewrite Hcp, Hcpar. done.
    + destruct (h_id ev t Hi q y Hy) as (? & ? & ?). destruct Hs as [-> -> _ _]. done.
  - intros q x st [[-> ->]|(Hq & y & Hy & [_ _ Es Hrest])]%Hback Hst.
    + intros tid th. cbn [pr_threads mark_exited]. rewrite lookup_fmap.
      by intros (th0 & _ & ->)%fmap_Some.
    + apply Hrest, (h_rest ev t Hi q y st Hy). congruence.
  - intros p q c st. rewrite Hw. intros Hq Hin.
    destruct (pushed_queues t (pr_parent r) pid _ p q c st Hq Hin)
      as [(q0 & Hq0 & Hin0)|(Hp & -> & ->)].
    + destruct (h_queue ev t Hi p q0 c st Hq0 Hin0) as (x & Hx & Hp & Hs).
      assert (c <> pid) as Hc by (intros ->; pose proof (runs_record _ _ _ Hr); congruence).
      destruct (others_lookup_rev _ _ _ _ _ Ho Hc Hx) as (y & Hy & []). exists y.
      split; [done|]. split; congruence.
    + exists (mark_exited code r'). split; [done|]. split; [|done]. cbn [pr_parent mark_exited]. congruence.
  - intros p q. rewrite Hw. destruct (pr_parent r) as [p'|]; [|apply (h_nodup ev t Hi)].
    intros [[<- <-]|[_ Hq]]%lookup_insert_Some; [|by apply (h_nodup ev t Hi p)].
    unfold queue_push, queue_of. cbn [exited]. rewrite fmap_app. cbn.
    destruct (wait_queues t !! p') as [q0|] eqn:E; cbn [default].
    + apply NoDup_app. split; [by apply (h_nodup ev t Hi p')|].
      split; [|apply NoDup_singleton]. intros x Hx ->%list_elem_of_singleton. by apply (Hnq p' q0).
    + apply NoDup_singleton.
  - intros q par c. rewrite Hre, Hn. intros [Hin|Hin%list_elem_of_singleton]%elem_of_app.
    + destruct (h_exit ev t Hi q par c Hin) as [Hq [Hrp|(x & Hx & Hp & Hs)]];
        (split; [done|]); [by left|right].
      assert (q <> pid) as Hqp by (intros ->; pose proof (runs_record _ _ _ Hr); congruence).
      destruct (others_lookup_rev _ _ _ _ _ Ho Hqp Hx) as (y & Hy & []). exists y.
      split; [done|]. split; congruence.
    + injection Hin as -> -> ->. split; [done|]. right. exists (mark_exited code r').
      split; [done|]. split; [|done]. done.
  - intros q x st [[-> ->]|(Hq & y & Hy & [_ -> Es _])]%Hback Hst.
    + injection Hst as <-. cbn [pr_parent mark_exited exit_code]. rewrite Hcpar.
      apply elem_of_app. right. by apply list_elem_of_singleton.
    + apply elem_of_app. left. apply (h_status ev t Hi q y st Hy). congruence.
  - rewrite Hre, Hn. destruct (h_reaped ev t Hi) as [Hnd Hrp]. split; [done|]. intros c Hc.
    destruct (Hrp c Hc) as [Hnone Hcl]. split; [|done].
    destruct (records T !! c) as [x|] eqn:Hx; [|done].
    destruct (Hback c x Hx) as [[-> _]|(_ & y & Hy & _)]; [by destruct (Hnr pid Hc)|congruence].
  - intros p c st [Hin|Hin%list_elem_of_singleton]%elem_of_app; [|done].
    apply elem_of_app. left. by apply (h_reap ev t Hi).
  - intros c x p st Hx Hp Hst [z Hz]. rewrite Hw.
    assert (is_Some (records t !! p)) as Hpt.
    { destruct (Hback p z Hz) as [[-> _]|(_ & y & Hy & _)]; [|by exists y].
      exists r. apply (runs_record _ _ _ Hr). }
    destruct (Hback c x Hx) as [[-> ->]|(Hc & y & Hy & [_ Ep Es _])].
    + injection Hst as <-. cbn [pr_parent mark_exited] in Hp. rewrite Hcpar in Hp. rewrite Hp.
      eexists. split; [apply lookup_insert_eq|]. cbn [exited queue_push].
      apply elem_of_app. right. by apply list_elem_of_singleton.
    + destruct (h_kept ev t Hi c y p st Hy) as (q & Hq & Hin); [congruence..|done|].
      destruct (pr_parent r) as [p'|]; [|by exists q].
      destruct (decide (p' = p)) as [->|Hne].
      * eexists. split; [apply lookup_insert_eq|]. cbn [exited queue_push]. unfold queue_of.
        rewrite Hq. apply elem_of_app. by left.
      * exists q. split; [by rewrite lookup_insert_ne|done].
Qed.
Lemma pop_matching_cases requested q :
  pop_matching requested q = (None, q) \/
  exists i c st, exited q !! i = Some (c, st) /\ requested_matches requested c = true /\
    pop_matching requested q = (Some (c, st), mkWaitQueue (delete i (exited q))).
Proof.
  unfold pop_matching. destruct (position _ _) as [i|] eqn:Hp; [|by left]. right.
  apply position_Some in Hp as ([c st] & Hi & Hm). exists i, c, st. by rewrite Hi.
Qed.

(** A call of [wait4] that finds nothing leaves the table as it was. *)
Lemma wait4_none pid requested t t1 : wait4 pid requested t = (None, t1) ->
  records t1 = records t /\ next_pid t1 = next_pid t /\ same_queues t t1.
Proof.
  unfold wait4. destruct (wait_queues t !! pid) as [q|] eqn:Hq.
  - destruct (pop_matching_cases requested q) as [->|(i & c & st & _ & _ & ->)]; [|done].
    intros [= <-]. split; [done|]. split; [done|]. cbn [wait_queues set_wait_queues].
    split; intros p x; cbn [wait_queues set_wait_queues].
    + intros Hx. destruct (decide (p = pid)) as [->|Hp]; [rewrite lookup_insert_eq; congruence|].
      by rewrite lookup_insert_ne.
    + intros [[<- <-]|[_ Hx]]%lookup_insert_Some; by left.
  - intros [= <-]. split; [done|]. split; [done|]. by split; [|left].
Qed.

(** A call that reaps a child takes its entry and its record away. *)
Lemma wait4_some pid requested t c st t1 : records t !! pid = None ->
  wait4 pid requested t = (Some (c, st), t1) ->
  exists q i, wait_queues t !! pid = Some q /\ exited q !! i = Some (c, st) /\
    next_pid t1 = next_pid t /\
    wait_queues t1 = delete c (<[pid := mkWaitQueue (delete i (exited q))]> (wait_queues t)) /\
    (forall x, records t1 !! x = if decide (x = c) then None else records t !! x).
Proof.
  intros Hself. unfold wait4. destruct (wait_queues t !! pid) as [q|] eqn:Hq; [|done].
  destruct (pop_matching_cases requested q) as [->|(i & c' & st' & Hi & _ & ->)]; [done|].
  intros [= -> -> <-]. exists q, i. do 4 (split; [done|]). intros x.
  cbn [records set_records set_wait_queues]. destruct (decide (x = pid)) as [->|Hx].
  - rewrite lookup_alter_eq. destruct (decide (pid = c)) as [<-|Hc].
    + by rewrite lookup_delete_eq.
    + by rewrite lookup_delete_ne, Hself by done.
  - rewrite lookup_alter_ne by done. destruct (decide (x = c)) as [->|Hc].
    + by rewrite lookup_delete_eq.
    + by rewrite lookup_delete_ne.
Qed.

Lemma NoDup_delete_fst (l : list (Z * ExitStatus)) i c st x st' : NoDup l.*1 ->
  l !! i = Some (c, st) -> (x, st') ∈ delete i l -> x <> c /\ (x, st') ∈ l.
Proof.
  intros Hnd Hi Hin. rewrite delete_take_drop in Hin.
  pose proof (take_drop_middle l i (c, st) Hi) as El.
  assert ((x, st') ∈ l) as Hl.
  { rewrite <- El. apply elem_of_app in Hin as [|]; apply elem_of_app; [by left|right; by right]. }
  split; [|done]. intros ->. rewrite <- El, fmap_app, fmap_cons in Hnd.
  apply NoDup_app in Hnd as (_ & Hd & [Hn _]%NoDup_cons).
  apply elem_of_app in Hin as [Hin|Hin].
  - apply (Hd c); [|by left]. apply list_elem_of_fmap. by exists (c, st').
  - apply Hn. apply list_elem_of_fmap. by exists (c, st').
Qed.

Lemma NoDup_delete_sub (l : list (Z * ExitStatus)) i : NoDup l.*1 -> NoDup (delete i l).*1.
Proof.
  intros Hnd. rewrite list_fmap_delete. eapply sublist_NoDup; [done|]. apply sublist_delete.
Qed.

(** An entry of a queue other than the one taken is still there. *)
Lemma delete_keeps (l : list (Z * ExitStatus)) i c st x st' : l !! i = Some (c, st) ->
  x <> c -> (x, st') ∈ l -> (x, st') ∈ delete i l.
Proof.
  intros Hi Hx Hin. rewrite delete_take_drop. rewrite <- (take_drop_middle l i (c, st) Hi) in Hin.
  apply elem_of_app in Hin as [Hin|[Hin|Hin]%elem_of_cons]; apply elem_of_app; [by left| |by right].
  congruence.
Qed.

Lemma hinv_reap_step ev t pid r r' requested c st t1 : hinv ev t -> runs t pid r ->
  continues_as r r' -> wait4 pid requested (without pid t) = (Some (c, st), t1) ->
  hinv (ev ++ [EvReap pid c st]) (insert_record pid r' t1).
Proof.
  intros Hi Hr [Hcp Hcpar Hcst] Hw4. pose proof (runs_alive ev t pid r Hi Hr) as Halive.
  pose proof (runs_record _ _ _ Hr) as Hrec.
  destruct (h_id ev t Hi pid r Hrec) as (Hpid & Hlt & Hplt).
  apply wait4_some in Hw4 as (q & i & Hq & Hqi & Hn & Hw & Hrs); [|apply without_self].
  change (wait_queues (without pid t)) with (wait_queues t) in *.
  change (next_pid (without pid t)) with (next_pid t) in *.
  destruct (h_queue ev t Hi pid q c st Hq) as (rc & Hrc & Hrcp & Hrcs);
    [by eapply list_elem_of_lookup_2|].
  assert (c <> pid) as Hcne by (intros ->; congruence).
  set (T := insert_record pid r' t1).
  assert (records T !! pid = Some r') as Hself by apply lookup_insert_eq.
  assert (records T !! c = None) as Hgone.
  { cbn [T records insert_record set_records]. rewrite lookup_insert_ne, Hrs by done.
    by rewrite decide_True. }
  assert (forall x, x <> pid -> x <> c -> records T !! x = records t !! x) as Hsame.
  { intros x Hx Hxc. cbn [T records insert_record set_records].
    rewrite lookup_insert_ne, Hrs by done. rewrite decide_False by done. by apply without_lookup. }
  assert (forall x y, records T !! x = Some y -> (x = pid /\ y = r') \/
    (x <> pid /\ x <> c /\ records t !! x = Some y)) as Hback.
  { intros x y Hx. destruct (decide (x = pid)) as [->|Hxp]; [left; split; congruence|].
    destruct (decide (x = c)) as [->|Hxc]; [congruence|]. right. rewrite <- Hsame by done. done. }
  assert (next_pid T = next_pid t) as Hnt by done.
  assert (wait_queues T = delete c (<[pid := mkWaitQueue (delete i (exited q))]> (wait_queues t)))
    as Hwt by done.
  assert (forall p qq x s, wait_queues T !! p = Some qq -> (x, s) ∈ exited qq ->
    x <> c /\ exists q0, wait_queues t !! p = Some q0 /\ (x, s) ∈ exited q0) as Hqback.
  { intros p qq x s. rewrite Hwt.
    intros [_ [[<- <-]|[Hp Hqq]]%lookup_insert_Some]%lookup_delete_Some Hin.
    - destruct (NoDup_delete_fst _ _ _ _ _ _ (h_nodup ev t Hi pid q Hq) Hqi Hin) as [? ?]. eauto.
    - split; [|eauto]. intros ->.
      destruct (h_queue ev t Hi p qq c s Hqq Hin) as (y & Hy & Hyp & _). congruence. }
  assert (reaped (ev ++ [EvReap pid c st]) = reaped ev ++ [c]) as Hre by apply reaped_app.
  clearbody T. destruct (h_reaped ev t Hi) as [Hnd Hrp]. split.
  - intros x y [[-> ->]|(Hx & _ & Hy)]%Hback; rewrite Hnt; [|by apply (h_id ev t Hi)].
    rewrite Hcp, Hcpar. done.
  - intros x y s [[-> ->]|(Hx & _ & Hy)]%Hback Hs; [congruence|]. by apply (h_rest ev t Hi x y s).
  - intros p qq x s Hqq Hin. destruct (Hqback p qq x s Hqq Hin) as (Hxc & q0 & Hq0 & Hin0).
    destruct (h_queue ev t Hi p q0 x s Hq0 Hin0) as (y & Hy & Hyp & Hys).
    exists y. split; [|done]. rewrite Hsame; [done| |done]. intros ->. congruence.
  - intros p qq. rewrite Hwt.
    intros [_ [[<- <-]|[Hp Hqq]]%lookup_insert_Some]%lookup_delete_Some;
      [|by apply (h_nodup ev t Hi p)].
    by apply NoDup_delete_sub, (h_nodup ev t Hi pid).
  - intros x par code. rewrite Hre, Hnt. intros [Hin|Hin%list_elem_of_singleton]%elem_of_app; [|done].
    destruct (h_exit ev t Hi x par code Hin) as [Hx [Hr1|(y & Hy & Hyp & Hys)]]; (split; [done|]).
    + left. apply elem_of_app. by left.
    + destruct (decide (x = c)) as [->|Hxc].
      * left. apply elem_of_app. right. by apply list_elem_of_singleton.
      * right. exists y. split; [|done]. rewrite Hsame; [done| |done]. intros ->. congruence.
  - intros x y s [[-> ->]|(Hx & _ & Hy)]%Hback Hs; [congruence|].
    apply elem_of_app. left. by apply (h_status ev t Hi x).
  - rewrite Hre, Hnt. split.
    + apply NoDup_app. split; [done|]. split; [|apply NoDup_singleton].
      intros x Hx ->%list_elem_of_singleton. destruct (Hrp c Hx). congruence.
    + intros x [Hx|Hx%list_elem_of_singleton]%elem_of_app.
      * destruct (Hrp x Hx) as [Hnone ?]. split; [|done].
        destruct (records T !! x) as [y|] eqn:Hy; [|done].
        destruct (Hback x y Hy) as [[-> _]|(_ & _ & ?)]; congruence.
      * subst x. split; [done|]. by destruct (h_id ev t Hi c rc Hrc) as (_ & ? & _).
  - intros p x s [Hin|Hin%list_elem_of_singleton]%elem_of_app; apply elem_of_app; left.
    + by apply (h_reap ev t Hi).
    + injection Hin as -> -> ->. rewrite <- Hrcp. by apply (h_status ev t Hi c).
  - intros x y p s [[-> ->]|(Hx & Hxc & Hy)]%Hback Hp Hs [z Hz]; [congruence|].
    assert (p <> c) as Hpc by (intros ->; congruence).
    assert (is_Some (records t !! p)) as Hpt.
    { destruct (Hback p z Hz) as [[-> _]|(_ & _ & ?)]; eauto. }
    destruct (h_kept ev t Hi x y p s Hy Hp Hs Hpt) as (q0 & Hq0 & Hin). rewrite Hwt.
    destruct (decide (p = pid)) as [->|Hpp].
    + eexists. rewrite lookup_delete_ne, lookup_insert_eq by done. split; [done|].
      cbn [exited]. eapply delete_keeps; [done..|]. congruence.
    + exists q0. by rewrite lookup_delete_ne, lookup_insert_ne by done.
Qed.

Lemma hinv_step ev t e t' : hinv ev t -> tstep t e t' -> hinv (ev ++ e) t'.
Proof.
  intros Hi Hs. destruct Hs as [t pid r r' Hr Hc|t pid r r' m regs sh child t1 sh' Hr Hc Hf
    |t pid r r' code Hr Hc|t pid r r' req o t1 Hr Hc Hw].
  - rewrite app_nil_r. eapply (hinv_keep ev t pid r _ r' Hi Hr); try done.
    + intros q Hq. cbn [records insert_record set_records].
      rewrite lookup_insert_ne, without_lookup by done.
      destruct (records t !! q); constructor. apply similar_refl.
    + apply lookup_insert_eq.
    + by split; [|left].
  - rewrite app_nil_r. by eapply hinv_fork_step.
  - by apply hinv_exit_step.
  - destruct o as [[c st]|]; cbn [reap_event]; [by eapply hinv_reap_step|].
    rewrite app_nil_r. apply wait4_none in Hw as (Hrs & Hn & Hq).
    eapply (hinv_keep ev t pid r _ r' Hi Hr); try done.
    + intros q Hqq. cbn [records insert_record set_records].
      rewrite lookup_insert_ne, Hrs, without_lookup by done.
      destruct (records t !! q); constructor. apply similar_refl.
    + apply lookup_insert_eq.
Qed.

(** The table with the first process. *)
Lemma hinv_initial p m regs pid t : insert_initial p m regs table_new = Ok (pid, t) -> hinv [] t.
Proof.
  unfold insert_initial, add_u32. destruct (p_pid p + 1 <? 2 ^ 32); [|done].
  intros [= <- <-]. set (rec := new_record p m regs (p_pid p) None).
  assert (forall q x, records (ensure_queue (p_pid p) (set_records (<[p_pid p := rec]>)
    (mkProcessTable ∅ ∅ (Z.max 1000 (p_pid p + 1))))) !! q = Some x -> q = p_pid p /\ x = rec) as Hback.
  { cbn [records ensure_queue set_records set_wait_queues]. intros q x.
    intros [[<- <-]|[_ Hx]]%lookup_insert_Some; [done|by rewrite lookup_empty in Hx]. }
  split.
  - intros q x [-> ->]%Hback. split; [done|]. split; [simpl; lia|done].
  - by intros q x st [-> ->]%Hback.
  - intros q x c st. cbn [wait_queues ensure_queue set_wait_queues set_records].
    intros [[_ <-]|[_ Hx]]%lookup_insert_Some; [|by rewrite lookup_empty in Hx].
    intros Hin. by apply elem_of_nil in Hin.
  - intros q x. cbn [wait_queues ensure_queue set_wait_queues set_records].
    intros [[_ <-]|[_ Hx]]%lookup_insert_Some; [apply NoDup_nil_2|by rewrite lookup_empty in Hx].
  - intros q par code Hin. by apply elem_of_nil in Hin.
  - by intros q x st [-> ->]%Hback.
  - split; [apply NoDup_nil_2|]. intros c Hc. by apply elem_of_nil in Hc.
  - intros q c st Hin. by apply elem_of_nil in Hin.
  - by intros c x q st [-> ->]%Hback.
Qed.

(** C15: an exit status reaches the parent, once.  In every run of forks, exits,
    waits and other steps from the first process on, a child is reaped at most
    once, only by its parent, and with the code it exited with; and as long as
    the parent exists, the status of an exited child that has not been reaped is
    in the parent's queue. *)
Theorem exit_status_delivered_once p m regs pid t0 ev t :
  insert_initial p m regs table_new = Ok (pid, t0) -> history t0 ev t ->
  NoDup (reaped ev) /\
  (forall q c st, EvReap q c st ∈ ev -> EvExit c (Some q) (exit_code st) ∈ ev) /\
  (forall c q code, EvExit c (Some q) code ∈ ev -> c ∉ reaped ev -> is_Some (records t !! q) ->
     exists w, wait_queues t !! q = Some w /\ (c, mkExitStatus code) ∈ exited w).
Proof.
  intros H0 Hh. assert (hinv ev t) as Hi.
  { apply hinv_initial in H0. induction Hh as [|ev t e t' _ IH Hs]; [done|].
    by eapply hinv_step. }
  split; [apply Hi|]. split; [by apply (h_reap ev t Hi)|]. intros c q code Hin Hnr Hq.
  destruct (h_exit ev t Hi c (Some q) code Hin) as [_ [?|(r & Hr & Hp & Hs)]]; [done|].
  by apply (h_kept ev t Hi c r).
Qed.
End Wait.

(** ** Witnesses *)

Section Witnesses.
#[local] Existing Instance example_host.

Definition w_shared : Shared := mkShared empty_world [].
Definition w_process : LinuxProcess := process_new None empty_world.

Definition w_table : ProcessTable :=
  match insert_initial w_process Memory.new default_registers table_new with
  | Ok (_, t) => t
  | _ => table_new
  end.

Definition w_record : ProcessRecord :=
  new_record w_process Memory.new default_registers 1000 None.

Lemma w_table_eq : insert_initial w_process Memory.new default_registers table_new = Ok (1000, w_table).
Proof. reflexivity. Qed.

Lemma lookup_default {A} (m : gmap Z A) k d : is_none (m !! k) = false ->
  m !! k = Some (default d (m !! k)).
Proof. by destruct (m !! k). Qed.

(** Fork: process 1001. *)
Definition w_fork := fork_from_process w_process Memory.new default_registers
  (without 1000 w_table, w_shared).
Definition w_forked : ProcessTable := insert_record 1000 w_record w_fork.2.1.

Lemma w_fork_eq : w_fork = (Ok 1001, (w_fork.2.1, w_fork.2.2)).
Proof.
  assert (w_fork.1 = Ok 1001) as E by (vm_compute; reflexivity). rewrite <- E.
  by destruct w_fork as [? []].
Qed.

Lemma scheduler_fair_witness : exists k, (k <= 1)%nat /\
  schedule [mkRound w_forked []; mkRound w_forked [(7, 7)]]
    (mkScheduler [(1000, 1000); (1001, 1001)]) !! k = Some (Some (1001, 1001)).
Proof.
  destruct (scheduler_fair [mkRound w_forked []; mkRound w_forked [(7, 7)]]
    (mkScheduler [(1000, 1000); (1001, 1001)]) 1 (1001, 1001)) as (k & Hk & Hs & _).
  - reflexivity.
  - simpl. lia.
  - repeat (constructor; [vm_compute; reflexivity|]). constructor.
  - exists k. split; [exact Hk|exact Hs].
Defined.

Lemma fork_result_witness : records (without 1000 w_table) !! 1001 = None /\
  thread_runnable w_fork.2.1 (1001, 1001) = true.
Proof.
  destruct (fork_result w_process Memory.new default_registers (without 1000 w_table) w_shared
    (Ok 1001) w_fork.2.1 w_fork.2.2) as (_ & Hn & _ & Ht & _).
  - split; constructor.
  - vm_compute. reflexivity.
  - exact w_fork_eq.
  - split; [exact Hn|exact Ht].
Defined.

(** The child exits with 7, the parent waits. *)
Definition w_child : ProcessRecord := default w_record (records w_forked !! 1001).
Definition w_exited : ProcessTable := insert_record 1001 (mark_exited 7 w_child)
  (record_exit 1001 (pr_parent w_child) 7 (exit_process 1001 7 (without 1001 w_forked))).
Definition w_parent : ProcessRecord := default w_record (records w_exited !! 1000).
Definition w_wait := wait4 1000 None (without 1000 w_exited).
Definition w_reaped : ProcessTable := insert_record 1000 w_parent w_wait.2.

Lemma w_runs t pid d : is_none (records t !! pid) = false ->
  bool_decide (pr_state (default d (records t !! pid)) = Runnable) = true ->
  thread_runnable t (pid, pid) = true -> runs t pid (default d (records t !! pid)).
Proof.
  intros H1 H2 H3. split; [by apply lookup_default|by apply bool_decide_eq_true in H2|by exists pid].
Qed.

Lemma w_history : history w_table
  ((([] ++ []) ++ [EvExit 1001 (pr_parent w_child) 7]) ++ reap_event 1000 w_wait.1) w_reaped.
Proof.
  eapply hist_step; [eapply hist_step; [eapply hist_step; [constructor|]|]|].
  - apply (ts_fork w_table 1000 w_record w_record Memory.new default_registers w_shared 1001
      w_fork.2.1 w_fork.2.2); [|by split|exact w_fork_eq].
    split; [reflexivity|reflexivity|]. exists 1000. vm_compute. reflexivity.
  - apply (ts_exit w_forked 1001 w_child w_child 7); [|by split].
    apply w_runs; vm_compute; reflexivity.
  - apply (ts_wait w_exited 1000 w_parent w_parent None w_wait.1 w_wait.2);
      [|by split|unfold w_wait; by destruct (wait4 _ _ _)].
    apply w_runs; vm_compute; reflexivity.
Qed.

Lemma exit_status_delivered_once_witness :
  reap_event 1000 w_wait.1 = [EvReap 1000 1001 (mkExitStatus 7)] /\
  EvExit 1001 (Some 1000) 7 ∈
    (([] ++ []) ++ [EvExit 1001 (pr_parent w_child) 7]) ++ reap_event 1000 w_wait.1.
Proof.
  assert (reap_event 1000 w_wait.1 = [EvReap 1000 1001 (mkExitStatus 7)]) as E
    by (vm_compute; reflexivity).
  split; [exact E|].
  destruct (exit_status_delivered_once w_process Memory.new default_registers 1000 w_table _ _
    w_table_eq w_history) as (_ & Hr & _).
  apply (Hr 1000 1001 (mkExitStatus 7)). rewrite E. apply elem_of_app. right. by left.
Defined.
End Witnesses.
