(* ===== verification/FdInv.v ===== *)
(** * Invariants of the descriptors

    Triples that state two things of a method at once: the invariant it keeps
    on every exit, and that it does not panic under a condition [P].  The
    invariant of the descriptor table and of the pipe buffers, and the triples
    of all operations on descriptors. *)

From Stdlib Require Import String Ascii.
From S2P Require Import Prelude Memory Elf HostPath Host Fs LinuxAbi Fd Process Syscalls FdProps.

Open Scope Z_scope.

Create HintDb kernel.

(** ** Triples *)

(** From a state in [I], [m] ends in a state in [J] on every exit, a value it
    returns satisfies [Q], and when [P] holds it does not panic. *)
Definition guarded {S E A} (P : Prop) (I J : S -> Prop) (m : ST S E A) (Q : A -> Prop) : Prop :=
  forall s, I s -> J (m s).2 /\ (forall a, (m s).1 = Ok a -> Q a) /\ (P -> (m s).1 <> Panic).

Abbreviation holds P I m Q := (guarded P I I m Q).

Section Guarded.
Context {S E : Type} (P : Prop) (I : S -> Prop).

Lemma guarded_bind {A B} (J K : S -> Prop) (m : ST S E A) (f : A -> ST S E B) Q R :
  guarded P I J m Q -> (forall a, Q a -> guarded P J K (f a) R) -> (forall s, J s -> K s) ->
  guarded P I K (m ≫= f) R.
Proof.
  intros Hm Hf Hk s Hs. unfold mbind, st_bind. destruct (Hm s Hs) as (H1 & H2 & H3).
  destruct (m s) as [[a|e|] s']; simpl in *.
  - apply (Hf a (H2 a eq_refl) s' H1).
  - split; [by apply Hk|]. split; [discriminate|done].
  - split; [by apply Hk|]. split; [discriminate|]. intros HP. by destruct (H3 HP).
Qed.

Lemma holds_bind {A B} (m : ST S E A) (f : A -> ST S E B) Q R :
  holds P I m Q -> (forall a, Q a -> holds P I (f a) R) -> holds P I (m ≫= f) R.
Proof. intros Hm Hf. by apply (guarded_bind I I _ _ Q). Qed.

Lemma guarded_weaken {A} (J : S -> Prop) (m : ST S E A) (Q R : A -> Prop) :
  guarded P I J m Q -> (forall a, Q a -> R a) -> guarded P I J m R.
Proof. intros Hm HQ s Hs. destruct (Hm s Hs) as (?&?&?). auto. Qed.

Lemma holds_ret {A} (a : A) (Q : A -> Prop) : Q a -> holds P I (mret a : ST S E A) Q.
Proof. intros HQ s Hs. split; [done|]. split; [by intros ? [= <-]|done]. Qed.

Lemma holds_raise {A} e (Q : A -> Prop) : holds P I (raise (S:=S) (E:=E) e) Q.
Proof. intros s Hs. by split. Qed.

Lemma holds_gets {A} (f : S -> A) (Q : A -> Prop) :
  (forall s, I s -> Q (f s)) -> holds P I (gets (E:=E) f) Q.
Proof. intros HQ s Hs. split; [done|]. split; [intros a [= <-]; auto|done]. Qed.

Lemma holds_modify (f : S -> S) :
  (forall s, I s -> I (f s)) -> holds P I (modify (E:=E) f) (fun _ => True).
Proof. intros Hf s Hs. split; [by apply Hf|done]. Qed.

Lemma holds_reads {A} (f : S -> res E A) (Q : A -> Prop) :
  (forall s, I s -> safe (f s) Q) -> holds P I (reads f) Q.
Proof.
  intros HQ s Hs. specialize (HQ s Hs). split; [done|]. simpl.
  destruct (f s); simpl in *; [|done..]. split; [by intros ? [= <-]|done].
Qed.

Lemma holds_lift {A} (r : res E A) (Q : A -> Prop) : safe r Q -> holds P I (lift r) Q.
Proof. intros HQ. by apply holds_reads. Qed.

(** A value computed by an operator that may overflow outside [P]. *)
Lemma holds_lift_if {A} (r : res E A) (Q : A -> Prop) :
  (forall a, r = Ok a -> Q a) -> (P -> r <> Panic) -> holds P I (lift r) Q.
Proof. by intros HQ Hp s Hs. Qed.

Lemma holds_reads_if {A} (f : S -> res E A) (Q : A -> Prop) :
  (forall s a, I s -> f s = Ok a -> Q a) -> (forall s, I s -> P -> f s <> Panic) ->
  holds P I (reads f) Q.
Proof. intros HQ Hp s Hs. split; [done|]. split; [intros a; by apply HQ|by apply Hp]. Qed.

Lemma holds_add64 a b : (P -> a + b < 2 ^ 64) ->
  holds P I (lift (add64 a b) : ST S E Z) (fun r => r = a + b /\ a + b < 2 ^ 64).
Proof.
  intros Hp. apply holds_lift_if; [intros r; apply add64_Ok|]. intros HP.
  by rewrite (proj2 (add64_Ok a b (a + b))) by auto.
Qed.

Lemma holds_slice {A} (l : list A) i j : (P -> 0 <= i <= j /\ j <= len l) ->
  holds P I (lift (slice l i j) : ST S E (list A))
    (fun k => 0 <= i <= j /\ j <= len l /\ len k = j - i /\ forall R, Forall R l -> Forall R k).
Proof.
  intros Hp. apply holds_lift_if.
  - intros k Hk. pose proof (slice_len _ _ _ _ Hk).
    assert (forall R, Forall R l -> Forall R k) by (intros R; by eapply slice_Forall).
    apply slice_Ok in Hk as (?&?&_). auto.
  - intros HP. destruct (Hp HP). by eapply safe_no_panic, safe_slice.
Qed.

Lemma holds_capacity n : (P -> n < 2 ^ 63) -> holds P I (lift (capacity n) : ST S E unit) (fun _ => True).
Proof.
  intros Hp. apply holds_lift_if; [done|]. intros HP. unfold capacity.
  destruct (Z.ltb_spec n (2 ^ 63)); [done|]. specialize (Hp HP). lia.
Qed.
End Guarded.

Lemma guarded_zoom {S T E E' A} (P : Prop) (I J : S -> Prop) (IT JT : T -> Prop)
    (get : S -> T) set (conv : E' -> E) (m : ST T E' A) Q :
  guarded P IT JT m Q -> (forall s, I s -> IT (get s)) ->
  (forall s t, I s -> JT t -> J (set t s)) -> guarded P I J (zoom get set conv m) Q.
Proof.
  intros Hm Hg Hset s Hs. unfold zoom. destruct (Hm (get s) (Hg s Hs)) as (H1 & H2 & H3).
  destruct (m (get s)) as [r t]; simpl in *. split; [auto|].
  destruct r; simpl; [split; [intros ? [= <-]; auto|done]|done|].
  split; [done|]. intros HP. by destruct (H3 HP).
Qed.

(** ** Texts keep their bytes in range *)

Lemma replacement_u8 : Forall u8 REPLACEMENT.
Proof. repeat constructor; unfold fits; lia. Qed.

(** The lossy texts of a name, by induction on its length. *)
Ltac lossy_text f IH :=
  repeat case_match; subst;
    repeat match goal with H : Forall _ (_ :: _) |- _ => apply Forall_cons in H as [? H] end;
    try match goal with |- context [f ?r] =>
      destruct (IH r) as [Hu Hlen]; [cbn [length] in *; lia|by rewrite ?Forall_cons|] end;
    (split; [rewrite ?Forall_app, ?Forall_cons; auto|]);
    rewrite ?length_app in *; cbn [length] in *; lia.

Lemma from_utf8_lossy_upto n l : (length l <= n)%nat -> Forall u8 l ->
  Forall u8 (from_utf8_lossy l) /\ len (from_utf8_lossy l) <= 3 * len l.
Proof.
  unfold len. revert l. induction n as [|n IH]; intros l Hn Hl.
  { destruct l; simpl in *; [done|lia]. }
  pose proof replacement_u8 as Hr. destruct l as [|b0 bs1]; [done|]. cbn [from_utf8_lossy].
  assert (length REPLACEMENT = 3%nat) as Hr3 by done. lossy_text from_utf8_lossy IH.
Qed.

Lemma wtf8_lossy_upto n l : (length l <= n)%nat -> Forall u8 l ->
  Forall u8 (wtf8_lossy l) /\ len (wtf8_lossy l) <= 3 * len l.
Proof.
  unfold len. revert l. induction n as [|n IH]; intros l Hn Hl.
  { destruct l; simpl in *; [done|lia]. }
  pose proof replacement_u8 as Hr. destruct l as [|b0 bs1]; [done|]. cbn [wtf8_lossy].
  assert (length REPLACEMENT = 3%nat) as Hr3 by done. lossy_text wtf8_lossy IH.
Qed.

Lemma to_string_lossy_ok `{Host} l : Forall u8 l ->
  Forall u8 (to_string_lossy l) /\ len (to_string_lossy l) <= 3 * len l.
Proof.
  intros Hl. unfold to_string_lossy.
  destruct platform; [by apply (wtf8_lossy_upto (length l))|by apply (from_utf8_lossy_upto (length l))].
Qed.

Lemma text_u8 s : Forall u8 (text s).
Proof.
  unfold text. apply Forall_fmap, Forall_forall. intros a _. unfold fits. simpl.
  pose proof (N_ascii_bounded a). lia.
Qed.

Lemma xorshift_u8 n seed : Forall u8 (xorshift n seed).
Proof.
  revert seed. induction n as [|n IH]; intros seed; simpl; constructor; auto.
  by apply wrap_fits.
Qed.

Lemma length_xorshift n seed : length (xorshift n seed) = n.
Proof. revert seed. induction n as [|n IH]; intros seed; simpl; auto. Qed.

(** ** The invariant of the descriptors *)

Section FdInv.
Context `{LAWS : HostLaws}.
Abbreviation FdM := (ST FdState SyscallError).

(** The longest name a directory lists: each byte of an entry's name may become
    a replacement character. *)
Definition dirent_ok (e : DirectoryEntry) : Prop :=
  Forall u8 (den_name e) /\ len (den_name e) <= 3 * NAME_MAX /\ u8 (den_kind e).

(** An entry of a table that shares [nb] pipe buffers. *)
Definition entry_ok (nb : nat) (e : FdEntry) : Prop :=
  match e with
  | Stdin | Stdout | Stderr | EFile _ => True
  | EDirectory d => Forall dirent_ok (dir_entries d)
  | EVirtual v =>
      Forall u8 (vf_data v) /\ 0 <= vf_cursor v <= len (vf_data v) /\ len (vf_data v) < 2 ^ 64
  | PipeRead b | PipeWrite b | EBuffer b => (b < nb)%nat
  end.

(** Descriptors lie between 0 and [next_fd], and their entries are in order. *)
Record table_ok (nb : nat) (t : FdTable) : Prop := {
  table_next : 0 <= next_fd t < 2 ^ 31;
  table_entries : forall fd slot, entries t !! fd = Some slot ->
    0 <= fd < next_fd t /\ entry_ok nb (entry slot)
}.

Context (P : Prop).

(** The state of a method: at least [nb] buffers of bytes, descriptors below
    [lo] were given out; under [P], [n] more descriptors can be opened. *)
Record fd_inv (nb : nat) (lo n : Z) (s : FdState) : Prop := {
  fdi_buffers : (nb <= length (buffers (shared s)))%nat;
  fdi_bytes : Forall (Forall u8) (buffers (shared s));
  fdi_table : table_ok (length (buffers (shared s))) (table s);
  fdi_low : lo <= next_fd (table s);
  fdi_room : P -> next_fd (table s) + n < 2 ^ 31
}.

Lemma entry_ok_more nb nb' e : (nb <= nb')%nat -> entry_ok nb e -> entry_ok nb' e.
Proof. destruct e; simpl; auto; lia. Qed.

Lemma table_ok_more nb nb' t : (nb <= nb')%nat -> table_ok nb t -> table_ok nb' t.
Proof.
  intros Hn [H1 H2]. split; [done|]. intros fd slot Hs. destruct (H2 fd slot Hs).
  split; [done|]. by eapply entry_ok_more.
Qed.

Lemma fd_new_ok nb : table_ok nb fd_new.
Proof.
  split; [simpl; lia|]. intros fd slot. unfold fd_new. cbn [entries next_fd].
  rewrite !lookup_insert_Some, lookup_singleton_Some.
  intros [[<- <-]|[_ [[<- <-]|[_ [<- <-]]]]]; (split; [lia|exact Logic.I]).
Qed.

Lemma fd_inv_less nb lo n n' s : n' <= n -> fd_inv nb lo n s -> fd_inv nb lo n' s.
Proof. intros Hn []. split; auto. intros HP. specialize (fdi_room0 HP). lia. Qed.

(** ** Primitives *)

Lemma behaves_on_host {A} (m : ST World IoErrorKind A) Q : behaves m Q -> behaves (on_host m) Q.
Proof.
  intros Hm w. specialize (Hm w). unfold on_host, zoom. destruct (m w) as [r w']; simpl in *.
  by apply safe_map_err.
Qed.

Lemma holds_behaves {A} (m : ST World SyscallError A) Q : behaves m Q ->
  holds P (fun _ => True) m Q.
Proof.
  intros Hm w _. specialize (Hm w). split; [done|]. destruct (m w).1; simpl in *; [|done..].
  split; [by intros ? [= <-]|done].
Qed.

Section Ops.
Context (nb : nat) (lo n : Z).
Abbreviation I := (fd_inv nb lo n).

Lemma holds_on_world {A} (m : ST World SyscallError A) Q :
  holds P (fun _ => True) m Q -> holds P I (on_world m) Q.
Proof. intros Hm. eapply guarded_zoom; [exact Hm|done|]. intros s w [] _. by split. Qed.

(** A call of the host. *)
Lemma holds_on_host {A} (m : ST World IoErrorKind A) Q : behaves m Q ->
  holds P I (on_world (on_host m)) Q.
Proof. intros. by apply holds_on_world, holds_behaves, behaves_on_host. Qed.

(** The entry of a descriptor satisfies the invariant in the state it is read
    from; buffers never go away, so it does in what follows. *)
Lemma guarded_slot_at {A} fd n' (f : FdSlot -> FdM A) Q : n' <= n ->
  (forall nb' lo' slot, (nb <= nb')%nat -> lo <= lo' -> 0 <= fd < lo' -> fd < 2 ^ 31 ->
     entry_ok nb' (entry slot) ->
     guarded P (fd_inv nb' lo' n) (fd_inv nb' lo' n') (f slot) Q) ->
  guarded P I (fd_inv nb lo n') (slot_at fd ≫= f) Q.
Proof.
  intros Hn Hf s Hs. pose proof Hs as [Hb Hy [Hx Ht] Hl Hr].
  unfold slot_at, mbind, st_bind, reads. destruct (entries (table s) !! fd) as [slot|] eqn:He.
  - destruct (Ht fd slot He) as [Hfd Hok].
    destruct (Hf (length (buffers (shared s))) (next_fd (table s)) slot Hb Hl Hfd
                ltac:(lia) Hok s) as (H1 & H2 & H3).
    { by destruct Hs. }
    simpl. split; [|done]. destruct H1. split; auto; lia.
  - simpl. split; [by eapply fd_inv_less|done].
Qed.

Lemma holds_insert_entry fd slot : 0 <= fd < lo -> entry_ok nb (entry slot) ->
  holds P I (set_entries (<[fd := slot]>)) (fun _ => True).
Proof.
  intros Hfd He. apply holds_modify. intros s [Hb Hy [Hx Ht] Hl Hr].
  split; simpl; auto. split; simpl; [done|]. intros fd' slot'.
  rewrite lookup_insert_Some. intros [[<- <-]|[_ Hs]]; [|by apply Ht].
  split; [lia|]. by eapply entry_ok_more.
Qed.

Lemma holds_set_entry fd slot e : 0 <= fd < lo -> entry_ok nb e ->
  holds P I (set_entry fd slot e) (fun _ => True).
Proof. intros. by apply holds_insert_entry. Qed.

Lemma holds_delete_entry fd : holds P I (set_entries (delete fd)) (fun _ => True).
Proof.
  apply holds_modify. intros s [Hb Hy [Hx Ht] Hl Hr]. split; simpl; auto.
  split; simpl; [done|]. intros fd' slot'. rewrite lookup_delete_Some. intros [_ ?]. auto.
Qed.

Lemma holds_set_slot fd slot : 0 <= fd -> entry_ok nb (entry slot) ->
  (P -> fd + 1 + n < 2 ^ 31) -> 0 <= n -> holds P I (set_slot fd slot) (fun _ => True).
Proof.
  intros Hfd He Hr Hn. unfold set_slot, add_i32. eapply holds_bind.
  - apply holds_lift_if with (Q := fun r => r = fd + 1 /\ fd + 1 < 2 ^ 31).
    + intros a. destruct (Z.ltb_spec (fd + 1) (2 ^ 31)); [by intros [= <-]|done].
    + intros HP. specialize (Hr HP). destruct (Z.ltb_spec (fd + 1) (2 ^ 31)); [done|lia].
  - intros a [-> Ha]. apply holds_modify. intros s [Hb Hy [Hx Ht] Hl Hr'].
    split; simpl; auto; [|lia|]; [|intros HP; specialize (Hr HP); specialize (Hr' HP); lia].
    split; simpl; [lia|]. intros fd' slot'.
    rewrite lookup_insert_Some. intros [[<- <-]|[_ Hs]].
    + split; [lia|]. by eapply entry_ok_more.
    + destruct (Ht fd' slot' Hs). split; [lia|done].
Qed.

(** A free descriptor from [min] on. *)
Lemma holds_next_available min : (P -> min + n < 2 ^ 31) -> 0 <= n ->
  holds P I (reads (fun s => next_available_from (table s) min))
    (fun x => 0 <= x /\ (P -> x + n < 2 ^ 31)).
Proof.
  intros Hmin Hn.
  assert (forall s, I s -> all_used (entries (table s)) (Z.max min 0)
    (Z.max (Z.max min 0) (next_fd (table s)) + 1) -> False) as Hfree.
  { intros s [_ _ [Hx Ht] _ _] Hu.
    destruct (Hu (Z.max (Z.max min 0) (next_fd (table s)))) as [slot Hs]; [lia|].
    destruct (Ht _ _ Hs). lia. }
  apply holds_reads_if.
  - intros s a Hs Ha.
    destruct (next_available_from_spec (table s) min) as [(x & Hx & Hlo & _ & Hu & _)|[Hx _]];
      [|congruence]. assert (a = x) as -> by congruence. split; [lia|]. intros HP.
    pose proof (fdi_room _ _ _ _ Hs HP). pose proof (table_next _ _ (fdi_table _ _ _ _ Hs)).
    specialize (Hmin HP).
    destruct (Z.leb_spec x (Z.max (Z.max min 0) (next_fd (table s)))); [lia|].
    exfalso. apply (Hfree s Hs). intros y Hy. apply Hu. lia.
  - intros s Hs HP Hpanic.
    destruct (next_available_from_spec (table s) min) as [(x & Hx & _)|[_ Hu]]; [congruence|].
    pose proof (fdi_room _ _ _ _ Hs HP). pose proof (table_next _ _ (fdi_table _ _ _ _ Hs)).
    specialize (Hmin HP).
    apply (Hfree s Hs). intros y Hy. apply Hu. lia.
Qed.

Lemma holds_entry_duplicate e : entry_ok nb e -> holds P I (entry_duplicate e) (entry_ok nb).
Proof.
  intros He. destruct e; simpl; try by apply holds_ret.
  eapply holds_bind; [apply holds_on_host, file_try_clone_ok|]. intros f _. by apply holds_ret.
Qed.

Lemma holds_slot_duplicate s : entry_ok nb (entry s) ->
  holds P I (slot_duplicate s) (fun s => entry_ok nb (entry s)).
Proof.
  intros He. eapply holds_bind; [by apply holds_entry_duplicate|]. intros e Hok.
  by apply holds_ret.
Qed.

Lemma holds_duplicate_slots l acc k :
  Forall (fun p => 0 <= p.1 < k /\ entry_ok nb (entry p.2)) l ->
  (forall fd slot, acc !! fd = Some slot -> 0 <= fd < k /\ entry_ok nb (entry slot)) ->
  holds P I (duplicate_slots l acc)
    (fun es => forall fd slot, es !! fd = Some slot -> 0 <= fd < k /\ entry_ok nb (entry slot)).
Proof.
  revert acc. induction l as [|[fd slot] l IH]; intros acc Hl Hacc; simpl; [by apply holds_ret|].
  apply Forall_cons in Hl as [[Hfd He] Hl].
  eapply holds_bind; [by apply holds_entry_duplicate|]. intros e Hok. apply IH; [done|].
  intros fd' slot'. rewrite lookup_insert_Some. intros [[<- <-]|[_ ?]]; auto.
Qed.
End Ops.

(** ** Operations on descriptors *)

Section Descriptors.
Context (nb : nat) (lo n : Z).
Abbreviation I n := (fd_inv nb lo n).

(** A new slot takes the next descriptor: those below are the ones in use. *)
Lemma guarded_insert_slot slot : 0 <= n -> entry_ok nb (entry slot) ->
  guarded P (I (n + 1)) (I n) (insert_slot slot) (fun fd => 0 <= fd < 2 ^ 31).
Proof.
  intros Hn He s Hs. pose proof Hs as [Hb Hy [Hx Ht] Hl Hr].
  destruct (next_available_from_spec (table s) (next_fd (table s)))
    as [(x & Hf & Hlo & _ & Hu & _)|[_ Hu]].
  2:{ destruct (Hu (next_fd (table s))) as [slot' Hs']; [lia|].
      destruct (Ht _ _ Hs'). lia. }
  assert (x = next_fd (table s)) as ->.
  { destruct (Z.eq_dec x (next_fd (table s))); [done|]. exfalso.
    destruct (Hu (next_fd (table s))) as [slot' Hs']; [lia|]. destruct (Ht _ _ Hs'). lia. }
  unfold insert_slot, mbind, st_bind, reads. rewrite Hf. unfold add_i32.
  destruct (Z.ltb_spec (next_fd (table s) + 1) (2 ^ 31)); simpl.
  - split; [|split; [by intros a [= <-]|done]].
    split; simpl; auto; [|lia|intros HP; specialize (Hr HP); lia].
    split; simpl; [lia|]. intros fd' slot'. rewrite lookup_insert_Some.
    intros [[<- <-]|[_ Hs']]; [split; [lia|by eapply entry_ok_more]|].
    destruct (Ht _ _ Hs'). split; [lia|done].
  - split; [eapply fd_inv_less; [|exact Hs]; lia|]. split; [done|]. intros HP.
    specialize (Hr HP). lia.
Qed.

Lemma holds_close fd : 0 <= n -> holds P (I n) (close fd) (fun _ => True).
Proof.
  intros Hn. unfold close. destruct (fd <=? 2); [by apply holds_ret|].
  apply guarded_slot_at; [lia|]. intros. apply holds_delete_entry.
Qed.

Lemma guarded_duplicate old min cl : 0 <= n -> (P -> min + (n + 1) < 2 ^ 31) ->
  guarded P (I (n + 1)) (I n) (duplicate old min cl) (fun fd => 0 <= fd).
Proof.
  intros Hn Hmin. apply guarded_slot_at; [lia|]. intros nb' lo' slot _ _ _ _ He.
  eapply guarded_bind; [by apply holds_slot_duplicate| |intros s; apply fd_inv_less; lia].
  intros slot' He'. eapply guarded_bind; [apply holds_next_available; [done|lia]| |
    intros s; apply fd_inv_less; lia].
  intros x [Hx Hroom].
  eapply guarded_bind with (J := fd_inv nb' lo' n); [|intros _ _; by apply holds_ret|done].
  assert (holds P (fd_inv nb' lo' n) (set_slot x (with_close_on_exec cl slot')) (fun _ => True))
    as Hset by (apply holds_set_slot; try done; intros HP; specialize (Hroom HP); lia).
  intros s Hs. apply Hset. eapply fd_inv_less; [|exact Hs]; lia.
Qed.

Lemma holds_duplicate_to old new cl : 0 <= n -> 0 <= new -> (P -> new + 1 + n < 2 ^ 31) ->
  holds P (I n) (duplicate_to old new cl) (fun fd => 0 <= fd).
Proof.
  intros Hn Hnew Hroom. unfold duplicate_to. destruct (old =? new).
  - apply guarded_slot_at; [lia|]. intros nb' lo' slot _ _ Hlt _ He.
    apply holds_bind with (Q := fun _ => True); [|intros _ _; by apply holds_ret].
    destruct cl; [|by apply holds_ret]. by apply holds_insert_entry.
  - apply guarded_slot_at; [lia|]. intros nb' lo' slot _ _ Hlt _ He.
    eapply holds_bind; [by apply holds_slot_duplicate|]. intros slot' He'.
    eapply holds_bind; [apply holds_delete_entry|]. intros _ _.
    eapply holds_bind; [|intros _ _; by apply holds_ret]. by apply holds_set_slot.
Qed.

(** A new buffer, for the rest of a method. *)
Lemma guarded_new_buffer {A} (f : nat -> FdM A) n' Q : n' <= n ->
  (forall nb', (nb <= nb')%nat ->
     guarded P (fd_inv (S nb') lo n) (fd_inv (S nb') lo n') (f nb') Q) ->
  guarded P (I n) (I n') (new_buffer ≫= f) Q.
Proof.
  intros Hn Hf s [Hb Hy Ht Hl Hr].
  destruct (Hf (length (buffers (shared s))) Hb (new_buffer s).2) as (H1 & H2 & H3).
  { split; simpl; [rewrite length_app; simpl; lia| | |done|done].
    - rewrite Forall_app. by repeat constructor.
    - eapply table_ok_more; [|exact Ht]. rewrite length_app. lia. }
  change ((new_buffer ≫= f) s) with (f (length (buffers (shared s))) (new_buffer s).2).
  split; [|done]. destruct H1. split; auto. lia.
Qed.

End Descriptors.

Lemma guarded_pipe nb lo n cl : 0 <= n ->
  guarded P (fd_inv nb lo (n + 2)) (fd_inv nb lo n) (pipe cl) (fun fds => 0 <= fds.1 /\ 0 <= fds.2).
Proof.
  intros Hn. apply guarded_new_buffer; [lia|]. intros nb' _.
  assert (n + 2 = (n + 1) + 1) as -> by lia.
  eapply guarded_bind; [apply guarded_insert_slot; simpl; lia| |intros s; apply fd_inv_less; lia].
  intros x Hx. eapply guarded_bind; [apply guarded_insert_slot; simpl; lia| |done].
  intros y Hy. apply holds_ret. simpl in *. lia.
Qed.

(** The descriptors of a child: in order for the buffers there are. *)
Lemma guarded_duplicate_all nb lo n s : fd_inv nb lo n s ->
  guarded P (fun s' => s' = s) (fd_inv (length (buffers (shared s))) lo n) duplicate_all
    (table_ok (length (buffers (shared s)))).
Proof.
  intros [Hb Hy Ht Hl Hr] s' ->. unfold duplicate_all.
  set (nb' := length (buffers (shared s))).
  destruct (holds_duplicate_slots nb' (next_fd (table s)) n (visit (entries (table s))) ∅
              (next_fd (table s))) with (s := s) as (H1 & H2 & H3); [| |by split|].
  { apply Forall_forall. intros [fd slot] Hin%elem_of_visit. by apply Ht. }
  { intros fd slot. by rewrite lookup_empty. }
  unfold mbind, st_bind, gets.
  destruct (duplicate_slots _ ∅ s) as [[es|e|] s1]; simpl in *;
    (split; [destruct H1; split; auto; lia|]); [|done|split; [done|]].
  - split; [|done]. intros t [= <-]. pose proof (table_next _ _ (fdi_table _ _ _ _ H1)).
    pose proof (fdi_low _ _ _ _ H1). split; simpl; [done|]. intros fd slot Hfd.
    destruct (H2 es eq_refl fd slot Hfd). split; [lia|done].
  - intros HP. by destruct (H3 HP).
Qed.

Lemma guarded_fcntl nb lo n fd cmd arg : 0 <= n ->
  (P -> cmd = F_DUPFD \/ cmd = F_DUPFD_CLOEXEC -> arg + (n + 1) < 2 ^ 31) ->
  guarded P (fd_inv nb lo (n + 1)) (fd_inv nb lo n) (fcntl fd cmd arg) (fun _ => True).
Proof.
  intros Hn Hroom. unfold fcntl.
  assert (forall nb' lo' s, fd_inv nb' lo' (n + 1) s -> fd_inv nb' lo' n s) as Hless
    by (intros nb' lo' s; apply fd_inv_less; lia).
  assert (holds P (fd_inv nb lo (n + 1)) (lift (fd_arg arg)) (fun x => x = arg)) as Harg.
  { apply holds_lift. unfold fd_arg. by destruct (arg <? 2 ^ 31). }
  destruct (Z.eqb_spec cmd F_DUPFD) as [->|].
  { eapply guarded_bind; [exact Harg| |apply Hless]. intros x ->.
    eapply guarded_weaken; [apply guarded_duplicate; auto|done]. }
  destruct (Z.eqb_spec cmd F_DUPFD_CLOEXEC) as [->|].
  { eapply guarded_bind; [exact Harg| |apply Hless]. intros x ->.
    eapply guarded_weaken; [apply guarded_duplicate; auto|done]. }
  assert (forall nb' lo' (f : FdM Z), holds P (fd_inv nb' lo' (n + 1)) f (fun _ => True) ->
    guarded P (fd_inv nb' lo' (n + 1)) (fd_inv nb' lo' n) f (fun _ => True)) as Hkeep.
  { intros nb' lo' f Hf s Hs. destruct (Hf s Hs) as (?&?&?). auto. }
  repeat case_match; try (apply guarded_slot_at; [lia|]; intros nb' lo' slot _ _ Hfd _ He);
    apply Hkeep; try (by apply holds_ret); try apply holds_raise;
    (apply holds_bind with (Q := fun _ => True); [by apply holds_insert_entry|];
     intros _ _; by apply holds_ret).
Qed.

(** ** Directories and virtual files *)

Lemma directory_entries_safe es acc :
  Forall (fun e => safe e (fun d => Forall u8 (de_file_name d) /\
    len (de_file_name d) <= NAME_MAX /\ safe (de_is_dir d) (fun _ => True))) es ->
  Forall dirent_ok acc -> safe (directory_entries es acc) (Forall dirent_ok).
Proof.
  intros He. revert acc. induction He as [|e es He _ IH]; intros acc Hacc; [done|].
  cbn [directory_entries]. eapply safe_bind; [by apply safe_map_err|].
  intros d (Hb & Hl & Hd). eapply safe_bind; [by apply safe_map_err|]. intros b _.
  apply IH. apply Forall_app. split; [done|]. constructor; [|done].
  destruct (to_string_lossy_ok _ Hb). split; [done|]. split; [simpl; lia|].
  unfold fits. simpl. by destruct b.
Qed.

Lemma directory_open_safe path w :
  safe (directory_open path w) (fun d => Forall dirent_ok (dir_entries d)).
Proof.
  unfold directory_open. eapply safe_bind; [apply safe_map_err, read_dir_ok|]. intros es Hes.
  eapply safe_bind; [apply directory_entries_safe; [exact Hes|]|done].
  rewrite !Forall_cons. repeat split; try apply text_u8; by vm_compute.
Qed.

Lemma dirent_bytes_u8 cursor reclen e : dirent_ok e -> Forall u8 (dirent_bytes cursor reclen e).
Proof.
  intros (Hn & _ & Hk). unfold dirent_bytes. rewrite !Forall_app.
  repeat split; auto using to_le_u8; repeat constructor; auto; try (unfold fits; lia).
  apply Forall_replicate. unfold fits. lia.
Qed.

Lemma getdents_loop_safe room es cursor output : Forall dirent_ok es -> Forall u8 output ->
  safe (getdents_loop room es cursor output) (fun r => Forall u8 r.1).
Proof.
  intros He. revert cursor output. induction He as [|e es He _ IH]; intros cursor output Ho; [done|].
  cbn [getdents_loop]. pose proof He as (_ & Hl & _). unfold NAME_MAX in Hl.
  pose proof (len_nonneg (den_name e)). unfold align_usize.
  destruct (Z.eqb_spec (19 + len (den_name e) + 1) 0); [lia|].
  assert (0 <= (19 + len (den_name e) + 1 - 1) / 8 <= 2 ^ 32) by
    (split; [apply Z.div_pos; lia|apply Z.div_le_upper_bound; lia]).
  unfold mul64, checked_mul. destruct (Z.ltb_spec (((19 + len (den_name e) + 1 - 1) / 8 + 1) * 8)
    (2 ^ 64)); [|lia]. cbn [expect mbind res_bind].
  destruct (_ <? _); [done|]. apply IH. apply Forall_app. split; [done|].
  by apply dirent_bytes_u8.
Qed.

Lemma holds_read_virtual v exe k : Forall u8 exe -> (P -> is_device v = true -> k < 2 ^ 63) ->
  0 <= k -> holds P (fun _ => True) (read_virtual (E:=SyscallError) v exe k)
    (fun bs => Forall u8 bs /\ len bs <= k).
Proof.
  intros He Hk Hk0. unfold read_virtual.
  assert (forall bs, Forall u8 bs ->
    holds P (fun _ => True) (mret (take (Z.to_nat (Z.min k (len bs))) bs) : ST World SyscallError _)
      (fun bs => Forall u8 bs /\ len bs <= k)) as Hcut.
  { intros bs Hbs. apply holds_ret. split; [by apply Forall_take|]. unfold len.
    rewrite length_take. lia. }
  assert (P -> is_device v = true -> capacity (E:=SyscallError) k = Ok tt) as Hcap.
  { intros HP Hv. unfold capacity. destruct (Z.ltb_spec k (2 ^ 63)); [done|].
    specialize (Hk HP Hv). lia. }
  eapply holds_bind with (Q := Forall u8); [|intros bs Hbs; by apply Hcut].
  destruct v; try (apply holds_ret; rewrite ?Forall_app; repeat split; auto using text_u8;
    repeat constructor; unfold fits; lia).
  - apply holds_lift_if.
    + intros a. destruct (capacity k); simpl; [|done..]. intros [= <-].
      apply Forall_replicate. unfold fits. lia.
    + intros HP. by rewrite Hcap.
  - intros w _. split; [done|]. unfold fs_random. destruct (system_time w) as [t w'].
    cbn [fst]. split; [|intros HP; by rewrite Hcap].
    intros a. destruct (capacity k); simpl; [|done..]. intros [= <-]. apply xorshift_u8.
  - intros w _. split; [done|]. unfold fs_random. destruct (system_time w) as [t w'].
    cbn [fst]. split; [|intros HP; by rewrite Hcap].
    intros a. destruct (capacity k); simpl; [|done..]. intros [= <-]. apply xorshift_u8.
Qed.

Lemma holds_virtual_fd_new nb v exe : Forall u8 exe ->
  holds P (fun _ => True) (virtual_fd_new v exe) (fun f => entry_ok nb (EVirtual f)).
Proof.
  intros He. unfold virtual_fd_new. eapply holds_bind with
    (Q := fun bs => Forall u8 bs /\ len bs <= u64_max).
  - destruct (is_device v) eqn:Hv; [by apply holds_ret|].
    apply holds_read_virtual; [done|congruence|done].
  - intros bs [Hb Hl]. apply holds_ret. unfold u64_max in Hl. simpl.
    pose proof (len_nonneg bs). split; [done|]. lia.
Qed.

(** A read from a virtual file; outside [P] the cursor may lie beyond its data. *)
Lemma holds_virtual_fd_read f k : Forall u8 (vf_data f) -> len (vf_data f) < 2 ^ 64 ->
  0 <= vf_cursor f -> 0 <= k -> (P -> k < 2 ^ 63 /\ vf_cursor f <= len (vf_data f)) ->
  holds P (fun _ => True) (virtual_fd_read f k) (fun r =>
    Forall u8 r.1 /\ len r.1 <= k /\ vf_data r.2 = vf_data f /\
    (vf_cursor r.2 = vf_cursor f \/ 0 <= vf_cursor r.2 <= len (vf_data f))).
Proof.
  intros Hd Hl Hc Hk HP. unfold virtual_fd_read.
  assert (forall d, is_device d = true ->
    holds P (fun _ => True) (data ← read_virtual (E:=SyscallError) d [] k; mret (data, f)) (fun r =>
      Forall u8 r.1 /\ len r.1 <= k /\ vf_data r.2 = vf_data f /\
      (vf_cursor r.2 = vf_cursor f \/ 0 <= vf_cursor r.2 <= len (vf_data f)))) as Hdev.
  { intros d _. eapply holds_bind; [apply holds_read_virtual; [done| |done]|].
    - intros Hp _. by apply HP.
    - intros bs [??]. apply holds_ret. auto. }
  destruct (vf_file f); try (by apply Hdev); [apply holds_ret; simpl; repeat split; auto|..];
    (eapply holds_bind; [apply holds_add64; intros Hp; destruct (HP Hp);
       unfold saturating_sub; lia|]; intros e [-> He];
     eapply holds_bind; [apply holds_slice; intros Hp; destruct (HP Hp);
       unfold saturating_sub; lia|];
     intros bs (Hb1 & Hb2 & Hb3 & Hb4); apply holds_ret; cbn [fst snd vf_data vf_cursor];
     split; [by apply Hb4|]; split; [lia|]; split; [done|]; lia).
Qed.

(** ** Reading, writing and listing *)

Section Transfers.
Context (nb : nat) (lo n : Z).
Abbreviation I := (fd_inv nb lo n).

Lemma holds_drain b k : (b < nb)%nat -> 0 <= k ->
  holds P I (drain b k) (fun bs => Forall u8 bs /\ len bs <= k).
Proof.
  intros Hb Hk s [Hlen Hy Ht Hl Hr]. unfold drain, mbind, st_bind, reads.
  destruct (lookup_lt_is_Some_2 (buffers (shared s)) b) as [c Hc]; [lia|]. rewrite Hc. simpl.
  assert (Forall u8 c) by (rewrite Forall_lookup in Hy; by eapply Hy).
  split; [|split; [|done]].
  - split; simpl; rewrite ?length_insert; auto. apply Forall_insert; [done|by apply Forall_drop].
  - intros bs [= <-]. split; [by apply Forall_take|]. unfold len. rewrite length_take. lia.
Qed.

Lemma holds_extend b bytes : (b < nb)%nat -> Forall u8 bytes ->
  holds P I (extend b bytes) (fun c => 0 <= c <= len bytes).
Proof.
  intros Hb Hu s [Hlen Hy Ht Hl Hr]. unfold extend, mbind, st_bind, reads.
  destruct (lookup_lt_is_Some_2 (buffers (shared s)) b) as [c Hc]; [lia|]. rewrite Hc. simpl.
  assert (Forall u8 c) by (rewrite Forall_lookup in Hy; by eapply Hy).
  split; [|split; [|done]].
  - split; simpl; rewrite ?length_insert; auto. apply Forall_insert; [done|by apply Forall_app].
  - intros k [= <-]. pose proof (len_nonneg bytes). lia.
Qed.
End Transfers.

(** The entry of a virtual file after a read. *)
Lemma virtual_after nb v v' : entry_ok nb (EVirtual v) -> vf_data v' = vf_data v ->
  vf_cursor v' = vf_cursor v \/ 0 <= vf_cursor v' <= len (vf_data v) ->
  entry_ok nb (EVirtual v').
Proof. simpl. intros (?&?&?) -> [->|?]; auto. Qed.

Lemma stdin_ready_safe w : safe (map_err map_io_errno (stdin_ready w)) (fun _ => True).
Proof.
  apply safe_map_err. unfold stdin_ready. destruct (negb _); [done|]. apply event_poll_ok.
Qed.

Section Transfers2.
Context (nb : nat) (lo n : Z).
Abbreviation I := (fd_inv nb lo n).

Lemma holds_read fd k : 0 <= k -> (P -> k < 2 ^ 63) ->
  holds P I (read fd k) (fun bs => Forall u8 bs /\ len bs <= k).
Proof.
  intros Hk HP. apply guarded_slot_at; [lia|]. intros nb' lo' slot _ _ Hfd _ He.
  destruct (entry slot) as [| | |file|d|v|b|b|b]; try apply holds_raise;
    try (by apply holds_drain).
  - eapply holds_bind with (Q := fun _ => True).
    + destruct (has_bit _ _); [|by apply holds_ret].
      eapply holds_bind; [apply holds_reads; intros s _; apply stdin_ready_safe|].
      intros b _. by apply holds_ret.
    + intros [] _; [apply holds_raise|]. apply holds_on_host, stdin_read_ok.
  - apply holds_on_host, file_read_ok.
  - pose proof He as (Hv1 & Hv2 & Hv3).
    eapply holds_bind; [apply holds_on_world, holds_virtual_fd_read; try done; try lia;
      intros Hp; specialize (HP Hp); lia|].
    intros r (Hr1 & Hr2 & Hr3 & Hr4).
    eapply holds_bind; [apply holds_set_entry; [done|by eapply virtual_after]|].
    intros _ _. by apply holds_ret.
Qed.

Lemma holds_write fd bytes : Forall u8 bytes ->
  holds P I (write fd bytes) (fun c => 0 <= c <= len bytes).
Proof.
  intros Hu. pose proof (len_nonneg bytes).
  apply guarded_slot_at; [lia|]. intros nb' lo' slot _ _ Hfd _ He.
  destruct (entry slot) as [| | |file|d|v|b|b|b]; try apply holds_raise;
    try (by apply holds_extend).
  - eapply holds_bind; [apply holds_on_host, stdout_write_all_ok|]. intros _ _.
    eapply holds_bind; [apply holds_on_host, stdout_flush_ok|]. intros _ _.
    apply holds_ret. lia.
  - eapply holds_bind; [apply holds_on_host, stderr_write_all_ok|]. intros _ _.
    eapply holds_bind; [apply holds_on_host, stderr_flush_ok|]. intros _ _.
    apply holds_ret. lia.
  - apply holds_on_host, file_write_ok.
  - apply holds_ret. destruct (vf_file v); simpl; lia.
Qed.

Lemma holds_getdents64 fd room : holds P I (getdents64 fd room) (Forall u8).
Proof.
  apply guarded_slot_at; [lia|]. intros nb' lo' slot _ _ Hfd _ He.
  destruct (entry slot) as [| | |file|d|v|b|b|b]; try apply holds_raise.
  eapply holds_bind with (Q := fun r => Forall u8 r.1 /\ dir_entries r.2 = dir_entries d).
  - apply holds_lift. unfold write_getdents64. eapply safe_bind.
    + apply getdents_loop_safe; [by apply Forall_drop|done].
    + intros r Hr. by split.
  - intros r [Hr1 Hr2]. eapply holds_bind; [apply holds_set_entry; [done|]|].
    + simpl. by rewrite Hr2.
    + intros _ _. by apply holds_ret.
Qed.

Lemma stat_for_path_safe path w : safe (stat_for_path path w) (fun _ => True).
Proof.
  unfold stat_for_path. eapply safe_bind; [apply safe_map_err, metadata_ok|done].
Qed.

Lemma holds_stat fd : holds P I (stat fd) (fun _ => True).
Proof.
  apply guarded_slot_at; [lia|]. intros nb' lo' slot _ _ Hfd _ He.
  destruct (entry slot) as [| | |file|d|v|b|b|b]; try by apply holds_ret.
  - eapply holds_bind; [apply holds_reads; intros s _; apply safe_map_err, file_metadata_ok|].
    intros md _. by apply holds_ret.
  - apply holds_reads. intros s _. apply stat_for_path_safe.
Qed.

Lemma holds_read_sendfile_chunk fd offset k : 0 <= k ->
  match offset with Some o => 0 <= o | None => True end ->
  (P -> k < 2 ^ 63 /\ match offset with Some o => o = 0 | None => True end) ->
  holds P I (read_sendfile_chunk fd offset k) (fun r =>
    Forall u8 r.1 /\ len r.1 <= k /\ (offset = None <-> r.2 = None) /\
    match r.2 with Some o => 0 <= o | None => True end).
Proof.
  intros Hk Ho HP. apply guarded_slot_at; [lia|]. intros nb' lo' slot _ _ Hfd _ He.
  assert (forall bs : list Z, Forall u8 bs -> len bs <= k ->
    let r := (bs, option_map (fun o => saturating_add o (len bs)) offset) in
    Forall u8 r.1 /\ len r.1 <= k /\ (offset = None <-> r.2 = None) /\
    match r.2 with Some o => 0 <= o | None => True end) as Hres.
  { intros bs Hb Hl. simpl. pose proof (len_nonneg bs). unfold saturating_add, u64_max.
    destruct offset; simpl; repeat split; auto; try done. lia. }
  destruct (entry slot) as [| | |file|d|v|b|b|b]; try apply holds_raise.
  - eapply holds_bind with (Q := fun _ => True).
    { destruct offset as [o|]; [|by apply holds_ret].
      eapply holds_bind; [apply holds_on_host, file_position_ok|]. intros c _.
      eapply holds_bind; [apply holds_on_host, file_seek_start_ok|]. intros _ _.
      by apply holds_ret. }
    intros saved _. eapply holds_bind; [apply holds_on_host, file_read_ok|]. intros bs [Hb Hl].
    eapply holds_bind with (Q := fun _ => True).
    { destruct saved; [apply holds_on_host, file_seek_start_ok|by apply holds_ret]. }
    intros _ _. apply holds_ret. by apply Hres.
  - pose proof He as (Hv1 & Hv2 & Hv3). cbv zeta.
    eapply holds_bind; [apply holds_on_world, holds_virtual_fd_read; [..|intros Hp;
      destruct (HP Hp) as [Hk' Ho']]; destruct offset; simpl; done || lia|].
    intros r (Hr1 & Hr2 & Hr3 & Hr4).
    eapply holds_bind; [apply holds_set_entry; [done|]|].
    + destruct offset; [|by eapply virtual_after]. eapply virtual_after; [exact He| |by left].
      done.
    + intros _ _. apply holds_ret. by apply Hres.
Qed.

Lemma holds_write_chunk fuel out chunk : Forall u8 chunk ->
  holds P I (write_chunk fuel out chunk) (fun _ => True).
Proof.
  revert chunk. induction fuel as [|fuel IH]; intros chunk Hc; simpl; [by apply holds_ret|].
  destruct (is_nonempty chunk); [|by apply holds_ret].
  eapply holds_bind; [by apply holds_write|]. intros c _.
  destruct (c =? 0); [apply holds_raise|]. by apply IH, Forall_drop.
Qed.

Lemma holds_sendfile_loop fuel out fd offset count total : 0 <= total ->
  match offset with Some o => 0 <= o | None => True end -> (P -> offset = None) ->
  holds P I (sendfile_loop fuel out fd offset count total) (fun r => 0 <= r.1).
Proof.
  revert offset total. induction fuel as [|fuel IH]; intros offset total Ht Ho HP; simpl;
    [by apply holds_ret|].
  destruct (Z.ltb_spec total count); [|by apply holds_ret].
  eapply holds_bind; [apply holds_read_sendfile_chunk; unfold CHUNK_SIZE; [lia|done|]|].
  { intros Hp. rewrite (HP Hp). split; [lia|done]. }
  intros r (Hr1 & Hr2 & Hr3 & Hr4). pose proof (len_nonneg r.1).
  destruct (len r.1 =? 0); [by apply holds_ret|].
  eapply holds_bind; [by apply holds_write_chunk|]. intros _ _.
  apply IH; [lia|done|]. intros Hp. by apply Hr3, HP.
Qed.
End Transfers2.
End FdInv.
