(* ===== verification/AbiInv.v ===== *)
(** * Invariants of the binary interface

    Triples of the operations on guest memory, and of the encoders and decoders
    of the structures that system calls pass through it: on a well-formed memory
    they do not panic, keep the memory well-formed, and deliver values in the
    range of their types. *)

From S2P Require Import Prelude Memory MemorySpec MemoryProps Elf Host Fs LinuxAbi Terminal Syscalls FdInv.

Open Scope Z_scope.

(** ** Guest memory *)

Section MemTriples.
Context (P : Prop).

(** An operation on the regions: it fails and changes nothing, or succeeds. *)
Lemma holds_mem_op o : typed_op o -> (P -> forall m, op_oversized m o -> False) ->
  holds P wf (on_mem (exec_op o)) (fun _ => True).
Proof.
  intros Ht Hno m Hm. unfold on_mem, zoom.
  destruct (exec_op_cases o m Hm Ht) as [[Ho ->]|[_ [[e ->]|(m' & -> & Hm' & _)]]]; simpl;
    [|by split..]. split; [done|]. split; [done|]. intros HP. by destruct (Hno HP m Ho).
Qed.

Lemma holds_write_bytes a bs : Forall u8 bs ->
  holds P wf (on_mem (write_bytes a bs)) (fun _ => a + len bs < 2 ^ 64).
Proof.
  intros Hb m Hm. unfold on_mem, zoom.
  destruct (write_bytes_cases a bs m Hm Hb) as [[e ->]|(m' & r & -> & Hm' & _ & Hr & _)];
    simpl; [by split|]. apply region_Ok in Hr as (_ & ? & _).
  split; [done|]. by split; [intros|].
Qed.

Lemma holds_write_u16 a v : holds P wf (on_mem (write_u16 a v)) (fun _ => a + 2 < 2 ^ 64).
Proof. apply (holds_write_bytes a (to_le 2 v)), to_le_u8. Qed.

Lemma holds_write_u32 a v : holds P wf (on_mem (write_u32 a v)) (fun _ => a + 4 < 2 ^ 64).
Proof. apply (holds_write_bytes a (to_le 4 v)), to_le_u8. Qed.

Lemma holds_write_u64 a v : holds P wf (on_mem (write_u64 a v)) (fun _ => a + 8 < 2 ^ 64).
Proof. apply (holds_write_bytes a (to_le 8 v)), to_le_u8. Qed.

Lemma read_bytes_safe m a n : wf m -> 0 <= n ->
  safe (read_bytes m a n) (fun bs => len bs = n /\ Forall u8 bs /\ a + n < 2 ^ 64).
Proof.
  intros Hm Hn. unfold read_bytes, check_permission.
  destruct (region_total m a n) as [[r Hr]|Hr]; rewrite Hr; simpl; [|done].
  destruct (contains _ READ); simpl; [|done].
  destruct (region_bytes_spec m a n r Hm Hn Hr) as (bs & -> & Hl & Hb & _).
  apply region_Ok in Hr as (_ & ? & _). done.
Qed.

Lemma read_le_safe n m a : wf m ->
  safe (read_le n m a) (fun v => fits (8 * Z.of_nat n) v /\ a + Z.of_nat n < 2 ^ 64).
Proof.
  intros Hm. unfold read_le.
  eapply safe_bind; [apply read_bytes_safe; [done|lia]|]. intros bs (Hl & Hb & Ha).
  rewrite Hl, Z.eqb_refl. simpl. split; [|done]. rewrite <- Hl. by apply of_le_fits.
Qed.

Lemma read_u8_safe m a : wf m -> safe (read_u8 m a) (fun v => u8 v /\ a + 1 < 2 ^ 64).
Proof.
  intros Hm. unfold read_u8. eapply safe_bind; [by apply read_bytes_safe|].
  intros bs (Hl & Hb & Ha). destruct bs as [|b bs]; [done|]. by apply Forall_cons in Hb as [? _].
Qed.

Lemma holds_read_mem {A} (f : GuestMemory -> res GuestMemoryError A) Q :
  (forall m, wf m -> safe (f m) Q) -> holds P wf (read_mem f) Q.
Proof. intros Hf. apply holds_reads. intros m Hm. by apply safe_map_err, Hf. Qed.

(** ** Texts and structures in guest memory *)

Lemma read_c_loop_safe fuel m a offset bytes : wf m -> 0 <= offset -> a + offset < 2 ^ 64 ->
  Forall u8 bytes -> safe (read_c_loop fuel m a offset bytes) (Forall u8).
Proof.
  intros Hm. revert offset bytes. induction fuel as [|fuel IH]; intros offset bytes Ho Ha Hb; [done|].
  cbn [read_c_loop]. eapply safe_bind; [by apply safe_add64|]. intros x ->.
  eapply safe_bind; [by apply safe_map_err, read_u8_safe|]. intros b [Hb' Hx].
  destruct (b =? 0); [by destruct (utf8_valid bytes)|].
  apply IH; [lia|lia|]. apply Forall_app. auto.
Qed.

Lemma read_c_string_safe m a : wf m -> u64 a -> safe (read_c_string m a) (Forall u8).
Proof. intros Hm [Ha0 Ha1]. apply read_c_loop_safe; auto; lia. Qed.

Lemma read_vector_loop_safe fuel m a index values : wf m -> 0 <= index ->
  a + index * 8 < 2 ^ 64 -> Forall (Forall u8) values ->
  safe (read_vector_loop fuel m a index values) (Forall (Forall u8)).
Proof.
  intros Hm. revert index values.
  induction fuel as [|fuel IH]; intros index values Hi Ha Hv; [done|].
  cbn [read_vector_loop]. eapply safe_bind; [by apply safe_add64|]. intros x ->.
  eapply safe_bind; [by apply safe_map_err, (read_le_safe 8)|]. intros p [Hp Hx].
  destruct (p =? 0); [done|]. eapply safe_bind; [by apply read_c_string_safe|].
  intros str Hs. apply IH; [lia|lia|]. apply Forall_app. auto.
Qed.

Lemma read_string_vector_safe m a : wf m -> u64 a ->
  safe (read_string_vector m a) (Forall (Forall u8)).
Proof.
  intros Hm [Ha0 Ha1]. unfold read_string_vector. destruct (a =? 0); [by constructor|].
  apply read_vector_loop_safe; auto; lia.
Qed.

Lemma splice_safe {E} bytes offset (bs : list Z) : Forall u8 bytes -> Forall u8 bs ->
  0 <= offset -> offset + len bs <= len bytes ->
  safe (splice (E:=E) bytes offset bs) (fun r => Forall u8 r /\ len r = len bytes).
Proof.
  intros Hb Hn Ho Hl. destruct (splice (E:=E) bytes offset bs) as [r|e|] eqn:Hs; simpl.
  - split; [by eapply splice_Forall|]. by eapply splice_len.
  - unfold splice in Hs. by destruct (_ && _).
  - unfold splice in Hs.
    destruct (Z.leb_spec 0 offset), (Z.leb_spec (offset + len bs) (len bytes)); simpl in Hs; done || lia.
Qed.

(** Writing a number inside a buffer. *)
Lemma put_le_safe n bytes offset v : Forall u8 bytes -> 0 <= offset ->
  offset + Z.of_nat n <= len bytes ->
  safe (put_le n bytes offset v) (fun bs => Forall u8 bs /\ len bs = len bytes).
Proof.
  intros Hb Ho Hl. apply splice_safe; auto using to_le_u8. unfold len in *.
  by rewrite length_to_le.
Qed.

Lemma zeros_u8 n : Forall u8 (replicate n 0).
Proof. apply Forall_replicate. unfold fits. lia. Qed.

(** A check of the bytes of a constant. *)
Lemma u8_check bs : forallb (fun b => (0 <=? b) && (b <? 256)) bs = true -> Forall u8 bs.
Proof.
  rewrite forallb_forall, Forall_forall. intros Hb b Hin.
  specialize (Hb b ltac:(by apply list_elem_of_In)). unfold fits.
  apply andb_true_iff in Hb as [?%Z.leb_le ?%Z.ltb_lt]. lia.
Qed.

(** The bytes of a constant structure, by evaluation. *)
Lemma constant_safe (r : SysRes (list Z)) :
  match r with
  | Ok bs => forallb (fun b => (0 <=? b) && (b <? 256)) bs
  | _ => false
  end = true -> safe r (Forall u8).
Proof. destruct r; [apply u8_check|done..]. Qed.

(** Structures are written field by field into a buffer of [L] bytes. *)
Definition buffer_of (L : Z) (bs : list Z) : Prop := Forall u8 bs /\ len bs = L.

Lemma put_safe L n bytes offset v : buffer_of L bytes ->
  (0 <=? offset) && (offset + Z.of_nat n <=? L) = true ->
  safe (put_le n bytes offset v) (buffer_of L).
Proof.
  intros [Hb <-] [?%Z.leb_le ?%Z.leb_le]%andb_true_iff. by apply put_le_safe.
Qed.

Lemma zeros_buffer n : buffer_of (Z.of_nat n) (replicate n 0).
Proof. split; [apply zeros_u8|]. unfold len. by rewrite length_replicate. Qed.

Lemma stat_bytes_safe data : safe (stat_bytes data) (Forall u8).
Proof.
  unfold stat_bytes.
  do 6 (eapply safe_bind; [eapply put_safe with (L := 144); [by first
    [apply (zeros_buffer 144)|eassumption]|done]|intros ? ?]).
  eapply safe_weaken; [by eapply put_safe with (L := 144)|by intros ? []].
Qed.

(** The terminal: the control characters fill their array. *)
Record termios_ok (t : LinuxTermios) : Prop := {
  ti_line : u8 (line t);
  ti_cc : Forall u8 (cc t);
  ti_length : len (cc t) = NCCS
}.

Lemma termios_default_ok : termios_ok termios_default.
Proof. split; [by unfold fits|by apply u8_check|done]. Qed.

Lemma termios_bytes_safe t : termios_ok t -> safe (termios_bytes t) (buffer_of TERMIOS_SIZE).
Proof.
  intros [Hl Hc Hn]. unfold termios_bytes.
  do 4 (eapply safe_bind; [eapply put_safe with (L := 36); [by first
    [apply (zeros_buffer 36)|eassumption]|done]|intros ? ?]).
  match goal with H : buffer_of _ ?b |- safe (splice ?b _ _ ≫= _) _ =>
    destruct H as [Hb Hlen] end.
  eapply safe_bind; [apply splice_safe; [done|by constructor|lia|rewrite Hlen; unfold len; simpl; lia]|].
  intros bs [Hb' Hlen']. unfold NCCS, TERMIOS_SIZE in *.
  eapply safe_weaken; [apply splice_safe; done || lia|].
  intros r [Hr Hlr]. split; [done|]. lia.
Qed.

Lemma termios_of_bytes_safe bytes : buffer_of TERMIOS_SIZE bytes ->
  safe (termios_of_bytes bytes) termios_ok.
Proof.
  intros [Hb Hl]. unfold TERMIOS_SIZE in Hl. unfold termios_of_bytes, termios_word.
  assert (forall i j, 0 <= i <= j -> j <= 36 -> safe (E:=SyscallError) (slice bytes i j)
    (fun bs => Forall u8 bs /\ len bs = j - i)) as Hs.
  { intros i j Hi Hj. destruct (slice (E:=SyscallError) bytes i j) as [bs| |] eqn:He; simpl.
    - split; [by eapply slice_Forall|by eapply slice_len].
    - unfold slice in He. by destruct (_ && _ && _).
    - assert (safe (E:=SyscallError) (slice bytes i j) (fun _ => True)) as Hx
        by (eapply safe_weaken; [apply safe_slice; lia|done]). by rewrite He in Hx. }
  eapply safe_bind; [apply Hs; unfold NCCS; lia|]. intros c [Hc Hcl].
  do 4 (eapply safe_bind with (Q := fun _ => True);
    [eapply safe_bind; [apply Hs; lia|by intros ??]|intros ? _]).
  eapply safe_bind with (Q := fits 8).
  - unfold index. destruct (lookup_lt_is_Some_2 bytes (Z.to_nat 16)) as [x Hx].
    { unfold len in Hl. lia. }
    destruct (Z.leb_spec 0 16); [|lia]. rewrite Hx. simpl. rewrite Forall_lookup in Hb. eauto.
  - intros x Hx. split; simpl; [done|done|lia].
Qed.
End MemTriples.

(** ** Automation: one step of a triple *)

#[export] Hint Extern 0 (guarded _ _ _ (lift (add64 _ _)) _) =>
  apply holds_add64; intros; lia : kernel.
#[export] Hint Extern 0 (guarded _ _ _ (on_mem (write_bytes _ _)) _) =>
  apply holds_write_bytes; by auto using to_le_u8 : kernel.
#[export] Hint Resolve holds_write_u16 holds_write_u32 holds_write_u64 : kernel.
#[export] Hint Extern 0 (guarded _ _ _ (read_mem (fun m => Memory.read_u16 m _)) _) =>
  apply holds_read_mem; intros ? ?; by apply (read_le_safe 2) : kernel.
#[export] Hint Extern 0 (guarded _ _ _ (read_mem (fun m => Memory.read_u32 m _)) _) =>
  apply holds_read_mem; intros ? ?; by apply (read_le_safe 4) : kernel.
#[export] Hint Extern 0 (guarded _ _ _ (read_mem (fun m => Memory.read_u64 m _)) _) =>
  apply holds_read_mem; intros ? ?; by apply (read_le_safe 8) : kernel.

Ltac h_arith := first [done | lia | by auto with fits | (unfold fits in *; simpl in *; lia)].

Ltac h_step :=
  lazymatch goal with
  | |- guarded _ _ _ (mret _) _ => apply holds_ret
  | |- guarded _ _ _ (raise _) _ => apply holds_raise
  | |- guarded _ _ _ (fail _) _ => apply holds_raise
  | |- guarded _ _ _ (if ?b then _ else _) _ => destruct b eqn:?
  | |- guarded _ _ _ (_ ≫= _) _ =>
      first [ eapply holds_bind; [solve [eauto 4 with kernel]|cbv beta; intros ? ?]
            | apply holds_bind with (Q := fun _ => True); [|intros ? _] ]
  | |- guarded _ _ _ _ (fun _ => True) =>
      first [ solve [eauto 4 with kernel]
            | eapply guarded_weaken; [solve [eauto 4 with kernel]|done] ]
  | |- guarded _ _ _ _ _ => solve [eauto 4 with kernel]
  end.

Ltac h_go := repeat (h_step; cbv beta zeta); try h_arith.

Section StructTriples.
Context (P : Prop).

Lemma holds_write_stat a data : holds P wf (write_stat a data) (fun _ => True).
Proof.
  eapply holds_bind; [apply holds_lift, stat_bytes_safe|]. intros bs Hb. h_go.
Qed.

Lemma holds_write_uname a : holds P wf (write_uname a) (fun _ => True).
Proof.
  eapply holds_bind; [apply holds_lift, constant_safe; by vm_compute|]. intros bs Hb. h_go.
Qed.

Lemma holds_write_sysinfo a : holds P wf (write_sysinfo a) (fun _ => True).
Proof.
  unfold write_sysinfo. destruct (a =? 0); [apply holds_raise|].
  eapply holds_bind; [apply holds_lift, constant_safe; by vm_compute|]. intros bs Hb. h_go.
Qed.

Lemma holds_read_timespec a : holds P wf (read_timespec a) (fun _ => True).
Proof. unfold read_timespec. h_go. Qed.

Lemma holds_write_timespec a t : holds P wf (write_timespec a t) (fun _ => True).
Proof. unfold write_timespec. h_go. Qed.

Lemma holds_winsize_read a : holds P wf (winsize_read_from_memory a) (fun _ => True).
Proof. unfold winsize_read_from_memory. h_go. Qed.

Lemma holds_winsize_write s a : holds P wf (winsize_write_to_memory s a) (fun _ => True).
Proof. unfold winsize_write_to_memory. h_go. Qed.

Lemma holds_termios_write t a : termios_ok t ->
  holds P wf (termios_write_to_memory t a) (fun _ => True).
Proof.
  intros Ht. eapply holds_bind; [by apply holds_lift, termios_bytes_safe|].
  intros bs [Hb Hl]. h_go.
Qed.

Lemma holds_termios_read a : holds P wf (termios_read_from_memory a) termios_ok.
Proof.
  eapply holds_bind; [apply holds_read_mem; intros m Hm; by apply read_bytes_safe|].
  intros bs (Hl & Hb & _). by apply holds_lift, termios_of_bytes_safe.
Qed.
End StructTriples.

#[export] Hint Resolve holds_write_stat holds_write_uname holds_write_sysinfo
  holds_read_timespec holds_write_timespec holds_winsize_read holds_winsize_write
  holds_termios_write holds_termios_read : kernel.
