(* ===== verification/PathInv.v ===== *)
(** * The bytes of guest paths

    Paths made of bytes stay paths made of bytes: through normalization, joins,
    the targets of links and the resolution inside the root directory. *)

From Stdlib Require Import String.
From S2P Require Import Prelude Elf HostPath Host Fs FsProps FdInv.

Open Scope Z_scope.

Section PathBytes.

Lemma Forall_subset {A} (R : A -> Prop) (l k : list A) : l ⊆ k -> Forall R k -> Forall R l.
Proof. intros Hs. rewrite !Forall_forall. auto. Qed.

Lemma split_on_u8 c l : Forall u8 l -> Forall (Forall u8) (split_on c l).
Proof.
  intros Hl. apply Forall_forall. intros p [_ Hp]%split_on_pieces. by eapply Forall_subset.
Qed.

Lemma split_path_u8 l : Forall u8 l -> Forall (Forall u8) (split_path l).
Proof.
  intros Hl%(split_on_u8 47). unfold split_path. eapply Forall_subset; [|exact Hl].
  intros p Hp. apply list_elem_of_In, filter_In in Hp as [Hp _]. by apply list_elem_of_In.
Qed.

Lemma join_with_u8 ps : Forall (Forall u8) ps -> Forall u8 (join_with 47 ps).
Proof.
  intros Hps. apply Forall_forall. intros x Hx.
  destruct (join_with_elem _ _ _ Hx) as [->|(p & Hp & Hin)]; [unfold fits; lia|].
  rewrite Forall_forall in Hps. specialize (Hps p Hp). rewrite Forall_forall in Hps. auto.
Qed.

Lemma guest_u8 ps : Forall (Forall u8) ps -> Forall u8 (raw (guest_from_components ps)).
Proof.
  intros Hps. unfold guest_from_components. destruct (is_nonempty ps); simpl.
  - constructor; [unfold fits; lia|]. by apply join_with_u8.
  - repeat constructor; unfold fits; lia.
Qed.

Lemma add_part_u8 parts p : Forall (Forall u8) parts -> Forall u8 p ->
  Forall (Forall u8) (add_part parts p).
Proof.
  intros Hs Hp. unfold add_part, pop_part. repeat case_decide; [done|by apply Forall_take|].
  apply Forall_app. auto.
Qed.

Lemma foldl_add_part_u8 ps parts : Forall (Forall u8) parts -> Forall (Forall u8) ps ->
  Forall (Forall u8) (foldl add_part parts ps).
Proof.
  intros Hs Hp. revert parts Hs. induction Hp as [|p ps Hp _ IH]; intros parts Hs; [done|].
  apply IH. by apply add_part_u8.
Qed.

Lemma from_parts_safe `{Host} cwd path : Forall u8 cwd -> Forall u8 path ->
  safe (from_parts cwd path) (fun g => Forall u8 (raw g)).
Proof.
  intros Hc Hp. unfold from_parts. destruct (negb _); [done|]. destruct (existsb _ _); [done|].
  destruct (has_windows_prefix path); [done|]. simpl. apply guest_u8, foldl_add_part_u8.
  - destruct (starts_with _ _); [constructor|by apply split_path_u8].
  - apply split_on_u8. unfold replace_byte. apply Forall_fmap. eapply Forall_impl; [exact Hp|].
    intros x Hx. simpl. destruct (x =? 92); [unfold fits; lia|done].
Qed.

Context `{LAWS : HostLaws} (fs : RootFs) (w : World).

Lemma names_u8 p : Forall u8 p -> Forall (Forall u8) (path_components p).
Proof.
  intros Hp. apply Forall_forall. intros name Hn. unfold path_components in Hn.
  apply list_elem_of_omap in Hn as (c & Hc & E). destruct c; simplify_eq/=.
  apply component_name in Hc as (_&_&_&Hsub&_). by eapply Forall_subset.
Qed.

Lemma guest_from_names_u8 names : Forall (Forall u8) names -> Forall u8 (raw (guest_from_names names)).
Proof.
  intros Hn. apply guest_u8, Forall_fmap. eapply Forall_impl; [exact Hn|].
  intros p Hp. by apply to_string_lossy_ok.
Qed.

Lemma symlink_target_u8 dir target : Forall u8 (raw dir) -> Forall u8 target ->
  safe (symlink_target_guest_path fs dir target) (fun g => Forall u8 (raw g)).
Proof.
  intros Hp Ht. unfold symlink_target_guest_path. destruct (negb _).
  { apply to_string_lossy_ok in Ht as [Ht _].
    destruct (is_absolute target); [|by apply from_parts_safe].
    apply from_parts_safe; [|done]. repeat constructor; unfold fits; lia. }
  assert (forall base r, strip_prefix platform target base = Some r ->
    Forall (Forall u8) (path_components r)) as Hr.
  { intros base r Hs%strip_prefix_sub. apply names_u8. by eapply Forall_subset. }
  destruct (strip_prefix platform target (host_root fs)) as [r|] eqn:E.
  { by eapply guest_from_names_u8, Hr. }
  destruct (parent platform (host_root fs) ≫= _) as [r|] eqn:E2; [|done].
  apply bind_Some in E2 as (b & _ & E2%Hr). cbn [safe]. unfold guest_beside_root.
  destruct (file_name _ _); [|by apply guest_from_names_u8].
  destruct (path_components r); [by apply guest_from_names_u8|].
  case_decide; apply guest_from_names_u8; [by apply Forall_cons in E2 as [_ ?]|done].
Qed.

Lemma expand_link_u8 resolved c rest : Forall (Forall u8) resolved -> Forall u8 c ->
  Forall (Forall u8) rest ->
  safe (expand_link fs w resolved c rest) (fun g => Forall u8 (raw g)).
Proof.
  intros Hr Hc Hs. unfold expand_link. eapply safe_bind with (Q := Forall u8).
  - pose proof (read_link_ok (host_path fs (guest_from_components (resolved ++ [c]))) w) as Hl.
    destruct (read_link _ w); [apply Hl|done|done].
  - intros target Ht. eapply safe_bind; [apply symlink_target_u8; [by apply guest_u8|done]|].
    intros g Hg. destruct (is_nonempty rest); [|done].
    apply from_parts_safe; [done|by apply join_with_u8].
Qed.

Definition pass_u8 (r : Pass * Z) : Prop :=
  match r.1 with
  | Resolved parts => Forall (Forall u8) parts
  | Expanded next => Forall u8 (raw next)
  end.

Lemma pass_bytes expansions resolved todo : Forall (Forall u8) resolved ->
  Forall (Forall u8) todo -> safe (pass fs w expansions resolved todo) pass_u8.
Proof.
  intros Hr Ht. revert resolved Hr. induction Ht as [|c rest Hc Hs IH]; intros resolved Hr; [done|].
  cbn [pass].
  pose proof (symlink_metadata_ok (host_path fs (guest_from_components (resolved ++ [c]))) w) as Hm.
  assert (Forall (Forall u8) (resolved ++ [c])) by (apply Forall_app; auto).
  destruct (symlink_metadata _ w) as [md|e|]; [|destruct e; auto|done].
  - destruct (md_is_symlink md); [|by apply IH]. cbv zeta.
    destruct (_ <? _); [done|]. eapply safe_bind; [by apply expand_link_u8|]. done.
  - simpl. apply Forall_app. auto.
Qed.

Lemma resolve_loop_u8 fuel g expansions g' : Forall u8 (raw g) ->
  resolve_loop fuel fs w g expansions = Some (Ok g') -> Forall u8 (raw g').
Proof.
  revert g expansions. induction fuel as [|fuel IH]; intros g expansions Hg; [done|].
  cbn [resolve_loop]. pose proof (pass_bytes expansions [] (components g)) as Hp.
  specialize (Hp ltac:(constructor) ltac:(by apply split_path_u8)).
  destruct (pass _ _ _ _ _) as [[[parts|next] e]|e|]; [|by apply IH|done..].
  intros [= <-]. by apply guest_u8.
Qed.

(** Resolution returns, in a proper path of bytes. *)
Lemma resolve_safe cwd path : proper cwd -> Forall u8 (raw cwd) -> Forall u8 path ->
  safe (resolve fs cwd path w)
    (fun r => proper (resolved_guest r) /\ Forall u8 (raw (resolved_guest r))).
Proof.
  intros Hc Hb Hp. unfold resolve. eapply safe_bind with
    (Q := fun g => proper g /\ Forall u8 (raw g)).
  - pose proof (from_parts_safe (raw cwd) path Hb Hp) as Hj.
    destruct (join cwd path) as [g|e|] eqn:Ej; unfold join in Ej; rewrite Ej in Hj;
      [|unfold resolve_guest_path, join; by rewrite Ej|done].
    pose proof (resolve_outcome fs w cwd path g Hc Ej) as Ho.
    destruct (resolve_guest_path fs cwd path w) as [g'|e|] eqn:Er; [|done|done].
    split; [by eapply (resolve_guest_proper fs w cwd path)|].
    unfold resolve_guest_path, join in Er. rewrite Ej in Er. cbn [mbind res_bind] in Er.
    apply (resolve_loop_u8 RESOLVE_FUEL g 0 g' Hj).
    destruct (resolve_loop RESOLVE_FUEL fs w g 0) as [r|]; cbn [default] in Er; [|done].
    f_equal. exact Er.
  - intros g Hg. by destruct (from_guest_path (raw g)).
Qed.
End PathBytes.
