(* ===== verification/SyscallInv.v ===== *)
(** * Invariants of the system calls

    The invariant of the kernel: every memory map is well-formed, every number
    in the range of its type, descriptors and pipe buffers in order, in the
    calling process and in every process of the table.  Every system call keeps
    it, on every exit, whatever its arguments; and a call whose arguments lie
    in the envelope [call_ok] returns an outcome, it does not panic. *)

From Stdlib Require Import String.
From S2P Require Import Prelude Memory MemorySpec MemoryProps Registers Elf Host ExampleHost Fs LinuxAbi Terminal Fd Process Syscalls FsProps FdProps ProcessProps FdInv AbiInv PathInv.

Open Scope Z_scope.

Create HintDb calls discriminated.

(** ** The invariant of the kernel *)

Section Kernel.
Context `{LAWS : HostLaws}.
Abbreviation KM := (ST Kernel SyscallError).
Abbreviation FdM := (ST FdState SyscallError).

Definition PAGE_LIMIT : Z := 2 ^ 64 - PAGE_SIZE.

(** A process that shares [nb] pipe buffers. *)
Record process_ok (nb : nat) (p : LinuxProcess) : Prop := {
  po_pid : u32 (p_pid p);
  po_tid : u32 (p_tid p);
  po_child : u32 (p_next_child_pid p);
  po_cwd : Forall u8 (raw (p_cwd p));
  po_proper : proper (p_cwd p);
  po_executable : Forall u8 (p_executable_path p);
  po_brk : 0 <= p_brk p <= PAGE_LIMIT;
  po_mmap : u64 (p_mmap_next p);
  po_fs_base : u64 (p_fs_base p);
  po_set_tid : u64 (p_set_tid_address p);
  po_table : table_ok nb (p_fd_table p);
  po_termios : termios_ok (termios (p_terminal p))
}.

Record record_ok (nb : nat) (r : ProcessRecord) : Prop := {
  ro_process : process_ok nb (pr_process r);
  ro_memory : wf (pr_memory r);
  ro_threads : forall tid th, pr_threads r !! tid = Some th -> wf_registers (t_registers th)
}.

Record ptable_ok (nb : nat) (t : ProcessTable) : Prop := {
  pt_records : forall pid r, records t !! pid = Some r -> record_ok nb r;
  pt_next : 0 <= next_pid t
}.

Record kernel_ok (k : Kernel) : Prop := {
  ko_memory : wf (k_memory k);
  ko_buffers : Forall (Forall u8) (buffers (k_shared k));
  ko_process : process_ok (length (buffers (k_shared k))) (k_process k);
  ko_table : forall t, k_table k = Some t -> ptable_ok (length (buffers (k_shared k))) t
}.

Lemma process_ok_more nb nb' p : (nb <= nb')%nat -> process_ok nb p -> process_ok nb' p.
Proof. intros Hn []. split; auto. by eapply table_ok_more. Qed.

Lemma record_ok_more nb nb' r : (nb <= nb')%nat -> record_ok nb r -> record_ok nb' r.
Proof. intros Hn []. split; auto. by eapply process_ok_more. Qed.

Lemma ptable_ok_more nb nb' t : (nb <= nb')%nat -> ptable_ok nb t -> ptable_ok nb' t.
Proof. intros Hn []. split; eauto using record_ok_more. Qed.

(** ** Steps of a system call *)

Context (P : Prop) (nb0 : nat).

(** The invariant during a call: under [P], [n] more descriptors can be opened;
    the [nb0] buffers the call started with are there. *)
Definition during (n : Z) (k : Kernel) : Prop :=
  kernel_ok k /\ (nb0 <= length (buffers (k_shared k)))%nat /\
  (P -> next_fd (p_fd_table (k_process k)) + n < 2 ^ 31).

Lemma during_less n n' k : n' <= n -> during n k -> during n' k.
Proof. intros Hn (Hk & Hb & Hr). split; [done|]. split; [done|]. intros HP. specialize (Hr HP). lia. Qed.

Lemma set_table_ok nb t p : process_ok nb p -> table_ok nb t -> process_ok nb (set_p_fd_table t p).
Proof. intros [] ?. by split. Qed.

Lemma guarded_in_fds {A} n n' (m : FdM A) Q :
  (forall nb lo, guarded P (fd_inv P nb lo n) (fd_inv P nb lo n') m Q) ->
  guarded P (during n) (during n') (in_fds m) Q.
Proof.
  intros Hm k ([Hmem Hbuf Hproc Htab] & Hnb & Hroom). unfold in_fds, zoom.
  set (s := mkFdState (p_fd_table (k_process k)) (k_shared k)).
  destruct (Hm (length (buffers (k_shared k))) (next_fd (p_fd_table (k_process k))) s)
    as (H1 & H2 & H3).
  { split; simpl; auto; [apply Hproc|done]. }
  destruct (m s) as [r s']; simpl in *. destruct H1 as [Hb Hy Ht Hl Hr]. split.
  - split; [|split; [simpl; lia|done]]. split; simpl; auto.
    + apply set_table_ok; [|done]. by eapply process_ok_more.
    + intros t Ht'. by eapply ptable_ok_more, Htab.
  - destruct r; simpl; [split; [intros ? [= <-]; auto|done]|done|].
    split; [done|]. intros HP. by destruct (H3 HP).
Qed.

Section Steps.
Context (n : Z).
Abbreviation I := (during n).

Lemma holds_in_memory {A} (m : SysMem A) Q : holds P wf m Q -> holds P I (in_memory m) Q.
Proof.
  intros Hm. eapply guarded_zoom; [exact Hm|by intros k [[] _]|].
  intros k m' [[] Hr] Hw. by split.
Qed.

Lemma holds_in_world {A} (m : ST World SyscallError A) Q : holds P (fun _ => True) m Q ->
  holds P I (in_world m) Q.
Proof. intros Hm. apply guarded_in_fds. intros. by apply holds_on_world. Qed.

Lemma holds_in_host {A} (m : ST World IoErrorKind A) Q : behaves m Q ->
  holds P I (in_world (on_host m)) Q.
Proof. intros. by apply holds_in_world, holds_behaves, behaves_on_host. Qed.

Lemma holds_proc {A} (f : LinuxProcess -> A) (Q : A -> Prop) :
  (forall nb p, process_ok nb p -> Q (f p)) -> holds P I (proc f) Q.
Proof. intros HQ. apply holds_gets. intros k [[] _]. eauto. Qed.

Lemma holds_set_proc f :
  (forall nb p, process_ok nb p -> process_ok nb (f p) /\ p_fd_table (f p) = p_fd_table p) ->
  holds P I (set_proc f) (fun _ => True).
Proof.
  intros Hf. apply holds_modify. intros k [[Hm Hb Hp Ht] Hr].
  destruct (Hf _ _ Hp) as [Hp' Heq]. split; [by split|]. simpl. by rewrite Heq.
Qed.

Lemma holds_path_arg a : u64 a -> holds P I (path_arg a) (Forall u8).
Proof. intros Ha. apply holds_reads. intros k [[] _]. by apply read_c_string_safe. Qed.

(** ** Paths *)

Definition resolved_ok (r : ResolvedPath) : Prop :=
  proper (resolved_guest r) /\ Forall u8 (raw (resolved_guest r)).

Lemma join_ok g path : proper g -> Forall u8 (raw g) -> Forall u8 path ->
  safe (join g path) (fun g => proper g /\ Forall u8 (raw g)).
Proof.
  intros Hg Hu Hp. pose proof (from_parts_safe (raw g) path Hu Hp) as Hs.
  destruct (join_total g path Hg) as [(e & E & _)|(g' & E & Hg')];
    rewrite E; [done|]. unfold join in E. by rewrite E in Hs.
Qed.

Lemma root_u8 : Forall u8 (raw root).
Proof. repeat constructor; unfold fits; lia. Qed.

Lemma holds_resolve_path dirfd path : Forall u8 path ->
  holds P I (resolve_path dirfd path) resolved_ok.
Proof.
  intros Hp. apply holds_reads. intros k [[Hm Hb [] Ht] _]. cbv zeta.
  destruct (negb (is_nonempty path)); [done|].
  destruct (if starts_with 47 path then None else dirfd) as [fd|].
  - unfold resolve_at. destruct (_ !! fd) as [slot|]; [|done].
    destruct (entry slot); try done.
    eapply safe_bind; [apply safe_map_err, (join_ok root path); [apply proper_root|apply root_u8|done]|].
    done.
  - destruct (p_rootfs (k_process k)) as [fs|].
    + apply safe_map_err. by apply resolve_safe.
    + unfold resolve_plain, normalize_guest_path.
      eapply safe_bind; [by apply safe_map_err, join_ok|]. intros g Hg.
      by destruct (from_guest_path (raw g)).
Qed.

Lemma holds_mkdir dirfd path : Forall u8 path ->
  holds P I (mkdir_guest_path dirfd path) (fun _ => True).
Proof.
  intros Hp. eapply holds_bind; [by apply holds_resolve_path|]. intros [g host|g f] _; [|apply holds_raise].
  eapply holds_bind; [apply holds_in_host, create_dir_ok|]. intros _ _. by apply holds_ret.
Qed.

Lemma holds_remove dirfd path b : Forall u8 path ->
  holds P I (remove_guest_path dirfd path b) (fun _ => True).
Proof.
  intros Hp. eapply holds_bind; [by apply holds_resolve_path|]. intros [g host|g f] _; [|apply holds_raise].
  apply holds_bind with (Q := fun _ => True); [|intros _ _; by apply holds_ret].
  destruct b; apply holds_in_host; [apply remove_dir_ok|apply remove_file_ok].
Qed.

(** A virtual file opened for the calling process. *)
Lemma holds_open_virtual v exe nb : Forall u8 exe ->
  holds P I (in_world (virtual_fd_new v exe)) (fun f => entry_ok nb (EVirtual f)).
Proof. intros He. by apply holds_in_world, holds_virtual_fd_new. Qed.

Lemma holds_executable : holds P I (proc p_executable_path) (Forall u8).
Proof. apply holds_proc. by intros nb p []. Qed.

Lemma holds_write_stat_for dirfd path a : Forall u8 path ->
  holds P I (write_stat_for_guest_path dirfd path a) (fun _ => True).
Proof.
  intros Hp. eapply holds_bind; [by apply holds_resolve_path|]. intros [g host|g f] _.
  - eapply holds_bind with (Q := fun _ => True).
    + apply holds_reads. intros k _. apply stat_for_path_safe.
    + intros data _. apply holds_in_memory, holds_write_stat.
  - eapply holds_bind; [apply holds_executable|]. intros exe He.
    eapply holds_bind; [by apply (holds_open_virtual _ _ 0%nat)|]. intros v _.
    apply holds_in_memory, holds_write_stat.
Qed.

Lemma holds_execve_request path a b : Forall u8 path -> u64 a -> u64 b ->
  holds P I (execve_request path a b) (fun r => Forall u8 (ex_guest_path r) /\
    Forall (Forall u8) (ex_argv r) /\ Forall (Forall u8) (ex_envp r)).
Proof.
  intros Hp Ha Hb. eapply holds_bind; [by apply holds_resolve_path|].
  intros [g host|g f] _; [|apply holds_raise].
  eapply holds_bind with (Q := fun _ => True); [by apply holds_proc|]. intros fs _.
  eapply holds_bind; [apply holds_reads; intros k [[] _]; by apply read_string_vector_safe|].
  intros argv Hargv.
  eapply holds_bind; [apply holds_reads; intros k [[] _]; by apply read_string_vector_safe|].
  intros envp Henvp. apply holds_ret. done.
Qed.
End Steps.

Lemma guarded_fd_insert n e : 0 <= n -> (forall nb, entry_ok nb e) ->
  guarded P (during (n + 1)) (during n) (in_fds (fd_insert e)) (fun fd => 0 <= fd < 2 ^ 31).
Proof.
  intros Hn He. apply guarded_in_fds. intros nb lo. apply guarded_insert_slot; [done|apply He].
Qed.

Lemma guarded_open n dirfd path flags : 0 <= n -> Forall u8 path ->
  guarded P (during (n + 1)) (during n) (open_guest_path dirfd path flags) (fun _ => True).
Proof.
  intros Hn Hp.
  assert (forall k, during (n + 1) k -> during n k) as Hless by (intros k; apply during_less; lia).
  assert (forall e, (forall nb, entry_ok nb e) ->
    guarded P (during (n + 1)) (during n) (in_fds (fd_insert e)) (fun _ => True)) as Hins
    by (intros e He; eapply guarded_weaken; [by apply guarded_fd_insert|done]).
  eapply guarded_bind; [by apply holds_resolve_path| |apply Hless]. intros [g host|g f] _.
  - destruct (has_bit flags O_DIRECTORY).
    + eapply guarded_bind with (Q := fun _ => True); [by apply holds_gets| |apply Hless].
      intros b _. destruct (negb b); [intros k Hk; split; [by apply Hless|done]|].
      eapply guarded_bind; [apply holds_reads; intros k _; apply directory_open_safe| |apply Hless].
      intros d Hd. by apply Hins.
    + eapply guarded_bind; [apply holds_in_host, open_file_ok| |apply Hless]. intros file _.
      eapply guarded_bind with (Q := fun _ => True); [| |apply Hless].
      { destruct (has_bit flags O_APPEND); [|by apply holds_ret].
        apply holds_in_host, file_seek_end_ok. }
      intros _ _. by apply Hins.
  - eapply guarded_bind; [apply holds_executable| |apply Hless]. intros exe He.
    eapply guarded_bind; [by apply (holds_open_virtual _ _ _ 0%nat)| |apply Hless].
    intros v Hv. by apply Hins.
Qed.

(** ** Memory *)

Lemma abi_align_up_ok v r : 0 <= v -> align_up v PAGE_SIZE = Ok r -> v <= r <= PAGE_LIMIT.
Proof.
  intros Hv. unfold align_up, PAGE_LIMIT, PAGE_SIZE. destruct (Z.eqb_spec v 0) as [->|];
    [intros [= <-]; lia|].
  unfold mul64, checked_mul. set (q := (v - 1) / 4096 + 1).
  destruct (Z.ltb_spec (q * 4096) (2 ^ 64)); simpl; [|done]. intros [= <-].
  pose proof (Z.div_mod (v - 1) 4096 ltac:(lia)). pose proof (Z.mod_pos_bound (v - 1) 4096 ltac:(lia)).
  unfold q in *. lia.
Qed.

Lemma align_up_total v : 0 <= v <= PAGE_LIMIT -> align_up v PAGE_SIZE <> Panic.
Proof.
  unfold align_up, PAGE_LIMIT, PAGE_SIZE. intros Hv. destruct (Z.eqb_spec v 0); [done|].
  unfold mul64, checked_mul. set (q := (v - 1) / 4096 + 1).
  destruct (Z.ltb_spec (q * 4096) (2 ^ 64)); simpl; [done|].
  pose proof (Z.div_mod (v - 1) 4096 ltac:(lia)). pose proof (Z.mod_pos_bound (v - 1) 4096 ltac:(lia)).
  unfold q in *. lia.
Qed.

(** Rounding up to a page adds less than a page. *)
Lemma align_up_tight v r : 0 <= v -> align_up v PAGE_SIZE = Ok r -> r < v + PAGE_SIZE.
Proof.
  intros Hv. unfold align_up, PAGE_SIZE. destruct (Z.eqb_spec v 0) as [->|]; [by intros [= <-]|].
  unfold mul64, checked_mul. destruct (_ <? _); [|done]. intros [= <-].
  pose proof (Z.div_mod (v - 1) 4096 ltac:(lia)).
  pose proof (Z.mod_pos_bound (v - 1) 4096 ltac:(lia)). lia.
Qed.

Section MemoryCalls.
Context (n : Z).
Abbreviation I := (during n).

Lemma holds_align_up v : 0 <= v -> (P -> v <= PAGE_LIMIT) ->
  holds P I (lift (align_up v PAGE_SIZE)) (fun r => v <= r <= PAGE_LIMIT /\ r < v + PAGE_SIZE).
Proof.
  intros Hv HP. apply holds_lift_if.
  { intros r Hr. split; [by apply abi_align_up_ok|by apply align_up_tight]. }
  intros Hp. apply align_up_total. auto.
Qed.

Lemma holds_map_region a size p name : u64 a -> u64 size -> (P -> size < 2 ^ 63) ->
  holds P I (in_memory (on_mem (map_region a size p name))) (fun _ => True).
Proof.
  intros Ha Hs HP. apply holds_in_memory, (holds_mem_op _ (OpMap a size p name)); [done|].
  intros Hp m. by apply small_not_oversized, HP.
Qed.

Lemma holds_unmap_range a size : u64 a -> u64 size ->
  holds P I (in_memory (on_mem (unmap_range a size))) (fun _ => True).
Proof. intros Ha Hs. by apply holds_in_memory, (holds_mem_op _ (OpUnmapRange a size)). Qed.

Lemma page_limit_u64 v : 0 <= v <= PAGE_LIMIT -> u64 v.
Proof. unfold fits, PAGE_LIMIT, PAGE_SIZE. lia. Qed.

Lemma holds_process_brk requested b : u64 requested ->
  (P -> requested <= PAGE_LIMIT /\ requested - b <= 2 ^ 63 - PAGE_SIZE) ->
  guarded P (fun k => I k /\ p_brk (k_process k) = b) I (process_brk requested) (fun _ => True).
Proof.
  intros Hr HP. unfold process_brk. assert (0 <= requested) by apply Hr.
  eapply guarded_bind with (Q := fun _ => True); [by apply holds_gets| |by intros k []].
  intros base _.
  eapply guarded_bind with (J := I) (Q := fun x => x = b /\ 0 <= b <= PAGE_LIMIT); [| |done].
  { intros k [Hk <-]. split; [done|]. split; [|done]. intros ? [= <-]. split; [done|].
    destruct Hk as [[_ _ Hp _] _]. by destruct Hp. }
  intros brk [-> Hb]. destruct (_ || _); [by apply holds_ret|].
  eapply holds_bind with (Q := fun _ => requested <= PAGE_LIMIT).
  - destruct (Z.ltb_spec requested b); [|destruct (Z.ltb_spec b requested)].
    + eapply holds_bind; [apply holds_align_up; [done|lia]|]. cbv beta. intros x [Hx _].
      eapply holds_bind; [apply holds_align_up; lia|]. cbv beta. intros y [Hy _].
      destruct (Z.ltb_spec x y); [|apply holds_ret; lia].
      eapply guarded_weaken; [apply holds_unmap_range; apply page_limit_u64; lia|]. lia.
    + eapply holds_bind; [apply holds_align_up; [lia|lia]|]. cbv beta. intros x [Hx _].
      eapply holds_bind; [apply holds_align_up; [done|by intros []%HP]|]. cbv beta. intros y [Hy Hty].
      destruct (Z.ltb_spec x y); [|apply holds_ret; lia].
      eapply guarded_weaken; [apply holds_map_region; [apply page_limit_u64; lia..|]|lia].
      intros []%HP. unfold PAGE_SIZE in *. lia.
    + apply holds_ret. lia.
  - intros _ Hl. eapply holds_bind; [|intros _ _; by apply holds_ret].
    apply holds_set_proc. intros nb p []. split; [|done]. split; auto.
Qed.

Lemma holds_mmap_address a size flags : u64 a -> 0 <= size ->
  (P -> size + PAGE_SIZE < 2 ^ 64) -> holds P I (mmap_address a size flags) (fits 64).
Proof.
  intros Ha Hs HP. unfold mmap_address.
  eapply holds_bind with (Q := fun _ => True); [by apply holds_gets|]. intros free _.
  destruct (has_bit flags MAP_FIXED); [by destruct (negb _); [apply holds_raise|apply holds_ret]|].
  destruct (_ && _); [by apply holds_ret|].
  eapply holds_bind with (Q := fits 64); [apply holds_proc; by intros nb p []|]. intros addr Haddr.
  eapply holds_bind; [by apply holds_add64|]. intros step [-> Hstep].
  eapply holds_bind; [|intros _ _; by apply holds_ret].
  apply holds_set_proc. intros nb p []. split; [|done]. split; auto.
  unfold saturating_add, u64_max, PAGE_SIZE, fits in *. simpl. lia.
Qed.

Lemma holds_load_mmap a length fd offset flags : u64 a -> u64 length -> 0 <= offset ->
  (P -> length < 2 ^ 63 /\ offset = 0) ->
  holds P I (load_mmap_backing a length fd offset flags) (fun _ => True).
Proof.
  intros Ha Hl Ho HP. unfold load_mmap_backing. destruct (negb _); [apply holds_raise|].
  eapply holds_bind with (Q := fun _ => True); [apply holds_lift; unfold fd_arg; by destruct (_ <? _)|].
  intros d _. eapply holds_bind with (Q := fun x => x = length); [by apply holds_lift|].
  intros ? ->. eapply holds_bind; [apply holds_capacity; intros Hp; by apply HP|]. intros _ _.
  eapply holds_bind.
  - apply guarded_in_fds. intros nb lo. apply holds_read_sendfile_chunk; [apply Hl|done|].
    intros Hp. by apply HP.
  - intros r (Hr & _). destruct (0 <? len r.1); [|by apply holds_ret].
    by apply holds_in_memory, (holds_mem_op _ (OpLoad a r.1)).
Qed.

Lemma holds_mmap a length prot flags fd offset : u64 a -> u64 length -> 0 <= offset ->
  (P -> length <= 2 ^ 63 - PAGE_SIZE /\ (has_bit flags MAP_ANONYMOUS = true \/ offset = 0)) ->
  holds P I (mmap a length prot flags fd offset) (fun _ => True).
Proof.
  intros Ha Hl Ho HP. unfold mmap. destruct (length =? 0); [apply holds_raise|].
  destruct (negb (offset mod PAGE_SIZE =? 0)); [apply holds_raise|].
  assert (0 <= length) by apply Hl.
  eapply holds_bind; [apply holds_align_up; [done|intros []%HP; unfold PAGE_LIMIT, PAGE_SIZE in *; lia]|].
  cbv beta. intros size [Hs Htight].
  assert (P -> size < 2 ^ 63) as Hsmall by (intros []%HP; unfold PAGE_SIZE in *; lia).
  assert (P -> size + PAGE_SIZE < 2 ^ 64) as Hroom
    by (intros Hp%Hsmall; unfold PAGE_SIZE in *; lia).
  eapply holds_bind; [apply holds_mmap_address; [done|lia|done]|]. intros addr Haddr.
  assert (u64 size) by (apply page_limit_u64; lia).
  eapply holds_bind with (Q := fun _ => True).
  { destruct (has_bit flags MAP_FIXED); [by apply holds_unmap_range|by apply holds_ret]. }
  intros _ _. eapply holds_bind; [by apply holds_map_region|]. intros _ _.
  eapply holds_bind with (Q := fun _ => True); [|intros _ _; by apply holds_ret].
  destruct (has_bit flags MAP_ANONYMOUS) eqn:Hanon; [by apply holds_ret|].
  apply holds_load_mmap; [done..|]. intros Hp.
  destruct (HP Hp) as [? [|]]; [done|]. unfold PAGE_SIZE in *. by split; [lia|].
Qed.

Lemma holds_munmap args : u64 (arg args 0) -> u64 (arg args 1) ->
  (P -> arg args 1 <= PAGE_LIMIT) -> holds P I (syscall_munmap args) (fun _ => True).
Proof.
  intros Ha Hs HP. unfold syscall_munmap. assert (0 <= arg args 1) by apply Hs.
  eapply holds_bind; [by apply holds_align_up|]. cbv beta. intros size [Hsize _].
  eapply holds_bind; [apply holds_unmap_range; [done|apply page_limit_u64; lia]|].
  intros _ _. by apply holds_ret.
Qed.

Lemma holds_mprotect args : u64 (arg args 0) -> u64 (arg args 1) ->
  (P -> arg args 1 <= PAGE_LIMIT) -> holds P I (syscall_mprotect args) (fun _ => True).
Proof.
  intros Ha Hs HP. unfold syscall_mprotect. assert (0 <= arg args 1) by apply Hs.
  eapply holds_bind; [by apply holds_align_up|]. cbv beta. intros size [Hsize _].
  eapply holds_bind with (Q := fun x => x = size); [by apply holds_lift|]. intros ? ->.
  eapply holds_bind; [|intros _ _; by apply holds_ret].
  apply holds_in_memory, (holds_mem_op _ (OpProtect (arg args 0) size _)); [|done].
  split; [done|apply page_limit_u64; lia].
Qed.
End MemoryCalls.

(** ** The terminal, vectored transfers and simple calls *)

#[local] Hint Extern 1 (guarded _ _ _ (in_memory _) _) =>
  apply holds_in_memory; solve [eauto 3 with kernel] : kernel.

Section Calls.
Context (n : Z).
Abbreviation I := (during n).

Lemma holds_fd_arg v : holds P I (lift (fd_arg v)) (fun x => x = v /\ v < 2 ^ 31).
Proof. apply holds_lift. unfold fd_arg. by destruct (Z.ltb_spec v (2 ^ 31)). Qed.

Lemma holds_usize_arg v : holds P I (lift (usize_arg v)) (fun x => x = v).
Proof. by apply holds_lift. Qed.

Lemma holds_proc_any {A} (f : LinuxProcess -> A) : holds P I (proc f) (fun _ => True).
Proof. by apply holds_proc. Qed.
#[local] Hint Resolve holds_fd_arg holds_usize_arg holds_path_arg : kernel.
#[local] Hint Resolve holds_proc_any | 5 : kernel.

Lemma holds_require_terminal fd : holds P I (require_terminal_fd fd) (fun _ => True).
Proof.
  unfold require_terminal_fd. eapply holds_bind with (Q := fun _ => True).
  - apply guarded_in_fds. intros nb lo. apply holds_reads. intros s _.
    by apply safe_ok_or.
  - intros slot _. destruct (entry slot); by first [apply holds_ret|apply holds_raise].
Qed.
#[local] Hint Resolve holds_require_terminal : kernel.

Lemma holds_unless_null a body : holds P I body (fun _ => True) ->
  holds P I (unless_null a body) (fun _ => True).
Proof. intros Hb. unfold unless_null. destruct (a =? 0); [by apply holds_ret|done]. Qed.

Lemma holds_terminal : holds P I (proc p_terminal) (fun t => termios_ok (termios t)).
Proof. apply holds_proc. by intros nb p []. Qed.

Lemma holds_set_terminal t : termios_ok (termios t) ->
  holds P I (set_proc (set_p_terminal t)) (fun _ => True).
Proof. intros Ht. apply holds_set_proc. intros nb p []. split; [by split|done]. Qed.

Lemma apply_host_mode_behaves t : behaves (apply_host_mode t) (fun _ => True).
Proof.
  apply behaves_on_host. intros w. unfold set_raw_mode. destruct (negb _); [done|].
  destruct (termios_raw_mode _); [apply enable_raw_mode_ok|apply disable_raw_mode_ok].
Qed.

Lemma holds_read_termios t a : holds P wf (read_termios t a) (fun t => termios_ok (termios t)).
Proof.
  eapply holds_bind; [apply holds_termios_read|]. intros x Hx. by apply holds_ret.
Qed.

Lemma holds_read_winsize t a : termios_ok (termios t) ->
  holds P wf (read_winsize t a) (fun t => termios_ok (termios t)).
Proof.
  intros Ht. eapply holds_bind; [apply holds_winsize_read|]. intros x _. by apply holds_ret.
Qed.

Lemma holds_ioctl fd request a : holds P I (ioctl fd request a) (fun _ => True).
Proof.
  unfold ioctl. repeat case_match; try apply holds_raise;
    (eapply holds_bind; [apply holds_require_terminal|]; intros _ _; try (by apply holds_ret);
     (eapply holds_bind; [apply holds_unless_null|intros _ _; by apply holds_ret])).
  - eapply holds_bind; [apply holds_proc_any|]. intros t _.
    eapply holds_bind with (Q := fun _ => True); [by apply holds_gets|]. intros w _.
    apply holds_in_memory, holds_winsize_write.
  - eapply holds_bind; [apply holds_terminal|]. intros t Ht.
    eapply holds_bind; [by apply holds_in_memory, holds_read_winsize|]. intros t' Ht'.
    by apply holds_set_terminal.
  - eapply holds_bind; [apply holds_terminal|]. intros t Ht.
    by apply holds_in_memory, holds_termios_write.
  - eapply holds_bind; [apply holds_terminal|]. intros t Ht.
    eapply holds_bind; [by apply holds_in_memory, holds_read_termios|]. intros t' Ht'.
    eapply holds_bind; [by apply holds_set_terminal|]. intros _ _.
    apply holds_in_world, holds_behaves, apply_host_mode_behaves.
  - eapply holds_bind; [apply holds_proc_any|]. intros g _. h_go.
Qed.

(** The entries of [poll] follow each other: each one is read before the next. *)
Lemma holds_poll_loop cnt a index ready : 0 <= a -> 0 <= index -> a + index * 8 < 2 ^ 64 ->
  holds P I (poll_loop cnt a index ready) (fun _ => True).
Proof.
  intros Ha. revert index ready. induction cnt as [|cnt IH]; intros index ready Hi Hlt;
    [by apply holds_ret|]. cbn [poll_loop].
  eapply holds_bind with (Q := fun x => x = index * 8).
  { apply holds_lift_if; unfold mul64, checked_mul;
      destruct (Z.ltb_spec (index * 8) (2 ^ 64)); simpl; congruence || lia. }
  intros ? ->. h_step. destruct_and?. subst. h_step. h_step. destruct_and?. subst. h_step.
  eapply holds_bind with (Q := fun _ => True).
  { apply guarded_in_fds. intros. by apply holds_gets. }
  intros revents _. h_step. destruct_and?. subst. h_step. apply IH; lia.
Qed.

Lemma holds_read_iovec a index : 0 <= a -> 0 <= index -> a + index * 16 < 2 ^ 64 ->
  holds P I (read_iovec a index) (fun e => u64 e.1 /\ u64 e.2 /\ a + (index + 1) * 16 < 2 ^ 64).
Proof.
  intros Ha Hi Hlt. unfold read_iovec.
  eapply holds_bind with (Q := fun x => x = index * 16).
  { apply holds_lift_if; unfold mul64, checked_mul;
      destruct (Z.ltb_spec (index * 16) (2 ^ 64)); simpl; congruence || lia. }
  intros ? ->. h_step. destruct_and?. subst. h_step. h_step. destruct_and?. subst. h_step. h_step.
  subst. apply holds_ret. simpl in *. destruct_and?. split; [done|]. split; [done|]. lia.
Qed.

(** ** Vectored transfers *)

(** The calls whose buffers are bounded: at most [IOV_MAX] buffers, in regions
    below [REGION_LIMIT] bytes. *)
Definition IOV_MAX : Z := 1024.
Definition REGION_LIMIT : Z := 2 ^ 52.

Definition small_regions (m : GuestMemory) : Prop :=
  Forall (fun r => r_size r < REGION_LIMIT) (regions m).

Lemma in_fds_memory {A} (m : FdM A) k : k_memory (in_fds m k).2 = k_memory k.
Proof. unfold in_fds, zoom. by destruct (m _). Qed.

Lemma read_iovec_memory a index k : k_memory (read_iovec a index k).2 = k_memory k.
Proof.
  unfold read_iovec, mbind, st_bind, lift, in_memory, read_mem, zoom, reads.
  repeat (case_match; simplify_eq/=; try done).
Qed.

(** A step that leaves the memory alone keeps what is known of it. *)
Lemma holds_same_memory {A} (m : KM A) Q m0 : (forall k, k_memory (m k).2 = k_memory k) ->
  holds P I m Q -> holds P (fun k => I k /\ k_memory k = m0) m Q.
Proof.
  intros Hk Hm k [Hi Heq]. destruct (Hm k Hi) as (?&?&?). split; [|done].
  split; [done|]. by rewrite Hk.
Qed.

Lemma read_small m a c bs : wf m -> 0 <= c -> small_regions m -> read_bytes m a c = Ok bs ->
  len bs < REGION_LIMIT.
Proof.
  intros Hm Hc Hs Hr. apply read_bytes_inv in Hr as (r & Hr & _ & Hl & _); [|done..].
  apply region_Ok in Hr as (Hin & _ & Hlo & Hhi). unfold small_regions in Hs.
  rewrite Forall_forall in Hs. specialize (Hs r Hin). unfold r_end in *. lia.
Qed.

Lemma holds_writev_loop cnt fd a index total m0 : 0 <= a -> 0 <= index ->
  a + index * 16 < 2 ^ 64 -> 0 <= total ->
  (P -> small_regions m0 /\ index + Z.of_nat cnt <= IOV_MAX /\ total <= index * REGION_LIMIT) ->
  holds P (fun k => I k /\ k_memory k = m0) (writev_loop cnt fd a index total) (fun _ => True).
Proof.
  intros Ha. revert index total. induction cnt as [|cnt IH]; intros index total Hi Hlt Ht HP;
    [by apply holds_ret|]. cbn [writev_loop].
  eapply holds_bind; [apply holds_same_memory; [apply read_iovec_memory|by apply holds_read_iovec]|].
  intros e (He1 & He2 & Hnext). cbv zeta. destruct (e.2 =? 0).
  { apply IH; [lia|lia|lia|]. intros Hp. destruct (HP Hp) as (?&?&?). split; [done|].
    unfold REGION_LIMIT in *. lia. }
  eapply holds_bind with (Q := fun bs => Forall u8 bs /\ (P -> len bs < REGION_LIMIT)).
  { intros k [[Hk Hr] Heq]. simpl. rewrite Heq.
    assert (wf m0) as Hm by (rewrite <- Heq; apply Hk).
    pose proof (read_bytes_safe m0 e.1 e.2 Hm (proj1 He2)) as Hs.
    split; [by destruct k; simplify_eq/=|].
    destruct (read_bytes m0 e.1 e.2) as [bs|er|] eqn:Hrd; simpl in *; [|done..].
    split; [|done]. intros ? [= <-]. split; [apply Hs|]. intros Hp.
    destruct (HP Hp). by eapply read_small, Hrd; [|apply He2|]. }
  intros bs [Hb Hsmall].
  eapply holds_bind; [apply holds_same_memory; [apply in_fds_memory|apply guarded_in_fds;
    intros nb lo; by apply holds_write]|]. cbv beta. intros c Hc.
  eapply holds_bind; [apply holds_add64|].
  { intros Hp. destruct (HP Hp) as (_ & ? & ?). specialize (Hsmall Hp).
    unfold REGION_LIMIT, IOV_MAX in *. lia. }
  intros t [-> Hov]. apply IH; [lia|lia|lia|]. intros Hp. destruct (HP Hp) as (?&?&?).
  specialize (Hsmall Hp). split; [done|]. unfold REGION_LIMIT in *. lia.
Qed.

(** [readv] may change the vector it reads from: only its invariant is claimed. *)
Lemma holds_readv_loop cnt fd a index total : 0 <= a -> 0 <= index ->
  a + index * 16 < 2 ^ 64 -> (P -> False) ->
  holds P I (readv_loop cnt fd a index total) (fun _ => True).
Proof.
  intros Ha Hi Hlt HP. revert index total Hi Hlt. induction cnt as [|cnt IH];
    intros index total Hi Hlt; [by apply holds_ret|]. cbn [readv_loop].
  eapply holds_bind; [by apply holds_read_iovec|].
  intros e (He1 & He2 & Hnext). destruct (e.2 =? 0); [apply IH; lia|].
  eapply holds_bind; [apply holds_capacity; by intros Hp%HP|]. intros _ _.
  eapply holds_bind; [apply guarded_in_fds; intros nb lo; apply holds_read; [apply He2|]; by intros Hp%HP|].
  intros bs [Hb Hl]. h_step. eapply holds_bind; [apply holds_add64; by intros Hp%HP|].
  intros t [-> _]. destruct (_ <? _); [by apply holds_ret|]. apply IH; lia.
Qed.

Lemma holds_sendfile out fd a c : u64 c -> (P -> a = 0) ->
  holds P I (sendfile out fd a c) (fun _ => True).
Proof.
  intros Hc HP. unfold sendfile. destruct (c =? 0); [by apply holds_ret|].
  eapply holds_bind with (Q := fun o =>
    match o with Some o => 0 <= o | None => True end /\ (P -> o = None)).
  { destruct (Z.eqb_spec a 0); [by apply holds_ret|]. h_step. apply holds_ret.
    split; [apply H0|]. intros Hp. by destruct n0; apply HP. }
  intros offset [Ho Hp]. eapply holds_bind.
  { apply guarded_in_fds. intros nb lo. by apply holds_sendfile_loop. }
  intros r _. eapply holds_bind with (Q := fun _ => True); [|intros _ _; by apply holds_ret].
  destruct r.2; [h_go|by apply holds_ret].
Qed.

(** ** Simple calls *)

Lemma holds_syscall_read args : u64 (arg args 2) -> (P -> arg args 2 < 2 ^ 63) ->
  holds P I (syscall_read args) (fun _ => True).
Proof.
  intros Hn HP. unfold syscall_read. h_step. h_step. subst.
  eapply holds_bind; [by apply holds_capacity|]. intros _ _.
  eapply holds_bind; [apply guarded_in_fds; intros nb lo; apply holds_read; [apply Hn|done]|].
  intros bs [Hb Hl]. h_go.
Qed.

Lemma holds_syscall_write args : u64 (arg args 2) ->
  holds P I (syscall_write args) (fun _ => True).
Proof.
  intros Hn. unfold syscall_write. h_step. h_step. subst.
  eapply holds_bind; [apply holds_in_memory, holds_read_mem; intros m Hm;
    apply read_bytes_safe; [done|apply Hn]|].
  intros bs (_ & Hb & _). eapply guarded_weaken; [|done].
  apply guarded_in_fds. intros nb lo. by apply holds_write.
Qed.

Lemma holds_syscall_getdents args : (P -> arg args 2 < 2 ^ 63) ->
  holds P I (syscall_getdents64 args) (fun _ => True).
Proof.
  intros HP. unfold syscall_getdents64. h_step. h_step. subst.
  eapply holds_bind; [by apply holds_capacity|]. intros _ _.
  eapply holds_bind; [apply guarded_in_fds; intros nb lo; apply holds_getdents64|].
  intros bs Hb. h_go.
Qed.

Lemma holds_syscall_getrandom args : (P -> arg args 1 < 2 ^ 63) ->
  holds P I (syscall_getrandom args) (fun _ => True).
Proof.
  intros HP. unfold syscall_getrandom. h_step. subst.
  eapply holds_bind with (Q := Forall u8).
  { apply holds_lift_if; unfold deterministic_random, capacity.
    - intros bs. destruct (_ <? _); simpl; [|done]. intros [= <-]. apply xorshift_u8.
    - intros Hp. specialize (HP Hp). destruct (Z.ltb_spec (arg args 1) (2 ^ 63)); [done|lia]. }
  intros bs Hb. h_go.
Qed.

Lemma holds_duplicate_to_call old new cl : 0 <= n -> 0 <= new -> (P -> new + 1 + n < 2 ^ 31) ->
  holds P I (in_fds (duplicate_to old new cl)) (fun _ => True).
Proof.
  intros Hn Hnew HP. eapply guarded_weaken; [|done]. apply guarded_in_fds. intros nb lo.
  by apply holds_duplicate_to.
Qed.

Lemma holds_syscall_dup2 args : 0 <= n -> u64 (arg args 1) ->
  (P -> arg args 1 < 2 ^ 31 -> arg args 1 + 1 + n < 2 ^ 31) ->
  holds P I (syscall_dup2 args) (fun _ => True).
Proof.
  intros Hn Ha HP. unfold syscall_dup2. h_step. h_step. destruct_and?. subst.
  apply holds_duplicate_to_call; [done|apply Ha|auto].
Qed.

Lemma holds_syscall_dup3 args : 0 <= n -> u64 (arg args 1) ->
  (P -> arg args 1 < 2 ^ 31 -> arg args 1 + 1 + n < 2 ^ 31) ->
  holds P I (syscall_dup3 args) (fun _ => True).
Proof.
  intros Hn Ha HP. unfold syscall_dup3. destruct (_ =? _); [apply holds_raise|].
  h_step. h_step. destruct_and?. subst.
  apply holds_duplicate_to_call; [done|apply Ha|auto].
Qed.

Lemma holds_syscall_arch_prctl args : u64 (arg args 1) ->
  holds P I (syscall_arch_prctl args) (fun _ => True).
Proof.
  intros Ha. unfold syscall_arch_prctl. h_step.
  - eapply holds_bind; [|intros _ _; by apply holds_ret].
    apply holds_set_proc. intros nb p []. split; [by split|done].
  - h_go.
Qed.

Lemma holds_syscall_setpgid args : holds P I (syscall_setpgid args) (fun _ => True).
Proof.
  unfold syscall_setpgid. eapply holds_bind; [|intros _ _; by apply holds_ret].
  apply holds_set_proc. intros nb p []. split; [by split|done].
Qed.

Lemma holds_syscall_getcwd args : holds P I (syscall_getcwd args) (fun _ => True).
Proof.
  unfold syscall_getcwd. eapply holds_bind with (Q := fun g => Forall u8 (raw g)).
  { apply holds_proc. by intros nb p []. }
  intros cwd Hc. cbv zeta. h_step. subst. h_step; [h_step|].
  eapply holds_bind; [apply holds_in_memory, holds_write_bytes|intros _ _; by apply holds_ret].
  apply Forall_app. split; [done|]. repeat constructor; unfold fits; lia.
Qed.

Lemma holds_syscall_chdir args : u64 (arg args 0) ->
  holds P I (syscall_chdir args) (fun _ => True).
Proof.
  intros Ha. unfold syscall_chdir. h_step.
  eapply holds_bind; [by apply holds_resolve_path|]. intros r [Hr Hu].
  destruct (resolved_host r) as [host|]; [|apply holds_raise].
  eapply holds_bind with (Q := fun _ => True); [by apply holds_gets|]. intros b _.
  destruct (negb b); [apply holds_raise|].
  eapply holds_bind; [|intros _ _; by apply holds_ret].
  apply holds_set_proc. intros nb p []. split; [by split|done].
Qed.

Lemma holds_syscall_access args : u64 (arg args 0) ->
  holds P I (syscall_access args) (fun _ => True).
Proof.
  intros Ha. unfold syscall_access. h_step.
  eapply holds_bind; [by apply holds_resolve_path|]. intros [g host|g f] _; [|by apply holds_ret].
  eapply holds_bind with (Q := fun _ => True); [by apply holds_gets|]. intros b _. h_go.
Qed.

Lemma holds_syscall_readlink args : u64 (arg args 0) -> u64 (arg args 2) ->
  holds P I (syscall_readlink args) (fun _ => True).
Proof.
  intros Ha Hm. unfold syscall_readlink. h_step.
  eapply holds_bind; [by apply holds_resolve_path|]. intros r _.
  eapply holds_bind with (Q := Forall u8).
  { destruct r as [g host|g f]; [|destruct f; try apply holds_raise; apply holds_executable].
    eapply holds_bind; [apply holds_reads; intros k _; apply safe_map_err, read_link_ok|].
    intros t [Ht _]. apply holds_ret. by apply to_string_lossy_ok. }
  intros target Ht. h_step. subst. cbv zeta.
  eapply holds_bind; [apply holds_slice; intros _; pose proof (len_nonneg target);
    pose proof (proj1 Hm); lia|].
  intros bs (_ & _ & _ & Hb). specialize (Hb _ Ht). h_go.
Qed.

Lemma holds_syscall_clock_gettime args : holds P I (syscall_clock_gettime args) (fun _ => True).
Proof.
  unfold syscall_clock_gettime. eapply holds_bind with (Q := fun _ => True); [|intros now _; h_go].
  apply holds_in_world. unfold clock_now. destruct (_ || _); [|apply holds_raise].
  apply holds_behaves. intros w. unfold zoom. pose proof (system_time_ok w) as Hs.
  destruct (system_time w) as [r w']; simpl in *. destruct r; done.
Qed.

Lemma holds_syscall_nanosleep args : holds P I (syscall_nanosleep args) (fun _ => True).
Proof.
  unfold syscall_nanosleep. h_step. eapply holds_bind with (Q := fun _ => True).
  { h_go. }
  intros _ _. eapply holds_bind; [|intros _ _; by apply holds_ret].
  apply holds_in_world. by apply holds_modify.
Qed.

Lemma holds_syscall_times args : u64 (arg args 0) ->
  holds P I (syscall_times args) (fun _ => True).
Proof.
  intros [Ha0 Ha]. unfold syscall_times. eapply holds_bind with (Q := fun _ => True);
    [|intros _ _; by apply holds_ret].
  destruct (arg args 0 =? 0); [by apply holds_ret|]. cbn [for_each].
  do 4 (eapply holds_bind; [eapply holds_bind; [apply holds_add64; intros; lia|];
    intros x [-> _]; apply holds_in_memory, holds_write_u64|]; cbv beta; intros _ ?).
  by apply holds_ret.
Qed.

Lemma holds_syscall_set_tid args : u64 (arg args 0) ->
  holds P I (syscall_set_tid_address args) (fun _ => True).
Proof.
  intros Ha. unfold syscall_set_tid_address.
  eapply holds_bind; [apply holds_set_proc; intros nb p []; split; [by split|done]|]. intros _ _.
  eapply holds_bind; [apply holds_proc_any|]. intros tid _.
  eapply holds_bind; [apply holds_unless_null; h_go|]. intros _ _. by apply holds_ret.
Qed.

(** ** The process table *)

Lemma holds_with_table {A} (f : ProcessTable -> A * ProcessTable) :
  (forall nb t, ptable_ok nb t -> ptable_ok nb (f t).2) ->
  holds P I (with_table f) (fun _ => True).
Proof.
  intros Hf k [[Hm Hb Hp Ht] Hr]. unfold with_table. destruct (k_table k) as [t|] eqn:Ek.
  - specialize (Hf _ t (Ht t eq_refl)). destruct (f t) as [a t']; simpl in *.
    split; [|done]. split; [|done]. split; simpl; auto. by intros ? [= <-].
  - simpl. split; [|done]. split; [|done]. split; auto. by rewrite Ek.
Qed.
End Calls.

Lemma alter_ok nb (f : ProcessRecord -> ProcessRecord) pid t :
  (forall r, record_ok nb r -> record_ok nb (f r)) -> ptable_ok nb t ->
  ptable_ok nb (set_records (alter f pid) t).
Proof.
  intros Hf [Hr Hn]. split; simpl; [|done]. intros pid' r'.
  rewrite lookup_alter_Some. intros [(-> & r & Hl & ->)|[_ Hl]]; eauto.
Qed.

Lemma mark_exited_ok nb code r : record_ok nb r -> record_ok nb (mark_exited code r).
Proof.
  intros [Hp Hm Ht]. split; simpl; auto. intros tid th. rewrite lookup_fmap_Some.
  intros (th' & <- & Hl). simpl. eauto.
Qed.

Lemma wake_ok nb r : record_ok nb r -> record_ok nb (wake r).
Proof.
  intros [Hp Hm Ht]. split; simpl; auto. intros tid th. rewrite lookup_fmap_Some.
  intros (th' & <- & Hl). unfold wake_thread. destruct (decide _); simpl; eauto.
Qed.

Lemma set_children_ok nb l r : record_ok nb r -> record_ok nb (set_pr_children l r).
Proof. intros []. by split. Qed.

Lemma insert_record_ok nb pid r t : record_ok nb r -> ptable_ok nb t ->
  ptable_ok nb (insert_record pid r t).
Proof.
  intros Hr [Ht Hn]. split; simpl; [|done]. intros pid' r'. rewrite lookup_insert_Some.
  intros [[_ <-]|[_ ?]]; eauto.
Qed.

Lemma set_wait_queues_ok nb f t : ptable_ok nb t -> ptable_ok nb (set_wait_queues f t).
Proof. intros []. by split. Qed.

Lemma delete_record_ok nb pid t : ptable_ok nb t -> ptable_ok nb (set_records (delete pid) t).
Proof.
  intros [Ht Hn]. split; simpl; [|done]. intros pid' r'. rewrite lookup_delete_Some.
  intros [_ ?]. eauto.
Qed.
#[local] Hint Resolve alter_ok mark_exited_ok wake_ok set_children_ok insert_record_ok
  set_wait_queues_ok delete_record_ok : kernel.

Lemma exit_process_ok nb pid code t : ptable_ok nb t -> ptable_ok nb (exit_process pid code t).
Proof.
  intros Ht. unfold exit_process. destruct (_ ≫= _); unfold push_exit; auto 6 with kernel.
Qed.

Lemma record_exit_ok nb pid parent code t : ptable_ok nb t ->
  ptable_ok nb (record_exit pid parent code t).
Proof.
  intros Ht. unfold record_exit. pose proof (exit_process_ok nb pid code t Ht).
  destruct parent as [parent|]; [|done]. apply alter_ok; [apply wake_ok|].
  destruct (match _ with Some _ => _ | None => _ end); unfold push_exit; auto with kernel.
Qed.

Lemma wait4_ok nb parent requested t : ptable_ok nb t ->
  ptable_ok nb (wait4 parent requested t).2.
Proof.
  intros Ht. unfold wait4. destruct (wait_queues t !! parent) as [q|]; [|done].
  destruct (pop_matching requested q) as [[[pid status]|] q']; simpl; auto 7 with kernel.
Qed.

(** The paths and vectors of an [execve] request are made of bytes. *)
Definition outcome_ok (o : SyscallOutcome) : Prop :=
  match o with
  | Execve r => Forall u8 (ex_guest_path r) /\ Forall (Forall u8) (ex_argv r) /\
                Forall (Forall u8) (ex_envp r)
  | _ => True
  end.

Section TableCalls.
Context (n : Z).
Abbreviation I := (during n).

Lemma holds_syscall_exit args : holds P I (syscall_exit args) outcome_ok.
Proof.
  unfold syscall_exit. eapply holds_bind; [apply holds_proc_any|]. intros pid _.
  eapply holds_bind; [apply holds_with_table|intros _ _; by apply holds_ret].
  intros nb t. apply exit_process_ok.
Qed.

Lemma holds_syscall_wait4 args : holds P I (syscall_wait4 args) outcome_ok.
Proof.
  unfold syscall_wait4. cbv zeta. eapply holds_bind; [apply holds_proc_any|]. intros self _.
  eapply holds_bind; [apply holds_with_table; intros nb t; apply wait4_ok|].
  intros [[[pid status]|]|] _.
  - eapply holds_bind; [apply holds_unless_null; h_go|]. intros _ _. by apply holds_ret.
  - eapply holds_bind with (Q := fun _ => True); [by apply holds_gets|]. intros b _.
    destruct b; [apply holds_ret; by destruct (has_bit _ _)|apply holds_raise].
  - eapply holds_bind; [apply holds_unless_null; h_go|]. intros _ _. by apply holds_ret.
Qed.

Lemma holds_syscall_execve args : u64 (arg args 0) -> u64 (arg args 1) -> u64 (arg args 2) ->
  holds P I (syscall_execve args) outcome_ok.
Proof.
  intros Ha Hb Hc. unfold syscall_execve.
  eapply holds_bind; [by apply holds_path_arg|]. intros path Hp.
  eapply holds_bind; [by apply holds_execve_request|]. intros r Hr. by apply holds_ret.
Qed.
End TableCalls.

Lemma guarded_syscall_pipe args cl : u64 (arg args 0) ->
  guarded P (during 2) (during 0) (syscall_pipe args cl) (fun _ => True).
Proof.
  intros Ha. unfold syscall_pipe.
  eapply guarded_bind; [apply guarded_in_fds; intros nb lo; by apply (guarded_pipe _ _ _ 0)| |done].
  intros fds [H1 H2]. h_step. h_step. destruct_and?. subst. h_go.
Qed.

(** ** Forking *)

(** Room for one more process. *)
Definition fork_room (k : Kernel) : Prop :=
  p_fs_base (k_process k) + GLIBC_PTHREAD_TID_OFFSET < 2 ^ 64 /\
  p_next_child_pid (k_process k) + 1 < 2 ^ 32 /\
  match k_table k with
  | Some t => next_pid t + Z.of_nat (size (records t)) + 1 < 2 ^ 32
  | None => True
  end.

Lemma allocate_loop_no_panic fuel rs next : next + Z.of_nat fuel < 2 ^ 32 ->
  allocate_loop fuel rs next <> Some Panic.
Proof.
  revert next. induction fuel as [|fuel IH]; intros next Hn; [done|].
  cbn [allocate_loop]. unfold add_u32. destruct (Z.ltb_spec (next + 1) (2 ^ 32)); [|lia].
  destruct (rs !! next); [|done]. apply IH. lia.
Qed.

Lemma allocate_pid_no_panic t : next_pid t + Z.of_nat (size (records t)) + 1 < 2 ^ 32 ->
  allocate_pid t <> Panic.
Proof.
  intros Hr. unfold allocate_pid.
  pose proof (allocate_loop_no_panic (S (size (records t))) (records t) (next_pid t)) as Hn.
  destruct (allocate_loop _ _ _) as [r|] eqn:Hl.
  - cbn [default mbind res_bind]. destruct r; [done|done|]. destruct Hn; [lia|done].
  - exfalso. pose proof (allocate_loop_None _ _ _ Hl) as Hall.
    assert (S (size (records t)) <= size (records t))%nat; [|lia].
    apply (consecutive_keys _ (next_pid t)). intros i Hi. apply Hall. lia.
Qed.

Lemma holds_child_memory p : (P -> p_fs_base p + GLIBC_PTHREAD_TID_OFFSET < 2 ^ 64) ->
  holds P wf (child_memory p) (fun _ => True).
Proof.
  intros HP. unfold child_memory. eapply holds_bind with (Q := fun _ => True).
  { destruct (_ =? 0); [by apply holds_ret|]. eapply guarded_weaken; [apply holds_write_u32|done]. }
  intros _ _. destruct (_ =? 0); [by apply holds_ret|].
  eapply holds_bind; [by apply holds_add64|]. intros a [-> _].
  eapply holds_bind with (Q := fun _ => True); [by apply holds_gets|]. intros [x|] _;
    [|by apply holds_ret]. eapply guarded_weaken; [apply holds_write_u32|done].
Qed.

(** The process of a child: in order for the buffers there are afterwards. *)
Lemma try_clone_ok p x sh : process_ok (length (buffers sh)) p ->
  Forall (Forall u8) (buffers sh) -> 0 <= x -> x + 1 < 2 ^ 32 ->
  let '(r, sh') := try_clone_for_child p x sh in
  (length (buffers sh) <= length (buffers sh'))%nat /\ Forall (Forall u8) (buffers sh') /\
  safe r (fun c => process_ok (length (buffers sh)) c /\ p_fs_base c = p_fs_base p).
Proof.
  intros Hp Hb Hx Hlt. unfold try_clone_for_child, add_u32.
  destruct (Z.ltb_spec (x + 1) (2 ^ 32)); [|lia].
  destruct (guarded_duplicate_all True (length (buffers sh)) 0 0 (mkFdState (p_fd_table p) sh))
    with (s := mkFdState (p_fd_table p) sh) as (H1 & H2 & H3); [|done|].
  { split; simpl; auto; [apply Hp|apply Hp|]. intros _. pose proof (table_next _ _ (po_table _ _ Hp)).
    lia. }
  destruct (duplicate_all _) as [r s]; simpl in *. destruct H1 as [Hl Hy _ _ _].
  split; [done|]. split; [done|]. specialize (H3 Logic.I).
  destruct r as [t|e|]; simpl; [|done|done]. split; [|done]. destruct Hp.
  split; simpl; auto; unfold fits; lia.
Qed.

Lemma fork_from_process_ok p m regs t sh : wf m -> wf_registers regs ->
  process_ok (length (buffers sh)) p -> Forall (Forall u8) (buffers sh) ->
  ptable_ok (length (buffers sh)) t ->
  (P -> p_fs_base p + GLIBC_PTHREAD_TID_OFFSET < 2 ^ 64 /\
        next_pid t + Z.of_nat (size (records t)) + 1 < 2 ^ 32) ->
  let '(r, (t', sh')) := fork_from_process p m regs (t, sh) in
  (length (buffers sh) <= length (buffers sh'))%nat /\ Forall (Forall u8) (buffers sh') /\
  ptable_ok (length (buffers sh)) t' /\ (P -> r <> Panic).
Proof.
  intros Hm Hregs Hp Hb Ht HP. unfold fork_from_process.
  pose proof (allocate_pid_no_panic t) as Hroom.
  destruct (allocate_pid_spec t) as [E|(x & -> & Hx & Hfree & Hlt)].
  { rewrite E in *. do 3 (split; [done|]). intros Hp'. by destruct Hroom; [apply HP|]. }
  assert (0 <= x) by (destruct Ht; lia).
  assert (ptable_ok (length (buffers sh)) (mkProcessTable (records t) (wait_queues t) (x + 1)))
    as Ht1 by (destruct Ht; split; simpl; auto; lia).
  pose proof (try_clone_ok p x sh Hp Hb ltac:(done) Hlt) as Hc.
  destruct (try_clone_for_child p x sh) as [[c|e|] sh']; destruct Hc as (Hl & Hy & Hc);
    simpl in Hc; [|by do 3 (split; [done|])|done].
  destruct Hc as [Hc Hfs].
  destruct (holds_child_memory c) with (s := m) as (Hw & _ & Hnp); [|done|].
  { intros Hp'. rewrite Hfs. by apply HP. }
  destruct (child_memory c m) as [[[]|e|] m']; simpl in *;
    (split; [done|]); (split; [done|]); [|done|split; [done|]; intros Hp'; by destruct (Hnp Hp')].
  split; [|done]. apply alter_ok; [intros r; apply set_children_ok|].
  apply set_wait_queues_ok, set_wait_queues_ok, insert_record_ok; [|done].
  split; simpl; [done|done|]. intros tid th. rewrite lookup_singleton_Some. intros [_ <-].
  simpl. apply (slot_set_wf Srax); [done|]. unfold fits. lia.
Qed.

Lemma guarded_syscall_fork n regs : (forall r, regs = Some r -> wf_registers r) ->
  guarded P (fun k => during n k /\ (P -> fork_room k)) (during n) (syscall_fork regs)
    (fun _ => True).
Proof.
  intros Hregs k [Hk HP]. pose proof Hk as [[Hm Hb Hp Ht] Hr]. unfold syscall_fork, fork_room in *.
  assert (holds P (fun k' => k' = k) (lift (add_u32 (p_next_child_pid (k_process k)) 1) : KM Z)
    (fun next => next = p_next_child_pid (k_process k) + 1 /\
                 p_next_child_pid (k_process k) + 1 < 2 ^ 32)) as Hnext.
  { apply holds_lift_if; unfold add_u32.
    - intros a. destruct (Z.ltb_spec (p_next_child_pid (k_process k) + 1) (2 ^ 32)); [by intros [= <-]|done].
    - intros Hp'. destruct (HP Hp') as (_ & ? & _).
      destruct (Z.ltb_spec (p_next_child_pid (k_process k) + 1) (2 ^ 32)); [done|lia]. }
  assert (guarded P (fun k' => k' = k) (during n)
    (next ← lift (add_u32 (p_next_child_pid (k_process k)) 1);
     set_proc (set_p_next_child_pid next) ;; mret (p_next_child_pid (k_process k)))
    (fun _ => True)) as Hplain.
  { eapply guarded_bind; [exact Hnext| |by intros k' ->]. intros next [-> Hlt].
    intros k' ->. apply (holds_bind P (during n) (set_proc _) _ (fun _ => True)); [|intros; by apply holds_ret|done].
    apply holds_set_proc. intros nb p0 []. split; [|done]. split; simpl; auto.
    pose proof (po_child _ _ Hp). unfold fits in *. lia. }
  destruct (k_table k) as [t|] eqn:Ek; [|by apply Hplain].
  destruct regs as [regs|]; [|by apply Hplain].
  pose proof (fork_from_process_ok (k_process k) (k_memory k) regs t (k_shared k) Hm
    (Hregs _ eq_refl) Hp Hb (Ht t eq_refl)) as Hf.
  destruct (fork_from_process _ _ _ _) as [r [t' sh']]; simpl.
  destruct Hf as (Hl & Hy & Ht' & Hnp).
  { intros Hp'. destruct (HP Hp') as (?&_&?). done. }
  split; [|done]. split; [|split; [simpl; destruct Hr; lia|apply Hr]].
  split; simpl; auto; [by eapply process_ok_more|].
  intros ? [= <-]. by eapply ptable_ok_more.
Qed.

(** ** Dispatch *)

(** The envelope of a call: room for descriptors and processes, sizes and
    offsets whose arithmetic does not overflow, and buffers and mappings, rounded
    to pages, of fewer than 2^63 bytes. *)
Definition call_ok (number : SyscallNumber) (args : list Z) (k : Kernel) : Prop :=
  next_fd (p_fd_table (k_process k)) + 2 < 2 ^ 31 /\
  match number with
  | Sys_Read | Sys_Getdents | Sys_Getdents64 => arg args 2 < 2 ^ 63
  | Sys_Getrandom => arg args 1 < 2 ^ 63
  | Sys_Readv => False
  | Sys_Writev => arg args 2 <= IOV_MAX /\ small_regions (k_memory k)
  | Sys_Sendfile => arg args 2 = 0
  | Sys_Dup2 | Sys_Dup3 => arg args 1 <> 2 ^ 31 - 1
  | Sys_Fcntl => arg args 1 = F_DUPFD \/ arg args 1 = F_DUPFD_CLOEXEC -> arg args 2 + 1 < 2 ^ 31
  | Sys_Brk => arg args 0 <= PAGE_LIMIT /\
               arg args 0 - p_brk (k_process k) <= 2 ^ 63 - PAGE_SIZE
  | Sys_Mmap => arg args 1 <= 2 ^ 63 - PAGE_SIZE /\
                (has_bit (arg args 3) MAP_ANONYMOUS = true \/ arg args 5 = 0)
  | Sys_Munmap | Sys_Mprotect => arg args 1 <= PAGE_LIMIT
  | Sys_Clone | Sys_Fork | Sys_VFork => fork_room k
  | _ => True
  end.

Lemma arg_u64 args i : Forall u64 args -> u64 (arg args i).
Proof.
  intros Ha. unfold arg. destruct (nth_in_or_default i args 0) as [Hin| ->].
  - rewrite Forall_forall in Ha. apply Ha. by apply list_elem_of_In.
  - unfold fits. lia.
Qed.

Lemma settle {A} n n' n2 (m : KM A) Q : n <= n2 -> guarded P (during n) (during n') m Q ->
  guarded P (during n2) (during n') m Q.
Proof. intros Hn Hm k Hk. apply Hm. by eapply during_less. Qed.

Section Dispatch.
Context (args : list Z) (Hargs : Forall u64 args).
Context (regs : option Registers) (Hregs : forall r, regs = Some r -> wf_registers r).
Abbreviation G := (guarded P (during 2) (during 0)).
Abbreviation Keep := (guarded P (during 0) (during 0)).

#[local] Hint Resolve holds_fd_arg holds_usize_arg holds_path_arg : kernel.

(** A call that takes a path: the path is read first. *)
Lemma with_path (n : Z) i (f : list Z -> KM Z) : 0 <= n ->
  (forall path, Forall u8 path -> guarded P (during n) (during 0) (f path) (fun _ => True)) ->
  guarded P (during n) (during 0) (path ← path_arg (arg args i); f path) (fun _ => True).
Proof.
  intros Hn Hf. eapply guarded_bind; [apply holds_path_arg; by apply arg_u64|done|].
  intros k. by apply during_less.
Qed.

(** A call that takes a descriptor. *)
Lemma with_fd (n : Z) i (f : Z -> KM Z) : 0 <= n ->
  (arg args i < 2 ^ 31 -> guarded P (during n) (during 0) (f (arg args i)) (fun _ => True)) ->
  guarded P (during n) (during 0) (fd ← lift (fd_arg (arg args i)); f fd) (fun _ => True).
Proof.
  intros Hn Hf. eapply guarded_bind; [apply holds_fd_arg| |intros k; by apply during_less].
  intros fd [-> Hlt]. auto.
Qed.

(** A call that takes a directory descriptor. *)
Lemma with_dirfd (n : Z) i (f : option Z -> KM Z) : 0 <= n ->
  (forall fd, guarded P (during n) (during 0) (f fd) (fun _ => True)) ->
  guarded P (during n) (during 0) (fd ← lift (fd_arg_allow_at_fdcwd (arg args i)); f fd)
    (fun _ => True).
Proof.
  intros Hn Hf. eapply guarded_bind with (Q := fun _ => True); [| |intros k; by apply during_less].
  - apply holds_lift. unfold fd_arg_allow_at_fdcwd. destruct (_ =? _); [done|].
    unfold fd_arg. by destruct (_ <? _).
  - intros fd _. apply Hf.
Qed.

Lemma ignore_value {A} (m : KM A) (v : Z) : Keep m (fun _ => True) ->
  Keep (m ;; mret v) (fun _ => True).
Proof. intros Hm. eapply holds_bind; [exact Hm|]. intros _ _. by apply holds_ret. Qed.

Lemma with_usize (n : Z) i (f : Z -> KM Z) : 0 <= n ->
  guarded P (during n) (during 0) (f (arg args i)) (fun _ => True) ->
  guarded P (during n) (during 0) (x ← lift (usize_arg (arg args i)); f x) (fun _ => True).
Proof.
  intros Hn Hf. eapply guarded_bind; [apply holds_usize_arg| |intros k; by apply during_less].
  by intros x ->.
Qed.

Lemma writev_ok k : kernel_ok k -> (nb0 <= length (buffers (k_shared k)))%nat ->
  (P -> next_fd (p_fd_table (k_process k)) + 2 < 2 ^ 31 /\
        arg args 2 <= IOV_MAX /\ small_regions (k_memory k)) ->
  guarded P (fun k' => k' = k) (during 0)
    (fd ← lift (fd_arg (arg args 0)); n ← lift (usize_arg (arg args 2));
     writev fd (arg args 1) n) (fun _ => True).
Proof.
  intros Hk Hnb HP k' ->. pose proof (arg_u64 args 1 Hargs) as [Ha Ha']. pose proof (arg_u64 args 2 Hargs) as [Hn _].
  assert (guarded P (fun k' => during 0 k' /\ k_memory k' = k_memory k) (during 0)
    (fd ← lift (fd_arg (arg args 0)); n ← lift (usize_arg (arg args 2));
     writev fd (arg args 1) n) (fun _ => True)) as Hg.
  { eapply guarded_bind; [apply holds_same_memory; [done|apply holds_fd_arg]| |by intros ? []].
    intros fd _. eapply guarded_bind; [apply holds_same_memory; [done|apply holds_usize_arg]| |by intros ? []].
    intros ? ->. unfold writev. eapply guarded_bind; [apply holds_writev_loop| |by intros ? []]; try lia.
    - intros [_ [Hc Hs]]%HP. split; [done|]. lia.
    - intros total _. intros k' [Hk' _]. by split. }
  apply Hg. split; [|done]. split; [done|]. split; [done|]. intros [? _]%HP. lia.
Qed.

(** A call that needs no new descriptor, and the side conditions that follow
    from its envelope. *)
Lemma one_call {A} (m : KM A) n Q : 0 <= n -> Keep m Q -> guarded P (during n) (during 0) m Q.
Proof. intros Hn. by apply settle. Qed.

Ltac from_envelope := intros; repeat match goal with
  | HP : P -> _ /\ _, Hp : P |- _ => destruct (HP Hp); clear HP
  | HP : P -> False, Hp : P |- _ => destruct (HP Hp)
  end; done || lia.

#[local] Hint Constants Opaque : calls.
#[local] Hint Resolve arg_u64 holds_raise holds_proc_any holds_syscall_write
  holds_syscall_arch_prctl holds_syscall_setpgid holds_syscall_getcwd holds_syscall_chdir
  holds_syscall_access holds_syscall_readlink holds_syscall_clock_gettime
  holds_syscall_nanosleep holds_syscall_times holds_syscall_set_tid holds_syscall_read
  holds_syscall_getdents holds_syscall_getrandom holds_munmap holds_mprotect
  holds_syscall_dup2 holds_syscall_dup3 holds_ioctl holds_mkdir holds_remove
  holds_write_stat_for holds_mmap holds_sendfile holds_close holds_stat
  guarded_in_fds holds_in_memory holds_write_stat holds_write_uname holds_write_sysinfo
  ignore_value one_call with_path with_fd with_dirfd with_usize guarded_open : calls.
#[local] Hint Extern 1 (guarded _ _ _ (mret _) _) => by apply holds_ret : calls.
#[local] Hint Extern 1 (guarded _ _ _ (fail _) _) => apply holds_raise : calls.
#[local] Hint Extern 2 =>
  lazymatch goal with |- guarded _ _ _ _ _ => fail | _ => from_envelope end : calls.
#[local] Hint Extern 1 (0 <= _) => first [lia|by apply arg_u64] : calls.

Lemma keep_poll : Keep (poll_fds (arg args 0) (arg args 1)) (fun _ => True).
Proof. pose proof (arg_u64 args 0 Hargs) as []. apply holds_poll_loop; lia. Qed.

Lemma keep_readv fd : (P -> False) -> Keep (readv fd (arg args 1) (arg args 2)) (fun _ => True).
Proof.
  intros HP. pose proof (arg_u64 args 1 Hargs) as []. unfold readv.
  eapply holds_bind; [apply holds_readv_loop; done || lia|]. intros. by apply holds_ret.
Qed.

Lemma keep_bind {A} (m : KM A) (f : A -> Z) : Keep m (fun _ => True) ->
  Keep (x ← m; mret (f x)) (fun _ => True).
Proof. intros Hm. eapply holds_bind; [exact Hm|]. intros. by apply holds_ret. Qed.

Lemma keep_fstat fd a : Keep (data ← in_fds (stat fd); in_memory (write_stat a data) ;; mret 0)
  (fun _ => True).
Proof.
  eapply holds_bind; [apply guarded_in_fds; intros nb lo; apply holds_stat|]. intros data _.
  apply ignore_value, holds_in_memory, holds_write_stat.
Qed.

Lemma one_duplicate fd min cl : (P -> min + 1 < 2 ^ 31) ->
  guarded P (during 2) (during 0) (in_fds (duplicate fd min cl)) (fun _ => True).
Proof.
  intros HP. apply (settle (0 + 1)); [lia|]. apply guarded_in_fds. intros nb lo.
  eapply guarded_weaken; [apply guarded_duplicate; [lia|done]|done].
Qed.

Lemma one_fcntl fd cmd a :
  (P -> cmd = F_DUPFD \/ cmd = F_DUPFD_CLOEXEC -> a + 1 < 2 ^ 31) ->
  guarded P (during 2) (during 0) (in_fds (fcntl fd cmd a)) (fun _ => True).
Proof.
  intros HP. apply (settle (0 + 1)); [lia|]. apply guarded_in_fds. intros nb lo.
  by apply guarded_fcntl.
Qed.

Lemma one_open dirfd path flags : Forall u8 path ->
  guarded P (during 2) (during 0) (open_guest_path dirfd path flags) (fun _ => True).
Proof. intros Hp. apply (settle (0 + 1)); [lia|]. by apply guarded_open. Qed.
#[local] Hint Resolve keep_poll keep_readv keep_bind keep_fstat one_duplicate one_fcntl
  one_open guarded_syscall_pipe : calls.

(** [brk] from a state whose break leaves room for the request. *)
Lemma keep_brk k : during 2 k ->
  (P -> next_fd (p_fd_table (k_process k)) + 2 < 2 ^ 31 /\ arg args 0 <= PAGE_LIMIT /\
        arg args 0 - p_brk (k_process k) <= 2 ^ 63 - PAGE_SIZE) ->
  guarded P (fun k' => k' = k) (during 0)
    (b ← process_brk (arg args 0); mret (signed 64 b)) (fun _ => True).
Proof.
  intros Hk HP. eapply guarded_bind with (J := during 0) (Q := fun _ => True);
    [|intros; by apply holds_ret|done].
  intros k' ->. apply (holds_process_brk 0 _ (p_brk (k_process k)));
    [by apply arg_u64|by intros [_ ?]%HP|by split; [apply (during_less 2)|]].
Qed.

Lemma dispatch_value_ok number k : kernel_ok k ->
  (nb0 <= length (buffers (k_shared k)))%nat -> (P -> call_ok number args k) ->
  guarded P (fun k' => k' = k) (during 0) (dispatch_value number args regs) (fun _ => True).
Proof.
  intros Hk Hnb HP.
  assert (during 2 k) as Hd by (split; [done|split; [done|intros Hp; apply (HP Hp)]]).
  assert (forall m : KM Z, G m (fun _ => True) ->
    guarded P (fun k' => k' = k) (during 0) m (fun _ => True)) as Hstart
    by (intros m Hm k' ->; by apply Hm).
  unfold call_ok in HP. destruct number; cbn [dispatch_value];
    lazymatch goal with
    | |- guarded _ _ _ (syscall_fork _) _ =>
        intros k' ->; apply (guarded_syscall_fork 0 regs Hregs); split;
          [by apply (during_less 2)|by intros [_ ?]%HP]
    | |- guarded _ _ _ (_ ≫= fun fd => _ ≫= fun n => writev fd _ n) _ => by apply writev_ok
    | |- guarded _ _ _ (process_brk _ ≫= _) _ => by apply keep_brk
    | _ => apply Hstart; auto 8 with calls
    end.
Qed.

Lemma dispatch_inner_ok number k : kernel_ok k ->
  (nb0 <= length (buffers (k_shared k)))%nat -> (P -> call_ok number args k) ->
  guarded P (fun k' => k' = k) (during 0) (dispatch_inner number args regs) outcome_ok.
Proof.
  intros Hk Hnb HP.
  assert (during 0 k) as Hd by (split; [done|]; split; [done|]; intros [? _]%HP; lia).
  assert (forall m : KM SyscallOutcome, Keep m outcome_ok ->
    guarded P (fun k' => k' = k) (during 0) m outcome_ok) as Hstart
    by (intros m Hm k' ->; by apply Hm).
  assert (guarded P (fun k' => k' = k) (during 0)
    (value ← dispatch_value number args regs; mret (Return value)) outcome_ok) as Hvalue.
  { eapply guarded_bind; [by apply dispatch_value_ok| |done]. intros v _. by apply holds_ret. }
  destruct number; try exact Hvalue; cbn [dispatch_inner]; apply Hstart;
    lazymatch goal with
    | |- guarded _ _ _ (syscall_exit _) _ => apply holds_syscall_exit
    | |- guarded _ _ _ (syscall_wait4 _) _ => apply holds_syscall_wait4
    | |- guarded _ _ _ (syscall_execve _) _ => apply holds_syscall_execve; by apply arg_u64
    | _ => apply holds_raise
    end.
Qed.
End Dispatch.
End Kernel.

(** ** The system call as a whole *)

Section Whole.
Context `{LAWS : HostLaws}.

Lemma push_trace_ok nb x p : process_ok nb p -> process_ok nb (push_p_trace x p).
Proof. intros []. by split. Qed.

Lemma dispatch_ok P input regs k : kernel_ok k -> Forall u64 (in_args input) ->
  (forall r, regs = Some r -> wf_registers r) ->
  (P -> call_ok (syscall_from (in_number input)) (in_args input) k) ->
  guarded P (fun k' => k' = k)
    (fun k' => kernel_ok k' /\
       (length (buffers (k_shared k)) <= length (buffers (k_shared k')))%nat)
    (dispatch_with_process_model input regs) outcome_ok.
Proof.
  intros Hk Ha Hr HP k' ->. unfold dispatch_with_process_model.
  destruct (dispatch_inner_ok P (length (buffers (k_shared k))) (in_args input) Ha regs Hr _ k Hk
              ltac:(done) HP k eq_refl) as ((Hk' & Hnb & _) & Ho & Hnp).
  destruct (dispatch_inner _ _ _ k) as [r k']; cbn [fst snd] in *.
  assert (forall x, kernel_ok (mkKernel (push_p_trace x (k_process k')) (k_memory k')
    (k_shared k') (k_table k'))) as Htrace.
  { intros x. destruct Hk' as [? ? ? ?]. split; simpl; auto. by apply push_trace_ok. }
  unfold mbind, st_bind. destruct r as [o|[e|e]|]; cbn [outcome_of fst snd modify mret st_ret].
  - split; [by split; [apply Htrace|]|]. split; [|done]. intros ? [= <-]. auto.
  - split; [by split; [apply Htrace|]|]. split; [by intros ? [= <-]|done].
  - split; [by split; [apply Htrace|]|]. split; [by intros ? [= <-]|done].
  - split; [done|]. split; [done|]. intros HP'. by destruct (Hnp HP').
Qed.

(** A new process is in order. *)
Lemma with_executable_ok nb rootfs path w : Forall u8 path ->
  process_ok nb (with_executable rootfs path w).
Proof.
  intros Hp. split; simpl; try (unfold fits; lia); try done.
  - apply root_u8.
  - apply proper_root.
  - apply fd_new_ok.
  - apply termios_default_ok.
Qed.

(** C11: every system call keeps the invariant of the kernel, on every exit and
    whatever its arguments.  From a kernel whose memory maps are well-formed,
    whose registers, counters and bytes are in range, whose descriptors lie
    below the next one and name buffers that exist, and whose working directory
    is a normalized path, for the calling process and for every process of the
    table, any call with 64-bit arguments ends in such a kernel. *)
Theorem dispatch_keeps_kernel (input : SyscallInput) (regs : option Registers) (k : Kernel)
    (Hk : kernel_ok k) (Ha : Forall u64 (in_args input))
    (Hr : forall r, regs = Some r -> wf_registers r) :
  kernel_ok (dispatch_with_process_model input regs k).2.
Proof. by apply (dispatch_ok False input regs k Hk Ha Hr). Qed.

(** C12: a system call whose arguments lie in the envelope [call_ok] returns an
    outcome: no index is out of range, no arithmetic overflows, no loop runs
    out, in the call and in everything it calls; errors come back as negative
    error numbers. *)
Theorem dispatch_returns (input : SyscallInput) (regs : option Registers) (k : Kernel)
    (Hk : kernel_ok k) (Ha : Forall u64 (in_args input))
    (Hr : forall r, regs = Some r -> wf_registers r)
    (Hc : call_ok (syscall_from (in_number input)) (in_args input) k) :
  exists o, (dispatch_with_process_model input regs k).1 = Ok o.
Proof.
  destruct (dispatch_ok True input regs k Hk Ha Hr ltac:(done) k eq_refl) as (_ & _ & Hn).
  specialize (Hn Logic.I). destruct (dispatch_with_process_model input regs k).1 as [o|[]|]; eauto.
  done.
Qed.
End Whole.

(** ** Witnesses *)

(** A process in the example host, with two words of memory it may write. *)
Definition demo_kernel : Kernel (H:=example_host) :=
  mkKernel (with_executable (Some (text "/srv/root")) (text "/bin/sh") example_world)
    demo_mem (mkShared example_world []) None.

Lemma demo_kernel_ok : kernel_ok (H:=example_host) demo_kernel.
Proof.
  split; simpl; [apply demo_mem_wf|done| |done].
  apply (with_executable_ok (H:=example_host)), text_u8.
Qed.

Lemma dispatch_keeps_kernel_witness :
  kernel_ok (H:=example_host)
    (dispatch_with_process_model (mkInput 22 [4096]) None demo_kernel).2.
Proof.
  apply (dispatch_keeps_kernel (H:=example_host)); [apply demo_kernel_ok| |done].
  repeat constructor; vm_compute; congruence.
Defined.

Lemma dispatch_returns_witness :
  exists o, (dispatch_with_process_model (H:=example_host) (mkInput 22 [4096]) None
               demo_kernel).1 = Ok o.
Proof.
  apply (dispatch_returns (H:=example_host)); [apply demo_kernel_ok| |done|].
  - repeat constructor; vm_compute; congruence.
  - split; [vm_compute; congruence|]. vm_compute. exact Logic.I.
Defined.
