(* ===== verification/RunLoopInv.v ===== *)
(** * Invariants of the run loop

    The composition of the parts: the interpreter, the system calls, the
    process table, the loader and the scheduler keep one invariant of the whole
    system, round after round, so that in every state a run reaches each
    process has a well-formed memory map, registers of their width and
    descriptors in order. *)

From Stdlib Require Import String.
From S2P Require Import Prelude Memory MemorySpec Registers Ir Iced ExampleDecoder Cpu Interp CpuInv CpuSafe Elf ElfProps Loader LoaderStack LoaderProps LoaderInv Host ExampleHost Fs LinuxAbi Terminal Fd Process Syscalls RunLoop FsProps FdProps FdInv AbiInv PathInv SyscallInv.

Open Scope Z_scope.

Section System.
Context `{HL : HostLaws} `{IL : IcedLaws}.

(** ** The invariant *)

Record system_ok (s : System) : Prop := {
  so_buffers : Forall (Forall u8) (buffers (sys_shared s));
  so_table : ptable_ok (length (buffers (sys_shared s))) (process_table s);
  so_caches : forall pid c, execution_caches s !! pid = Some c -> wf_cache (ir c)
}.

Abbreviation nbufs s := (length (buffers (sys_shared s))).

(** An interpreter whose state may go back into a record. *)
Record interpreter_ok (i : Interpreter) : Prop := {
  ip_memory : wf (memory i);
  ip_registers : wf_registers (registers i);
  ip_cache : wf_cache (ir (cache i))
}.

Lemma inv_ok m0 i : inv m0 i -> interpreter_ok i.
Proof. intros []. by split. Qed.

Lemma absorb_ok nb i r : record_ok nb r -> interpreter_ok i -> record_ok nb (absorb i r).
Proof.
  intros [Hp Hm Ht] [Him Hir _]. split; simpl; auto. intros tid th.
  rewrite lookup_alter_Some. intros [(_ & th' & _ & ->)|[_ Hl]]; [done|eauto].
Qed.

Lemma set_waiting_ok nb r : record_ok nb r -> record_ok nb (set_waiting r).
Proof.
  intros [Hp Hm Ht]. split; simpl; auto. intros tid th.
  rewrite lookup_alter_Some. intros [(_ & th' & Hl & ->)|[_ Hl]]; simpl; eauto.
Qed.

Lemma set_process_ok nb p r : record_ok nb r -> process_ok nb p -> record_ok nb (set_pr_process p r).
Proof. intros [] ?. by split. Qed.

(** ** Steps that cannot fail *)

Lemma enqueue_runnable_ok s : system_ok s -> system_ok (enqueue_runnable s).
Proof. intros []. by split. Qed.

Lemma set_ptable_ok f s : system_ok s ->
  (ptable_ok (nbufs s) (process_table s) -> ptable_ok (nbufs s) (f (process_table s))) ->
  system_ok (set_ptable f s).
Proof. intros [] Hf. split; simpl; auto. Qed.

Lemma keep_interpreter_ok pid i s : system_ok s -> interpreter_ok i ->
  system_ok (keep_interpreter pid i s).
Proof.
  intros [Hb Ht Hc] [_ _ Hi]. split; simpl; auto. intros pid' c. rewrite lookup_insert_Some.
  intros [[_ <-]|[_ ?]]; eauto.
Qed.

Lemma put_back_ok pid r i s : system_ok s -> record_ok (nbufs s) r -> interpreter_ok i ->
  system_ok (put_back pid r i s : res RunError unit * System).2.
Proof.
  intros Hs Hr Hi. apply set_ptable_ok; [by apply keep_interpreter_ok|].
  intros Ht. apply insert_record_ok; [|done]. by apply set_children_ok, absorb_ok.
Qed.

Lemma resume_ok pid r i s : system_ok s -> record_ok (nbufs s) r -> interpreter_ok i ->
  system_ok (resume pid r i s).2.
Proof.
  intros Hs Hr Hi. unfold resume, mbind, st_bind. cbn [fst snd].
  pose proof (put_back_ok pid r i s Hs Hr Hi) as Hp. destruct (put_back pid r i s) as [[] s']; try done.
  destruct (decide _); [by apply enqueue_runnable_ok|done].
Qed.

Lemma finish_process_ok pid initial code r i s : system_ok s -> record_ok (nbufs s) r ->
  interpreter_ok i -> system_ok (finish_process pid initial code r i s).2.
Proof.
  intros Hs Hr Hi. unfold finish_process, mbind, st_bind, modify. cbn [fst snd].
  assert (forall s, system_ok s -> forall x, system_ok (set_exit_code x s)) as Hx
    by (intros s' [] x; by split).
  assert (system_ok (set_ptable (insert_record pid (mark_exited code (absorb i r)))
    (keep_interpreter pid i (set_ptable (record_exit pid (pr_parent r) code) s)))) as Hend.
  { apply set_ptable_ok; [apply keep_interpreter_ok; [|done]|].
    - apply set_ptable_ok; [done|]. apply record_exit_ok.
    - intros Ht. apply insert_record_ok; [|done]. by apply mark_exited_ok, absorb_ok. }
  destruct (pid =? initial); cbn [fst snd]; auto.
Qed.

(** ** A new program *)

Lemma load_interpreter_bytes_ok rootfs bs w ibs : load_interpreter_bytes rootfs bs w = Ok ibs ->
  forall b, ibs = Some b -> Forall u8 b /\ len b < 2 ^ 64.
Proof.
  unfold load_interpreter_bytes. destruct (parse bs); simpl; [|done..].
  destruct (interpreter_path _) as [[path|]| |]; simpl; [|by intros [= <-]|done..].
  destruct rootfs as [r|]; [|done]. destruct (resolve _ _ _ _) as [[g host|g v]| |]; simpl; try done.
  pose proof (fs_read_ok host w) as Hr. destruct (fs_read host w) as [x| |]; simpl; [|done..].
  intros [= <-] b [= <-]. destruct Hr. split; [done|]. lia.
Qed.

Lemma load_program_image_ok rootfs bs argv envp w loaded : Forall u8 bs -> len bs < 2 ^ 64 ->
  Forall (Forall u8) argv -> Forall (Forall u8) envp ->
  load_program_image rootfs bs argv envp w = Ok loaded -> loaded_ok loaded.
Proof.
  intros Hb Hl Ha He. unfold load_program_image.
  destruct (load_interpreter_bytes rootfs bs w) as [ibs| |] eqn:Hi; simpl; [|done..].
  destruct (load_dynamic bs ibs argv envp) as [p| |] eqn:Hp; simpl; [|done..]. intros [= <-].
  by eapply load_dynamic_wf, Hp; [..|by eapply load_interpreter_bytes_ok| |].
Qed.

Lemma initial_registers_ok loaded : loaded_ok loaded -> wf_registers (initial_registers loaded).
Proof.
  intros [_ He Hs]. apply (slot_set_wf Srsp); [|done]. apply (slot_set_wf Srip); [|done].
  apply default_registers_wf.
Qed.

Lemma close_on_exec_ok nb t : table_ok nb t -> table_ok nb (close_on_exec t).
Proof.
  intros [Hn He]. split; [done|]. intros fd slot. simpl. rewrite map_lookup_filter_Some.
  intros [Hl _]. eauto.
Qed.

Lemma apply_exec_ok nb path p : Forall u8 path -> process_ok nb p ->
  process_ok nb (apply_exec path p).
Proof.
  intros Hp []. split; simpl; auto; try (unfold fits; lia). by apply close_on_exec_ok.
Qed.

Lemma execve_state_ok nb p request w m regs p' : process_ok nb p ->
  outcome_ok (Execve request) -> execve_state p request w = Ok (m, regs, p') ->
  wf m /\ wf_registers regs /\ process_ok nb p'.
Proof.
  intros Hp (Hg & Ha & He). unfold execve_state. pose proof (fs_read_ok (ex_host_path request) w) as Hr.
  destruct (fs_read _ w) as [bs| |]; simpl in *; [|done..]. destruct Hr as [Hb Hl].
  destruct (load_program_image _ _ _ _ _) as [loaded| |] eqn:Hload; simpl; [|done..].
  intros [= <- <- <-]. apply load_program_image_ok in Hload; [|done|lia|done|done].
  split; [apply Hload|]. split; [by apply initial_registers_ok|by apply apply_exec_ok].
Qed.

(** ** A round *)

Lemma set_fs_base_ok i x : interpreter_ok i -> u64 x ->
  interpreter_ok (update_registers (set_fs_base x) i).
Proof. intros [] ?. split; simpl; auto. by apply set_fs_base_wf. Qed.

Lemma set_rax_ok i x : interpreter_ok i -> u64 x ->
  interpreter_ok (update_registers (Registers.set_rax x) i).
Proof. intros [] ?. split; simpl; auto. by apply (slot_set_wf Srax). Qed.

Lemma cleared_ok i : interpreter_ok i -> interpreter_ok (clear_block_cache i).2.
Proof.
  intros [Hm Hr Hc]. unfold clear_block_cache, on_cache, cache_clear, zoom.
  destruct (clear_wf (E:=CpuError) (ir (cache i)) Hc) as [Hw _].
  destruct (clear (ir (cache i))) as [[] c]; by split.
Qed.

Lemma replace_state_ok m regs i : interpreter_ok i -> wf m -> wf_registers regs ->
  interpreter_ok (replace_state m regs i).2.
Proof.
  intros [_ _ Hc] Hm Hr. unfold replace_state, mbind, st_bind, modify.
  apply (cleared_ok (set_trace [] (Cpu.set_registers regs (Cpu.set_memory m i)))). by split.
Qed.

(** After a call the interpreter has the memory of the kernel, a cache that may
    have been cleared, and the thread pointer of the process. *)
Lemma after_call_ok i m x (c : res CpuError unit * Interpreter) : interpreter_ok i -> wf m ->
  u64 x -> c = clear_block_cache (Cpu.set_memory m i) \/ c = (Ok tt, Cpu.set_memory m i) ->
  interpreter_ok (update_registers (set_fs_base x) c.2).
Proof.
  intros [Hm0 Hr Hc] Hm Hx Hcase. apply set_fs_base_ok; [|done].
  assert (interpreter_ok (Cpu.set_memory m i)) by by split.
  destruct Hcase as [-> | ->]; [by apply cleared_ok|done].
Qed.

Lemma serve_ok pid initial trap r i s : system_ok s -> record_ok (nbufs s) r ->
  interpreter_ok i -> trap_ok trap -> system_ok (serve pid initial trap r i s).2.
Proof.
  intros Hs Hr Hi [_ Hargs]. unfold serve.
  set (k := mkKernel _ _ _ _).
  assert (kernel_ok k) as Hk.
  { destruct Hs, Hr, Hi. split; simpl; auto. by intros ? [= <-]. }
  destruct (dispatch_ok False (mkInput (number trap) (args trap)) (Some (registers i)) k Hk Hargs)
    with (s := k) as ([Hk' Hnb] & Hout & _); [|done|done|].
  { intros ? [= <-]. apply Hi. }
  destruct (dispatch_with_process_model _ _ k) as [o k']. cbn [fst snd] in *.
  set (s1 := set_sys_shared (k_shared k') (set_ptable (fun t => default t (k_table k')) s)).
  assert (system_ok s1) as Hs1.
  { destruct Hs as [_ Ht Hc], Hk' as [_ Hb' _ Ht']. split; simpl; auto.
    destruct (k_table k') as [t|]; simpl; [by apply Ht'|]. by eapply ptable_ok_more. }
  assert (record_ok (nbufs s1) (set_pr_process (k_process k') r)) as Hr1.
  { apply set_process_ok; [|apply Hk']. by eapply record_ok_more. }
  set (c := if decide (number trap ∈ MEMORY_MODIFYING_SYSCALLS) then _ else _).
  assert (c = clear_block_cache (Cpu.set_memory (k_memory k') i) \/
          c = (Ok tt, Cpu.set_memory (k_memory k') i)) as Hc
    by (unfold c; destruct (decide _); auto).
  pose proof (after_call_ok i (k_memory k') (p_fs_base (k_process k')) c Hi (ko_memory _ Hk')
    (po_fs_base _ _ (ko_process _ Hk')) Hc) as Hi1. clearbody c.
  destruct c as [cleared i2]. cbn [fst snd] in Hi1.
  destruct cleared; [|done..]. destruct o as [[value| |code|request]|[]|]; [..|done].
  - apply resume_ok; [done..|]. apply set_rax_ok; [done|]. by apply wrap_fits.
  - apply enqueue_runnable_ok, put_back_ok; [done|by apply set_waiting_ok|done].
  - pose proof (finish_process_ok pid initial code _ _ _ Hs1 Hr1 Hi1) as Hf.
    unfold mbind, st_bind. destruct (finish_process _ _ _ _ _ _) as [[] s2]; simpl in *; [|done..].
    by apply enqueue_runnable_ok.
  - destruct (execve_state _ _ _) as [[[m regs] p]|e|] eqn:Hx; [|done..].
    specialize (Hout _ eq_refl).
    destruct (execve_state_ok (nbufs s1) _ _ _ _ _ _ (ro_process _ _ Hr1) Hout Hx)
      as (Hm & Hregs & Hp).
    pose proof (replace_state_ok m regs _ Hi1 Hm Hregs) as Hi3.
    destruct (replace_state m regs _) as [[] i3]; [|done..]. cbn [fst snd] in *.
    apply resume_ok; [done| |done]. by apply set_process_ok.
Qed.

Lemma run_process_ok trace pid initial r regs s : system_ok s -> record_ok (nbufs s) r ->
  wf_registers regs -> system_ok (run_process trace pid initial r regs s).2.
Proof.
  intros Hs Hr Hregs. unfold run_process.
  set (i0 := mkInterpreter _ _ _ _ _ _).
  assert (inv (pr_memory r) i0) as Hi0.
  { split; simpl; [apply Hr|done|by intros a p v|done|].
    destruct (execution_caches s !! pid) as [c|] eqn:Hc; simpl; [by eapply so_caches|].
    apply empty_cache_wf. }
  destruct (step_block_spec (pr_memory r) i0 Hi0) as [Hi1%inv_ok Hout].
  assert (system_ok (remove_cache pid s)) as Hs1.
  { destruct Hs as [Hb Ht Hc]. split; simpl; auto. intros pid' c. rewrite lookup_delete_Some.
    intros [_ ?]. eauto. }
  assert (record_ok (nbufs (remove_cache pid s)) (set_pr_memory Memory.new r)) as Hr1.
  { destruct Hr. split; simpl; auto. by split; constructor. }
  destruct (step_block i0) as [[[|trap|code]|e|] i1]; cbn [fst snd] in *.
  - by apply resume_ok.
  - apply serve_ok; [done..|]. by apply (Hout (Syscall trap)).
  - by apply finish_process_ok.
  - destruct (unsupported_instruction e); [|done]. destruct Hs1. by split.
  - done.
Qed.

Lemma round_ok trace initial s : system_ok s -> system_ok (round trace initial s).2.
Proof.
  intros Hs. unfold round. destruct (next_thread _ _) as [next sch].
  assert (system_ok (set_scheduler sch s)) as Hs0 by (destruct Hs; by split).
  destruct next as [[pid tid]|]; [|by destruct (initial_exit_code _)].
  unfold table_take. cbv zeta.
  assert (system_ok (set_ptable (fun _ => set_records (delete pid)
    (process_table (set_scheduler sch s))) (set_scheduler sch s))) as Hs1.
  { apply set_ptable_ok; [done|]. apply delete_record_ok. }
  destruct (records (process_table (set_scheduler sch s)) !! pid) as [r|] eqn:Hrec; [|done].
  assert (record_ok (nbufs s) r) as Hr by (by eapply pt_records; [apply Hs|]).
  destruct (decide (pr_state r = Runnable)).
  - unfold main_thread_registers.
    destruct (pr_threads r !! p_tid (pr_process r)) as [th|] eqn:Hth; simpl; [|done].
    pose proof (ro_threads _ _ Hr _ _ Hth) as Hregs.
    pose proof (run_process_ok trace pid initial r _ _ Hs1 Hr Hregs) as Hrun.
    unfold mbind, st_bind. destruct (run_process _ _ _ _ _ _) as [[] s2]; done.
  - apply set_ptable_ok; [done|]. intros Ht. by apply insert_record_ok.
Qed.

Lemma rounds_ok n trace initial s : system_ok s -> system_ok (rounds n trace initial s).2.
Proof.
  revert s. induction n as [|n IH]; intros s Hs; [done|]. cbn [rounds].
  pose proof (round_ok trace initial s Hs) as Hr. unfold mbind, st_bind.
  destruct (round trace initial s) as [[[code|]|e|] s']; cbn [fst snd] in *; auto.
Qed.

(** The system a run starts from. *)
Lemma initial_system_ok rootfs program loaded w pid s : loaded_ok loaded -> Forall u8 program ->
  initial_system rootfs program loaded w = Ok (pid, s) -> system_ok s.
Proof.
  intros Hl Hp. unfold initial_system, insert_initial, add_u32.
  cbn [p_pid with_executable Z.add]. destruct (_ <? _) eqn:Hlt; [|done].
  cbn [mbind res_bind]. intros [= <- <-]. split; [done| |].
  - cbn [process_table sys_shared buffers]. apply set_wait_queues_ok.
    split; [|cbn; lia]. intros pid r. cbn. rewrite lookup_insert_Some, lookup_empty.
    intros [[_ <-]|[_ ?]]; [|done]. split; [|apply Hl|].
    + apply with_executable_ok. by apply to_string_lossy_ok.
    + intros tid th. unfold new_record. cbn [pr_threads]. rewrite lookup_singleton_Some.
      intros [_ <-]. by apply initial_registers_ok.
  - cbn. intros pid c. rewrite lookup_singleton_Some. intros [_ <-]. apply empty_cache_wf.
Qed.

(** A static executable that loads starts. *)
Lemma started_static rootfs program args envp w bytes image p :
  fs_read (translate_program_path rootfs program w) w = Ok bytes -> parse bytes = Ok image ->
  interpreter_path image = Ok None ->
  load_dynamic bytes None (to_string_lossy program :: args) envp = Ok p ->
  exists s, started rootfs program args envp w = Ok (1000, s).
Proof.
  intros Hr Hp Hi Hl. unfold started. rewrite Hr. cbn [mbind res_bind map_err].
  unfold load_program_image, load_interpreter_bytes. rewrite Hp. cbn [mbind res_bind map_err].
  rewrite Hi. cbn [mbind res_bind map_err]. rewrite Hl. cbn [mbind res_bind map_err]. by eexists.
Qed.

Lemma started_ok rootfs program args envp w : Forall u8 program -> Forall (Forall u8) args ->
  Forall (Forall u8) envp ->
  match started rootfs program args envp w with
  | Ok (_, s) => system_ok s
  | _ => True
  end.
Proof.
  intros Hp Ha He. unfold started.
  pose proof (fs_read_ok (translate_program_path rootfs program w) w) as Hr.
  destruct (fs_read _ w) as [bytes| |]; cbn [mbind res_bind map_err safe] in *; [|done..].
  destruct Hr as [Hb Hl].
  destruct (load_program_image _ _ _ _ _) as [loaded| |] eqn:Hload;
    cbn [mbind res_bind map_err]; [|done..].
  apply load_program_image_ok in Hload; [|done|lia| |done].
  - destruct (initial_system _ _ _ _) as [[pid s]| |] eqn:Hi; [|done..]. by eapply initial_system_ok, Hi.
  - constructor; [by apply to_string_lossy_ok|done].
Qed.

(** C2: the parts keep one invariant of the whole system.  Whatever program is
    started from the files of the host, with whatever arguments and environment,
    and however many rounds the run loop has made (instructions, system calls,
    forks, exits and new programs of all its processes, in the order of the
    scheduler, up to an error if there was one): every process has a well-formed
    memory map, registers of their width, descriptors below the next one that
    name existing buffers, a normalized working directory and a well-formed
    block cache. *)
Theorem run_keeps_system (rootfs : option PathBuf) (program : PathBuf) (args envp : list (list Z))
    (w : World) (trace : bool) (n : nat) (Hp : Forall u8 program) (Ha : Forall (Forall u8) args)
    (He : Forall (Forall u8) envp) :
  match started rootfs program args envp w with
  | Ok (pid, s) => system_ok (rounds n trace pid s).2
  | _ => True
  end.
Proof.
  pose proof (started_ok rootfs program args envp w Hp Ha He) as Hs.
  destruct (started _ _ _ _ _) as [[pid s]| |]; [|done..]. by apply rounds_ok.
Qed.
End System.

(** ** Witnesses *)

(** The executable of the loader's tests as the program /bin/true. *)
Definition true_world : ExampleHost.world :=
  set_nodes (<[text "/srv/root/usr/bin/true" := NFile tiny_elf]>) example_world.

Definition true_argv : list (list Z) := [text "/bin/true"; text "-v"].

Lemma true_argv_u8 : Forall (Forall u8) true_argv /\ Forall (Forall u8) [DEFAULT_PATH].
Proof. split; [do 2 (constructor; [apply text_u8|])|constructor; [apply text_u8|]]; constructor. Qed.

(** Mapping a stack above the program and filling it succeeds. *)
Lemma stack_fits m input :
  let base := DEFAULT_STACK_TOP - DEFAULT_STACK_SIZE in
  wf m -> free m base DEFAULT_STACK_TOP ->
  exists r m1 m2, map_stack default_config m = (Ok base, m1) /\
    build_stack DEFAULT_STACK_TOP base true_argv [DEFAULT_PATH] input m1 = (Ok r, m2).
Proof.
  intros base Hm Hfree.
  pose proof (map_stack_ends default_config m Hm ltac:(done) ltac:(done)) as Hs.
  destruct (map_region_decided m base DEFAULT_STACK_SIZE (Z.lor READ WRITE)
    (Some [91; 115; 116; 97; 99; 107; 93]) Hm)
    as [(a & e & Ha & Hc & _)|[[[Hbig _] _]|(_ & _ & m1 & Hmap & Hw & _)]];
    [done..|by destruct Hc; apply Hfree|by destruct Hbig|].
  unfold ends, map_stack, mbind, st_bind in Hs |- *.
  change (checked_sub _ _) with (Some base) in *. cbn [ok_or lift] in *. unfold zoom in *.
  change (stack_size default_config) with DEFAULT_STACK_SIZE in *. rewrite Hmap in *.
  cbn [map_err] in *. destruct Hs as (_ & Hb & Hw1 & _ & _ & Hrw).
  destruct true_argv_u8 as [Ha He].
  destruct (build_guest m1 base DEFAULT_STACK_TOP true_argv [DEFAULT_PATH] input) as [Hok _]; try done.
  destruct Hok as (m2 & Hbuild & _); [vm_compute; discriminate|].
  do 2 eexists. exists m2. split; [done|]. unfold build_stack. by rewrite Hbuild.
Qed.

(** The memory of the program before its stack is mapped. *)
Definition true_memory : res LoaderError unit * GuestMemory :=
  load_segments (image_at tiny_elf) 0 PAGE_SIZE Memory.new.

Lemma true_memory_ok : exists m, true_memory = (Ok tt, m) /\ wf m /\
  free m (DEFAULT_STACK_TOP - DEFAULT_STACK_SIZE) DEFAULT_STACK_TOP.
Proof.
  assert (is_ok true_memory.1 && forallb (fun r => r_base r + r_size r <=?
    DEFAULT_STACK_TOP - DEFAULT_STACK_SIZE) (regions true_memory.2) = true) as [Hok Hb]%andb_true_iff
    by (vm_compute; reflexivity).
  assert (wf true_memory.2) as Hw.
  { apply (load_segments_wf (image_at tiny_elf) 0 PAGE_SIZE); [|done..|by split; constructor].
    apply (parse_image_ok tiny_elf); [apply tiny_elf_u8|done|vm_compute; reflexivity]. }
  destruct true_memory as [[[]|e|] m]; [|done..]. exists m. split; [done|]. split; [done|].
  intros a Ha. apply cells_None. intros r Hr. apply region_cell_None.
  rewrite forallb_forall in Hb. specialize (Hb r ltac:(by apply list_elem_of_In)).
  apply Z.leb_le in Hb. unfold r_end. lia.
Qed.

(** A static executable loads when its segments map and its stack is built. *)
Lemma load_static bs image argv envp config m phdr entry base m1 r m2 :
  parse bs = Ok image -> interpreter_path image = Ok None -> dynamic_entries image = Ok [] ->
  is_position_independent image = false ->
  load_segments image 0 (page_size config) Memory.new = (Ok tt, m) -> load_headers image <> [] ->
  program_header_guest_address image 0 = Ok (Some phdr) ->
  add64 (E:=LoaderError) (image_entry image) 0 = Ok entry ->
  map_stack config m = (Ok base, m1) ->
  build_stack (stack_top config) base argv envp
    (mkAuxInput phdr (program_header_entry_size (header image))
       (program_header_count (header image)) entry 0 (page_size config)) m1 = (Ok r, m2) ->
  exists p, load_dynamic_with_config bs None argv envp config = Ok p.
Proof.
  intros Hp Hi Hd Hpi Hs Hh Ha He Hm Hb. unfold load_dynamic_with_config.
  rewrite Hp. cbn [mbind res_bind map_err]. rewrite Hi. cbn [mbind res_bind map_err].
  rewrite Hd. cbn [mbind res_bind map_err]. unfold load_image. rewrite Hpi.
  unfold mbind, st_bind. rewrite Hs, bool_decide_false by done. cbn [mret st_ret].
  rewrite Ha, He. cbn [lift ok_or load_interpreter mret st_ret].
  rewrite Hm, Hb. by eexists.
Qed.

Lemma true_loads : exists p, load_dynamic tiny_elf None true_argv [DEFAULT_PATH] = Ok p.
Proof.
  destruct true_memory_ok as (m & Hm & Hw & Hf).
  destruct (stack_fits m (mkAuxInput 0x400040 (program_header_entry_size (header (image_at tiny_elf)))
    (program_header_count (header (image_at tiny_elf))) 0x400078 0 PAGE_SIZE) Hw Hf)
    as (r & m1 & m2 & Hs & Hb).
  eapply (load_static _ (image_at tiny_elf)); [..|exact Hm| | | |exact Hs|exact Hb];
    try (vm_compute; reflexivity). vm_compute. discriminate.
Qed.

(** The program starts: the theorems about started programs are not empty. *)
Lemma true_started : exists s, started (HOST:=example_host) (Some (text "/srv/root"))
  (text "/bin/true") [text "-v"] [DEFAULT_PATH] true_world = Ok (1000, s).
Proof.
  destruct true_loads as [p Hp]. apply (started_static _ _ _ _ _ tiny_elf (image_at tiny_elf) p);
    [vm_compute; reflexivity..|exact Hp].
Qed.

Lemma run_keeps_system_witness : exists s,
  started (HOST:=example_host) (Some (text "/srv/root")) (text "/bin/true")
    [text "-v"] [DEFAULT_PATH] true_world = Ok (1000, s) /\
  system_ok (H:=example_host) (rounds 7 false 1000 s).2.
Proof.
  destruct true_started as [s Hs]. exists s. split; [exact Hs|].
  pose proof (run_keeps_system (H:=example_host) (Some (text "/srv/root")) (text "/bin/true")
    [text "-v"] [DEFAULT_PATH] true_world false 7) as Hr. rewrite Hs in Hr. apply Hr.
  - apply text_u8.
  - constructor; [apply text_u8|constructor].
  - constructor; [apply text_u8|constructor].
Defined.
