(* ===== verification/SyscallFrame.v ===== *)
(** * What a system call leaves alone

    Only fork, exit and wait touch the table of processes, and no call changes
    the numbers of the process that makes it.  The predicate [framed] says so of
    an operation of the kernel, and [blind] that what it does does not depend on
    the table; both are closed under the combinators of the monad, so that the
    proof for a call follows its definition. *)

From S2P Require Import Prelude Memory Registers Elf Host Fs LinuxAbi Terminal Fd Process Syscalls.

Open Scope Z_scope.

Create HintDb frame.

Section Frame.
Context `{Host}.
Abbreviation KM := (ST Kernel SyscallError).

(** Two states of the same process, as seen from the table. *)
Record same_identity (p p' : LinuxProcess) : Prop := {
  si_pid : p_pid p' = p_pid p;
  si_tid : p_tid p' = p_tid p;
  si_ppid : p_ppid p' = p_ppid p
}.

#[export] Instance same_identity_preorder : PreOrder same_identity.
Proof. split; [done|]. intros p q r [] []. split; congruence. Qed.

Definition framed {A} (m : KM A) : Prop := forall k,
  k_table (m k).2 = k_table k /\ same_identity (k_process k) (k_process (m k).2).

Lemma framed_ret {A} (a : A) : framed (mret a).
Proof. by intros k. Qed.

Lemma framed_bind {A B} (m : KM A) (f : A -> KM B) :
  framed m -> (forall a, framed (f a)) -> framed (m ≫= f).
Proof.
  intros Hm Hf k. unfold mbind, st_bind. specialize (Hm k).
  destruct (m k) as [[a|e|] k1]; [|done..]. destruct Hm as [Ht Hp], (Hf a k1) as [Ht' Hp'].
  cbn [snd] in *. split; [by rewrite Ht', Ht|]. by etrans.
Qed.

Lemma framed_raise {A} e : framed (raise e : KM A).
Proof. by intros k. Qed.

Lemma framed_lift {A} (r : SysRes A) : framed (lift r).
Proof. by intros k. Qed.

Lemma framed_reads {A} (f : Kernel -> SysRes A) : framed (reads f).
Proof. by intros k. Qed.

Lemma framed_gets {A} (f : Kernel -> A) : framed (gets f).
Proof. by intros k. Qed.

Lemma framed_set_proc f : (forall p, same_identity p (f p)) -> framed (set_proc f).
Proof. intros Hf k. split; [done|]. apply Hf. Qed.

Lemma framed_in_memory {A} (m : SysMem A) : framed (in_memory m).
Proof. intros k. unfold in_memory, zoom. by destruct (m (k_memory k)). Qed.

Lemma framed_in_fds {A} (m : ST FdState SyscallError A) : framed (in_fds m).
Proof. intros k. unfold in_fds, zoom. by destruct (m _). Qed.

Lemma framed_in_world {A} (m : ST World SyscallError A) : framed (in_world m).
Proof. apply framed_in_fds. Qed.
End Frame.

#[export] Hint Resolve framed_ret framed_raise framed_lift framed_reads framed_gets
  framed_in_memory framed_in_fds framed_in_world : frame.

Ltac head_of t := lazymatch t with ?f _ => head_of f | _ => t end.

(** Follow the definition of an operation. *)
Ltac framing :=
  repeat first
    [ progress intros
    | solve [eauto with frame nocore]
    | apply framed_bind
    | apply framed_set_proc
    | match goal with |- framed ?m => let h := head_of m in unfold h; cbv zeta end
    | match goal with |- framed (match ?x with _ => _ end) => destruct x end
    | solve [by split] ].

Section Calls.
Context `{Host}.

Lemma framed_poll_loop n a i r : framed (poll_loop n a i r).
Proof. revert i r. induction n; framing. Qed.

Lemma framed_writev_loop n fd a i t : framed (writev_loop n fd a i t).
Proof. revert i t. induction n; framing. Qed.

Lemma framed_readv_loop n fd a i t : framed (readv_loop n fd a i t).
Proof. revert i t. induction n; framing. Qed.

Lemma framed_for_each {A} (l : list A) f : (forall x, framed (f x)) -> framed (for_each l f).
Proof. intros Hf. induction l; framing. Qed.

Hint Resolve framed_poll_loop framed_writev_loop framed_readv_loop framed_for_each : frame.

(** The calls that return a number, fork apart. *)
Lemma framed_dispatch_value number args regs :
  number <> Sys_Clone -> number <> Sys_Fork -> number <> Sys_VFork ->
  framed (dispatch_value number args regs).
Proof. intros. destruct number; try done; cbn [dispatch_value]; framing. Qed.
End Calls.

(** ** Calls that do not look at the table *)

Create HintDb blind.

Section Blind.
Context `{Host}.
Abbreviation KM := (ST Kernel SyscallError).

(** The kernel with another table of processes. *)
Definition retable (t : option ProcessTable) (k : Kernel) : Kernel :=
  mkKernel (k_process k) (k_memory k) (k_shared k) t.

Definition blind {A} (m : KM A) : Prop := forall k t,
  m (retable t k) = ((m k).1, retable t (m k).2).

Lemma blind_ret {A} (a : A) : blind (mret a).
Proof. by intros k. Qed.

Lemma blind_bind {A B} (m : KM A) (f : A -> KM B) :
  blind m -> (forall a, blind (f a)) -> blind (m ≫= f).
Proof.
  intros Hm Hf k t. unfold mbind, st_bind. rewrite Hm.
  destruct (m k) as [[a|e|] k1]; [|done..]. apply Hf.
Qed.

Lemma blind_raise {A} e : blind (raise e : KM A).
Proof. by intros k. Qed.

Lemma blind_lift {A} (r : SysRes A) : blind (lift r).
Proof. by intros k. Qed.

Lemma blind_reads {A} (f : Kernel -> SysRes A) : (forall t k, f (retable t k) = f k) ->
  blind (reads f).
Proof. intros Hf k t. unfold reads. by rewrite Hf. Qed.

Lemma blind_gets {A} (f : Kernel -> A) : (forall t k, f (retable t k) = f k) -> blind (gets f).
Proof. intros Hf k t. unfold gets. by rewrite Hf. Qed.

Lemma blind_set_proc f : blind (set_proc f).
Proof. by intros k t. Qed.

Lemma blind_in_memory {A} (m : SysMem A) : blind (in_memory m).
Proof. intros k t. unfold in_memory, zoom. cbn. by destruct (m (k_memory k)). Qed.

Lemma blind_in_fds {A} (m : ST FdState SyscallError A) : blind (in_fds m).
Proof. intros k t. unfold in_fds, zoom. cbn. by destruct (m _). Qed.

Lemma blind_in_world {A} (m : ST World SyscallError A) : blind (in_world m).
Proof. apply blind_in_fds. Qed.
End Blind.

#[export] Hint Resolve blind_ret blind_raise blind_lift blind_set_proc
  blind_in_memory blind_in_fds blind_in_world : blind.

Ltac blinding :=
  repeat first
    [ progress intros
    | solve [eauto with blind nocore]
    | apply blind_bind
    | apply blind_reads; done
    | apply blind_gets; done
    | match goal with |- blind ?m => let h := head_of m in unfold h; cbv zeta end
    | match goal with |- blind (match ?x with _ => _ end) => destruct x end ].

Section BlindCalls.
Context `{Host}.

Lemma blind_poll_loop n a i r : blind (poll_loop n a i r).
Proof. revert i r. induction n; blinding. Qed.

Lemma blind_writev_loop n fd a i t : blind (writev_loop n fd a i t).
Proof. revert i t. induction n; blinding. Qed.

Lemma blind_readv_loop n fd a i t : blind (readv_loop n fd a i t).
Proof. revert i t. induction n; blinding. Qed.

Lemma blind_for_each {A} (l : list A) f : (forall x, blind (f x)) -> blind (for_each l f).
Proof. intros Hf. induction l; blinding. Qed.

Hint Resolve blind_poll_loop blind_writev_loop blind_readv_loop blind_for_each : blind.

(** The calls that return a number, fork apart. *)
Lemma blind_dispatch_value number args regs :
  number <> Sys_Clone -> number <> Sys_Fork -> number <> Sys_VFork ->
  blind (dispatch_value number args regs).
Proof. intros. destruct number; try done; cbn [dispatch_value]; blinding. Qed.
End BlindCalls.
