(* ===== verification/Isolation.v ===== *)
(** * Processes are isolated

    A round of the run loop executes a block of one process and serves its
    system call.  It changes nothing of any other process but its run state and
    its list of children, except that the process may create a child and may
    remove one that has exited and that it waits for. *)

From S2P Require Import Prelude Memory Registers Ir Iced Cpu Interp Loader Host Fs LinuxAbi Terminal Fd Process Syscalls RunLoop FdProps ProcessProps SyscallFrame.

Open Scope Z_scope.

Section Isolation.
Context `{HOST : Host} `{ICED : Iced}.
Abbreviation KM := (ST Kernel SyscallError).

(** ** Records *)

(** What belongs to a thread alone. *)
Definition thread_self (t : LinuxThread) : Z * Z * Registers :=
  (t_tid t, t_process_id t, t_registers t).

(** The same process: only the run states and the list of children may differ. *)
Record same_process (r r' : ProcessRecord) : Prop := {
  sp_process : pr_process r' = pr_process r;
  sp_memory : pr_memory r' = pr_memory r;
  sp_threads : thread_self <$> pr_threads r' = thread_self <$> pr_threads r;
  sp_parent : pr_parent r' = pr_parent r;
  sp_status : pr_exit_status r' = pr_exit_status r;
  sp_signals : pr_signal_state r' = pr_signal_state r
}.

#[local] Instance same_process_preorder : PreOrder same_process.
Proof. split; [done|]. intros p q r [] []. split; congruence. Qed.

Lemma same_process_wake r : same_process r (wake r).
Proof.
  split; try done. simpl. rewrite <- map_fmap_compose. apply map_fmap_ext.
  intros tid t _. unfold compose, wake_thread. by case_decide.
Qed.

Lemma same_process_children l r : same_process r (set_pr_children l r).
Proof. by split. Qed.

(** ** Tables *)

(** Every process but [pid] is the same. *)
Definition others_same (pid : Z) (t t' : ProcessTable) : Prop := forall q, q <> pid ->
  option_Forall2 same_process (records t !! q) (records t' !! q).

(** Every process but [pid] is the same, or a new child of [pid], or it was
    removed because its exit status was in the queue of [pid]. *)
Definition others_kept (pid : Z) (t t' : ProcessTable) : Prop := forall q, q <> pid ->
  match records t !! q, records t' !! q with
  | Some r, Some r' => same_process r r'
  | Some _, None => exists w status, wait_queues t !! pid = Some w /\ (q, status) ∈ exited w
  | None, Some r' => pr_parent r' = Some pid /\ next_pid t <= q
  | None, None => True
  end.

(** A record and its threads carry the number [q]. *)
Record numbered (q : Z) (r : ProcessRecord) : Prop := {
  nu_pid : p_pid (pr_process r) = q;
  nu_threads : forall tid th, pr_threads r !! tid = Some th -> t_process_id th = q /\ t_tid th = tid
}.

(** A record is stored under the number it carries, and numbers from the next one
    on are free. *)
Definition keyed (t : ProcessTable) : Prop := forall q r, records t !! q = Some r ->
  numbered q r /\ q < next_pid t.

#[local] Instance others_same_preorder pid : PreOrder (others_same pid).
Proof.
  split.
  - intros t q _. destruct (records t !! q); by constructor.
  - intros t1 t2 t3 H12 H23 q Hq. specialize (H12 q Hq). specialize (H23 q Hq).
    destruct H12; inversion H23; subst; constructor. by etrans.
Qed.

Lemma others_same_kept pid t t' : others_same pid t t' -> others_kept pid t t'.
Proof. intros Hs q Hq. destruct (Hs q Hq); done. Qed.

Lemma others_kept_same pid t1 t2 t3 : others_kept pid t1 t2 -> others_same pid t2 t3 ->
  others_kept pid t1 t3.
Proof.
  intros H12 H23 q Hq. specialize (H12 q Hq). destruct (H23 q Hq) as [r2 r3 Hr|]; [|done].
  destruct (records t1 !! q) as [r1|]; [by etrans|]. destruct H12 as [<- ?], Hr. done.
Qed.

(** Changes that leave the other processes the same. *)
Lemma same_insert pid r t : others_same pid t (insert_record pid r t).
Proof.
  intros q Hq. simpl. rewrite lookup_insert_ne by done. destruct (records t !! q); by constructor.
Qed.

Lemma same_take pid t : others_same pid t (table_take pid t).2.
Proof.
  intros q Hq. simpl. rewrite lookup_delete_ne by done. destruct (records t !! q); by constructor.
Qed.

Lemma same_queues pid f t : others_same pid t (set_wait_queues f t).
Proof. intros q _. simpl. destruct (records t !! q); by constructor. Qed.

Lemma same_alter pid f q t : (forall r, same_process r (f r)) ->
  others_same pid t (set_records (alter f q) t).
Proof.
  intros Hf x _. simpl. rewrite lookup_alter. case_decide as Hx; [subst|].
  - destruct (records t !! _); constructor. apply Hf.
  - destruct (records t !! x); by constructor.
Qed.

Lemma same_alter_self pid f t : others_same pid t (set_records (alter f pid) t).
Proof.
  intros q Hq. simpl. rewrite lookup_alter_ne by done. destruct (records t !! q); by constructor.
Qed.

Lemma same_exit pid code t : others_same pid t (exit_process pid code t).
Proof.
  unfold exit_process. etrans; [apply (same_alter_self pid (mark_exited code))|].
  destruct (_ ≫= _) as [parent|]; [|done].
  etrans; [apply (same_queues pid)|]. apply same_alter, same_process_wake.
Qed.

Lemma same_record_exit pid parent code t : others_same pid t (record_exit pid parent code t).
Proof.
  unfold record_exit. etrans; [apply (same_exit pid code)|]. destruct parent as [parent|]; [|done].
  set (t1 := exit_process pid code t). lazymatch goal with
  | |- context [if ?b then _ else _] => destruct b end.
  - apply same_alter, same_process_wake.
  - etrans; [apply (same_queues pid)|]. apply same_alter, same_process_wake.
Qed.

Lemma kept_wait4 pid requested t : others_kept pid t (wait4 pid requested t).2.
Proof.
  unfold wait4. destruct (wait_queues t !! pid) as [w|] eqn:Hw; [|by apply others_same_kept].
  unfold pop_matching. destruct (position _ _) as [i|]; [|by apply others_same_kept, same_queues].
  destruct (exited w !! i) as [[c st]|] eqn:Hi; [|by apply others_same_kept, same_queues].
  eapply others_kept_same; [|apply same_alter; intros; apply same_process_children].
  intros q Hq. simpl. rewrite lookup_delete. case_decide as Hc; [|by destruct (records t !! q)].
  subst q. destruct (records t !! c); [|done]. exists w, st. split; [done|].
  by apply list_elem_of_lookup_2 with i.
Qed.

(** Keys. *)
Lemma numbered_same q r r' : same_process r r' -> numbered q r -> numbered q r'.
Proof.
  intros [Hp _ Ht _ _ _] [Hq Hth]. split; [by rewrite Hp|]. intros tid th Hl.
  assert ((thread_self <$> pr_threads r') !! tid = Some (thread_self th)) as Hs
    by (by rewrite lookup_fmap, Hl).
  rewrite Ht, lookup_fmap in Hs. destruct (pr_threads r !! tid) as [th0|] eqn:H0; [|done].
  injection Hs as H1 H2 H3. destruct (Hth tid th0 H0). split; congruence.
Qed.

Lemma numbered_threads q f r : (forall th, t_process_id (f th) = t_process_id th /\
    t_tid (f th) = t_tid th) -> numbered q r ->
  numbered q (set_pr_threads (f <$> pr_threads r) r) /\
  forall tid, numbered q (set_pr_threads (alter f tid (pr_threads r)) r).
Proof.
  intros Hf [Hp Hth]. split; [|intros tid0]; (split; [done|]); intros tid th; simpl.
  - rewrite lookup_fmap_Some. intros (th0 & <- & Hl). destruct (Hf th0) as [-> ->]. by apply Hth.
  - rewrite lookup_alter_Some. intros [(-> & th0 & Hl & ->)|[_ Hl]]; [|by apply Hth].
    destruct (Hf th0) as [-> ->]. by apply Hth.
Qed.

Lemma numbered_process q p r : numbered q r -> p_pid p = q -> numbered q (set_pr_process p r).
Proof. intros [] ?. by split. Qed.

Lemma numbered_exited q code r : numbered q r -> numbered q (mark_exited code r).
Proof.
  intros Hr. destruct (numbered_threads q (set_t_state Exited) r ltac:(done) Hr) as [[Hp Ht] _].
  by split.
Qed.

Lemma numbered_absorb q i r : numbered q r -> numbered q (absorb i r).
Proof.
  intros [Hp Ht]. by apply (numbered_threads q (set_t_registers (registers i)) (set_pr_memory (memory i) r)).
Qed.

Lemma numbered_waiting q r : numbered q r -> numbered q (set_waiting r).
Proof.
  intros [Hp Ht]. by apply (numbered_threads q (set_t_state Waiting) (set_pr_state Waiting r)).
Qed.

Lemma numbered_new p m regs parent : numbered (p_pid p) (new_record p m regs (p_pid p) parent).
Proof. split; [done|]. intros tid th. simpl. by intros [<- <-]%lookup_singleton_Some. Qed.

Lemma keyed_insert pid r t : keyed t -> numbered pid r -> pid < next_pid t ->
  keyed (insert_record pid r t).
Proof.
  intros Ht Hr Hn q x. simpl. rewrite lookup_insert_Some. intros [[<- <-]|[_ ?]]; [done|by apply Ht].
Qed.

Lemma keyed_queues f t : keyed t -> keyed (set_wait_queues f t).
Proof. done. Qed.

Lemma keyed_delete q t : keyed t -> keyed (set_records (delete q) t).
Proof. intros Ht x r. simpl. rewrite lookup_delete_Some. intros [_ ?]. by apply Ht. Qed.

Lemma keyed_alter f q t : (forall x r, numbered x r -> numbered x (f r)) -> keyed t ->
  keyed (set_records (alter f q) t).
Proof.
  intros Hf Ht x r. simpl. rewrite lookup_alter_Some. intros [(-> & r0 & Hr & ->)|[_ ?]].
  - destruct (Ht _ r0 Hr). by split; [apply Hf|].
  - by apply Ht.
Qed.

Lemma keyed_alter_same f q t : (forall r, same_process r (f r)) -> keyed t ->
  keyed (set_records (alter f q) t).
Proof. intros Hf. apply keyed_alter. intros x r. apply numbered_same, Hf. Qed.

Lemma keyed_exit pid code t : keyed t -> keyed (exit_process pid code t).
Proof.
  intros Ht. unfold exit_process. assert (keyed (set_records (alter (mark_exited code) pid) t))
    by (apply keyed_alter; [intros; by apply numbered_exited|done]).
  destruct (_ ≫= _); [|done]. by apply keyed_alter_same; [apply same_process_wake|].
Qed.

Lemma keyed_record_exit pid parent code t : keyed t -> keyed (record_exit pid parent code t).
Proof.
  intros Ht%(keyed_exit pid code). unfold record_exit. destruct parent as [parent|]; [|done].
  apply keyed_alter_same; [apply same_process_wake|]. by lazymatch goal with |- context [if ?b then _ else _] => destruct b end.
Qed.

Lemma keyed_wait4 pid requested t : keyed t -> keyed (wait4 pid requested t).2.
Proof.
  intros Ht. unfold wait4. destruct (wait_queues t !! pid); [|done].
  destruct (pop_matching _ _) as [[[c st]|] w']; [|done].
  apply keyed_alter_same; [intros; apply same_process_children|]. by apply keyed_delete.
Qed.

Lemma exit_next pid code t : next_pid (exit_process pid code t) = next_pid t.
Proof. unfold exit_process. by destruct (_ ≫= _). Qed.

Lemma record_exit_next pid parent code t : next_pid (record_exit pid parent code t) = next_pid t.
Proof.
  unfold record_exit. destruct parent; [|apply exit_next].
  simpl. rewrite <- (exit_next pid code t).
  by lazymatch goal with |- context [if ?b then _ else _] => destruct b end.
Qed.

Lemma wait4_next pid requested t : next_pid (wait4 pid requested t).2 = next_pid t.
Proof.
  unfold wait4. destruct (wait_queues t !! pid); [|done].
  by destruct (pop_matching _ _) as [[[c st]|] w'].
Qed.

(** ** Forks *)

Lemma fork_step p m regs t sh : let '(_, (t', _)) := fork_from_process p m regs (t, sh) in
  others_kept (p_pid p) t t' /\ (keyed t -> keyed t') /\ next_pid t <= next_pid t'.
Proof.
  assert (others_kept (p_pid p) t t) as Hrefl by by apply others_same_kept.
  unfold fork_from_process.
  destruct (allocate_pid_spec t) as [->|(x & -> & Hx & Hfree & _)]; [done|].
  set (t1 := mkProcessTable (records t) (wait_queues t) (x + 1)).
  assert (others_kept (p_pid p) t t1) as H01 by done.
  assert (keyed t -> keyed t1) as K01.
  { intros Ht q r Hq. destruct (Ht q r Hq). split; [done|]. simpl. lia. }
  assert (next_pid t <= next_pid t1) as N01 by (simpl; lia).
  destruct (try_clone_for_child p x sh) as [[c|e|] sh1] eqn:Hc; [|done..].
  apply try_clone_spec in Hc as (_ & _ & Hcv).
  destruct (child_memory c m) as [[[]|e|] m']; [|done..].
  set (rec := new_record c m' (Registers.set_rax 0 regs) x (Some (p_pid p))).
  split; [|split; [|simpl; lia]].
  - eapply others_kept_same; [|apply same_alter; intros; apply same_process_children].
    intros q Hq. simpl. rewrite lookup_insert. case_decide as Heq; [subst q|by apply H01].
    by rewrite Hfree.
  - intros Ht. apply keyed_alter_same; [intros; apply same_process_children|].
    apply keyed_insert; [by apply K01| |simpl; lia].
    assert (p_pid c = x) as <- by by rewrite Hcv. apply numbered_new.
Qed.

(** ** System calls *)

(** What a call does to the table of processes. *)
Definition call_step {A} (m : KM A) (k : Kernel) : Prop := forall t, k_table k = Some t ->
  same_identity (k_process k) (k_process (m k).2) /\
  exists t', k_table (m k).2 = Some t' /\ others_kept (p_pid (k_process k)) t t' /\
    (keyed t -> keyed t') /\ next_pid t <= next_pid t'.

Lemma framed_step {A} (m : KM A) k : framed m -> call_step m k.
Proof.
  intros Hm t Ht. destruct (Hm k) as [Hk Hp]. split; [done|]. exists t.
  split; [by rewrite Hk|]. split; [by apply others_same_kept|done].
Qed.

Lemma step_bind {A B} (m : KM A) (f : A -> KM B) k : call_step m k ->
  (forall a, framed (f a)) -> call_step (m ≫= f) k.
Proof.
  intros Hm Hf t Ht. destruct (Hm t Ht) as [Hp (t1 & Ht1 & Hk1)].
  unfold mbind, st_bind. destruct (m k) as [[a|e|] k1]; cbn [snd] in *; [|by eauto..].
  destruct (Hf a k1) as [Hk2 Hp2]. split; [by etrans|]. exists t1. by rewrite Hk2.
Qed.

Lemma step_with_table {A} (f : ProcessTable -> A * ProcessTable) k :
  (forall t, others_kept (p_pid (k_process k)) t (f t).2 /\ (keyed t -> keyed (f t).2) /\
     next_pid (f t).2 = next_pid t) ->
  call_step (with_table f) k.
Proof.
  intros Hf t Ht. unfold with_table. rewrite Ht. destruct (Hf t) as (H1 & H2 & H3).
  destruct (f t) as [a t']. split; [done|]. exists t'. do 3 (split; [done|]). simpl in *. lia.
Qed.

Lemma step_exit args k : call_step (syscall_exit args) k.
Proof.
  change (call_step (with_table (fun t => (tt, exit_process (p_pid (k_process k))
    (signed 32 (arg args 0)) t)) ;; mret (ExitWith (signed 32 (arg args 0)))) k).
  apply step_bind; [|intros; apply framed_ret]. apply step_with_table. intros t.
  split; [apply others_same_kept, same_exit|]. split; [apply keyed_exit|apply exit_next].
Qed.

Lemma step_wait4 args k : call_step (syscall_wait4 args) k.
Proof.
  unfold syscall_wait4. set (requested := wait_requested_pid (arg args 0)). cbv zeta.
  lazymatch goal with |- call_step (proc p_pid ≫= ?f) _ =>
    change (call_step (f (p_pid (k_process k))) k) end.
  cbv beta. apply step_bind; [|framing]. apply step_with_table. intros t.
  split; [apply kept_wait4|]. split; [apply keyed_wait4|apply wait4_next].
Qed.

Lemma step_fork regs k : call_step (syscall_fork regs) k.
Proof.
  intros t Ht. unfold syscall_fork. rewrite Ht. destruct regs as [regs|].
  - pose proof (fork_step (k_process k) (k_memory k) regs t (k_shared k)) as Hf.
    destruct (fork_from_process _ _ _ _) as [r [t' sh]]. split; [done|]. by exists t'.
  - revert t Ht.
    change (call_step (next ← lift (add_u32 (p_next_child_pid (k_process k)) 1);
      set_proc (set_p_next_child_pid next) ;; mret (p_next_child_pid (k_process k))) k).
    apply framed_step. framing.
Qed.

Lemma step_inner number args regs k : call_step (dispatch_inner number args regs) k.
Proof.
  destruct number; cbn [dispatch_inner]; try apply step_exit; try apply step_wait4;
    try (apply step_bind; [|intros; apply framed_ret]);
    try (apply framed_step, framed_dispatch_value; discriminate);
    cbn [dispatch_value]; try apply step_fork; apply framed_step; framing.
Qed.

Lemma step_dispatch input regs k t : k_table k = Some t ->
  let k' := (dispatch_with_process_model input regs k).2 in
  same_identity (k_process k) (k_process k') /\
  exists t', k_table k' = Some t' /\ others_kept (p_pid (k_process k)) t t' /\
    (keyed t -> keyed t') /\ next_pid t <= next_pid t'.
Proof.
  intros Ht. unfold dispatch_with_process_model.
  pose proof (step_inner (syscall_from (in_number input)) (in_args input) regs k t Ht) as Hs.
  destruct (dispatch_inner _ _ _ k) as [r k1]. cbn [snd] in Hs. unfold mbind, st_bind.
  destruct (outcome_of r); [|done..]. destruct Hs as [[] Hs]. split; [by split|done].
Qed.

(** ** Rounds *)

(** A step that leaves the other processes and their caches the same. *)
Record quiet (pid : Z) (s s' : System) : Prop := {
  qu_table : others_same pid (process_table s) (process_table s');
  qu_caches : forall q, q <> pid -> execution_caches s' !! q = execution_caches s !! q;
  qu_next : next_pid (process_table s') = next_pid (process_table s);
  qu_keyed : pid < next_pid (process_table s) -> keyed (process_table s) ->
    keyed (process_table s')
}.

#[local] Instance quiet_preorder pid : PreOrder (quiet pid).
Proof.
  split; [intros s; by split|]. intros s1 s2 s3 [T1 C1 N1 K1] [T2 C2 N2 K2].
  split; [by etrans|by intros; rewrite C2, C1|congruence|]. intros. apply K2; [lia|auto].
Qed.

Lemma quiet_keep pid i s : quiet pid s (keep_interpreter pid i s).
Proof. split; [done| |done..]. intros q Hq. simpl. by rewrite lookup_insert_ne. Qed.

Lemma quiet_insert pid r s : numbered pid r ->
  quiet pid s (set_ptable (insert_record pid r) s).
Proof. intros Hr. split; [apply same_insert|done..|]. intros Hn Hs. by apply keyed_insert. Qed.

Lemma quiet_enqueue pid s : quiet pid s (enqueue_runnable s).
Proof. by split. Qed.

Lemma quiet_put_back pid r i s : numbered pid r ->
  quiet pid s (put_back pid r i s : res RunError unit * System).2.
Proof.
  intros Hr. etrans; [apply (quiet_keep pid i)|].
  apply quiet_insert, (numbered_same _ (absorb i r)), numbered_absorb, Hr. apply same_process_children.
Qed.

Lemma quiet_resume pid r i s : numbered pid r -> quiet pid s (resume pid r i s).2.
Proof.
  intros Hr. unfold resume, mbind, st_bind. pose proof (quiet_put_back pid r i s Hr) as Hq.
  destruct (put_back pid r i s) as [[] s1]; [|done..]. destruct (decide _); [|done].
  etrans; [done|]. apply quiet_enqueue.
Qed.

Lemma quiet_finish pid initial code r i s : numbered pid r ->
  quiet pid s (finish_process pid initial code r i s).2.
Proof.
  intros Hr. unfold finish_process, mbind, st_bind, modify. cbn [fst snd].
  assert (quiet pid s (set_ptable (record_exit pid (pr_parent r) code) s)) as H1.
  { split; [apply same_record_exit|done|apply record_exit_next|].
    intros _. apply keyed_record_exit. }
  etrans; [exact H1|]. etrans; [apply (quiet_keep pid i)|].
  etrans; [apply (quiet_insert pid (mark_exited code (absorb i r)))|].
  { by apply numbered_exited, numbered_absorb. }
  by destruct (pid =? initial).
Qed.

(** A round of process [pid], and what holds of the rest of the system. *)
Record isolated (pid : Z) (s s' : System) : Prop := {
  is_table : others_kept pid (process_table s) (process_table s');
  is_caches : forall q, q <> pid -> execution_caches s' !! q = execution_caches s !! q;
  is_next : next_pid (process_table s) <= next_pid (process_table s');
  is_keyed : pid < next_pid (process_table s) -> keyed (process_table s) ->
    keyed (process_table s')
}.

Lemma isolated_quiet pid s1 s2 s3 : isolated pid s1 s2 -> quiet pid s2 s3 -> isolated pid s1 s3.
Proof.
  intros [T1 C1 N1 K1] [T2 C2 N2 K2].
  split; [by eapply others_kept_same|by intros; rewrite C2, C1|lia|]. intros. apply K2; [lia|auto].
Qed.

Lemma quiet_isolated pid s s' : quiet pid s s' -> isolated pid s s'.
Proof. intros []. split; [by apply others_same_kept|done|lia|done]. Qed.

Lemma isolated_serve pid initial trap r i s : numbered pid r ->
  isolated pid s (serve pid initial trap r i s).2.
Proof.
  intros Hr. unfold serve.
  set (k := mkKernel (pr_process r) (memory i) (sys_shared s) (Some (process_table s))).
  destruct (step_dispatch (mkInput (number trap) (args trap)) (Some (registers i)) k
    (process_table s) eq_refl) as (Hp & t' & Ht & Hk & Hy & Hn).
  destruct (dispatch_with_process_model _ _ k) as [o k']. cbn [snd] in *.
  set (s1 := set_sys_shared (k_shared k') (set_ptable (fun t => default t (k_table k')) s)).
  assert (isolated pid s s1) as H1.
  { unfold s1. split; [|done|..]; simpl; rewrite Ht; simpl; [by rewrite <- (nu_pid _ _ Hr)|done|auto]. }
  assert (numbered pid (set_pr_process (k_process k') r)) as Hpid.
  { apply numbered_process; [done|]. rewrite (si_pid _ _ Hp). apply Hr. }
  lazymatch goal with |- context [if decide ?P then ?x else ?y] =>
    destruct (if decide P then x else y) as [[] i1] end; [|done..].
  destruct o as [[value| |code|request]|[]|]; [..|done].
  - eapply isolated_quiet; [exact H1|]. by apply quiet_resume.
  - eapply isolated_quiet; [exact H1|]. unfold mbind, st_bind.
    etrans; [|apply quiet_enqueue]. by apply (quiet_put_back pid (set_waiting _)), numbered_waiting.
  - eapply isolated_quiet; [exact H1|]. unfold mbind, st_bind.
    pose proof (quiet_finish pid initial code (set_pr_process (k_process k') r)
      (update_registers (set_fs_base (p_fs_base (k_process k'))) i1) s1 Hpid) as Hq.
    cbn [pr_process set_pr_process] in *.
    destruct (finish_process _ _ _ _ _ _) as [[] s2]; [|done..]. etrans; [done|]. apply quiet_enqueue.
  - cbn [pr_process set_pr_process]. destruct (execve_state _ _ _) as [[[m regs] p]|e|] eqn:He; [|done..].
    assert (p_pid p = pid) as Hpp.
    { unfold execve_state in He. destruct (fs_read _ _); [|done..]. cbn in He.
      destruct (load_program_image _ _ _ _ _); [|done..]. injection He as _ _ <-. apply Hpid. }
    destruct (replace_state _ _ _) as [[] i2]; [|done..].
    eapply isolated_quiet; [exact H1|]. apply quiet_resume. by apply numbered_process.
Qed.

Lemma isolated_run trace pid initial r regs s : numbered pid r ->
  isolated pid s (run_process trace pid initial r regs s).2.
Proof.
  intros Hr. unfold run_process. set (i0 := mkInterpreter _ _ _ _ _ _).
  assert (quiet pid s (remove_cache pid s)) as H0.
  { split; [done| |done..]. intros q Hq. simpl. by rewrite lookup_delete_ne. }
  assert (numbered pid (set_pr_memory Memory.new r)) as Hr1 by (destruct Hr; by split).
  destruct (step_block i0) as [[[|trap|code]|e|] i1]; cbn [fst snd].
  - apply quiet_isolated. etrans; [exact H0|]. by apply quiet_resume.
  - pose proof (isolated_serve pid initial trap (set_pr_memory Memory.new r) i1
      (remove_cache pid s) Hr1) as [T C N K]. destruct H0 as [_ C0 _ _].
    split; [exact T|by intros; rewrite C, C0|exact N|exact K].
  - apply quiet_isolated. etrans; [exact H0|]. by apply quiet_finish.
  - apply quiet_isolated. destruct (unsupported_instruction e); [|done]. destruct H0. by split.
  - by apply quiet_isolated.
Qed.

(** The process the next round runs. *)
Definition running (s : System) : option Z :=
  fst <$> (next_thread (process_table s) (scheduler s)).1.

Lemma next_thread_found t sch e sch' : next_thread t sch = (Some e, sch') ->
  is_Some (records t !! e.1).
Proof.
  unfold next_thread. destruct (next_loop t (run_queue sch)) as [o q] eqn:Hn. intros [= -> _].
  apply next_loop_runnable in Hn. unfold thread_runnable in Hn. by destruct (records t !! e.1).
Qed.

Lemma isolated_round trace initial s : keyed (process_table s) ->
  match running s with
  | Some pid => isolated pid s (round trace initial s).2 /\ pid < next_pid (process_table s)
  | None => process_table (round trace initial s).2 = process_table s /\
            execution_caches (round trace initial s).2 = execution_caches s
  end.
Proof.
  intros Ht. unfold running, round.
  destruct (next_thread (process_table s) (scheduler s)) as [[[pid tid]|] sch] eqn:Hn; simpl.
  2:{ by destruct (initial_exit_code s). }
  apply next_thread_found in Hn as [r Hr]. simpl in Hr. rewrite Hr.
  destruct (Ht pid r Hr) as [Hpid Hlt]. split; [|done].
  set (s1 := set_ptable _ _). destruct (decide (pr_state r = Runnable)).
  - destruct (main_thread_registers r) as [regs|].
    + pose proof (isolated_run trace pid initial r regs s1 Hpid) as Hi.
      unfold mbind, st_bind. destruct (run_process _ _ _ _ _ s1) as [res s2].
      assert (isolated pid s s2) as Hs.
      { destruct Hi as [T C N K]. split; [|exact C|exact N|].
        - intros q Hq. specialize (T q Hq). simpl in T. by rewrite lookup_delete_ne in T.
        - intros _ _. apply K; [done|]. by apply keyed_delete. }
      by destruct res.
    + apply quiet_isolated. split; [apply same_take|done..|]. intros _ _. by apply keyed_delete.
  - apply quiet_isolated. split; [|done..|].
    + etrans; [apply (same_take pid)|]. apply same_insert.
    + intros _ _. apply keyed_insert; [by apply keyed_delete|done..].
Qed.

Lemma keyed_round trace initial s : keyed (process_table s) ->
  keyed (process_table (round trace initial s).2).
Proof.
  intros Ht. pose proof (isolated_round trace initial s Ht) as Hr.
  destruct (running s); [destruct Hr as [[] ?]; auto|]. by destruct Hr as [-> _].
Qed.

Lemma keyed_rounds n trace initial s : keyed (process_table s) ->
  keyed (process_table (rounds n trace initial s).2).
Proof.
  revert s. induction n as [|n IH]; intros s Ht; [done|]. cbn [rounds]. unfold mbind, st_bind.
  apply (keyed_round trace initial) in Ht. destruct (round trace initial s) as [[[c|]|e|] s1]; auto.
Qed.

Lemma keyed_initial rootfs program loaded w pid s :
  initial_system rootfs program loaded w = Ok (pid, s) -> keyed (process_table s).
Proof.
  unfold initial_system, insert_initial. destruct (add_u32 _ _) as [n|e|] eqn:Hadd; [|done..].
  cbn [mbind res_bind]. intros [= <- <-]. cbn [process_table]. apply keyed_queues, keyed_insert; [done| |].
  { apply (numbered_new (with_executable rootfs (to_string_lossy program) w)). }
  simpl. apply Z.lt_le_trans with n; [|apply Z.le_max_r]. unfold add_u32 in Hadd. vm_compute in Hadd.
  by injection Hadd as <-.
Qed.

(** Rounds in which [q] does not run. *)
Inductive unscheduled (trace : bool) (initial q : Z) : System -> System -> Prop :=
| us_refl s : unscheduled trace initial q s s
| us_step s s1 s2 : running s <> Some q -> round trace initial s = (Ok None, s1) ->
    unscheduled trace initial q s1 s2 -> unscheduled trace initial q s s2.

Lemma absent_stays trace initial q s s' : keyed (process_table s) ->
  unscheduled trace initial q s s' -> records (process_table s) !! q = None ->
  q < next_pid (process_table s) -> records (process_table s') !! q = None.
Proof.
  intros Ht Hu. induction Hu as [|s s1 s2 Hne Hr _ IH]; [done|]. intros Hq Hlt.
  pose proof (isolated_round trace initial s Ht) as Hi.
  pose proof (keyed_round trace initial s Ht) as Ht1. rewrite Hr in Hi, Ht1. cbn [snd] in *.
  destruct (running s) as [pid|]; [destruct Hi as [[T _ N _] _]|destruct Hi as [Hi _]].
  - specialize (T q ltac:(congruence)). rewrite Hq in T. apply IH; [done| |lia].
    destruct (records (process_table s1) !! q); [destruct T; lia|done].
  - apply IH; [done|by rewrite Hi..].
Qed.

Lemma state_kept trace initial q s s' r r' : keyed (process_table s) ->
  unscheduled trace initial q s s' -> records (process_table s) !! q = Some r ->
  records (process_table s') !! q = Some r' ->
  same_process r r' /\ execution_caches s' !! q = execution_caches s !! q.
Proof.
  intros Ht Hu. revert r. induction Hu as [|s s1 s2 Hne Hr Hu IH]; intros r Hq Hq'.
  { rewrite Hq in Hq'. by injection Hq' as ->. }
  pose proof (isolated_round trace initial s Ht) as Hi.
  pose proof (keyed_round trace initial s Ht) as Ht1. rewrite Hr in Hi, Ht1. cbn [snd] in *.
  destruct (running s) as [pid|]; [destruct Hi as [[T C N _] _]|destruct Hi as [Hi Hc]].
  - specialize (T q ltac:(congruence)). rewrite Hq in T.
    destruct (records (process_table s1) !! q) as [r1|] eqn:H1.
    + destruct (IH Ht1 r1 eq_refl Hq') as [Hs Hcs]. split; [by etrans|].
      rewrite Hcs. apply C. congruence.
    + rewrite (absent_stays trace initial q s1 s2 Ht1 Hu H1) in Hq'; [done|].
      destruct (Ht q r Hq). lia.
  - rewrite Hi in IH. destruct (IH Ht r Hq Hq') as [Hs ->]. split; [done|]. by rewrite Hc.
Qed.

(** C3: processes are isolated.  Whatever program was started and after any
    number of rounds, a round in which process [pid] runs leaves every other
    process alone: its memory, its registers, its descriptors and everything else
    but its run states and its list of children are unchanged, and so is its
    block cache.  A process that appears is a new child of [pid], with a number
    never used before; one that disappears was in the queue of the exited
    children of [pid].  So a process finds its state, when it runs again, as it
    left it, however many rounds of others lie between. *)
Theorem processes_isolated (rootfs : option PathBuf) (program : PathBuf)
    (args envp : list (list Z)) (w : World) (trace : bool) (n : nat) :
  match started rootfs program args envp w with
  | Ok (initial, s0) =>
      let s := (rounds n trace initial s0).2 in
      let s1 := (round trace initial s).2 in
      (forall pid, running s = Some pid ->
         others_kept pid (process_table s) (process_table s1) /\
         forall q, q <> pid -> execution_caches s1 !! q = execution_caches s !! q) /\
      (forall q s' r r', unscheduled trace initial q s s' ->
         records (process_table s) !! q = Some r -> records (process_table s') !! q = Some r' ->
         same_process r r' /\ execution_caches s' !! q = execution_caches s !! q)
  | _ => True
  end.
Proof.
  unfold started. destruct (fs_read _ w) as [bytes| |]; cbn [mbind res_bind map_err]; [|done..].
  destruct (load_program_image _ _ _ _ _) as [loaded| |]; cbn [mbind res_bind map_err]; [|done..].
  destruct (initial_system _ _ _ _) as [[initial s0]| |] eqn:Hi; [|done..].
  apply keyed_initial, (keyed_rounds n trace initial) in Hi. split.
  - intros pid Hp. pose proof (isolated_round trace initial _ Hi) as Hr. rewrite Hp in Hr.
    by destruct Hr as [[] _].
  - intros q s' r r'. by apply state_kept.
Qed.
End Isolation.
