(* ===== verification/RunLoopProps.v ===== *)
(** * How the run loop ends a system call

    What the loop does with the two outcomes of a call that do not simply
    return: a call that blocks, and a new program that cannot be loaded. *)

From S2P Require Import Prelude Memory Registers Ir Iced Cpu Interp Loader Host Fs LinuxAbi Terminal Fd Process Syscalls RunLoop.

Open Scope Z_scope.

Section Outcomes.
Context `{HOST : Host} `{ICED : Iced}.

(** The kernel a system call of a record runs in. *)
Definition kernel_of (r : ProcessRecord) (i : Interpreter) (s : System) : Kernel :=
  mkKernel (pr_process r) (memory i) (sys_shared s) (Some (process_table s)).

Definition call_result (trap : SyscallTrap) (r : ProcessRecord) (i : Interpreter) (s : System) :=
  dispatch_with_process_model (mkInput (number trap) (args trap)) (Some (registers i))
    (kernel_of r i s).

(** Waking changes the states of a process and its threads, not its registers. *)
Lemma wake_registers r : main_thread_registers (wake r) = main_thread_registers r.
Proof.
  unfold main_thread_registers, wake. cbn. rewrite lookup_fmap.
  destruct (pr_threads r !! _) as [th|]; [|done]. cbn. unfold wake_thread. by case_decide.
Qed.

Lemma waiting_registers r : main_thread_registers (set_waiting r) = main_thread_registers r.
Proof.
  unfold main_thread_registers, set_waiting. cbn. rewrite lookup_alter, decide_True by done.
  by destruct (pr_threads r !! _).
Qed.

Lemma absorb_registers i r : is_Some (main_thread_registers r) ->
  main_thread_registers (absorb i r) = Some (registers i).
Proof.
  unfold main_thread_registers, absorb, set_main_thread_registers. cbn.
  rewrite lookup_alter, decide_True by done.
  destruct (pr_threads r !! _); [done|]. by intros [? ?].
Qed.

(** A blocked call is not made again.  The process sleeps with the registers it
    had at the call, past the [syscall] instruction and with the number of the
    call in [rax], and that is what it goes on with when the exit of a child
    wakes it: the result of [wait4] never reaches it. *)
Theorem blocked_call_not_restarted (pid initial_pid : Z) (trap : SyscallTrap) (r : ProcessRecord)
    (i : Interpreter) (s : System) (k' : Kernel) (th : LinuxThread)
    (Hn : number trap = 61) (Hd : call_result trap r i s = (Ok Blocked, k'))
    (Hth : pr_threads r !! p_tid (k_process k') = Some th) :
  exists r', records (process_table (serve pid initial_pid trap r i s).2) !! pid = Some r' /\
    pr_state r' = Waiting /\
    main_thread_registers (wake r') =
      Some (set_fs_base (p_fs_base (k_process k')) (registers i)).
Proof.
  unfold serve. unfold call_result, kernel_of in Hd. rewrite Hd.
  rewrite decide_False by (rewrite Hn; by unfold MEMORY_MODIFYING_SYSCALLS; set_solver by lia).
  eexists. split; [apply lookup_insert_eq|]. split; [done|].
  rewrite wake_registers. unfold sync_children.
  change (main_thread_registers (set_pr_children ?c ?x)) with (main_thread_registers x).
  etrans; [apply absorb_registers|done].
  rewrite waiting_registers. unfold main_thread_registers. cbn. by rewrite Hth.
Qed.

(** A program that cannot be loaded ends the run.  When [execve] finds the file
    but reading or loading it fails, the error is not returned to the process
    that asked for it: the run loop stops with it, whatever other processes could
    still run. *)
Theorem failed_execve_ends_run (n : nat) (trace : bool) (initial_pid pid tid : Z) (sch : Scheduler)
    (s : System) (t : ProcessTable) (r : ProcessRecord) (regs : Registers) (i : Interpreter)
    (trap : SyscallTrap) (request : ExecveRequest) (k' : Kernel) (e : RunError)
    (Hnext : next_thread (process_table s) (scheduler s) = (Some (pid, tid), sch))
    (Htake : table_take pid (process_table s) = (Some r, t))
    (Hrun : pr_state r = Runnable) (Hregs : main_thread_registers r = Some regs)
    (Hstep : step_block (mkInterpreter (pr_memory r) regs trace []
       (default default_cache (execution_caches s !! pid)) (clock_reads s)) =
       (Ok (Syscall trap), i))
    (Hnum : number trap = 59)
    (Hd : call_result trap (set_pr_memory Memory.new r) i
            (remove_cache pid (set_ptable (fun _ => t) (set_scheduler sch s))) =
          (Ok (Execve request), k'))
    (He : execve_state (k_process k') request (world (k_shared k')) = Err e) :
  (rounds (S n) trace initial_pid s).1 = Err e.
Proof.
  cbn [rounds]. unfold mbind at 1, st_bind at 1, round. rewrite Hnext. cbn [process_table set_scheduler].
  rewrite Htake, decide_True by done. rewrite Hregs. unfold mbind, st_bind.
  unfold run_process. cbn [execution_caches set_ptable set_scheduler clock_reads].
  rewrite Hstep. unfold serve. unfold call_result, kernel_of in Hd. rewrite Hd.
  rewrite decide_False by (rewrite Hnum; by unfold MEMORY_MODIFYING_SYSCALLS; set_solver by lia).
  cbn [pr_process set_pr_process sys_shared set_sys_shared set_ptable]. by rewrite He.
Qed.
End Outcomes.
