(* ===== verification/SyscallProps.v ===== *)
(** * What single system calls do

    The effect of [brk] and [mmap] on the bytes of the guest, the numbers of the
    calls, the layout of the terminal structures, and behaviours of single calls
    that a caller may not expect: arguments that make the runtime panic, paths
    relative to a descriptor that leave the root directory. *)

From Stdlib Require Import String.
From S2P Require Import Prelude Memory MemorySpec MemoryProps Registers Elf HostPath Host ExampleHost Fs LinuxAbi Terminal Fd Process Syscalls FsProps FdProps FdInv AbiInv PathInv SyscallInv.

Open Scope Z_scope.

(** ** Numbers *)

Lemma syscall_table_numbers :
  forallb (fun p => syscall_raw p.2 =? p.1) syscall_table = true /\
  forallb (fun p => bool_decide (syscall_from p.1 = p.2)) syscall_table = true.
Proof. split; vm_compute; reflexivity. Qed.

Lemma syscall_raw_from v : syscall_raw (syscall_from v) = v.
Proof.
  unfold syscall_from. destruct (find_first _ _) as [[w n]|] eqn:Hf; [|done].
  apply find_first_Some in Hf as [Hin Hv]. apply Z.eqb_eq in Hv. simpl in Hv. subst w.
  pose proof (proj1 syscall_table_numbers) as Ht. rewrite forallb_forall in Ht.
  specialize (Ht (v, n) ltac:(by apply list_elem_of_In)). by apply Z.eqb_eq in Ht.
Qed.

Lemma syscall_from_raw n : (forall v, n <> Sys_Other v) -> syscall_from (syscall_raw n) = n.
Proof. intros Hn. destruct n; try reflexivity. by destruct (Hn number). Qed.

Section Calls.
Context `{LAWS : HostLaws}.

(** ** Memory calls *)

(** The first page boundary at or above an address. *)
Definition page_up (a : Z) : Z := (a + (PAGE_SIZE - 1)) / PAGE_SIZE * PAGE_SIZE.

Lemma align_up_page a : 0 <= a <= PAGE_LIMIT -> align_up a PAGE_SIZE = Ok (page_up a).
Proof.
  intros Ha. unfold align_up, page_up, PAGE_LIMIT, PAGE_SIZE in *.
  destruct (Z.eqb_spec a 0) as [->|]; [done|].
  assert ((a + (4096 - 1)) / 4096 = (a - 1) / 4096 + 1) as ->.
  { replace (a + (4096 - 1)) with (a - 1 + 1 * 4096) by lia. by rewrite Z.div_add by lia. }
  unfold mul64, checked_mul. pose proof (Z.div_mod (a - 1) 4096 ltac:(lia)).
  pose proof (Z.mod_pos_bound (a - 1) 4096 ltac:(lia)).
  destruct (Z.ltb_spec (((a - 1) / 4096 + 1) * 4096) (2 ^ 64)); [done|lia].
Qed.

Lemma page_up_bounds a : 0 <= a <= PAGE_LIMIT -> a <= page_up a <= PAGE_LIMIT.
Proof.
  intros Ha. pose proof (align_up_page a Ha) as He. by apply abi_align_up_ok in He; [|lia].
Qed.

(** The bytes of a process whose break moved from [old] to [new]. *)
Definition moved_break (old new : Z) (f : amap) : amap := fun a =>
  if (page_up new <=? a) && (a <? page_up old) then None
  else if (page_up old <=? a) && (a <? page_up new) then Some (Z.lor READ WRITE, 0)
  else f a.

(** The kernel with another memory. *)
Definition with_memory (m : GuestMemory) (k : Kernel) : Kernel :=
  mkKernel (k_process k) m (k_shared k) (k_table k).

Lemma in_memory_run {A} (op : MemM A) k r m : op (k_memory k) = (r, m) ->
  in_memory (on_mem op) k = (map_err SMemory r, with_memory m k).
Proof. intros E. unfold in_memory, on_mem, zoom. rewrite E. by destruct r. Qed.

Lemma with_memory_same k : with_memory (k_memory k) k = k.
Proof. by destruct k. Qed.

Lemma page_up_mono a b : a <= b -> page_up a <= page_up b.
Proof.
  intros. unfold page_up, PAGE_SIZE. apply Z.mul_le_mono_nonneg_r; [lia|]. apply Z.div_le_mono; lia.
Qed.

(** Growing the heap: the pages between the two breaks. *)
Lemma grow_heap k old new : wf (k_memory k) -> 0 <= old < new -> new <= PAGE_LIMIT ->
  let grow := if page_up old <? page_up new
    then in_memory (on_mem (map_region (page_up old) (page_up new - page_up old)
                              (Z.lor READ WRITE) (Some (text "[brk]"))))
    else mret tt in
  (exists a e, page_up old <= a < page_up new /\ cell (k_memory k) a <> None /\
     grow k = (Err e, k)) \/
  (page_up old + 2 ^ 63 <= page_up new /\ free (k_memory k) (page_up old) (page_up new) /\
     grow k = (Panic, k)) \/
  (page_up new < page_up old + 2 ^ 63 /\
   exists m, grow k = (Ok tt, with_memory m k) /\ wf m /\
     forall a, cell m a = moved_break old new (cell (k_memory k)) a).
Proof.
  intros Hm Ho Hn grow. pose proof (page_up_mono old new ltac:(lia)).
  pose proof (page_up_bounds old ltac:(lia)). pose proof (page_up_bounds new ltac:(lia)).
  unfold grow. destruct (Z.ltb_spec (page_up old) (page_up new)).
  - destruct (map_region_decided (k_memory k) (page_up old) (page_up new - page_up old)
      (Z.lor READ WRITE) (Some (text "[brk]")))
      as [(a & e & Ha & Hc & E)|[[(?&_&Hf) E]|(Hsmall & _ & m & E & Hw & Hc)]];
      try (unfold PAGE_LIMIT, PAGE_SIZE in *; lia); [done| | |].
    + left. exists a, (SMemory e). split; [lia|]. split; [done|].
      rewrite (in_memory_run _ _ _ _ E). by rewrite with_memory_same.
    + right. left. rewrite (in_memory_run _ _ _ _ E), with_memory_same. split; [lia|].
      by replace (page_up old + (page_up new - page_up old)) with (page_up new) in Hf by lia.
    + right. right. split; [lia|]. exists m. rewrite (in_memory_run _ _ _ _ E).
      split; [done|]. split; [done|]. intros a. rewrite Hc. unfold a_map, moved_break, in_range.
      replace (page_up old + (page_up new - page_up old)) with (page_up new) by lia.
      destruct (Z.leb_spec (page_up new) a), (Z.ltb_spec a (page_up old)); simpl; done || lia.
  - right. right. split; [lia|]. exists (k_memory k). rewrite with_memory_same.
    split; [done|]. split; [done|]. intros a. unfold moved_break.
    destruct (Z.leb_spec (page_up new) a), (Z.ltb_spec a (page_up old)),
      (Z.leb_spec (page_up old) a), (Z.ltb_spec a (page_up new)); simpl; done || lia.
Qed.

(** Shrinking the heap: the pages between the two breaks go away. *)
Lemma shrink_heap k old new : wf (k_memory k) -> 0 <= new < old -> old <= PAGE_LIMIT ->
  let shrink := if page_up new <? page_up old
    then in_memory (on_mem (unmap_range (page_up new) (page_up old - page_up new)))
    else mret tt in
  exists m, shrink k = (Ok tt, with_memory m k) /\ wf m /\
     forall a, cell m a = moved_break old new (cell (k_memory k)) a.
Proof.
  intros Hm Hn Ho shrink. pose proof (page_up_mono new old ltac:(lia)).
  pose proof (page_up_bounds old ltac:(lia)). pose proof (page_up_bounds new ltac:(lia)).
  unfold shrink, PAGE_LIMIT, PAGE_SIZE in *. destruct (Z.ltb_spec (page_up new) (page_up old)).
  - destruct (unmap_range_cases (page_up new) (page_up old - page_up new) (k_memory k) Hm)
      as [(e & _ & ?)|(_ & _ & m & E & Hw & Hc)]; try (unfold fits; lia).
    exists m. rewrite (in_memory_run _ _ _ _ E). split; [done|]. split; [done|].
    intros a. rewrite Hc. unfold a_unmap, moved_break, in_range.
    replace (page_up new + (page_up old - page_up new)) with (page_up old) by lia.
    destruct (Z.leb_spec (page_up new) a), (Z.ltb_spec a (page_up old)), (Z.leb_spec (page_up old) a),
      (Z.ltb_spec a (page_up new)); simpl; done || lia.
  - exists (k_memory k). rewrite with_memory_same. split; [done|]. split; [done|].
    intros a. unfold moved_break.
    destruct (Z.leb_spec (page_up new) a), (Z.ltb_spec a (page_up old)),
      (Z.leb_spec (page_up old) a), (Z.ltb_spec a (page_up new)); simpl; done || lia.
Qed.


(** Where [mmap] puts a mapping of [size] bytes; the kernel is as before but for
    the next free area. *)
Lemma mmap_address_cases k a size flags : kernel_ok k -> u64 a -> 0 <= size ->
  size + PAGE_SIZE < 2 ^ 64 ->
  (exists e, mmap_address a size flags k = (Err e, k)) \/
  (exists addr p, mmap_address a size flags k =
       (Ok addr, mkKernel p (k_memory k) (k_shared k) (k_table k)) /\ u64 addr /\
     p_fd_table p = p_fd_table (k_process k) /\
     (has_bit flags MAP_FIXED = true \/ (a <> 0 /\ hint_is_free (k_memory k) a size = true) ->
      addr = a)).
Proof.
  intros Hk Ha Hs Hov. unfold mmap_address, proc, set_proc, mbind, st_bind, gets, modify.
  destruct (has_bit flags MAP_FIXED).
  { destruct (negb _); [left; by eexists|]. right. exists a, (k_process k). by destruct k. }
  destruct (negb (a =? 0) && hint_is_free (k_memory k) a size) eqn:Hh.
  { right. exists a, (k_process k). by destruct k. }
  right. exists (p_mmap_next (k_process k)), (set_p_mmap_next
    (saturating_add (p_mmap_next (k_process k)) (size + PAGE_SIZE)) (k_process k)).
  rewrite (proj2 (add64_Ok size PAGE_SIZE (size + PAGE_SIZE))) by done. split; [done|].
  split; [apply (po_mmap _ _ (ko_process _ Hk))|]. split; [done|]. intros [?|[Hz Hf]]; [done|].
  rewrite Hf, andb_true_r in Hh. by destruct (Z.eqb_spec a 0).
Qed.

Lemma hint_is_free_iff m a size : wf m -> 0 <= a -> 0 < size -> a + size < 2 ^ 64 ->
  (forall x, a <= x < a + size -> cell m x = None) -> hint_is_free m a size = true.
Proof.
  intros Hm Ha Hs Hov Hfree. unfold hint_is_free, checked_add.
  destruct (Z.ltb_spec (a + size) (2 ^ 64)); [|lia].
  destruct (overlaps_iff m a size Hm Hs) as [[_ (x & Hx & Hc)]|[Ho _]]; [by destruct (Hc (Hfree x Hx))|].
  unfold overlaps, ranges_overlap in Ho. by rewrite Ho.
Qed.

Lemma bind_then {S E A} (m1 m2 : ST S E unit) (m3 : ST S E A) s :
  (m1 ;; m2 ;; m3) s = ((m1 ;; m2) ;; m3) s.
Proof. unfold mbind, st_bind. by destruct (m1 s) as [[] s']. Qed.

(** Placing zeros at [addr], after unmapping what is there when asked to. *)
Lemma place_zeros k addr size p (fixed : bool) : wf (k_memory k) -> u64 addr -> 0 < size ->
  u64 size ->
  let place := (if fixed then in_memory (on_mem (unmap_range addr size)) else mret tt) ;;
               in_memory (on_mem (map_region addr size p (Some (text "[mmap]")))) in
  (exists e, place k = (Err e, k)) \/
  (2 ^ 63 <= size /\ (place k).1 = Panic) \/
  (exists m, place k = (Ok tt, with_memory m k) /\ wf m /\ size < 2 ^ 63 /\ addr + size < 2 ^ 64 /\
     (forall x, cell m x = a_map addr size p (cell (k_memory k)) x) /\
     (fixed = false -> forall x, addr <= x < addr + size -> cell (k_memory k) x = None)).
Proof.
  intros Hm Ha Hs Hus place. unfold place, mbind, st_bind.
  assert (0 <= addr) by apply Ha. destruct (Z.lt_ge_cases (addr + size) (2 ^ 64)) as [Hlt|Hge].
  2:{ left. destruct fixed.
      - destruct (unmap_range_cases addr size (k_memory k) Hm Ha Hus)
          as [(e & E & _)|(_ & ? & _)]; [|lia]. rewrite (in_memory_run _ _ _ _ E).
        rewrite with_memory_same. by eexists.
      - destruct (map_region_cases addr size p (Some (text "[mmap]")) (k_memory k) Hm Ha Hus)
          as [(e & _ & E)|[[(_&?&_) _]|(_ & ? & _)]]; [|lia..]. cbn [mret st_ret].
        rewrite (in_memory_run _ _ _ _ E). rewrite with_memory_same. by eexists. }
  destruct fixed; cbn [mret st_ret].
  - destruct (unmap_range_cases addr size (k_memory k) Hm Ha Hus)
      as [(e & _ & ?)|(_ & _ & m1 & E1 & Hw1 & Hc1)]; [lia|].
    rewrite (in_memory_run _ _ _ _ E1). cbn [map_err].
    assert (forall x, addr <= x < addr + size -> cell m1 x = None) as Hfree.
    { intros x Hx. rewrite Hc1. unfold a_unmap. by rewrite (proj2 (in_range_true _ _ _)). }
    destruct (map_region_decided m1 addr size p (Some (text "[mmap]")) Hw1)
      as [(x & e & Hx & Hc & _)|[[[? _] E]|(Hsm & _ & m & E & Hw & Hc)]];
      [done..|by destruct Hc; auto|right; left|].
    { by rewrite (in_memory_run _ (with_memory m1 k) _ _ E). }
    right. right. exists m. rewrite (in_memory_run _ (with_memory m1 k) _ _ E).
    do 4 (split; [done|]).
    split; [|done]. intros x. rewrite Hc. unfold a_map. rewrite Hc1. unfold a_unmap.
    by destruct (in_range addr size x).
  - destruct (map_region_decided (k_memory k) addr size p (Some (text "[mmap]")) Hm)
      as [(x & e & _ & _ & E)|[[[? _] E]|(Hsm & Hfree & m & E & Hw & Hc)]]; [done..| | |].
    + left. exists (SMemory e). rewrite (in_memory_run _ _ _ _ E). by rewrite with_memory_same.
    + right. left. by rewrite (in_memory_run _ _ _ _ E).
    + right. right. exists m. rewrite (in_memory_run _ _ _ _ E). by do 5 (split; [done|]).
Qed.

(** The bytes of the file behind a mapping. *)
Lemma load_backing k addr length fd offset flags k' : wf (k_memory k) ->
  Forall (Forall u8) (buffers (k_shared k)) ->
  table_ok (base.length (buffers (k_shared k))) (p_fd_table (k_process k)) ->
  0 <= length -> 0 <= offset ->
  load_mmap_backing addr length fd offset flags k = (Ok tt, k') ->
  has_bit flags MAP_PRIVATE = true /\ exists data x s',
    read_sendfile_chunk fd (Some offset) length
      (mkFdState (p_fd_table (k_process k)) (k_shared k)) = (Ok (data, x), s') /\
    len data <= length /\ wf (k_memory k') /\
    forall x, cell (k_memory k') x = a_store addr data (cell (k_memory k)) x.
Proof.
  intros Hm Hb Ht Hl Ho. unfold load_mmap_backing.
  destruct (has_bit flags MAP_PRIVATE); [|done]. intros E. split; [done|]. cbn [negb] in E.
  unfold fd_arg, usize_arg, capacity, in_fds, zoom, lift, mbind, st_bind in E.
  destruct (fd <? 2 ^ 31); [|done]. destruct (length <? 2 ^ 63); [|done].
  set (s := mkFdState (p_fd_table (k_process k)) (k_shared k)) in *.
  destruct (holds_read_sendfile_chunk False (base.length (buffers (k_shared k)))
    (next_fd (p_fd_table (k_process k))) 0 fd (Some offset) length Hl Ho ltac:(done) s) as (_ & Hd & _).
  { by split. }
  destruct (read_sendfile_chunk fd (Some offset) length s) as [[[data x]|e|] s']; [|done..].
  destruct (Hd _ eq_refl) as (Hu & Hlen & _). cbn [fst map_err] in *.
  exists data, x, s'. split; [done|]. split; [done|]. destruct (Z.ltb_spec 0 (len data)).
  - set (k2 := mkKernel _ _ _ _) in E.
    destruct (load_bytes_cases addr data (k_memory k) Hm Hu) as [El|(m' & r & El & Hw & _ & _ & _ & Hc)];
      rewrite (in_memory_run (load_bytes addr data) k2 _ _ El) in E; [done|].
    injection E as <-. by split.
  - injection E as <-. cbn [k_memory]. split; [done|]. intros y. unfold a_store.
    by rewrite (proj2 (in_range_false _ _ _)) by (pose proof (len_nonneg data); lia).
Qed.

(** [mmap] up to the place where the backing of the mapping is read. *)
Lemma mmap_places k a length prot flags fd offset : kernel_ok k -> u64 a -> 0 < length < 2 ^ 63 ->
  offset mod PAGE_SIZE = 0 ->
  let size := page_up length in
  let fixed := has_bit flags MAP_FIXED in
  let rest addr := (if has_bit flags MAP_ANONYMOUS then mret tt
                    else load_mmap_backing addr length fd offset flags) ;; mret addr in
  (exists e k', mmap a length prot flags fd offset k = (Err e, k') /\ k_memory k' = k_memory k) \/
  (2 ^ 63 <= size /\ (mmap a length prot flags fd offset k).1 = Panic) \/
  (size < 2 ^ 63 /\ exists addr k1, mmap a length prot flags fd offset k = rest addr k1 /\
     k_shared k1 = k_shared k /\ p_fd_table (k_process k1) = p_fd_table (k_process k) /\
     wf (k_memory k1) /\ addr + size < 2 ^ 64 /\
     (forall x, cell (k_memory k1) x =
        a_map addr size (memory_permissions prot) (cell (k_memory k)) x) /\
     (fixed = true -> addr = a) /\
     (fixed = false -> (forall x, addr <= x < addr + size -> cell (k_memory k) x = None) /\
        (a <> 0 -> a + size < 2 ^ 64 ->
         (forall x, a <= x < a + size -> cell (k_memory k) x = None) -> addr = a))).
Proof.
  intros Hk Ha Hl Hoff. cbv zeta. set (size := page_up length). pose proof (ko_memory _ Hk) as Hm.
  assert (0 <= length <= PAGE_LIMIT) as Hlim by (unfold PAGE_LIMIT, PAGE_SIZE; lia).
  pose proof (page_up_bounds length Hlim) as Hsz. fold size in Hsz.
  assert (size + PAGE_SIZE < 2 ^ 64) as Hov.
  { unfold size, page_up, PAGE_SIZE. change (4096 - 1) with 4095.
    pose proof (Z.div_mod (length + 4095) 4096 ltac:(lia)).
    pose proof (Z.mod_pos_bound (length + 4095) 4096 ltac:(lia)). lia. }
  remember (mmap a length prot flags fd offset k) as r eqn:Er. unfold mmap in Er.
  destruct (Z.eqb_spec length 0); [lia|]. rewrite Hoff in Er. cbn [Z.eqb negb] in Er.
  unfold mbind at 1, st_bind at 1 in Er. rewrite align_up_page in Er by done.
  cbn [lift] in Er. fold size in Er. unfold mbind at 1, st_bind at 1 in Er.
  destruct (mmap_address_cases k a size flags Hk Ha ltac:(lia) Hov)
    as [[e Ea]|(addr & p & Ea & Haddr & Hfd & Heq)]; rewrite Ea in Er;
    [left; by exists e, k|].
  set (k1 := mkKernel p (k_memory k) (k_shared k) (k_table k)) in *.
  rewrite bind_then in Er. unfold mbind at 1, st_bind at 1 in Er.
  destruct (place_zeros k1 addr size (memory_permissions prot) (has_bit flags MAP_FIXED) Hm Haddr)
    as [[e Ep]|[[Hbig Ep]|(m & Ep & Hw & Hsm & Hend & Hc & Hfree)]];
    [lia|apply page_limit_u64; lia|..]; cbv zeta in Ep.
  { rewrite Ep in Er. left. by exists e, k1. }
  { right. left. split; [done|]. rewrite Er. clear Er.
    match type of Ep with (?x).1 = _ => by destruct x as [[] k2] end. }
  rewrite Ep in Er. right. right. split; [done|]. exists addr, (with_memory m k1).
  do 6 (split; [done|]). split; [auto|].
  intros Hfx. split; [by apply Hfree|]. intros Hz Hlt Hf.
  apply Heq. right. split; [done|]. apply hint_is_free_iff; [done|apply Ha|lia|done|done].
Qed.

(** C19: what [mmap] does to the bytes of the guest.  When it succeeds, whole pages
    with the asked permissions are mapped at the address it returns, and hold the
    bytes of the file from the offset, at most [length] of them, then zeros; for
    an anonymous mapping, zeros only.  Everything else is unchanged.  With
    [MAP_FIXED] the address is the one asked for; without it, nothing that was
    mapped is overwritten, and a hint whose pages are free is used as it is.  An
    anonymous mapping that fails changes no byte, and one whose pages are fewer
    than 2^63 bytes never panics; a mapping whose pages are 2^63 bytes, which
    cannot be allocated, never succeeds. *)
Theorem mmap_effect (k : Kernel) (a length prot flags fd offset : Z) (Hk : kernel_ok k)
    (Ha : u64 a) (Hl : 0 < length < 2 ^ 63) (Ho : 0 <= offset) (Hoff : offset mod PAGE_SIZE = 0) :
  let size := page_up length in
  let fixed := has_bit flags MAP_FIXED in
  let anonymous := has_bit flags MAP_ANONYMOUS in
  match mmap a length prot flags fd offset k with
  | (Ok addr, k') => size < 2 ^ 63 /\ exists data, len data <= length /\ wf (k_memory k') /\ addr + size < 2 ^ 64 /\
      (forall x, cell (k_memory k') x =
         a_store addr data (a_map addr size (memory_permissions prot) (cell (k_memory k))) x) /\
      (anonymous = true -> data = []) /\
      (anonymous = false -> has_bit flags MAP_PRIVATE = true /\ exists x s',
         read_sendfile_chunk fd (Some offset) length
           (mkFdState (p_fd_table (k_process k)) (k_shared k)) = (Ok (data, x), s')) /\
      (fixed = true -> addr = a) /\
      (fixed = false -> (forall x, addr <= x < addr + size -> cell (k_memory k) x = None) /\
         (a <> 0 -> a + size < 2 ^ 64 ->
          (forall x, a <= x < a + size -> cell (k_memory k) x = None) -> addr = a))
  | (Err _, k') => anonymous = true -> k_memory k' = k_memory k
  | (Panic, _) => anonymous = true -> 2 ^ 63 <= size
  end.
Proof.
  cbv zeta. destruct (mmap_places k a length prot flags fd offset Hk Ha Hl Hoff)
    as [(e & k' & -> & Hm)|[[Hbig Hp]|(Hsm & addr & k1 & -> & Hsh & Hfd & Hw & Hend & Hc & Hfix & Hfree)]].
  { done. }
  { by destruct (mmap a length prot flags fd offset k) as [[] k']. }
  unfold mbind, st_bind. destruct (has_bit flags MAP_ANONYMOUS).
  - split; [done|]. cbn [mret st_ret]. exists []. change (len []) with 0. split; [lia|]. do 2 (split; [done|]). split; [|done]. intros x. rewrite Hc.
    unfold a_store. by rewrite (proj2 (in_range_false _ _ _)) by (unfold len; simpl; lia).
  - destruct (load_mmap_backing addr length fd offset flags k1) as [[[]| |] k'] eqn:E; [|done..].
    apply load_backing in E as (Hpr & data & x & s' & Hread & Hlen & Hw' & Hc'); [|done|..|lia|lia].
    + split; [done|]. exists data. split; [done|]. split; [done|]. split; [done|].
      split; [|split; [done|split; [|done]]].
      * intros y. rewrite Hc'. unfold a_store. rewrite !Hc. done.
      * intros _. split; [done|]. exists x, s'. by rewrite <- Hfd, <- Hsh.
    + rewrite Hsh. apply Hk.
    + rewrite Hsh, Hfd. apply (po_table _ _ (ko_process _ Hk)).
Qed.
End Calls.

(** ** The loops of [sendfile] have enough fuel *)

Section Sendfile.
Context `{LAWS : HostLaws}.

(** More fuel than bytes left to send changes nothing. *)
Lemma sendfile_loop_enough f1 f2 out_fd in_fd offset count total s :
  count - total <= Z.of_nat f1 -> count - total <= Z.of_nat f2 ->
  sendfile_loop f1 out_fd in_fd offset count total s =
  sendfile_loop f2 out_fd in_fd offset count total s.
Proof.
  revert f2 offset total s. induction f1 as [|f1 IH]; intros f2 offset total s H1 H2.
  - destruct f2; [done|]. cbn [sendfile_loop]. by destruct (Z.ltb_spec total count); [lia|].
  - cbn [sendfile_loop]. destruct (Z.ltb_spec total count).
    + destruct f2 as [|f2]; [lia|]. cbn [sendfile_loop]. rewrite (proj2 (Z.ltb_lt _ _)) by done.
      unfold mbind, st_bind. destruct (read_sendfile_chunk _ _ _ s) as [[[bytes o]|e|] s1]; [|done..].
      cbn [fst snd]. pose proof (len_nonneg bytes). destruct (Z.eqb_spec (len bytes) 0); [done|].
      destruct (write_chunk _ _ _ s1) as [[] s2]; [|done..]. apply IH; lia.
    + destruct f2; [done|]. cbn [sendfile_loop]. by destruct (Z.ltb_spec total count); [lia|].
Qed.

(** A write takes at most the bytes it is given. *)
Lemma write_count fd bytes s c s' : write fd bytes s = (Ok c, s') -> 0 <= c <= len bytes.
Proof.
  pose proof (len_nonneg bytes) as Hlen. unfold write, mbind, st_bind.
  destruct (slot_at fd s) as [[slot|e|] s1]; [|done..]. destruct (entry slot); try done.
  1-2: destruct (on_world _ s1) as [[[]|e|] s2]; [|done..];
    destruct (on_world _ s2) as [[[]|e|] s3]; [|done..]; intros [= <- <-]; lia.
  3-4: unfold extend, mbind, st_bind, reads; destruct (expect (E:=SyscallError) _) as [x|e|]; [|done..];
    intros [= <- <-]; lia.
  - unfold on_world, on_host, zoom. pose proof (file_write_ok file bytes (world (shared s1))) as Hf.
    destruct (file_write _ _ _) as [[n|e|] w]; cbn; [|done..]. intros [= <- <-]. apply Hf.
  - intros [= <- <-]. by destruct file as [[] ?]; cbn.
Qed.

Lemma write_chunk_enough f1 f2 fd chunk s : len chunk <= Z.of_nat f1 ->
  len chunk <= Z.of_nat f2 -> write_chunk f1 fd chunk s = write_chunk f2 fd chunk s.
Proof.
  revert f2 chunk s. induction f1 as [|f1 IH]; intros f2 chunk s H1 H2.
  - destruct chunk; [|unfold len in *; simpl in *; lia]. by destruct f2.
  - destruct chunk as [|b chunk]; [by destruct f2|].
    destruct f2 as [|f2]; [unfold len in *; simpl in *; lia|]. cbn [write_chunk is_nonempty].
    unfold mbind, st_bind. destruct (write fd _ s) as [[c|e|] s1] eqn:Hw; [|done..].
    apply write_count in Hw. destruct (Z.eqb_spec c 0); [done|].
    apply IH; unfold len in *; rewrite length_drop; lia.
Qed.
End Sendfile.

(** ** The terminal structure *)

(** A structure whose numbers have the widths of their fields. *)
Record typed_termios (t : LinuxTermios) : Prop := {
  tt_iflag : u32 (iflag t);
  tt_oflag : u32 (oflag t);
  tt_cflag : u32 (cflag t);
  tt_lflag : u32 (lflag t);
  tt_line : u8 (line t);
  tt_cc : Forall u8 (cc t);
  tt_length : len (cc t) = NCCS
}.

(** The layout of the structure. *)
Definition termios_layout (t : LinuxTermios) : list Z :=
  to_le 4 (iflag t) ++ to_le 4 (oflag t) ++ to_le 4 (cflag t) ++ to_le 4 (lflag t) ++
  [line t] ++ cc t.

Ltac list_of_length l n :=
  lazymatch n with
  | O => destruct l as [|? ?]; [|simpl in *; lia]
  | S ?n => destruct l as [|? l]; [simpl in *; lia|]; list_of_length l n
  end.

Lemma termios_bytes_layout t : length (cc t) = 19%nat -> termios_bytes t = Ok (termios_layout t).
Proof.
  destruct t as [i o c l n cs]. intros Hc. cbn [cc] in Hc.
  list_of_length cs 19%nat. reflexivity.
Qed.

Lemma termios_of_layout t : typed_termios t -> termios_of_bytes (termios_layout t) = Ok t.
Proof.
  intros [Hi Ho Hc Hl Hn Hcs Hlen]. destruct t as [i o c l n cs].
  cbn [iflag oflag cflag lflag line cc] in *.
  assert (length cs = 19%nat) as Hcs19 by (unfold len, NCCS in Hlen; lia).
  rewrite <- (of_le_to_le_id 4 i Hi), <- (of_le_to_le_id 4 o Ho), <- (of_le_to_le_id 4 c Hc),
    <- (of_le_to_le_id 4 l Hl) at 2.
  list_of_length cs 19%nat. reflexivity.
Qed.

Lemma layout_covers bytes : buffer_of TERMIOS_SIZE bytes ->
  exists t, typed_termios t /\ termios_layout t = bytes.
Proof.
  intros [Hb Hl]. unfold len, TERMIOS_SIZE in Hl. assert (length bytes = 36%nat) as H36 by lia.
  exists (mkTermios (of_le (take 4 bytes)) (of_le (take 4 (drop 4 bytes)))
    (of_le (take 4 (drop 8 bytes))) (of_le (take 4 (drop 12 bytes))) (nth 16 bytes 0) (drop 17 bytes)).
  assert (forall k, Forall u8 (take 4 (drop k bytes))) as Hk
    by (intros; by apply Forall_take, Forall_drop).
  assert (forall k, (k <= 12)%nat -> length (take 4 (drop k bytes)) = 4%nat) as Hk4
    by (intros; rewrite length_take, length_drop; lia).
  assert (forall k, (k <= 12)%nat -> u32 (of_le (take 4 (drop k bytes)))) as Hw.
  { intros k Hle. pose proof (of_le_fits _ (Hk k)) as Hf. unfold len in Hf. by rewrite Hk4 in Hf. }
  assert (forall k, (k <= 12)%nat -> to_le 4 (of_le (take 4 (drop k bytes))) = take 4 (drop k bytes))
    as Hle by (intros k Hle; rewrite <- (to_le_of_le _ (Hk k)) at 2; by rewrite Hk4).
  split.
  - split; cbn; [apply (Hw 0%nat); lia|apply (Hw 4%nat); lia|apply (Hw 8%nat); lia|
      apply (Hw 12%nat); lia| |by apply Forall_drop|unfold len, NCCS; rewrite length_drop; lia].
    destruct (nth_lookup_or_length bytes 16 0) as [Hn|]; [|lia].
    rewrite Forall_lookup in Hb. eauto.
  - unfold termios_layout. cbn [iflag oflag cflag lflag line cc].
    change (take 4 bytes) with (take 4 (drop 0 bytes)). rewrite !Hle by lia.
    clear Hb Hk Hk4 Hw Hle Hl. list_of_length bytes 36%nat. reflexivity.
Qed.

(** C39: the terminal structure and its bytes.  Every 36 bytes the guest passes to
    [TCSETS] are the layout of one structure with fields of the right width, and
    writing that structure for [TCGETS] gives the same bytes back; and every such
    structure is read back from its bytes. *)
Theorem termios_roundtrip :
  (forall bytes, buffer_of TERMIOS_SIZE bytes -> exists t, typed_termios t /\
     termios_of_bytes bytes = Ok t /\ termios_bytes t = Ok bytes) /\
  (forall t, typed_termios t -> exists bytes, buffer_of TERMIOS_SIZE bytes /\
     termios_bytes t = Ok bytes /\ termios_of_bytes bytes = Ok t).
Proof.
  split.
  - intros bytes (t & Ht & <-)%layout_covers. exists t. split; [done|].
    split; [by apply termios_of_layout|]. apply termios_bytes_layout.
    pose proof (tt_length _ Ht) as Hl. unfold len, NCCS in Hl. lia.
  - intros t Ht. exists (termios_layout t).
    pose proof (tt_length _ Ht) as Hl. unfold len, NCCS in Hl.
    assert (termios_bytes t = Ok (termios_layout t)) as Hb by (apply termios_bytes_layout; lia).
    split; [|by split; [|apply termios_of_layout]].
    pose proof (termios_bytes_safe t) as Hs. rewrite Hb in Hs. apply Hs. by destruct Ht.
Qed.

(** ** Arguments that make the runtime panic *)

Section Panics.
Context `{Host}.

(** A read whose length is above [isize::MAX] panics the runtime: the buffer
    for it cannot be allocated, and no check comes before. *)
Theorem huge_read_panics (k : Kernel) (fd buf n : Z) (Hfd : fd < 2 ^ 31) (Hn : 2 ^ 63 <= n) :
  (dispatch_with_process_model (mkInput 0 [fd; buf; n]) None k).1 = Panic.
Proof.
  unfold dispatch_with_process_model. change (syscall_from (in_number _)) with Sys_Read.
  cbn [dispatch_inner dispatch_value]. unfold syscall_read, mbind, st_bind, arg, fd_arg, capacity.
  cbn [in_args nth]. destruct (Z.ltb_spec fd (2 ^ 31)); [|lia]. cbn [lift usize_arg].
  by destruct (Z.ltb_spec n (2 ^ 63)); [lia|].
Qed.

(** Duplicating onto the largest descriptor panics: the next descriptor would
    not fit an [i32]. *)
Theorem dup2_last_descriptor_panics (k : Kernel) (fd : Z) (slot : FdSlot)
    (Hfd : entries (p_fd_table (k_process k)) !! fd = Some slot) (Hlt : fd < 2 ^ 31 - 1)
    (He : forall file, entry slot <> EFile file) :
  (dispatch_with_process_model (mkInput 33 [fd; 2 ^ 31 - 1]) None k).1 = Panic.
Proof.
  unfold dispatch_with_process_model. change (syscall_from (in_number _)) with Sys_Dup2.
  cbn [dispatch_inner dispatch_value].
  unfold syscall_dup2, mbind, st_bind, arg, fd_arg. cbn [in_args nth].
  destruct (Z.ltb_spec fd (2 ^ 31)); [|lia]. cbn [lift]. change (2 ^ 31 - 1 <? 2 ^ 31) with true.
  cbn [lift]. unfold in_fds, zoom, duplicate_to.
  destruct (Z.eqb_spec fd (2 ^ 31 - 1)); [lia|].
  unfold slot_at, slot_duplicate, mbind, st_bind, reads. cbn [table]. rewrite Hfd. cbn [ok_or].
  destruct (entry slot) eqn:Hs; cbn [entry_duplicate mret st_ret]; try reflexivity.
  by destruct (He file).
Qed.
End Panics.

(** ** Paths relative to a descriptor *)

(** A path relative to an open directory is not confined to the root
    directory, on either platform.  [..] relative to the directory itself is the
    host path with a separator and [..] appended, also when the directory is the
    root of the guest. *)
Theorem dirfd_path_escapes `{Host} (k : Kernel) (fd : Z) (slot : FdSlot) (d : DirectoryFd)
    (Hfd : entries (p_fd_table (k_process k)) !! fd = Some slot)
    (Hd : entry slot = EDirectory d) (Hp : confining_root platform (dir_path d)) :
  resolve_path (Some fd) (text "..") k =
    (Ok (RHost root (dir_path d ++ main_separator platform :: text "..")), k).
Proof.
  unfold resolve_path, reads. change (negb (is_nonempty (text ".."))) with false.
  change (starts_with 47 (text "..")) with false. cbv zeta iota. unfold resolve_at. rewrite Hfd, Hd.
  assert (parse_path (text "..") = Ok root) as ->
    by (unfold parse_path, from_parts, has_windows_prefix; by destruct platform).
  cbn [map_err mbind res_bind]. do 3 f_equal. unfold path_push, push_on.
  change (replace_byte 47 92 (text "..")) with (text "..").
  destruct (confining_prefix _ _ Hp) as [-> Hb]. destruct Hp as [Hne Hl _ _].
  assert (is_absolute_on platform (text "..") || bool_decide (is_Some (parse_prefix platform (text "..")))
    = false) as -> by by destruct platform.
  assert (has_root platform (text "..") = false) as -> by by destruct platform.
  cbn [andb]. destruct (last (dir_path d)) as [b|] eqn:El; [|by apply last_None in El].
  rewrite (Hl b eq_refl). destruct (parse_prefix _ (dir_path d)); by rewrite ?Hb.
Qed.

(** ** Witnesses *)

Lemma demo_mem_free a : 8192 <= a -> cell demo_mem a = None.
Proof.
  intros Ha. unfold cell, demo_mem, cells, region_cell, in_range. simpl.
  destruct (Z.ltb_spec a (4096 + 8)), (Z.ltb_spec a (4104 + 4)); try lia.
  by rewrite !andb_false_r.
Qed.


Lemma mmap_effect_witness : exists addr k',
  mmap (H:=example_host) 0x20000 5000 3 (MAP_ANONYMOUS + 2) 0 0 demo_kernel = (Ok addr, k') /\
  addr = 0x20000 /\ cell (k_memory k') 0x21fff = Some (memory_permissions 3, 0).
Proof.
  assert (is_ok (mmap (H:=example_host) 0x20000 5000 3 (MAP_ANONYMOUS + 2) 0 0 demo_kernel).1 = true)
    as Hok by (vm_compute; reflexivity).
  pose proof (mmap_effect (H:=example_host) demo_kernel 0x20000 5000 3 (MAP_ANONYMOUS + 2) 0 0
    demo_kernel_ok ltac:(by split; vm_compute) ltac:(lia) ltac:(lia) eq_refl) as Hm. cbv zeta in Hm.
  destruct (mmap _ _ _ _ _ _ demo_kernel) as [[addr| |] k']; [|discriminate Hok..].
  destruct Hm as (_ & data & _ & _ & _ & Hc & Hd & _ & _ & Hfree). rewrite (Hd eq_refl) in Hc.
  exists addr, k'. assert (addr = 0x20000) as ->.
  { apply Hfree; [done..|]. intros x Hx. apply demo_mem_free. lia. }
  split; [reflexivity|]. split; [done|]. rewrite Hc.
  change (k_memory demo_kernel) with demo_mem. vm_compute. reflexivity.
Defined.
