(* ===== verification/SyscallData.v ===== *)
(** * Data that crosses processes and calls

    System calls one after the other: bytes that one process writes into a pipe
    and another reads into its own memory; memory that is mapped and unmapped. *)

From Stdlib Require Import String.
From S2P Require Import Prelude Memory MemorySpec MemoryProps Registers Elf Host ExampleHost Fs LinuxAbi Terminal Fd Process Syscalls FsProps FdProps FdInv AbiInv PathInv SyscallInv SyscallProps.

Open Scope Z_scope.

Section Data.
Context `{LAWS : HostLaws}.

Abbreviation KM := (ST Kernel SyscallError).

(** ** From a call to its outcome *)

(** [k] after a call that left [k']: the trace of the process has one entry more. *)
Definition same_data (k k' : Kernel) : Prop :=
  k_memory k' = k_memory k /\ k_shared k' = k_shared k /\ k_table k' = k_table k /\
  p_fd_table (k_process k') = p_fd_table (k_process k).

Lemma dispatch_value_run n args regs k v k' :
  (match syscall_from n with Sys_Exit | Sys_ExitGroup | Sys_Wait4 | Sys_Execve | Sys_Other _ => False
   | _ => True end) ->
  dispatch_value (syscall_from n) args regs k = (Ok v, k') ->
  exists k1, dispatch_with_process_model (mkInput n args) regs k = (Ok (Return v), k1) /\
    same_data k' k1.
Proof.
  intros Hn Hv. unfold dispatch_with_process_model. cbn [in_number in_args].
  assert (dispatch_inner (syscall_from n) args regs k = (Ok (Return v), k')) as ->.
  { destruct (syscall_from n); try done; cbn [dispatch_inner]; unfold mbind at 1, st_bind at 1;
      by rewrite Hv. }
  eexists. split; [reflexivity|]. by repeat split.
Qed.

Lemma errno_negative e : linux_return e < 0.
Proof. by destruct e. Qed.

(** A call that returns a number that is not negative succeeded. *)
Lemma dispatch_value_inv n args regs k v k1 : 0 <= v ->
  (match syscall_from n with Sys_Exit | Sys_ExitGroup | Sys_Wait4 | Sys_Execve | Sys_Other _ => False
   | _ => True end) ->
  dispatch_with_process_model (mkInput n args) regs k = (Ok (Return v), k1) ->
  exists k', dispatch_value (syscall_from n) args regs k = (Ok v, k') /\ same_data k' k1.
Proof.
  intros Hv Hn. unfold dispatch_with_process_model. cbn [in_number in_args].
  assert (dispatch_inner (syscall_from n) args regs k =
    (value ← dispatch_value (syscall_from n) args regs; mret (Return value)) k) as ->
    by (by destruct (syscall_from n)).
  unfold mbind at 1, st_bind at 1.
  destruct (dispatch_value (syscall_from n) args regs k) as [[x|[e|e]|] k']; cbn; try done.
  - intros [= -> <-]. exists k'. split; [done|]. by repeat split.
  - intros [= E _]. pose proof (errno_negative Fault). lia.
  - intros [= E _]. pose proof (errno_negative e). lia.
Qed.

(** ** Mapping and unmapping *)

Lemma cell_nonneg m a c : wf m -> cell m a = Some c -> 0 <= a.
Proof.
  intros Hm (r & Hr & Hc)%cells_Some_elem. apply region_cell_Some in Hc as (Hin & _).
  pose proof (wf_base r (wf_elem m r Hm Hr)). lia.
Qed.

(** A 64-bit number that is not negative as an [i64]. *)
Lemma signed_nonneg a : u64 a -> 0 <= signed 64 a -> signed 64 a = a.
Proof.
  unfold signed, fits. intros Ha. rewrite Z.mod_small by lia.
  change (2 ^ (64 - 1)) with (2 ^ 63). destruct (_ <? _); lia.
Qed.

(** C20: memory that is given back.  After an anonymous [mmap] without
    [MAP_FIXED] that returns a value that is not negative, so an address below
    2^63 and not an error number, [munmap] of that address with the same length
    succeeds, and every byte of the guest is as it was before the two calls. *)
Theorem mmap_munmap_restores (k k1 : Kernel) (a length prot flags fd v : Z)
    (regs : option Registers) (Hk : kernel_ok k) (Ha : u64 a) (Hl : 0 < length < 2 ^ 63)
    (Hanon : has_bit flags MAP_ANONYMOUS = true) (Hfix : has_bit flags MAP_FIXED = false)
    (Hv : 0 <= v)
    (Hm : dispatch_with_process_model (mkInput 9 [a; length; prot; flags; fd; 0]) regs k =
          (Ok (Return v), k1)) :
  exists k2,
    dispatch_with_process_model (mkInput 11 [wrap 64 v; length; 0; 0; 0; 0]) regs k1 =
      (Ok (Return 0), k2) /\
    wf (k_memory k2) /\ forall x, cell (k_memory k2) x = cell (k_memory k) x.
Proof.
  apply (dispatch_value_inv 9) in Hm as (k' & Hm & Hmem & _); [|done..].
  change (syscall_from 9) with Sys_Mmap in Hm. cbn [dispatch_value arg nth] in Hm.
  unfold mbind, st_bind in Hm.
  destruct (mmap_places k a length prot flags fd 0 Hk Ha Hl eq_refl)
    as [(e & k2 & E & _)|[[_ E]|(_ & addr & k2 & E & _ & _ & Hw & Hend & Hc & _ & Hfree)]];
    [by rewrite E in Hm|by destruct (mmap a _ _ _ _ _ k) as [[] ?]|]. rewrite E in Hm. unfold mbind, st_bind in Hm. rewrite Hanon in Hm.
    injection Hm as Hs <-. destruct (Hfree Hfix) as [Hnone _].
  assert (0 <= length <= PAGE_LIMIT) as Hlim by (unfold PAGE_LIMIT, PAGE_SIZE; lia).
  pose proof (page_up_bounds length Hlim) as Hsz.
  assert (0 <= addr) as Hnn.
  { assert (cell (k_memory k2) addr = Some (memory_permissions prot, 0)) as Hcell.
    { rewrite Hc. unfold a_map. by rewrite (proj2 (in_range_true _ _ _)) by lia. }
    by eapply cell_nonneg. }
  assert (v = addr) as ->.
  { rewrite <- Hs. apply signed_nonneg; [split; lia|lia]. }
  rewrite wrap_small by (split; lia).
  assert (dispatch_value (syscall_from 11) [addr; length; 0; 0; 0; 0] regs k1 =
    (in_memory (on_mem (unmap_range addr (page_up length))) ;; mret 0) k1) as Hun.
  { change (syscall_from 11) with Sys_Munmap. cbn [dispatch_value]. unfold syscall_munmap.
    cbn [arg nth]. unfold mbind at 1, st_bind at 1. by rewrite align_up_page. }
  destruct (unmap_range_cases addr (page_up length) (k_memory k1))
    as [(e & _ & [?|?])|(_ & _ & m & Em & Hwm & Hcm)];
    [by rewrite Hmem|split; lia|split; lia|lia|lia|].
  unfold mbind at 1, st_bind at 1 in Hun. rewrite (in_memory_run _ _ _ _ Em) in Hun.
  destruct (dispatch_value_run 11 _ regs k1 0 (with_memory m k1) I Hun) as (k3 & Hd & Hm3 & _).
  exists k3. split; [exact Hd|]. rewrite Hm3. split; [exact Hwm|]. intros x. cbn [with_memory k_memory].
  rewrite Hcm. unfold a_unmap. rewrite Hmem, Hc. unfold a_map.
  destruct (in_range addr (page_up length) x) eqn:Hx; [|done].
  apply in_range_true in Hx. symmetry. by apply Hnone.
Qed.

(** ** A pipe between two processes *)

Definition with_shared (sh : Shared) (k : Kernel) : Kernel :=
  mkKernel (k_process k) (k_memory k) sh (k_table k).

(** The end of a pipe in a descriptor. *)
Definition descriptor_is (k : Kernel) (fd : Z) (e : FdEntry) : Prop :=
  entry <$> entries (p_fd_table (k_process k)) !! fd = Some e.

Lemma read_pipe b c fd n s : 0 <= n -> buffers (shared s) !! b = Some c ->
  entry <$> entries (table s) !! fd = Some (PipeRead b) ->
  read fd n s = (Ok (take (Z.to_nat n) c), with_buffer b (drop (Z.to_nat n) c) s).
Proof.
  intros Hn Hb Hfd. unfold read. rewrite bind_slot_at.
  destruct (entries (table s) !! fd) as [slot|]; [|done]. injection Hfd as Hfd. rewrite Hfd.
  unfold drain, reads, mbind, st_bind. rewrite Hb. cbn [expect].
  assert (take (Z.to_nat (Z.min n (len c))) c = take (Z.to_nat n) c) as ->.
  { unfold len. destruct (Z.le_ge_cases n (Z.of_nat (length c))).
    - by rewrite Z.min_l by lia.
    - rewrite Z.min_r by lia. rewrite !take_ge by lia. done. }
  assert (drop (Z.to_nat (Z.min n (len c))) c = drop (Z.to_nat n) c) as ->; [|done].
  unfold len. destruct (Z.le_ge_cases n (Z.of_nat (length c))).
  - by rewrite Z.min_l by lia.
  - rewrite Z.min_r by lia. rewrite !drop_ge by lia. done.
Qed.

Lemma write_call b c k fd src n bs regs : wf (k_memory k) -> 0 <= n -> fd < 2 ^ 31 ->
  buffers (k_shared k) !! b = Some c -> descriptor_is k fd (PipeWrite b) ->
  read_bytes (k_memory k) src n = Ok bs ->
  exists k1, dispatch_with_process_model (mkInput 1 [fd; src; n; 0; 0; 0]) regs k =
      (Ok (Return n), k1) /\ k_memory k1 = k_memory k /\
    buffers (k_shared k1) = <[b := c ++ bs]> (buffers (k_shared k)).
Proof.
  intros Hm Hn Hfd Hb He Hbs.
  set (s := mkFdState (p_fd_table (k_process k)) (k_shared k)).
  pose proof (write_buffer b c fd bs s Hb) as Hw.
  assert (writes_buffer (table s) fd b = true) as Ht.
  { unfold writes_buffer. cbn [table s]. unfold descriptor_is in He. rewrite He. by apply bool_decide_eq_true. }
  rewrite Ht in Hw. pose proof (read_bytes_safe (k_memory k) src n Hm Hn) as Hlen.
  rewrite Hbs in Hlen. destruct Hlen as [Hlen _].
  assert (dispatch_value (syscall_from 1) [fd; src; n; 0; 0; 0] regs k =
    (Ok n, mkKernel (set_p_fd_table (p_fd_table (k_process k)) (k_process k)) (k_memory k)
             (mkShared (world (k_shared k)) (<[b := c ++ bs]> (buffers (k_shared k)))) (k_table k))) as Hv.
  { change (syscall_from 1) with Sys_Write. cbn [dispatch_value]. unfold syscall_write.
    cbn [arg nth]. unfold fd_arg, usize_arg. rewrite (proj2 (Z.ltb_lt _ _)) by lia.
    unfold in_memory, in_fds, zoom, read_mem, reads, lift, mbind, st_bind. cbn [k_memory].
    rewrite Hbs. cbn [map_err]. cbn [k_process k_shared]. fold s. rewrite Hw. cbn. by rewrite Hlen. }
  destruct (dispatch_value_run 1 _ regs k _ _ I Hv) as (k1 & Hd & Hk & Hs & _).
  exists k1. split; [exact Hd|]. by rewrite Hk, Hs.
Qed.

Lemma read_call b c k fd dst m regs : wf (k_memory k) -> Forall u8 c -> c <> [] -> 0 < m < 2 ^ 63 ->
  fd < 2 ^ 31 -> buffers (k_shared k) !! b = Some c -> descriptor_is k fd (PipeRead b) ->
  rw_range (k_memory k) dst m ->
  let got := take (Z.to_nat m) c in
  exists k1, dispatch_with_process_model (mkInput 0 [fd; dst; m; 0; 0; 0]) regs k =
      (Ok (Return (len got)), k1) /\ read_bytes (k_memory k1) dst (len got) = Ok got /\
    buffers (k_shared k1) = <[b := drop (Z.to_nat m) c]> (buffers (k_shared k)) /\
    forall x, ~ dst <= x < dst + len got -> cell (k_memory k1) x = cell (k_memory k) x.
Proof.
  intros Hm Hc Hne Hmm Hfd Hb He Hrw got.
  assert (0 < len got <= m) as Hgot.
  { unfold got, len. rewrite length_take. destruct c; [done|]. cbn [length]. lia. }
  pose proof (read_pipe b c fd m (mkFdState (p_fd_table (k_process k)) (k_shared k))
    ltac:(lia) Hb He) as Hr. fold got in Hr.
  destruct (write_bytes_rw (k_memory k) dst got Hm) as (m' & Hw & Hwf & _ & Hread & _ & Hcell);
    [by apply Forall_take|eapply rw_range_sub; [done|exact Hrw|lia..]|].
  assert (dispatch_value (syscall_from 0) [fd; dst; m; 0; 0; 0] regs k =
    (Ok (len got), mkKernel (set_p_fd_table (p_fd_table (k_process k)) (k_process k)) m'
       (mkShared (world (k_shared k)) (<[b := drop (Z.to_nat m) c]> (buffers (k_shared k))))
       (k_table k))) as Hv.
  { change (syscall_from 0) with Sys_Read. cbn [dispatch_value]. unfold syscall_read.
    cbn [arg nth]. unfold fd_arg, usize_arg, capacity. rewrite (proj2 (Z.ltb_lt _ _)) by lia.
    unfold in_memory, in_fds, on_mem, zoom, lift, mbind, st_bind. rewrite Hr.
    cbn [map_err k_memory]. rewrite Hw. cbn [fst snd].
    by rewrite (proj2 (Z.ltb_lt _ _)) by lia. }
  destruct (dispatch_value_run 0 _ regs k _ _ I Hv) as (k1 & Hd & Hk & Hs & _).
  exists k1. split; [exact Hd|]. rewrite Hk, Hs. split; [exact Hread|]. split; [done|].
  intros x Hx. cbn [k_memory]. rewrite Hcell. unfold a_store. by rewrite (proj2 (in_range_false _ _ _)).
Qed.

(** C14: bytes go from one process to another.  What a process writes from its
    memory into a pipe, another process that reads the pipe finds in its own
    memory, after the bytes that were in the pipe before and in order, up to the
    number it asked for; the rest stays in the pipe, and the reader's memory is
    unchanged elsewhere.  Both calls return the number of bytes they moved. *)
Theorem pipe_between_processes (k1 k2 : Kernel) (b : nat) (c bs : list Z)
    (wfd rfd src dst n m : Z) (regs1 regs2 : option Registers)
    (Hm1 : wf (k_memory k1)) (Hm2 : wf (k_memory k2)) (Hc : Forall u8 c)
    (Hb : buffers (k_shared k1) !! b = Some c)
    (Hw : descriptor_is k1 wfd (PipeWrite b)) (Hr : descriptor_is k2 rfd (PipeRead b))
    (Hwfd : wfd < 2 ^ 31) (Hrfd : rfd < 2 ^ 31) (Hn : 0 < n) (Hm : 0 < m < 2 ^ 63)
    (Hsrc : read_bytes (k_memory k1) src n = Ok bs) (Hdst : rw_range (k_memory k2) dst m) :
  let got := take (Z.to_nat m) (c ++ bs) in
  exists k1' k2',
    dispatch_with_process_model (mkInput 1 [wfd; src; n; 0; 0; 0]) regs1 k1 = (Ok (Return n), k1') /\
    k_memory k1' = k_memory k1 /\
    dispatch_with_process_model (mkInput 0 [rfd; dst; m; 0; 0; 0]) regs2
      (with_shared (k_shared k1') k2) = (Ok (Return (len got)), k2') /\
    read_bytes (k_memory k2') dst (len got) = Ok got /\
    buffers (k_shared k2') !! b = Some (drop (Z.to_nat m) (c ++ bs)) /\
    forall x, ~ dst <= x < dst + len got -> cell (k_memory k2') x = cell (k_memory k2) x.
Proof.
  intros got.
  destruct (write_call b c k1 wfd src n bs regs1 Hm1 ltac:(lia) Hwfd Hb Hw Hsrc)
    as (k1' & Hd1 & Hk1 & Hb1).
  pose proof (read_bytes_safe (k_memory k1) src n Hm1 ltac:(lia)) as Hsafe. rewrite Hsrc in Hsafe.
  destruct Hsafe as (Hlen & Hu & _). pose proof (lookup_lt_Some _ _ _ Hb) as Hlt.
  destruct (read_call b (c ++ bs) (with_shared (k_shared k1') k2) rfd dst m regs2)
    as (k2' & Hd2 & Hread & Hb2 & Hcell); try done.
  - by apply Forall_app.
  - intros E. apply (f_equal len) in E. unfold len in *. rewrite length_app in E. cbn in E. lia.
  - cbn. rewrite Hb1. by apply list_lookup_insert_eq.
  - exists k1', k2'. split; [done|]. split; [done|]. split; [done|]. split; [done|]. split; [|done].
    rewrite Hb2. apply list_lookup_insert_eq. cbn. rewrite Hb1, length_insert. done.
Qed.
End Data.

(** ** Witnesses *)

Lemma mmap_munmap_restores_witness : exists k2,
  dispatch_with_process_model (H:=example_host) (mkInput 11 [0x20000; 5000; 0; 0; 0; 0]) None
    (dispatch_with_process_model (mkInput 9 [0x20000; 5000; 3; 0x22; 0; 0]) None demo_kernel).2 =
    (Ok (Return 0), k2) /\ cell (k_memory k2) 0x20000 = None /\
  cell (k_memory k2) 4097 = cell (k_memory demo_kernel) 4097.
Proof.
  assert ((dispatch_with_process_model (H:=example_host) (mkInput 9 [0x20000; 5000; 3; 0x22; 0; 0])
    None demo_kernel).1 = Ok (Return 0x20000)) as Ho by (vm_compute; reflexivity).
  destruct (dispatch_with_process_model (H:=example_host) (mkInput 9 _) None demo_kernel)
    as [o k1] eqn:Hd. cbn [fst] in Ho. subst o.
  destruct (mmap_munmap_restores (H:=example_host) demo_kernel k1 0x20000 5000 3 0x22 0 0x20000 None
    demo_kernel_ok) as (k2 & H2 & _ & Hc);
    [by split; vm_compute|lia|reflexivity|reflexivity|lia|exact Hd|].
  exists k2. split; [exact H2|]. rewrite !Hc. split; [|reflexivity].
  apply demo_mem_free. lia.
Defined.

(** A process with a pipe, which holds two bytes, in descriptors 3 and 4. *)
Definition piped_kernel : Kernel (H:=example_host) :=
  mkKernel (set_p_fd_table (table piped_state) (k_process demo_kernel)) demo_mem
    (mkShared (world (k_shared demo_kernel)) [[1; 2]]) None.

Lemma piped_descriptors : descriptor_is piped_kernel 4 (PipeWrite 0) /\
  descriptor_is piped_kernel 3 (PipeRead 0).
Proof.
  assert (match entry <$> entries (p_fd_table (k_process piped_kernel)) !! 4,
                entry <$> entries (p_fd_table (k_process piped_kernel)) !! 3 with
          | Some (PipeWrite b), Some (PipeRead b') => (b =? 0)%nat && (b' =? 0)%nat
          | _, _ => false
          end = true) as Hd by (vm_compute; reflexivity).
  unfold descriptor_is. destruct (entry <$> _ !! 4) as [[]|], (entry <$> _ !! 3) as [[]|]; try done.
  apply andb_true_iff in Hd as [->%Nat.eqb_eq ->%Nat.eqb_eq]. done.
Qed.

(** Three bytes at address 4096 go through the pipe, behind the two bytes in it, to
    address 4100 of the reader, which asks for four. *)
Lemma pipe_between_processes_witness : exists k1' k2',
  dispatch_with_process_model (H:=example_host) (mkInput 1 [4; 4096; 3; 0; 0; 0]) None piped_kernel =
    (Ok (Return 3), k1') /\
  dispatch_with_process_model (mkInput 0 [3; 4100; 4; 0; 0; 0]) None
    (with_shared (H:=example_host) (k_shared k1') piped_kernel) = (Ok (Return 4), k2') /\
  read_bytes (k_memory k2') 4100 4 = Ok [1; 2; 1; 2] /\
  buffers (k_shared k2') !! 0%nat = Some [3].
Proof.
  destruct (pipe_between_processes (H:=example_host) piped_kernel piped_kernel 0 [1; 2] [1; 2; 3] 4 3
    4096 4100 3 4 None None) as (k1' & k2' & H1 & _ & H2 & Hr & Hb & _).
  - exact demo_mem_wf.
  - exact demo_mem_wf.
  - repeat constructor; done.
  - reflexivity.
  - apply piped_descriptors.
  - apply piped_descriptors.
  - lia.
  - lia.
  - lia.
  - lia.
  - vm_compute. reflexivity.
  - eexists. vm_compute. repeat split.
  - exists k1', k2'. split; [exact H1|]. split; [exact H2|]. split; [exact Hr|exact Hb].
Defined.

(** ** A mapping that fails half way *)

(** [mmap] maps the pages before it looks at the descriptor: a call that is refused
    because the mapping is not private leaves its pages of zeros mapped. *)
Example failed_mmap_keeps_pages :
  let '(o, k) := dispatch_with_process_model (H:=example_host)
    (mkInput 9 [0x20000; 4096; 3; 1; 0; 0]) None demo_kernel in
  (o, cell demo_mem 0x20000, cell (k_memory k) 0x20000) =
  (Ok (Return (linux_return Inval)), None, Some (3, 0)).
Proof. vm_compute. reflexivity. Qed.
