(* ===== verification/RunLoopDemo.v ===== *)
(** * A run from start to exit

    A program that forks, waits for its child and exits, executed by the model:
    blocks of two processes in turn, the system calls they make, and the code
    the run ends with. *)

From Stdlib Require Import String.
From S2P Require Import Prelude Memory MemorySpec Registers Ir Iced ExampleDecoder Cpu CpuInv Interp Elf ElfProps Loader LoaderInv Host ExampleHost Fs LinuxAbi Terminal Fd Process Syscalls RunLoop FsProps RunLoopInv.

Open Scope Z_scope.

(** [fork]; the child exits with 7; the parent calls [wait4] for process 1001
    without blocking until it returns the child, and exits with 3. *)
Definition fork_code : list Z :=
  [0xb8; 57; 0; 0; 0; 0x0f; 0x05;
   0x48; 0x39; 0xd8; 0x74; 41;
   0xb8; 61; 0; 0; 0; 0xbf; 0xe9; 0x03; 0; 0; 0xbe; 0; 0x20; 0; 0; 0xba; 1; 0; 0; 0; 0x0f; 0x05;
   0x48; 0x39; 0xd8; 0x74; 0xe5;
   0xb8; 60; 0; 0; 0; 0xbf; 3; 0; 0; 0; 0x0f; 0x05; 0x90; 0x90;
   0xb8; 60; 0; 0; 0; 0xbf; 7; 0; 0; 0; 0x0f; 0x05].

(** The program's code at 0x1000 and a page of data at 0x2000. *)
Definition fork_memory : GuestMemory := mkMemory
  [mkRegion 0x1000 96 (READ + EXECUTE) None (fork_code ++ replicate (96 - length fork_code) 0x90);
   mkRegion 0x2000 64 (READ + WRITE) None (replicate 64 0)].

Definition fork_program : LoadedProgram :=
  mkLoadedProgram (image_at tiny_elf) fork_memory 0x1000 0x1000 0x2040 [] [] [] None None [].

Lemma fork_program_ok : loaded_ok fork_program.
Proof.
  split; [|done..]. split.
  - constructor; [|constructor; [|constructor]]; split; try done;
      apply (bool_decide_unpack _); vm_compute; exact I.
  - repeat constructor; vm_compute; discriminate.
Qed.

(** The system it starts in. *)
Definition fork_initial : { s : System |
  initial_system (HOST:=example_host) None (text "/bin/fork") fork_program example_world = Ok (1000, s) }.
Proof. eexists. reflexivity. Defined.

Definition fork_start : System := proj1_sig fork_initial.

Lemma fork_started :
  initial_system (HOST:=example_host) None (text "/bin/fork") fork_program example_world =
  Ok (1000, fork_start).
Proof. exact (proj2_sig fork_initial). Qed.

(** Run it for some rounds; the result, the status the parent read, and the
    processes that are left. *)
Definition fork_run (n : nat) : res RunError Z * res GuestMemoryError Z * list Z :=
  let '(r, s) := rounds n false 1000 fork_start in
  (r, match records (process_table s) !! 1000 with
      | Some p => Memory.read_u32 (pr_memory p) 0x2000
      | None => Panic
      end, (map_to_list (records (process_table s))).*1).

Example fork_run_result : fork_run 40 = (Ok 3, Ok 0x700, [1000]).
Proof. vm_compute. reflexivity. Qed.
