(* ===== verification/RunLoopLive.v ===== *)
(** * The run loop makes progress

    Every thread that can run is in the queue, so that each gets its turn and
    the loop ends only when no thread can run; and the code the loop ends with
    is the one the first process passed to [exit]. *)

From Stdlib Require Import String.
From S2P Require Import Prelude Memory MemorySpec Registers Ir Iced Cpu Interp CpuInv CpuSafe Loader LoaderInv Host Fs LinuxAbi Terminal Fd Process Syscalls RunLoop FdProps ProcessProps FdInv SyscallInv RunLoopInv SyscallFrame Isolation SyscallProps ExampleDecoder ExampleHost FsProps RunLoopDemo.

Open Scope Z_scope.

Section Live.
Context `{HL : HostLaws} `{IL : IcedLaws}.

(** ** The queue *)

Lemma enqueue_elem pid tid sch e : e ∈ run_queue (enqueue pid tid sch) <->
  e = (pid, tid) \/ e ∈ run_queue sch.
Proof.
  unfold enqueue. case_decide as Hd; simpl; [|set_solver].
  split; [by right|]. by intros [->|].
Qed.

(** A fold of steps that only add to the queue. *)
Lemma fold_adds {A} (f : Scheduler -> A -> Scheduler) l sch e :
  (forall s x, e ∈ run_queue s -> e ∈ run_queue (f s x)) ->
  e ∈ run_queue sch \/ (exists x, (x ∈ l) /\ forall s, e ∈ run_queue (f s x)) ->
  e ∈ run_queue (foldl f sch l).
Proof.
  intros Hf. revert sch. induction l as [|y l IH]; intros sch; simpl.
  { by intros [?|(x & Hx%elem_of_nil & _)]. }
  intros [He|(x & Hx & Hfx)]; apply IH; [by left; apply Hf|].
  apply elem_of_cons in Hx as [->|Hx]; [by left|right; eauto].
Qed.

Lemma enqueue_process_keeps r sch e : e ∈ run_queue sch -> e ∈ run_queue (enqueue_process r sch).
Proof.
  intros He. apply fold_adds; [|by left]. intros s [tid th] Hs.
  case_decide; [|done]. apply enqueue_elem. by right.
Qed.

Lemma enqueue_process_adds q tid th r sch : numbered q r -> pr_threads r !! tid = Some th ->
  t_state th = Runnable -> (q, tid) ∈ run_queue (enqueue_process r sch).
Proof.
  intros [_ Hn] Hl Hs. apply fold_adds.
  - intros s [tid' th'] He. case_decide; [|done]. apply enqueue_elem. by right.
  - right. exists (tid, th). split; [by apply elem_of_visit|]. intros s.
    rewrite decide_True by done. apply enqueue_elem. left. by destruct (Hn tid th Hl) as [-> ->].
Qed.

(** Positions in the queue. *)
Lemma enqueue_process_lookup r sch i e : run_queue sch !! i = Some e ->
  run_queue (enqueue_process r sch) !! i = Some e.
Proof.
  unfold enqueue_process. revert sch. induction (visit (pr_threads r)) as [|[tid th] l IH];
    intros sch Hi; simpl; [done|]. apply IH. case_decide; [by apply enqueue_lookup|done].
Qed.

Lemma enqueue_runnable_lookup s i e : run_queue (scheduler s) !! i = Some e ->
  run_queue (scheduler (enqueue_runnable s)) !! i = Some e.
Proof.
  simpl. generalize (scheduler s). induction (visit (records (process_table s))) as [|x l IH];
    intros sch Hi; simpl; [done|]. apply IH. by apply enqueue_process_lookup.
Qed.

(** ** Every thread that can run is in the queue *)

Definition queued (s : System) : Prop := forall e,
  thread_runnable (process_table s) e = true -> e ∈ run_queue (scheduler s).

Lemma runnable_Some t e : thread_runnable t e = true <-> exists r th,
  records t !! e.1 = Some r /\ pr_threads r !! e.2 = Some th /\ t_state th = Runnable.
Proof.
  unfold thread_runnable. destruct (records t !! e.1) as [r|]; [|naive_solver].
  destruct (pr_threads r !! e.2) as [th|] eqn:Hth; [rewrite bool_decide_eq_true|]; naive_solver.
Qed.

Lemma enqueue_runnable_queued s : keyed (process_table s) -> queued (enqueue_runnable s).
Proof.
  intros Ht [q tid] (r & th & Hr & Hth & Hs)%runnable_Some. simpl in *. apply fold_adds.
  - intros sch [q' r']. apply enqueue_process_keeps.
  - right. exists (q, r). split; [by apply elem_of_visit|]. intros sch.
    eapply enqueue_process_adds; [by apply Ht|done..].
Qed.

(** Choosing keeps every thread that can run in the queue. *)
Lemma next_loop_keeps t q e o q' : next_loop t q = (o, q') -> e ∈ q ->
  thread_runnable t e = true -> o <> None /\ e ∈ q'.
Proof.
  revert o q'. induction q as [|x q IH]; intros o q' Hn He Hr; [by apply elem_of_nil in He|].
  simpl in Hn. destruct (thread_runnable t x) eqn:Hx.
  - injection Hn as <- <-. split; [done|]. set_solver.
  - apply (IH o q' Hn); [|done]. apply elem_of_cons in He as [->|He]; [congruence|done].
Qed.

(** ** One round *)

(** How a round that goes on ends: the process went back into the table and all
    that can run was put into the queue, or the round changed nothing. *)
Definition round_ends (s : System) (sch : Scheduler) (s' : System) : Prop :=
  (exists s1, s' = enqueue_runnable s1 /\ scheduler s1 = sch) \/
  (scheduler s' = sch /\ records (process_table s') = records (process_table s)).

Lemma resume_ends pid r i s res s' : pr_state r = Runnable -> resume pid r i s = (res, s') ->
  exists s1, s' = enqueue_runnable s1 /\ scheduler s1 = scheduler s.
Proof.
  intros Hr. unfold resume, put_back, mbind, st_bind, modify. rewrite decide_True by done.
  intros [= _ <-]. by eexists.
Qed.

Lemma finish_scheduler pid initial code r i s :
  exists s1, finish_process pid initial code r i s = (Ok tt, s1) /\ scheduler s1 = scheduler s.
Proof.
  unfold finish_process, mbind, st_bind, modify. by destruct (pid =? initial); eexists.
Qed.

Lemma serve_ends pid initial trap r i s s' : pr_state r = Runnable ->
  serve pid initial trap r i s = (Ok tt, s') ->
  exists s1, s' = enqueue_runnable s1 /\ scheduler s1 = scheduler s.
Proof.
  intros Hr. unfold serve. destruct (dispatch_with_process_model _ _ _) as [o k'].
  lazymatch goal with |- context [if decide ?P then ?x else ?y] =>
    destruct (if decide P then x else y) as [[] i1] end; [|done..].
  destruct o as [[value| |code|request]|[]|]; [..|done].
  - intros (s1 & -> & Hs1)%resume_ends; [by exists s1|done].
  - unfold put_back, mbind, st_bind, modify. intros [= <-]. by eexists.
  - unfold mbind, st_bind. set (s1 := set_sys_shared _ _).
    lazymatch goal with |- context [finish_process ?p ?q ?c ?r ?j ?x] =>
      destruct (finish_scheduler p q c r j x) as (s2 & -> & Hs2) end.
    intros [= <-]. by exists s2.
  - destruct (execve_state _ _ _) as [[[m regs] p]|e|]; [|done..].
    destruct (replace_state _ _ _) as [[] i2]; [|done..].
    intros (s1 & -> & Hs1)%resume_ends; [by exists s1|done].
Qed.

(** The interpreter a process runs in. *)
Definition interpreter_of (trace : bool) (pid : Z) (r : ProcessRecord) (regs : Registers)
    (s : System) : Interpreter :=
  mkInterpreter (pr_memory r) regs trace [] (default default_cache (execution_caches s !! pid))
    (clock_reads s).

(** A block of a process of the system does not halt. *)
Lemma block_continues trace pid r regs s : system_ok s -> records (process_table s) !! pid = Some r ->
  main_thread_registers r = Some regs ->
  forall c i, step_block (interpreter_of trace pid r regs s) <> (Ok (Halted c), i).
Proof.
  intros Hs Hr Hregs c i Hstep. destruct Hs as [_ [Ht _] Hc]. specialize (Ht pid r Hr) as [_ Hm Hth].
  unfold main_thread_registers in Hregs. destruct (pr_threads r !! _) as [th|] eqn:Hl; [|done].
  injection Hregs as <-.
  assert (inv (pr_memory r) (interpreter_of trace pid r (t_registers th) s)) as Hi.
  { split; simpl; [done|done|by intros a p v|by eapply Hth|].
    destruct (execution_caches s !! pid) eqn:Hx; simpl; [by eapply Hc|]. apply empty_cache_wf. }
  destruct (step_block_spec (pr_memory r) _ Hi) as [_ Hout]. rewrite Hstep in Hout.
  by apply (Hout (Halted c)).
Qed.

Lemma round_shape trace initial s s' : system_ok s -> keyed (process_table s) ->
  round trace initial s = (Ok None, s') ->
  exists e sch, next_thread (process_table s) (scheduler s) = (Some e, sch) /\ round_ends s sch s'.
Proof.
  intros Hs Ht. unfold round.
  destruct (next_thread (process_table s) (scheduler s)) as [[[pid tid]|] sch] eqn:Hn.
  2:{ cbn. by destruct (initial_exit_code s). }
  intros Hround. exists (pid, tid), sch. split; [done|].
  apply next_thread_found in Hn as [r Hr]. cbn [fst] in Hr. cbn in Hround. rewrite Hr in Hround.
  destruct (decide (pr_state r = Runnable)) as [Hrun|].
  2:{ injection Hround as <-. right. split; [done|]. cbn. by apply insert_delete_id. }
  destruct (main_thread_registers r) as [regs|] eqn:Hregs; [|done].
  pose proof (block_continues trace pid r regs s Hs Hr Hregs) as Hb.
  unfold mbind, st_bind, run_process in Hround. unfold interpreter_of in Hb. cbn in Hround.
  destruct (step_block _) as [[[|trap|code]|e|] i1]; try done.
  - destruct (resume _ _ _ _) as [[] s1] eqn:E; try done. injection Hround as <-.
    apply resume_ends in E as (s2 & -> & Hs2); [|done]. left. by exists s2.
  - destruct (serve _ _ _ _ _ _) as [[[]| |] s1] eqn:E; try done. injection Hround as <-.
    apply serve_ends in E as (s2 & -> & Hs2); [|done]. left. by exists s2.
  - by destruct (Hb code i1).
Qed.

Lemma round_queued trace initial s s' : system_ok s -> keyed (process_table s) -> queued s ->
  round trace initial s = (Ok None, s') -> queued s'.
Proof.
  intros Hs Ht Hq Hr. pose proof (keyed_round trace initial s Ht) as Ht'. rewrite Hr in Ht'.
  destruct (round_shape _ _ _ _ Hs Ht Hr) as (e0 & sch & Hn & [(s1 & -> & _)|[Hsch Hrec]]).
  - by apply enqueue_runnable_queued.
  - intros e He. rewrite Hsch. unfold next_thread in Hn.
    destruct (next_loop (process_table s) _) as [o q] eqn:Hl. injection Hn as -> <-. simpl.
    assert (thread_runnable (process_table s) e = true) as He'.
    { unfold thread_runnable in *. by rewrite <- Hrec. }
    by eapply next_loop_keeps; [|apply Hq|].
Qed.

(** ** Runs *)

(** The system after [n] rounds, none of which ended the run. *)
Fixpoint after (n : nat) (trace : bool) (initial : Z) (s : System) : option System :=
  match n with
  | O => Some s
  | S n => match round trace initial s with
           | (Ok None, s1) => after n trace initial s1
           | _ => None
           end
  end.

(** What holds in every state of a run. *)
Record live (s : System) : Prop := {
  li_system : system_ok s;
  li_keyed : keyed (process_table s);
  li_queued : queued s
}.

Lemma round_live trace initial s s' : live s -> round trace initial s = (Ok None, s') -> live s'.
Proof.
  intros [Hs Ht Hq] Hr. pose proof (round_ok trace initial s Hs) as H1.
  pose proof (keyed_round trace initial s Ht) as H2.
  pose proof (round_queued trace initial s s' Hs Ht Hq Hr) as H3. rewrite Hr in *. by split.
Qed.

Lemma after_live n trace initial s s' : live s -> after n trace initial s = Some s' -> live s'.
Proof.
  revert s. induction n as [|n IH]; intros s Hl; simpl; [by intros [= <-]|].
  destruct (round trace initial s) as [[[c|]|e|] s1] eqn:Hr; try done.
  apply IH. by eapply round_live.
Qed.

(** The system a program starts in. *)
Lemma initial_live rootfs program loaded w initial s : Forall u8 program -> loaded_ok loaded ->
  initial_system rootfs program loaded w = Ok (initial, s) -> live s /\ initial_exit_code s = None.
Proof.
  intros Hp Hl Hi. pose proof (initial_system_ok _ _ _ _ _ _ Hl Hp Hi) as Hok.
  pose proof (keyed_initial _ _ _ _ _ _ Hi) as Hk. unfold initial_system, insert_initial in Hi.
  destruct (add_u32 _ _) as [m|e|]; [|done..]. cbn [mbind res_bind] in Hi. injection Hi as <- <-.
  split; [|done]. split; [done|done|].
  intros [q tid] (r & th & Hr & Hth & Hst)%runnable_Some. cbn [fst snd] in *.
  cbn [process_table records ensure_queue set_wait_queues set_records p_pid with_executable] in Hr.
  apply lookup_insert_Some in Hr as [[<- <-]|[_ Hr]]; [|by rewrite lookup_empty in Hr].
  unfold table_get. cbn [records ensure_queue set_wait_queues set_records scheduler p_pid with_executable].
  rewrite lookup_insert_eq. eapply enqueue_process_adds; [|done..].
  apply (numbered_new (with_executable rootfs (to_string_lossy program) w)).
Qed.

(** A thread that can run is chosen by the next round or moves forward. *)
Lemma round_progress trace initial s s' i e : live s -> run_queue (scheduler s) !! i = Some e ->
  thread_runnable (process_table s) e = true -> round trace initial s = (Ok None, s') ->
  (next_thread (process_table s) (scheduler s)).1 = Some e \/
  exists j, (j < i)%nat /\ run_queue (scheduler s') !! j = Some e.
Proof.
  intros [Hs Ht _] Hi He Hr.
  destruct (round_shape _ _ _ _ Hs Ht Hr) as (e0 & sch & Hn & Hends).
  destruct (next_loop_progress _ _ _ _ Hi He) as (y & q' & Hl & Hy).
  unfold next_thread in *. rewrite Hl in *. injection Hn as <- <-.
  destruct Hy as [->|(j & Hj & Hq)]; [by left|right]. exists j. split; [done|].
  destruct Hends as [(s1 & -> & Hs1)|[-> _]]; [|done]. apply enqueue_runnable_lookup. by rewrite Hs1.
Qed.

(** The rounds until a thread is chosen, by its place in the queue. *)
Lemma chosen_within trace initial i s e : live s -> run_queue (scheduler s) !! i = Some e ->
  (forall k, (k <= i)%nat -> exists sk, after (S k) trace initial s = Some sk) ->
  (forall k sk, (k <= i)%nat -> after k trace initial s = Some sk ->
     thread_runnable (process_table sk) e = true) ->
  exists k sk, (k <= i)%nat /\ after k trace initial s = Some sk /\
    (next_thread (process_table sk) (scheduler sk)).1 = Some e.
Proof.
  revert s. induction i as [i IH] using lt_wf_ind. intros s Hs Hi Hgo Hrun.
  destruct (Hgo 0%nat ltac:(lia)) as [s1 Hs1]. simpl in Hs1.
  destruct (round trace initial s) as [[[c|]|x|] s1'] eqn:Hround; try done. injection Hs1 as ->.
  destruct (round_progress trace initial s s1 i e Hs Hi (Hrun 0%nat s ltac:(lia) eq_refl) Hround)
    as [Hnow|(j & Hj & Hq)]; [by exists 0%nat, s; split; [lia|]|].
  destruct (IH j Hj s1) as (k & sk & Hk & Hsk & Hnext); [by eapply round_live|done|..].
  - intros k Hk. destruct (Hgo (S k) ltac:(lia)) as [sk Hsk]. exists sk.
    cbn [after] in Hsk |- *. by rewrite Hround in Hsk.
  - intros k sk Hk Hsk. apply (Hrun (S k)); [lia|]. cbn [after]. by rewrite Hround.
  - exists (S k), sk. split; [lia|]. split; [|done]. cbn [after]. by rewrite Hround.
Qed.

(** C16: every process gets its turn.  Whatever program was loaded, in the state
    after any number of rounds a thread that can run is in the queue; and if it
    is [i] places from the front, and the run goes on and the thread can run for
    the next [i + 1] rounds, then one of these rounds runs it, whatever the other
    processes compute, fork, wait for or exit with. *)
Theorem run_loop_fair (rootfs : option PathBuf) (program : PathBuf) (loaded : LoadedProgram)
    (w : World) (trace : bool) (initial : Z) (s0 s : System) (n : nat) (e : Z * Z)
    (Hp : Forall u8 program) (Hl : loaded_ok loaded)
    (Hi : initial_system rootfs program loaded w = Ok (initial, s0))
    (Hn : after n trace initial s0 = Some s) (He : thread_runnable (process_table s) e = true) :
  exists i, run_queue (scheduler s) !! i = Some e /\
    ((forall k, (k <= i)%nat -> exists sk, after (S k) trace initial s = Some sk) ->
     (forall k sk, (k <= i)%nat -> after k trace initial s = Some sk ->
        thread_runnable (process_table sk) e = true) ->
     exists k sk, (k <= i)%nat /\ after k trace initial s = Some sk /\
       (next_thread (process_table sk) (scheduler sk)).1 = Some e).
Proof.
  destruct (initial_live _ _ _ _ _ _ Hp Hl Hi) as [Hs _]. apply (after_live _ _ _ _ _ Hs) in Hn.
  apply (li_queued _ Hn), list_elem_of_lookup in He as [i Hi']. exists i. split; [done|].
  by apply chosen_within.
Qed.

(** ** The exit code *)

(** The values an operation may return. *)
Definition yields {A} (m : ST Kernel SyscallError A) (Q : A -> Prop) : Prop :=
  forall k a k', m k = (Ok a, k') -> Q a.

Lemma yields_bind {A B} (m : ST Kernel SyscallError A) (f : A -> ST Kernel SyscallError B) Q :
  (forall a, yields (f a) Q) -> yields (m ≫= f) Q.
Proof.
  intros Hf k b k'. unfold mbind, st_bind. destruct (m k) as [[a|e|] k1]; [|done..]. apply Hf.
Qed.

Lemma yields_ret {A} (a : A) (Q : A -> Prop) : Q a -> yields (mret a) Q.
Proof. intros Ha k b k' [= <- _]. done. Qed.

Ltac yielding :=
  repeat first
    [ apply yields_bind; intros
    | apply yields_ret
    | match goal with |- yields (match ?x with _ => _ end) _ => destruct x end
    | by intros ? ? ? ];
  try done.

(** Only the two exit calls end a process, with their argument as the code. *)
Lemma inner_exits number args regs : yields (dispatch_inner number args regs) (fun o =>
  forall c, o = ExitWith c ->
    (number = Sys_Exit \/ number = Sys_ExitGroup) /\ c = signed 32 (arg args 0)).
Proof.
  destruct number; cbn [dispatch_inner]; unfold syscall_exit, syscall_execve, syscall_wait4;
    cbv zeta; yielding; intros c; try (intros [= <-]; split; [auto|done]). by destruct (has_bit _ _).
Qed.

Lemma exit_outcome input regs k c : (dispatch_with_process_model input regs k).1 = Ok (ExitWith c) ->
  (in_number input = 60 \/ in_number input = 231) /\ c = signed 32 (arg (in_args input) 0).
Proof.
  unfold dispatch_with_process_model. destruct (dispatch_inner _ _ _ k) as [r k1] eqn:Hd.
  unfold mbind, st_bind. destruct r as [o|[]|]; cbn; try done. intros [= ->].
  destruct (inner_exits _ _ _ _ _ _ Hd c eq_refl) as [Hn ->]. split; [|done].
  rewrite <- (syscall_raw_from (in_number input)). destruct Hn as [-> | ->]; auto.
Qed.

(** The next round is the exit of process [pid] with [code]. *)
Definition exits (trace : bool) (pid code : Z) (s : System) : Prop :=
  exists tid r regs trap i, (next_thread (process_table s) (scheduler s)).1 = Some (pid, tid) /\
    records (process_table s) !! pid = Some r /\ main_thread_registers r = Some regs /\
    step_block (interpreter_of trace pid r regs s) = (Ok (Syscall trap), i) /\
    (number trap = 60 \/ number trap = 231) /\ code = signed 32 (arg (args trap) 0).

Lemma resume_code pid r i s : initial_exit_code (resume pid r i s).2 = initial_exit_code s.
Proof. unfold resume, put_back, mbind, st_bind, modify. by case_decide. Qed.

Lemma serve_code pid initial trap r i s :
  initial_exit_code (serve pid initial trap r i s).2 = initial_exit_code s \/
  (pid = initial /\ exists code, (number trap = 60 \/ number trap = 231) /\
     code = signed 32 (arg (args trap) 0) /\
     initial_exit_code (serve pid initial trap r i s).2 = Some code).
Proof.
  unfold serve. set (k := mkKernel _ _ _ _).
  pose proof (exit_outcome (mkInput (number trap) (args trap)) (Some (registers i)) k) as Hx.
  destruct (dispatch_with_process_model _ _ k) as [o k']. cbn [fst] in Hx.
  lazymatch goal with |- context [if decide ?P then ?x else ?y] =>
    destruct (if decide P then x else y) as [[] i1] end; [|by left..].
  destruct o as [[value| |code|request]|[]|]; [..|by left].
  - left. by rewrite resume_code.
  - by left.
  - destruct (Hx code eq_refl) as [Hn Hc]. cbn [in_number in_args] in *.
    unfold finish_process, mbind, st_bind, modify. cbn [fst snd].
    destruct (Z.eqb_spec pid initial) as [->|]; [right|by left]. split; [done|]. by exists code.
  - left. destruct (execve_state _ _ _) as [[[m regs] p]|e|]; [|done..].
    destruct (replace_state _ _ _) as [[] i2]; [|done..]. by rewrite resume_code.
Qed.

Lemma round_code trace initial s res s' : system_ok s -> keyed (process_table s) ->
  round trace initial s = (res, s') ->
  initial_exit_code s' = initial_exit_code s \/
  exists code, exits trace initial code s /\ initial_exit_code s' = Some code.
Proof.
  intros Hs Ht. unfold round, exits.
  destruct (next_thread (process_table s) (scheduler s)) as [[[pid tid]|] sch] eqn:Hn.
  2:{ cbn. destruct (initial_exit_code s) eqn:Hc; intros [= _ <-]; by left. }
  apply next_thread_found in Hn as [r Hr]. cbn [fst] in Hr. cbn. rewrite Hr.
  destruct (decide (pr_state r = Runnable)) as [Hrun|]; [|intros [= _ <-]; by left].
  destruct (main_thread_registers r) as [regs|] eqn:Hregs; [|intros [= _ <-]; by left].
  pose proof (block_continues trace pid r regs s Hs Hr Hregs) as Hb.
  unfold mbind, st_bind, run_process. cbn. fold (interpreter_of trace pid r regs s) in *.
  destruct (step_block _) as [[[|trap|code]|e|] i1] eqn:Hstep.
  - lazymatch goal with |- context [resume ?a ?b ?c ?d] => pose proof (resume_code a b c d) as Hc;
      destruct (resume a b c d) as [[] s1] end; intros [= _ <-]; left; exact Hc.
  - lazymatch goal with |- context [serve ?a ?b ?c ?d ?e ?f] =>
      pose proof (serve_code a b c d e f) as Hc; destruct (serve a b c d e f) as [res' s1] end.
    cbn [snd] in Hc. intros E. assert (s' = s1) as -> by (destruct res'; by injection E).
    destruct Hc as [Hc|(<- & code & Hnum & Hcode & Hc)]; [by left|right].
    exists code. split; [|done]. by exists tid, r, regs, trap, i1.
  - by destruct (Hb code i1).
  - intros [= _ <-]. left. by destruct (unsupported_instruction e).
  - intros [= _ <-]. by left.
Qed.

(** The round that ends the run. *)
Lemma round_end trace initial s code s' : live s -> round trace initial s = (Ok (Some code), s') ->
  initial_exit_code s = Some code /\ forall e, thread_runnable (process_table s') e = false.
Proof.
  intros [_ _ Hq]. unfold round, next_thread.
  destruct (next_loop (process_table s) _) as [o q] eqn:Hn. destruct o as [[pid tid]|]; cbn.
  - destruct (records _ !! pid) as [r|]; [|done]. case_decide; [|done].
    destruct (main_thread_registers r); [|done]. unfold mbind, st_bind.
    by destruct (run_process _ _ _ _ _ _) as [[]].
  - destruct (initial_exit_code s) as [c|]; [|done]. intros [= <- <-]. split; [done|].
    intros e. cbn. destruct (thread_runnable (process_table s) e) eqn:He; [|done].
    by destruct (next_loop_keeps _ _ _ _ _ Hn (Hq e He) He).
Qed.

(** The code was set before the run, or a round was the exit. *)
Lemma rounds_code n trace initial s0 code : live s0 -> (rounds n trace initial s0).1 = Ok code ->
  (initial_exit_code s0 = Some code \/ exists m s, (m < n)%nat /\
    after m trace initial s0 = Some s /\ exits trace initial code s) /\
  forall e, thread_runnable (process_table (rounds n trace initial s0).2) e = false.
Proof.
  revert s0. induction n as [|n IH]; intros s0 Hl Hrun; [done|].
  cbn [rounds] in *. unfold mbind, st_bind in *.
  destruct (round trace initial s0) as [[[c|]|x|] s1] eqn:Hr; try done.
  - injection Hrun as ->. destruct (round_end trace initial s0 code s1 Hl Hr) as [Hc Hno].
    by split; [left|].
  - destruct (IH s1) as [[Hc|(m & s & Hm & Ha' & Hx)] Hno]; [by eapply round_live|done|..];
      (split; [|done]).
    + destruct (round_code _ _ _ _ _ (li_system _ Hl) (li_keyed _ Hl) Hr) as [Hsame|(c & Hx & Hc')].
      * left. congruence.
      * right. exists 0%nat, s0. split; [lia|]. split; [done|]. congruence.
    + right. exists (S m), s. split; [lia|]. split; [|done]. cbn [after]. by rewrite Hr.
Qed.

(** C17: the result of a run.  When the run loop returns a code, the first process
    made an exit call with that code in one of the rounds, and no thread of any
    process can run any more. *)
Theorem run_returns_exit_code (rootfs : option PathBuf) (program : PathBuf)
    (loaded : LoadedProgram) (w : World) (trace : bool) (initial : Z) (s0 : System) (n : nat)
    (code : Z) (Hp : Forall u8 program) (Hl : loaded_ok loaded)
    (Hi : initial_system rootfs program loaded w = Ok (initial, s0))
    (Hr : (rounds n trace initial s0).1 = Ok code) :
  (exists m s, (m < n)%nat /\ after m trace initial s0 = Some s /\ exits trace initial code s) /\
  forall e, thread_runnable (process_table (rounds n trace initial s0).2) e = false.
Proof.
  destruct (initial_live _ _ _ _ _ _ Hp Hl Hi) as [Hs Hnone].
  destruct (rounds_code _ _ _ _ _ Hs Hr) as [[Hc|Hx] Hno]; [congruence|by split].
Qed.
End Live.

(** ** Witnesses *)

(** After the fork the child of the example is second in the queue and can run in
    each of the next rounds. *)
Definition child_waits (k : nat) : bool :=
  match after (S k) false 1000 fork_start with
  | Some s => thread_runnable (process_table s) (1001, 1001)
  | None => false
  end.

Lemma run_loop_fair_witness : exists s k sk, after 1 false 1000 fork_start = Some s /\
  run_queue (scheduler s) = [(1000, 1000); (1001, 1001)] /\ (k <= 1)%nat /\
  after k false 1000 s = Some sk /\
  (next_thread (process_table sk) (scheduler sk)).1 = Some (1001, 1001).
Proof.
  assert (child_waits 0 && child_waits 1 && child_waits 2 = true) as Hw by (vm_compute; reflexivity).
  assert (option_map (fun s => run_queue (scheduler s)) (after 1 false 1000 fork_start) =
    Some [(1000, 1000); (1001, 1001)]) as Hq by (vm_compute; reflexivity).
  unfold child_waits in Hw. destruct (after 1 false 1000 fork_start) as [s|] eqn:Hs; [|discriminate Hq].
  injection Hq as Hq.
  assert (forall k, after (S k) false 1000 fork_start = after k false 1000 s) as Hk.
  { intros k. cbn [after] in Hs |- *.
    destruct (round false 1000 fork_start) as [[[c|]|x|] s1]; try discriminate Hs. by injection Hs as ->. }
  rewrite !Hk in Hw. apply andb_true_iff in Hw as [[H0 H1]%andb_true_iff H2].
  destruct (run_loop_fair (H:=example_host) None (text "/bin/fork") fork_program example_world
    false 1000 fork_start s 1 (1001, 1001) (text_u8 _) fork_program_ok fork_started Hs H0)
    as (i & Hi & Hrun). rewrite Hq in Hi. destruct i as [|[|i]]; [discriminate Hi| |discriminate Hi].
  destruct Hrun as (k & sk & Hle & Hsk & Hnext).
  - intros k Hle. destruct k as [|[|k]]; [| |lia];
      [destruct (after 1 false 1000 s)|destruct (after 2 false 1000 s)]; eauto; done.
  - intros k sk Hle Hsk. destruct k as [|[|k]]; [| |lia]; [|by rewrite Hsk in H1].
    injection Hsk as <-. exact H0.
  - exists s, k, sk. split_and!; [reflexivity|exact Hq|exact Hle|exact Hsk|exact Hnext].
Defined.

Lemma run_returns_exit_code_witness : (rounds 40 false 1000 fork_start).1 = Ok 3 /\
  exists m s, (m < 40)%nat /\ after m false 1000 fork_start = Some s /\ exits false 1000 3 s.
Proof.
  assert ((rounds 40 false 1000 fork_start).1 = Ok 3) as Hr by (vm_compute; reflexivity).
  split; [exact Hr|].
  exact (proj1 (run_returns_exit_code (H:=example_host) None (text "/bin/fork") fork_program
    example_world false 1000 fork_start 40 3 (text_u8 _) fork_program_ok fork_started Hr)).
Defined.
