(* ===== verification/RunLoopSolo.v ===== *)
(** * One process alone

    The run loop keeps a table of processes, a queue of threads and a cache per
    process; it takes the process that runs out of the table, serves its calls
    against the rest and puts it back.  For a program that does not fork all this
    is invisible: the loop implements the plain machine of this file, which runs
    a block, serves the call the block ends with, and goes on. *)

From Stdlib Require Import String.
From S2P Require Import Prelude Memory MemorySpec Registers Ir Iced ExampleDecoder Cpu CpuInv Interp Elf ElfProps Loader LoaderInv Host ExampleHost Fs LinuxAbi Terminal Fd Process Syscalls RunLoop FsProps ProcessWait RunLoopInv SyscallFrame Isolation RunLoopDemo RunLoopLive.

Open Scope Z_scope.

(** ** The plain machine *)

Section Solo.
Context `{HL : HostLaws} `{IL : IcedLaws}.

Record Machine : Type := mkMachine {
  ma_process : LinuxProcess;
  ma_interpreter : Interpreter;
  ma_shared : Shared
}.

Definition is_fork (number : Z) : bool :=
  match syscall_from number with Sys_Clone | Sys_Fork | Sys_VFork => true | _ => false end.

(** The interpreter of the next block: the trace starts anew. *)
Definition fresh (trace : bool) (i : Interpreter) : Interpreter :=
  mkInterpreter (memory i) (registers i) trace [] (cache i) (Cpu.clock i).

(** A call in a system without other processes. *)
Definition solo_call (m : Machine) (trap : SyscallTrap) (i : Interpreter)
    : res Empty_set SyscallOutcome * Kernel :=
  dispatch_with_process_model (mkInput (number trap) (args trap)) (Some (registers i))
    (mkKernel (ma_process m) (memory i) (ma_shared m) (Some table_new)).

(** A call that changes the memory map drops the translated blocks. *)
Definition after_call (trap : SyscallTrap) (k : Kernel) (i : Interpreter)
    : res CpuError unit * Interpreter :=
  let i := Cpu.set_memory (k_memory k) i in
  let '(c, i) := if decide (number trap ∈ MEMORY_MODIFYING_SYSCALLS)
                 then clear_block_cache i else (Ok tt, i) in
  (c, update_registers (set_fs_base (p_fs_base (k_process k))) i).

(** One block and the call it ends with: the next state, or the exit code with
    what the process leaves behind.  [None] when the block fails, and when the
    call forks, blocks or cannot load a new program. *)
Definition machine_step (trace : bool) (m : Machine) : option (Machine + Z * Shared) :=
  match step_block (ma_interpreter m) with
  | (Ok Continue, i) => Some (inl (mkMachine (ma_process m) (fresh trace i) (ma_shared m)))
  | (Ok (Syscall trap), i) =>
      if is_fork (number trap) then None else
      let '(o, k) := solo_call m trap i in
      match after_call trap k i, o with
      | (Ok _, i), Ok (Return value) =>
          Some (inl (mkMachine (k_process k)
                       (fresh trace (update_registers (set_rax (wrap 64 value)) i)) (k_shared k)))
      | (Ok _, i), Ok (ExitWith code) => Some (inr (code, k_shared k))
      | (Ok _, i), Ok (Execve request) =>
          match execve_state (k_process k) request (world (k_shared k)) with
          | Ok (mem, regs, p) =>
              match replace_state mem regs i with
              | (Ok _, i) => Some (inl (mkMachine p (fresh trace i) (k_shared k)))
              | _ => None
              end
          | _ => None
          end
      | _, _ => None
      end
  | _ => None
  end.

Fixpoint machine_run (n : nat) (trace : bool) (m : Machine) : option (Z * Shared) :=
  match n with
  | O => None
  | S n => match machine_step trace m with
           | Some (inl m) => machine_run n trace m
           | Some (inr r) => Some r
           | None => None
           end
  end.

(** The machine a program starts in. *)
Definition machine_of (rootfs : option PathBuf) (program : PathBuf) (loaded : LoadedProgram)
    (w : World) (trace : bool) : Machine :=
  mkMachine (with_executable rootfs (to_string_lossy program) w)
    (mkInterpreter (lp_memory loaded) (initial_registers loaded) trace [] default_cache 0)
    (mkShared w []).

(** ** Calls without other processes *)

(** A table without processes and without statuses. *)
Definition idle (t : ProcessTable) : Prop := records t = ∅ /\
  forall p q, wait_queues t !! p = Some q -> exited q = [].

Lemma idle_new : idle table_new.
Proof. split; [done|]. intros p q Hq. cbn in Hq; by rewrite lookup_empty in Hq. Qed.

(** The call does the same with any such table, and leaves such a table. *)
Definition alike {A} (m : ST Kernel SyscallError A) : Prop := forall k t u, idle t -> idle u ->
  exists t' u' r k', idle t' /\ idle u' /\ m (retable (Some t) k) = (r, retable (Some t') k') /\
    m (retable (Some u) k) = (r, retable (Some u') k').

Lemma blind_alike {A} (m : ST Kernel SyscallError A) : blind m -> alike m.
Proof. intros Hm k t u Ht Hu. exists t, u, (m k).1, (m k).2. by rewrite !Hm. Qed.

Lemma exit_alike args : alike (syscall_exit args).
Proof.
  intros k t u Ht Hu.
  assert (forall x, idle x -> syscall_exit args (retable (Some x) k) =
    (Ok (ExitWith (signed 32 (arg args 0))), retable (Some x) k)) as He.
  { intros x [Hx _]. unfold syscall_exit, with_table, proc, gets, mbind, st_bind.
    cbn [k_table retable k_process]. rewrite exit_absent by (rewrite Hx; apply lookup_empty). done. }
  exists t, u. do 2 eexists. split; [done|]. split; [done|]. by rewrite !He.
Qed.

Lemma wait4_idle pid requested t : idle t -> exists t', wait4 pid requested t = (None, t') /\ idle t'.
Proof.
  intros [Hr Hq]. unfold wait4. destruct (wait_queues t !! pid) as [q|] eqn:E; [|by exists t].
  unfold pop_matching. rewrite (Hq pid q E). cbn [position]. eexists. split; [done|].
  split; [done|]. intros p q'. cbn [wait_queues set_wait_queues].
  rewrite lookup_insert_Some. intros [[_ <-]|[_ Hp]]; [by eapply Hq|by eapply Hq].
Qed.

Lemma wait4_alike args : alike (syscall_wait4 args).
Proof.
  intros k t u Ht Hu.
  assert (forall x, idle x -> exists x', idle x' /\
    syscall_wait4 args (retable (Some x) k) = (Err (SErrno Child), retable (Some x') k)) as He.
  { intros x Hx. destruct (wait4_idle (p_pid (k_process k)) (wait_requested_pid (arg args 0)) x Hx)
      as (x' & Hw & Hx'). exists x'. split; [done|].
    unfold syscall_wait4, with_table, proc, gets, mbind, st_bind. cbn [k_table retable k_process].
    rewrite Hw. cbn [k_table retable k_process]. unfold has_child. rewrite (proj1 Hx'). done. }
  destruct (He t Ht) as (t' & Ht' & E), (He u Hu) as (u' & Hu' & E'). exists t', u'.
  do 2 eexists. by rewrite E, E'.
Qed.

Lemma inner_alike number args regs :
  number <> Sys_Clone -> number <> Sys_Fork -> number <> Sys_VFork ->
  alike (dispatch_inner number args regs).
Proof.
  intros H1 H2 H3. destruct number; cbn [dispatch_inner]; try apply exit_alike; try apply wait4_alike;
    try done; apply blind_alike; try (apply blind_bind; [apply blind_dispatch_value; done|];
      intros; apply blind_ret); blinding.
Qed.

(** The call of the loop, against the rest of the table, is that of the machine. *)
Lemma dispatch_alike input regs k t : idle t -> is_fork (in_number input) = false ->
  exists t' u', idle t' /\
    dispatch_with_process_model input regs (retable (Some t) k) =
      ((dispatch_with_process_model input regs (retable (Some table_new) k)).1,
       retable (Some t') (dispatch_with_process_model input regs (retable (Some table_new) k)).2) /\
    k_table (dispatch_with_process_model input regs (retable (Some table_new) k)).2 = Some u'.
Proof.
  intros Ht Hf. unfold dispatch_with_process_model.
  destruct (inner_alike (syscall_from (in_number input)) (in_args input) regs) with
    (k := k) (t := t) (u := table_new) as (t' & u' & r & k' & Ht' & _ & E & E');
    [by unfold is_fork in Hf; destruct (syscall_from _)..|done|apply idle_new|].
  exists t', u'. rewrite E, E'. split; [done|]. unfold mbind, st_bind.
  by destruct (outcome_of r).
Qed.

(** ** The loop and the machine *)

(** The record of the only process. *)
Record solo_record (pid : Z) (m : Machine) (r : ProcessRecord) : Prop := {
  sr_process : pr_process r = ma_process m;
  sr_memory : pr_memory r = memory (ma_interpreter m);
  sr_threads : pr_threads r = {[p_tid (ma_process m) :=
    mkThread (p_tid (ma_process m)) pid (registers (ma_interpreter m)) Runnable]};
  sr_state : pr_state r = Runnable;
  sr_parent : pr_parent r = None
}.

Record solo (trace : bool) (pid : Z) (s : System) (m : Machine) : Prop := {
  so_record : exists r, records (process_table s) = {[pid := r]} /\ solo_record pid m r;
  so_waits : forall p q, wait_queues (process_table s) !! p = Some q -> exited q = [];
  so_queue : run_queue (scheduler s) = [(pid, p_tid (ma_process m))];
  so_cache : default default_cache (execution_caches s !! pid) = cache (ma_interpreter m);
  so_clock : clock_reads s = Cpu.clock (ma_interpreter m);
  so_shared : sys_shared s = ma_shared m;
  so_fresh : ma_interpreter m = fresh trace (ma_interpreter m);
  so_code : initial_exit_code s = None
}.

(** A round while the process is out of the table. *)
Record away (pid tid : Z) (s : System) : Prop := {
  aw_table : idle (process_table s);
  aw_queue : run_queue (scheduler s) = [(pid, tid)];
  aw_code : initial_exit_code s = None
}.

Lemma visit_singleton {A} (k : Z) (x : A) : visit ({[k := x]} : gmap Z A) = [(k, x)].
Proof.
  apply Permutation_singleton_r. rewrite <- (map_to_list_singleton (M:=gmap Z)). apply visit_perm.
Qed.

(** A process whose only thread is in the queue adds nothing to it. *)
Lemma enqueue_only pid tid r regs st sch : run_queue sch = [(pid, tid)] ->
  pr_threads r = {[tid := mkThread tid pid regs st]} ->
  enqueue_process r sch = sch.
Proof.
  intros Hq Hr. unfold enqueue_process. rewrite Hr, visit_singleton. cbn [foldl t_state].
  destruct (decide (st = Runnable)); [|done]. unfold enqueue. cbn [t_process_id t_tid].
  rewrite decide_True; [done|]. rewrite Hq. set_solver.
Qed.

Lemma enqueue_runnable_only pid tid r regs st s : run_queue (scheduler s) = [(pid, tid)] ->
  records (process_table s) = {[pid := r]} ->
  pr_threads r = {[tid := mkThread tid pid regs st]} -> enqueue_runnable s = s.
Proof.
  intros Hq Hr Ht. unfold enqueue_runnable. rewrite Hr, visit_singleton. cbn [foldl snd].
  rewrite (enqueue_only pid tid r regs st) by done. by destruct s.
Qed.

(** The record that goes back into the table. *)
Lemma absorb_only pid tid p regs i r : pr_process r = p -> p_tid p = tid ->
  pr_threads r = {[tid := mkThread tid pid regs Runnable]} ->
  pr_process (absorb i r) = p /\ pr_memory (absorb i r) = memory i /\
  pr_threads (absorb i r) = {[tid := mkThread tid pid (registers i) Runnable]} /\
  pr_state (absorb i r) = pr_state r /\ pr_parent (absorb i r) = pr_parent r.
Proof.
  intros Hp Ht Hr. unfold absorb, set_main_thread_registers. cbn. rewrite Hr, Hp, Ht.
  by rewrite alter_singleton_eq.
Qed.

Lemma resume_solo trace pid tid p regs r i s : away pid tid s -> pr_process r = p ->
  p_tid p = tid -> pr_threads r = {[tid := mkThread tid pid regs Runnable]} ->
  pr_state r = Runnable -> pr_parent r = None ->
  exists s', resume pid r i s = (Ok tt, s') /\
    solo trace pid s' (mkMachine p (fresh trace i) (sys_shared s)).
Proof.
  intros [[He Hw] Hq Hc] Hp Ht Hth Hst Hpar.
  destruct (absorb_only pid tid p regs i r Hp Ht Hth) as (Ap & Am & At & As & Aa).
  unfold resume, put_back, mbind, st_bind, modify. rewrite decide_True by done. cbn [fst snd].
  set (s1 := set_ptable _ _).
  assert (records (process_table s1) =
    {[pid := sync_children (absorb i r) (process_table s) pid]}) as Hr1.
  { cbn. by rewrite He. }
  rewrite (enqueue_runnable_only pid tid (sync_children (absorb i r) (process_table s) pid)
    (registers i) Runnable s1); [|exact Hq|exact Hr1|exact At].
  eexists. split; [done|]. split; cbn [ma_process ma_interpreter ma_shared fresh]; try done.
  - eexists. split; [exact Hr1|]. subst tid. split; cbn; try done; congruence.
  - subst tid. exact Hq.
  - cbn. by rewrite lookup_insert_eq.
Qed.

(** The beginning of a round: the process is taken out of the table, and the
    interpreter it gets is that of the machine. *)
Lemma round_takes trace pid s m : solo trace pid s m -> exists r s1,
  away pid (p_tid (ma_process m)) s1 /\ sys_shared s1 = ma_shared m /\
  pr_process r = ma_process m /\ pr_state r = Runnable /\ pr_parent r = None /\
  pr_threads r = {[p_tid (ma_process m) := mkThread (p_tid (ma_process m)) pid
                     (registers (ma_interpreter m)) Runnable]} /\
  (forall i, step_block (ma_interpreter m) = (Ok Continue, i) ->
     round trace pid s = (resume pid r i ;; mret None) s1) /\
  (forall i trap, step_block (ma_interpreter m) = (Ok (Syscall trap), i) ->
     round trace pid s = (serve pid pid trap r i ;; mret None) s1).
Proof.
  intros [(r & Hr & [Hp Hm Ht Hst Hpar]) Hw Hq Hcache Hclock Hsh Hf Hcode].
  set (tid := p_tid (ma_process m)) in *.
  exists (set_pr_memory Memory.new r),
    (remove_cache pid (set_ptable (set_records (delete pid)) (set_scheduler (mkScheduler [(pid, tid)]) s))).
  split; [split; [split; [|done]|done|done]|].
  { cbn. rewrite Hr. apply delete_singleton_eq. }
  do 5 (split; [done|]).
  assert (next_thread (process_table s) (scheduler s) = (Some (pid, tid), mkScheduler [(pid, tid)])) as Hn.
  { unfold next_thread. rewrite Hq. cbn [next_loop]. unfold thread_runnable. cbn [fst snd].
    rewrite Hr, lookup_singleton_eq, Ht, lookup_singleton_eq. by rewrite bool_decide_true. }
  assert (main_thread_registers r = Some (registers (ma_interpreter m))) as Hregs.
  { unfold main_thread_registers. rewrite Hp. fold tid. by rewrite Ht, lookup_singleton_eq. }
  assert (mkInterpreter (pr_memory r) (registers (ma_interpreter m)) trace []
    (default default_cache (execution_caches s !! pid)) (clock_reads s) = ma_interpreter m) as Hi.
  { rewrite Hm, Hcache, Hclock. symmetry. exact Hf. }
  assert (round trace pid s = (run_process trace pid pid r (registers (ma_interpreter m)) ;; mret None)
    (set_ptable (set_records (delete pid)) (set_scheduler (mkScheduler [(pid, tid)]) s))) as Hround.
  { unfold round. rewrite Hn. unfold table_take. cbn [process_table set_scheduler set_ptable].
    rewrite Hr, lookup_singleton_eq, decide_True, Hregs by done. reflexivity. }
  split.
  - intros i Hstep. rewrite Hround. unfold mbind, st_bind, run_process. cbn [execution_caches
      set_ptable set_scheduler clock_reads]. by rewrite Hi, Hstep.
  - intros i trap Hstep. rewrite Hround. unfold mbind, st_bind, run_process. cbn [execution_caches
      set_ptable set_scheduler clock_reads]. by rewrite Hi, Hstep.
Qed.

(** A call keeps the number of the thread. *)
Lemma solo_call_tid m trap i :
  p_tid (k_process (solo_call m trap i).2) = p_tid (ma_process m).
Proof.
  unfold solo_call. destruct (step_dispatch (mkInput (number trap) (args trap)) (Some (registers i))
    (mkKernel (ma_process m) (memory i) (ma_shared m) (Some table_new)) table_new eq_refl) as [Hs _].
  apply (si_tid _ _ Hs).
Qed.

(** The call of the loop: the machine's call, and a table that is idle still. *)
Lemma serve_solo pid tid trap r i m s : away pid tid s -> sys_shared s = ma_shared m ->
  pr_process r = ma_process m -> is_fork (number trap) = false ->
  exists s2, away pid tid s2 /\ sys_shared s2 = k_shared (solo_call m trap i).2 /\
  serve pid pid trap r i s =
    (let k := (solo_call m trap i).2 in
     let r := set_pr_process (k_process k) r in
     match after_call trap k i, (solo_call m trap i).1 with
     | (Ok _, i), Ok (Return value) =>
         resume pid r (update_registers (set_rax (wrap 64 value)) i) s2
     | (Ok _, i), Ok Blocked => (put_back pid (set_waiting r) i ;; modify enqueue_runnable) s2
     | (Ok _, i), Ok (ExitWith code) =>
         (finish_process pid pid code r i ;; modify enqueue_runnable) s2
     | (Ok _, i), Ok (Execve request) =>
         match execve_state (k_process k) request (world (k_shared k)) with
         | Ok (mem, regs, p) =>
             let '(c, i) := replace_state mem regs i in
             match c with
             | Ok _ => resume pid (set_pr_process p r) i s2
             | _ => (Panic, s2)
             end
         | Err e => (Err e, s2)
         | Panic => (Panic, s2)
         end
     | _, _ => (Panic, s2)
     end).
Proof.
  intros [Ht Hq Hc] Hsh Hp Hf. unfold serve.
  destruct (dispatch_alike (mkInput (number trap) (args trap)) (Some (registers i))
    (mkKernel (pr_process r) (memory i) (sys_shared s) None) (process_table s) Ht Hf)
    as (t' & u' & Ht' & E & _).
  change (retable (Some (process_table s)) (mkKernel (pr_process r) (memory i) (sys_shared s) None))
    with (mkKernel (pr_process r) (memory i) (sys_shared s) (Some (process_table s))) in E.
  change (retable (Some table_new) (mkKernel (pr_process r) (memory i) (sys_shared s) None))
    with (mkKernel (pr_process r) (memory i) (sys_shared s) (Some table_new)) in E.
  rewrite E, Hp, Hsh. fold (solo_call m trap i). clear E.
  destruct (solo_call m trap i) as [o k]. cbn [fst snd retable k_process k_memory k_shared k_table default].
  exists (set_sys_shared (k_shared k) (set_ptable (fun _ => t') s)).
  split; [by split|]. split; [done|]. unfold after_call.
  destruct (decide (number trap ∈ MEMORY_MODIFYING_SYSCALLS)).
  - destruct (clear_block_cache _) as [[] i1]; [|done..]. by destruct o as [[]| |].
  - by destruct o as [[]| |].
Qed.

(** A step of the machine is a round of the loop. *)
Lemma round_solo trace pid s m m' : solo trace pid s m -> machine_step trace m = Some (inl m') ->
  exists s', round trace pid s = (Ok None, s') /\ solo trace pid s' m'.
Proof.
  intros Hs Hstep. destruct (round_takes _ _ _ _ Hs) as (r & s1 & Ha & Hsh & Hp & Hst & Hpar & Hth & Hc & Hy).
  unfold machine_step in Hstep. destruct (step_block _) as [[[|trap|code]|e|] i]; try done.
  - injection Hstep as <-. rewrite (Hc i eq_refl).
    destruct (resume_solo trace pid _ (ma_process m) _ r i s1 Ha Hp eq_refl Hth Hst Hpar)
      as (s2 & E & Hs2). rewrite Hsh in Hs2. unfold mbind, st_bind. rewrite E. by exists s2.
  - destruct (is_fork (number trap)) eqn:Hf; [done|]. rewrite (Hy i trap eq_refl).
    destruct (serve_solo pid _ trap r i m s1 Ha Hsh Hp Hf) as (s2 & Ha2 & Hsh2 & E).
    pose proof (solo_call_tid m trap i) as Htid.
    unfold mbind, st_bind. rewrite E. clear E Hc Hy.
    destruct (solo_call m trap i) as [o k]. cbn [fst snd] in *. cbv zeta.
    destruct (after_call trap k i) as [[[]| |] i1]; [|done..].
    destruct o as [[value| |code|request]| |]; try done.
    + injection Hstep as <-.
      destruct (resume_solo trace pid _ (k_process k) _ (set_pr_process (k_process k) r)
        (update_registers (set_rax (wrap 64 value)) i1) s2 Ha2 eq_refl Htid Hth Hst Hpar)
        as (s3 & E & Hs3). rewrite E. rewrite Hsh2 in Hs3. by exists s3.
    + destruct (execve_state _ _ _) as [[[mem regs] p]| |] eqn:Hx; [|done..].
      destruct (replace_state mem regs i1) as [[[]| |] i2]; [|done..]. injection Hstep as <-.
      assert (p_tid p = p_tid (ma_process m)) as Hpt.
      { rewrite <- Htid. unfold execve_state in Hx. destruct (fs_read _ _); [|done..]. cbn in Hx.
        destruct (load_program_image _ _ _ _ _); [|done..]. cbn in Hx. by injection Hx as _ _ <-. }
      destruct (resume_solo trace pid _ p _ (set_pr_process p (set_pr_process (k_process k) r))
        i2 s2 Ha2 eq_refl Hpt Hth Hst Hpar) as (s3 & E & Hs3). rewrite E. rewrite Hsh2 in Hs3. by exists s3.
Qed.

(** The exit of the machine takes the loop two rounds: one serves the call, and
    the next finds nothing to run. *)
Lemma round_exit trace pid s m code sh : solo trace pid s m ->
  machine_step trace m = Some (inr (code, sh)) ->
  exists s1 s2, round trace pid s = (Ok None, s1) /\ round trace pid s1 = (Ok (Some code), s2) /\
    sys_shared s2 = sh.
Proof.
  intros Hs Hstep. destruct (round_takes _ _ _ _ Hs) as (r & s1 & Ha & Hsh & Hp & Hst & Hpar & Hth & _ & Hy).
  unfold machine_step in Hstep. destruct (step_block _) as [[[|trap|?]|e|] i]; try done.
  destruct (is_fork (number trap)) eqn:Hf; [done|]. rewrite (Hy i trap eq_refl).
  destruct (serve_solo pid _ trap r i m s1 Ha Hsh Hp Hf) as (s2 & [[He Hw] Hq2 Hc2] & Hsh2 & E).
  pose proof (solo_call_tid m trap i) as Htid.
  unfold mbind, st_bind. rewrite E. clear E Hy.
  destruct (solo_call m trap i) as [o k]. cbn [fst snd] in *. cbv zeta.
  destruct (after_call trap k i) as [[[]| |] i1]; [|done..].
  destruct o as [[value| |c|request]| |]; try done.
  2:{ destruct (execve_state _ _ _) as [[[]]| |]; [|done..]. by destruct (replace_state _ _ _) as [[] ]. }
  injection Hstep as <- <-. set (tid := p_tid (ma_process m)) in *.
  set (r2 := set_pr_process (k_process k) r).
  destruct (absorb_only pid tid (k_process k) _ i1 r2 eq_refl Htid Hth) as (_ & _ & At & _).
  unfold finish_process, mbind, st_bind, modify. cbn [fst snd]. rewrite Z.eqb_refl. cbn [fst snd].
  set (s3 := set_exit_code _ _).
  assert (records (process_table s3) = {[pid := mark_exited c (absorb i1 r2)]}) as Hr3.
  { cbn. change (pr_parent r) with (pr_parent r). rewrite Hpar. unfold record_exit.
    rewrite exit_absent by (rewrite He; apply lookup_empty). by rewrite He. }
  assert (pr_threads (mark_exited c (absorb i1 r2)) =
    {[tid := mkThread tid pid (registers i1) Exited]}) as Ht3.
  { cbn [mark_exited pr_threads]. rewrite At. by rewrite map_fmap_singleton. }
  rewrite (enqueue_runnable_only pid tid _ _ _ s3 Hq2 Hr3 Ht3).
  exists s3. eexists. split; [done|]. unfold round, next_thread.
  change (scheduler s3) with (scheduler s2). rewrite Hq2. cbn [next_loop].
  assert (thread_runnable (process_table s3) (pid, tid) = false) as ->.
  { unfold thread_runnable. cbn [fst snd]. rewrite Hr3, lookup_singleton_eq, Ht3, lookup_singleton_eq.
    by apply bool_decide_eq_false. }
  cbn. split; [done|]. exact Hsh2.
Qed.

Lemma machine_run_rounds n trace pid s m code sh : solo trace pid s m ->
  machine_run n trace m = Some (code, sh) ->
  exists s', rounds (S n) trace pid s = (Ok code, s') /\ sys_shared s' = sh.
Proof.
  revert s m. induction n as [|n IH]; intros s m Hs Hrun; [done|]. cbn [machine_run] in Hrun.
  destruct (machine_step trace m) as [[m'|[c sh']]|] eqn:Hstep; [..|done].
  - destruct (round_solo _ _ _ _ _ Hs Hstep) as (s1 & E & Hs1).
    destruct (IH s1 m' Hs1 Hrun) as (s' & E' & Hsh). exists s'. split; [|done].
    cbn [rounds]. unfold mbind, st_bind. rewrite E. exact E'.
  - injection Hrun as -> ->. destruct (round_exit _ _ _ _ _ _ Hs Hstep) as (s1 & s2 & E1 & E2 & Hsh).
    exists s2. split; [|done]. cbn [rounds]. unfold mbind, st_bind. rewrite E1.
    destruct n; cbn [rounds]; unfold mbind, st_bind; by rewrite E2.
Qed.

(** The loop starts in the state of the machine. *)
Lemma initial_solo rootfs program loaded w trace initial s :
  initial_system rootfs program loaded w = Ok (initial, s) ->
  solo trace initial s (machine_of rootfs program loaded w trace).
Proof.
  unfold initial_system, insert_initial. destruct (add_u32 _ _) as [n|e|]; [|done..].
  cbn [mbind res_bind]. intros [= <- <-]. set (p := with_executable _ _ _).
  set (r := new_record p (lp_memory loaded) (initial_registers loaded) (p_pid p) None).
  split; cbn; try done.
  - exists r. by split.
  - intros q x. rewrite lookup_insert_Some, lookup_empty. by intros [[_ <-]|[_ ?]].
  - unfold table_get. cbn. rewrite lookup_insert_eq. unfold enqueue_process. cbn [pr_threads new_record].
    rewrite visit_singleton. cbn [foldl t_state]. rewrite decide_True by done. unfold enqueue.
    cbn [run_queue]. rewrite decide_False by set_solver. done.
Qed.

(** C4: a program that does not fork runs as on a machine of its own.  When the
    plain machine, which executes a block, serves the call the block ends with
    and goes on, exits with a code after some steps, the run loop, with its table
    of processes, its queue of threads and its caches, returns the same code
    after one round more, and leaves the host and the pipes as the machine does. *)
Theorem run_loop_refines_machine (rootfs : option PathBuf) (program : PathBuf)
    (loaded : LoadedProgram) (w : World) (trace : bool) (n : nat) (initial : Z) (s0 : System)
    (code : Z) (sh : Shared)
    (Hi : initial_system rootfs program loaded w = Ok (initial, s0))
    (Hm : machine_run n trace (machine_of rootfs program loaded w trace) = Some (code, sh)) :
  exists s, rounds (S n) trace initial s0 = (Ok code, s) /\ sys_shared s = sh.
Proof. eapply machine_run_rounds; [by eapply initial_solo|exact Hm]. Qed.
End Solo.

(** ** Witness *)

(** [getpid] and [exit] with code 5. *)
Definition solo_code : list Z :=
  [0xb8; 39; 0; 0; 0; 0x0f; 0x05; 0xb8; 60; 0; 0; 0; 0xbf; 5; 0; 0; 0; 0x0f; 0x05].

Definition solo_program : LoadedProgram :=
  mkLoadedProgram (image_at tiny_elf)
    (mkMemory [mkRegion 0x1000 64 (READ + EXECUTE) None
                 (solo_code ++ replicate (64 - length solo_code) 0x90)])
    0x1000 0x1000 0x2040 [] [] [] None None [].

Definition solo_initial : { s : System |
  initial_system (HOST:=example_host) None (text "/bin/one") solo_program example_world = Ok (1000, s) }.
Proof. eexists. reflexivity. Defined.

Lemma run_loop_refines_machine_witness : exists s,
  rounds 3 false 1000 (proj1_sig solo_initial) = (Ok 5, s).
Proof.
  assert (fst <$> machine_run 2 false (machine_of (H:=example_host) None (text "/bin/one") solo_program
    example_world false) = Some 5) as Hm by (vm_compute; reflexivity).
  destruct (machine_run 2 false _) as [[code sh]|] eqn:Hrun; [|discriminate Hm].
  injection Hm as ->.
  destruct (run_loop_refines_machine (H:=example_host) None (text "/bin/one") solo_program example_world
    false 2 1000 (proj1_sig solo_initial) 5 sh (proj2_sig solo_initial) Hrun) as (s & Hs & _).
  exists s. exact Hs.
Defined.
