(* ===== verification/Testing.v ===== *)
(** * Tests as programs

    The repository's unit tests, in the files named Tests*, are programs in the
    same monad as the code they call: a test passes when it does not panic.
    Evaluating them checks the model against the results their authors
    observed. *)

From S2P Require Import Prelude.

Open Scope Z_scope.

(** A test has no error of its own: a failed assertion is a panic. *)
Definition Test (S A : Type) : Type := ST S Empty_set A.

Section Testing.
Context {S : Type}.

(** [unwrap], [unwrap_err] and [expect] of a result. *)
Definition unwrap {E A} (m : ST S E A) : Test S A := fun s =>
  match m s with
  | (Ok a, s) => (Ok a, s)
  | (_, s) => (Panic, s)
  end.

Definition unwrap_err {E A} (m : ST S E A) : Test S E := fun s =>
  match m s with
  | (Err e, s) => (Ok e, s)
  | (_, s) => (Panic, s)
  end.

(** The result of a call that may fail, to be matched. *)
Definition outcome {E A} (m : ST S E A) : Test S (res E A) := fun s =>
  match m s with
  | (Panic, s) => (Panic, s)
  | (r, s) => (Ok r, s)
  end.

Definition assert (b : bool) : Test S unit := if b then mret tt else panic.

Definition assert_eq `{EqDecision A} (a b : A) : Test S unit := assert (bool_decide (a = b)).

Definition assert_ne `{EqDecision A} (a b : A) : Test S unit := assert (negb (bool_decide (a = b))).

(** [as_ref().unwrap()] and the like on an option. *)
Definition some {A} (o : option A) : Test S A :=
  match o with Some a => mret a | None => panic end.

Fixpoint times (n : nat) (m : Test S unit) : Test S unit :=
  match n with
  | O => mret tt
  | Datatypes.S n => m ;; times n m
  end.

Definition passes (t : Test S unit) (s : S) : bool := is_ok (t s).1.
End Testing.

(** [windows(needle.len()).any(...)] and [contains] on strings. *)
Fixpoint has_infix (needle haystack : list Z) : bool :=
  bool_decide (take (length needle) haystack = needle) ||
  match haystack with
  | [] => false
  | _ :: rest => has_infix needle rest
  end.
