(* ===== verification/TestsCore.v ===== *)
(** * Tests of the guest memory, the block cache, the ELF parser and the loader

    The unit tests of memory.rs, ruxeon-ir/src/lib.rs, elf.rs and loader.rs. *)

From Stdlib Require Import String.
From S2P Require Import Prelude Testing Memory Ir Elf ElfProps Loader Host.

Open Scope Z_scope.

(** ** memory.rs *)
Module MemoryTests.

#[export] Instance GuestMemoryError_eq_dec : EqDecision GuestMemoryError.
Proof. solve_decision. Defined.

Definition is_permission {A} (r : res GuestMemoryError A) : bool :=
  match r with Err (Permission _ _ _) => true | _ => false end.

Definition is_unmapped {A} (r : res GuestMemoryError A) : bool :=
  match r with Err (Unmapped _ _) => true | _ => false end.

Definition MemTest : Type := Test GuestMemory unit.

Definition data_region (size : Z) : MemTest :=
  unwrap (map_region 0x1000 size (Z.lor READ WRITE) (Some (text "data"))).

Definition maps_reads_and_writes_memory : MemTest :=
  data_region PAGE_SIZE ;;
  unwrap (write_u64 0x1080 0xfeedfacecafebeef) ;;
  v ← unwrap (reads (fun m => Memory.read_u64 m 0x1080));
  assert_eq v 0xfeedfacecafebeef.

Definition rejects_overlapping_regions : MemTest :=
  unwrap (map_region 0x1000 PAGE_SIZE READ None) ;;
  err ← unwrap_err (map_region 0x1800 PAGE_SIZE READ None);
  assert_eq err (OverlappingMapping 0x1800 PAGE_SIZE).

Definition enforces_write_permissions : MemTest :=
  unwrap (map_region 0x1000 PAGE_SIZE READ None) ;;
  r ← outcome (write_u8 0x1000 1);
  assert (is_permission r).

(** Three pages, with a byte in each. *)
Definition three_pages : MemTest :=
  data_region (PAGE_SIZE * 3) ;;
  unwrap (write_u8 0x1000 1) ;;
  unwrap (write_u8 0x2000 2) ;;
  unwrap (write_u8 0x3000 3).

Definition protect_splits_region_without_overprotecting_neighbors : MemTest :=
  three_pages ;;
  unwrap (protect 0x2000 PAGE_SIZE READ) ;;
  n ← gets (fun m => len (regions m));
  assert_eq n 3 ;;
  unwrap (write_u8 0x1000 4) ;;
  unwrap (write_u8 0x3000 5) ;;
  r ← outcome (write_u8 0x2000 6);
  assert (is_permission r) ;;
  v ← unwrap (reads (fun m => read_u8 m 0x2000));
  assert_eq v 2.

Definition unmaps_exact_region : MemTest :=
  unwrap (map_region 0x1000 PAGE_SIZE READ None) ;;
  unwrap (unmap_region 0x1000 PAGE_SIZE) ;;
  r ← outcome (reads (fun m => read_u8 m 0x1000));
  assert (is_unmapped r).

Definition unmap_range_splits_regions_around_removed_pages : MemTest :=
  three_pages ;;
  unwrap (unmap_range 0x2000 PAGE_SIZE) ;;
  n ← gets (fun m => len (regions m));
  assert_eq n 2 ;;
  a ← unwrap (reads (fun m => read_u8 m 0x1000));
  assert_eq a 1 ;;
  b ← unwrap (reads (fun m => read_u8 m 0x3000));
  assert_eq b 3 ;;
  r ← outcome (reads (fun m => read_u8 m 0x2000));
  assert (is_unmapped r).

(** All of them pass. *)
Example memory_tests_pass : forallb (fun t => passes t new)
  [maps_reads_and_writes_memory; rejects_overlapping_regions; enforces_write_permissions;
   protect_splits_region_without_overprotecting_neighbors; unmaps_exact_region;
   unmap_range_splits_regions_around_removed_pages] = true.
Proof. vm_compute. reflexivity. Qed.
End MemoryTests.

(** ** ruxeon-ir/src/lib.rs *)
Module IrTests.

Definition IrTest : Type := Test BlockCache unit.

Definition insert_new (ip : Z) (irs : list IrInstruction) (t : BlockTerminator) : IrTest :=
  block ← lift (block_new ip irs t);
  modify (insert block).

Definition present (ip : Z) (c : BlockCache) : bool := bool_decide (is_Some (get_without_stats c ip)).

Definition caches_blocks_and_tracks_stats : IrTest :=
  b ← get 0x1000;
  assert_eq (bool_decide (is_Some b)) false ;;
  insert_new 0x1000 [mkIrInstruction 0x1000 1 (text "nop") Compute] TFallThrough ;;
  b ← get 0x1000;
  assert (bool_decide (is_Some b)) ;;
  st ← gets stats;
  assert_eq (s_blocks st) 1 ;;
  assert_eq (s_hits st) 1 ;;
  assert_eq (s_misses st) 1 ;;
  clear ;;
  st ← gets stats;
  assert_eq (s_blocks st) 0 ;;
  assert_eq (s_invalidations st) 1.

Definition invalidate_range_removes_only_overlapping_blocks : IrTest :=
  insert_new 0x1000 [mkIrInstruction 0x1000 5 (text "call foo") Call] TCall ;;
  insert_new 0x2000 [mkIrInstruction 0x2000 1 (text "nop") Compute;
                     mkIrInstruction 0x2001 2 (text "ret") Return] TReturn ;;
  insert_new 0x3000 [mkIrInstruction 0x3000 2 (text "jmp short +0") Branch] TBranch ;;
  n ← gets cache_len;
  assert_eq n 3 ;;
  removed ← invalidate_range 0x2001 2;
  assert_eq removed 1 ;;
  n ← gets cache_len;
  assert_eq n 2 ;;
  kept ← gets (fun c => (present 0x1000 c, present 0x2000 c, present 0x3000 c));
  assert_eq kept (true, false, true) ;;
  removed ← invalidate_range 0x4000 0x1000;
  assert_eq removed 0 ;;
  n ← gets cache_len;
  assert_eq n 2 ;;
  removed ← invalidate_range 0x0000 0x4000;
  assert_eq removed 2 ;;
  e ← gets is_empty;
  assert e.

Example ir_tests_pass : forallb (fun t => passes t empty_cache)
  [caches_blocks_and_tracks_stats; invalidate_range_removes_only_overlapping_blocks] = true.
Proof. vm_compute. reflexivity. Qed.
End IrTests.

(** ** elf.rs *)
Module ElfTests.

(** [bytes[at..at + src.len()].copy_from_slice(src)]. *)
Definition copy_at (off : nat) (src bytes : list Z) : list Z :=
  take off bytes ++ src ++ drop (off + length src) bytes.

(** The bytes both fixtures start with. *)
Definition fixture_header (size : nat) (kind entry headers : Z) : list Z :=
  copy_at 56 (to_le 2 headers) (copy_at 54 (to_le 2 56) (copy_at 52 (to_le 2 64)
  (copy_at 32 (to_le 8 64) (copy_at 24 (to_le 8 entry) (copy_at 20 (to_le 4 EV_CURRENT)
  (copy_at 18 (to_le 2 EM_X86_64) (copy_at 16 (to_le 2 kind) (copy_at 6 [1]
  (copy_at 5 [ELFDATA2LSB] (copy_at 4 [ELFCLASS64] (copy_at 0 ELF_MAGIC
    (replicate size 0)))))))))))).

Definition write_program_header (offset : nat) (kind flags file_offset virtual_address file_size
    memory_size : Z) (bytes : list Z) : list Z :=
  copy_at (offset + 48) (to_le 8 0x1000) (copy_at (offset + 40) (to_le 8 memory_size)
  (copy_at (offset + 32) (to_le 8 file_size) (copy_at (offset + 24) (to_le 8 virtual_address)
  (copy_at (offset + 16) (to_le 8 virtual_address) (copy_at (offset + 8) (to_le 8 file_offset)
  (copy_at (offset + 4) (to_le 4 flags) (copy_at offset (to_le 4 kind) bytes))))))).

Definition tiny_elf_fixture : list Z :=
  copy_at 0x79 [0x05] (copy_at 0x78 [0x0f]
    (write_program_header 64 1 5 0 0x400000 0x80 0x80 (fixture_header 0x80 2 0x400078 1))).

Definition dynamic_elf_fixture : list Z :=
  copy_at 0x181 [0x05] (copy_at 0x180 [0x0f]
  (copy_at 0x178 (to_le 8 0x20) (copy_at 0x170 (to_le 8 1)
  (copy_at 0x150 (text "/lib64/ld-linux-x86-64.so.2" ++ [0])
  (write_program_header 176 2 4 0x170 0x170 32 32
  (write_program_header 120 3 4 0x150 0x150 28 28
  (write_program_header 64 1 5 0 0 0x200 0x200 (fixture_header 0x200 3 0x180 3)))))))).

Definition ElfTest : Type := Test unit unit.

Definition parses_minimal_elf_header_and_program_header : ElfTest :=
  image ← unwrap (lift (parse tiny_elf_fixture));
  assert_eq (image_entry image) 0x400078 ;;
  assert_eq (len (program_headers image)) 1 ;;
  h ← some (program_headers image !! 0%nat);
  assert_eq (ph_kind h) Load ;;
  assert_eq (virtual_address h) 0x400000.

Definition rejects_non_x86_64_elf : ElfTest :=
  err ← unwrap_err (lift (parse (copy_at 18 (to_le 2 3) tiny_elf_fixture)));
  assert (match err with UnsupportedMachine m => m =? 3 | _ => false end).

Definition is_needed (d : DynamicEntry) : bool := bool_decide (tag d = Needed).

Definition parses_interp_and_dynamic_entries : ElfTest :=
  image ← unwrap (lift (parse dynamic_elf_fixture));
  path ← unwrap (lift (interpreter_path image));
  assert_eq path (Some (text "/lib64/ld-linux-x86-64.so.2")) ;;
  ds ← unwrap (lift (dynamic_entries image));
  d ← some (ds !! 0%nat);
  assert (is_needed d).

Example elf_tests_pass : forallb (fun t => passes t tt)
  [parses_minimal_elf_header_and_program_header; rejects_non_x86_64_elf;
   parses_interp_and_dynamic_entries] = true.
Proof. vm_compute. reflexivity. Qed.

(** The fixture is the executable the theorems on the parser use. *)
Example tiny_elf_is_fixture : tiny_elf_fixture = tiny_elf.
Proof. vm_compute. reflexivity. Qed.
End ElfTests.

(** ** loader.rs *)
Module LoaderTests.
Import ElfTests.

(** The tests load with the default configuration.  They take the configuration
    as an argument here, to be evaluated with a smaller stack. *)
Definition loads_pt_load_segment_and_stack (config : LoaderConfig) : ElfTest :=
  let argv := [text "hello-static"; text "world"] in
  let envp := [text "A=B"] in
  loaded ← unwrap (lift (load_with_config tiny_elf_fixture argv envp config));
  assert_eq (lp_entry loaded) 0x400078 ;;
  p ← some (permissions_at (lp_memory loaded) 0x400078);
  assert (executable p) ;;
  bs ← unwrap (lift (fetch_bytes (lp_memory loaded) 0x400078 2));
  assert_eq bs [0x0f; 0x05] ;;
  argc ← unwrap (lift (Memory.read_u64 (lp_memory loaded) (lp_stack_pointer loaded)));
  assert_eq argc (len argv) ;;
  assert (existsb (fun e => match aux_kind e with AtEntry => aux_value e =? lp_entry loaded
                            | _ => false end) (lp_auxv loaded)).

Definition loads_dynamic_program_with_interpreter_entry_and_auxv (config : LoaderConfig) : ElfTest :=
  let argv := [text "/bin/hello"] in
  loaded ← unwrap (lift (load_dynamic_with_config dynamic_elf_fixture (Some tiny_elf_fixture)
                           argv [] config));
  interpreter ← some (lp_interpreter loaded);
  assert_eq (lp_interpreter_path loaded) (Some (text "/lib64/ld-linux-x86-64.so.2")) ;;
  assert_eq (lp_entry loaded) (li_entry interpreter) ;;
  assert_eq (lp_executable_entry loaded) (position_independent_base default_config + 0x180) ;;
  assert (existsb (fun e => match aux_kind e with AtBase => aux_value e =? li_base interpreter
                            | _ => false end) (lp_auxv loaded)) ;;
  assert (existsb is_needed (lp_dynamic_entries loaded)).

(** The default configuration with a stack of 16 KiB. *)
Definition small_stack : LoaderConfig :=
  mkConfig DEFAULT_STACK_TOP 0x4000 PAGE_SIZE DEFAULT_PIE_BASE DEFAULT_INTERPRETER_BASE.

Example loader_tests_pass :
  passes (loads_pt_load_segment_and_stack small_stack) tt &&
  passes (loads_dynamic_program_with_interpreter_entry_and_auxv small_stack) tt = true.
Proof. vm_compute. reflexivity. Qed.
End LoaderTests.
