(* ===== verification/TestsCpu.v ===== *)
(** * Tests of the interpreter

    The unit tests of interpreter.rs.  The decoder they run on knows the
    encodings that the tests spell out, with the operands that their comments
    name. *)

From Stdlib Require Import String.
From S2P Require Import Prelude Testing Memory Registers Ir Iced Cpu Interp Elf Host.

Open Scope Z_scope.

(** ** The instructions of the tests *)

Record TInstruction : Type := mkT {
  ti_ip : Z;
  ti_len : Z;
  ti_code : Code;
  ti_mnemonic : Mnemonic;
  ti_ops : list (OpKind * Register);
  ti_imm : Z;
  ti_size : Z;
  ti_base : Register;
  ti_disp : Z;
  ti_repe : bool;
  ti_repne : bool;
  ti_text : list Z
}.

(** The parts of an instruction after its length and address. *)
Definition shape : Type := Z -> Z -> list Z -> TInstruction.

Definition invalid_shape : shape := fun ip _ t =>
  mkT ip 1 INVALID (MOther 0) [] 0 0 NoRegister 0 false false t.

Definition registers_of (m : Mnemonic) (rs : list Register) : shape := fun ip n t =>
  mkT ip n (COther 1) m ((fun r => (OKRegister, r)) <$> rs) 0 0 NoRegister 0 false false t.

Definition immediate (m : Mnemonic) (r : Register) (k : OpKind) (imm : Z) : shape := fun ip n t =>
  mkT ip n (COther 1) m [(OKRegister, r); (k, NoRegister)] imm 0 NoRegister 0 false false t.

(** A branch, by its displacement. *)
Definition branch (m : Mnemonic) (rel : Z) : shape := fun ip n t =>
  mkT ip n (COther 1) m [(OKNearBranch64, NoRegister)] (ip + n + rel) 0 NoRegister 0 false false t.

(** An access of [size] bytes at a base register and a displacement. *)
Definition from_memory (c : Code) (m : Mnemonic) (r base : Register) (disp size : Z) : shape :=
  fun ip n t =>
  mkT ip n c m [(OKRegister, r); (OKMemory, NoRegister)] 0 size base disp false false t.

Definition to_memory (m : Mnemonic) (r base : Register) (disp size : Z) : shape := fun ip n t =>
  mkT ip n (COther 1) m [(OKMemory, NoRegister); (OKRegister, r)] 0 size base disp false false t.

(** A string instruction; its operands are implied by the mnemonic. *)
Definition string_op (m : Mnemonic) (repe repne : bool) : shape := fun ip n t =>
  mkT ip n (COther 1) m [(OKOther 1, NoRegister); (OKOther 2, NoRegister)] 0 1 NoRegister 0 repe repne t.

Definition encodings : list (list Z * shape * list Z) :=
  [([0x90], registers_of MNop [], text "nop");
   ([0xc3], registers_of MRet [], text "ret");
   ([0x0f; 0x05], registers_of MSyscall [], text "syscall");
   ([0x48; 0xc7; 0xc0; 0x28; 0; 0; 0], immediate MMov RAX OKImmediate32to64 40, text "mov rax, 40");
   ([0x48; 0xc7; 0xc0; 0x07; 0; 0; 0], immediate MMov RAX OKImmediate32to64 7, text "mov rax, 7");
   ([0x48; 0xc7; 0xc1; 0xff; 0xff; 0xff; 0xff], immediate MMov RCX OKImmediate32to64 0xffffffff,
     text "mov rcx, -1");
   ([0x48; 0xc7; 0xc1; 0xe8; 0x03; 0; 0], immediate MMov RCX OKImmediate32to64 1000,
     text "mov rcx, 1000");
   ([0x48; 0xc7; 0xc1; 0x03; 0; 0; 0], immediate MMov RCX OKImmediate32to64 3, text "mov rcx, 3");
   ([0x48; 0x83; 0xc0; 0x02], immediate MAdd RAX OKImmediate8to64 2, text "add rax, 2");
   ([0x48; 0x83; 0xe8; 0x02], immediate MSub RAX OKImmediate8to64 2, text "sub rax, 2");
   ([0x48; 0x83; 0xf8; 0x07], immediate MCmp RAX OKImmediate8to64 7, text "cmp rax, 7");
   ([0x48; 0x31; 0xff], registers_of MXor [RDI; RDI], text "xor rdi, rdi");
   ([0x31; 0xff], registers_of MXor [EDI; EDI], text "xor edi, edi");
   ([0x31; 0xc0], registers_of MXor [EAX; EAX], text "xor eax, eax");
   ([0xb8; 0x3c; 0; 0; 0], immediate MMov EAX OKImmediate32 60, text "mov eax, 60");
   ([0xb8; 0x01; 0; 0; 0], immediate MMov EAX OKImmediate32 1, text "mov eax, 1");
   ([0xbf; 0x01; 0; 0; 0], immediate MMov EDI OKImmediate32 1, text "mov edi, 1");
   ([0xba; 0x06; 0; 0; 0], immediate MMov EDX OKImmediate32 6, text "mov edx, 6");
   ([0x48; 0xb8; 0xef; 0xbe; 0xfe; 0xca; 0xce; 0xfa; 0xed; 0xfe],
     immediate MMov RAX OKImmediate64 0xfeedfacecafebeef, text "mov rax, 0xfeedfacecafebeef");
   ([0x48; 0xbf; 0x00; 0x81; 0; 0; 0; 0; 0; 0], immediate MMov RDI OKImmediate64 0x8100,
     text "mov rdi, 0x8100");
   ([0x48; 0xbe; 0x00; 0x81; 0; 0; 0; 0; 0; 0], immediate MMov RSI OKImmediate64 0x8100,
     text "mov rsi, 0x8100");
   ([0x48; 0xbf; 0x10; 0x81; 0; 0; 0; 0; 0; 0], immediate MMov RDI OKImmediate64 0x8110,
     text "mov rdi, 0x8110");
   ([0x48; 0x89; 0x44; 0x24; 0xf8], to_memory MMov RAX RSP (-8) 8, text "mov [rsp-8], rax");
   ([0x48; 0x8b; 0x5c; 0x24; 0xf8], from_memory (COther 1) MMov RBX RSP (-8) 8,
     text "mov rbx, [rsp-8]");
   ([0x48; 0x8d; 0x35; 0x10; 0; 0; 0], from_memory (COther 1) MLea RSI RIP 0x10 0,
     text "lea rsi, [rel msg]");
   ([0xf2; 0x0f; 0x10; 0x04; 0x24], from_memory Movsd_xmm_xmmm64 MMovsd XMM0 RSP 0 8,
     text "movsd xmm0, [rsp]");
   ([0x66; 0x0f; 0x12; 0x04; 0x24], from_memory (COther 1) MMovlpd XMM0 RSP 0 8,
     text "movlpd xmm0, [rsp]");
   ([0xf2; 0xae], string_op MScasb false true, text "repne scasb");
   ([0xf3; 0xa6], string_op MCmpsb true false, text "repe cmpsb");
   ([0x66; 0x0f; 0xf8; 0xc8], registers_of MPsubb [XMM1; XMM0], text "psubb xmm1, xmm0");
   ([0x66; 0x0f; 0x73; 0xfa; 0x02], immediate MPslldq XMM2 OKImmediate8 2, text "pslldq xmm2, 2");
   ([0x48; 0x0f; 0xab; 0xf2], registers_of MBts [RDX; RSI], text "bts rdx, rsi");
   ([0x48; 0x0f; 0xc1; 0xd1], registers_of MXadd [RCX; RDX], text "xadd rcx, rdx");
   ([0xe8; 0x12; 0; 0; 0], branch MCall 0x12, text "call function");
   ([0x74; 0x05], branch MJe 5, text "je exit");
   ([0xeb; 0xfd], branch MJmp (-3), text "jmp 0x1000");
   ([0xc6; 0x05; 0; 0; 0; 0; 0x90],
     (fun ip n t => mkT ip n (COther 1) MMov [(OKMemory, NoRegister); (OKImmediate8, NoRegister)]
        0x90 1 RIP 0 false false t), text "mov byte [rip], 0x90")].

(** The first encoding that the bytes start with. *)
Definition test_decode (bs : list Z) (ip : Z) : TInstruction :=
  match List.find (fun e => bool_decide (take (length e.1.1) bs = e.1.1)) encodings with
  | Some (pattern, sh, t) => sh ip (len pattern) t
  | None => invalid_shape ip 1 []
  end.

Definition ti_op (i : TInstruction) (k : Z) : OpKind * Register :=
  default (OKOther 0, NoRegister) (ti_ops i !! Z.to_nat k).

#[export] Instance test_iced : Iced := {|
  Instruction := TInstruction;
  i_ip := ti_ip;
  i_len := ti_len;
  i_next_ip i := wrap 64 (ti_ip i + ti_len i);
  i_code := ti_code;
  i_mnemonic := ti_mnemonic;
  i_op_count i := len (ti_ops i);
  i_op_kind i k := (ti_op i k).1;
  i_op_register i k := (ti_op i k).2;
  i_immediate8 i := wrap 8 (ti_imm i);
  i_immediate16 i := wrap 16 (ti_imm i);
  i_immediate32 i := wrap 32 (ti_imm i);
  i_immediate64 i := wrap 64 (ti_imm i);
  i_near_branch16 i := wrap 16 (ti_imm i);
  i_near_branch32 i := wrap 32 (ti_imm i);
  i_near_branch64 i := wrap 64 (ti_imm i);
  i_memory_size := ti_size;
  i_memory_segment _ := NoRegister;
  i_memory_base := ti_base;
  i_memory_index _ := NoRegister;
  i_memory_index_scale _ := 1;
  i_memory_displacement64 i := wrap 64 (ti_disp i);
  i_is_ip_rel_memory_operand i := bool_decide (ti_base i = RIP);
  i_ip_rel_memory_address i := wrap 64 (ti_ip i + ti_len i + ti_disp i);
  i_has_rep_prefix := ti_repe;
  i_has_repe_prefix := ti_repe;
  i_has_repne_prefix := ti_repne;
  i_decode := test_decode;
  i_format := ti_text;
  i_mnemonic_debug _ := [];
  now_nanos n := Some 0
|}.

(** ** interpreter.rs *)
Module CpuTests.

Definition CODE : Z := 0x1000.
Definition STACK : Z := 0x8000.

Definition CpuTest : Type := Test Interpreter unit.

(** [interpreter(code)]: the state a test starts in, with the permissions of its
    code as an argument. *)
Definition test_memory (permissions : Z) (name : list Z) (code : list Z)
    : Test GuestMemory unit :=
  unwrap (map_region CODE 0x1000 permissions (Some name)) ;;
  unwrap (load_bytes CODE code) ;;
  unwrap (map_region STACK 0x1000 (Z.lor READ WRITE) (Some (text "stack"))).

Definition test_registers : Registers := set_rsp (STACK + 0x800) (set_rip CODE default_registers).

Definition start (permissions : Z) (name code : list Z) : CpuTest := fun s =>
  let '(r, m) := test_memory permissions name code new in
  (r, interpreter_new m test_registers).

Definition interpreter (code : list Z) : CpuTest := start (Z.lor READ EXECUTE) (text "code") code.

Definition step_continues : CpuTest :=
  o ← unwrap step;
  assert (is_continue o).

Definition block_continues : CpuTest :=
  o ← unwrap step_block;
  assert (is_continue o).

Definition run_exits (limit code : Z) : CpuTest :=
  o ← unwrap (run limit);
  assert (match o with Exited c => c =? code | _ => false end).

Definition assert_reg (f : Registers -> Z) (v : Z) : CpuTest :=
  x ← unwrap (reg f);
  assert_eq x v.

Definition xmm_at (k : nat) (r : Registers) : Z := nth k (xmm r) 0.
Definition set_xmm_at (k : nat) (v : Z) (r : Registers) : Registers := set_xmm (<[k := v]> (xmm r)) r.

Definition executes_integer_ops_until_exit_syscall : CpuTest :=
  interpreter [0x48; 0xc7; 0xc0; 0x28; 0x00; 0x00; 0x00; 0x48; 0x83; 0xc0; 0x02;
    0x48; 0x83; 0xe8; 0x02; 0x48; 0x31; 0xff; 0xb8; 0x3c; 0x00; 0x00; 0x00; 0x0f; 0x05] ;;
  run_exits 16 0 ;;
  assert_reg rax 60.

Definition executes_memory_operands_with_sib : CpuTest :=
  interpreter [0x48; 0xb8; 0xef; 0xbe; 0xfe; 0xca; 0xce; 0xfa; 0xed; 0xfe;
    0x48; 0x89; 0x44; 0x24; 0xf8; 0x48; 0x8b; 0x5c; 0x24; 0xf8;
    0xb8; 0x3c; 0x00; 0x00; 0x00; 0x31; 0xff; 0x0f; 0x05] ;;
  run_exits 16 0 ;;
  assert_reg rbx 0xfeedfacecafebeef.

Definition movsd_scalar_does_not_run_string_move_path : CpuTest :=
  interpreter [0xf2; 0x0f; 0x10; 0x04; 0x24] ;;
  unwrap (on_memory (write_u64 (STACK + 0x800) 0x1122334455667788)) ;;
  unwrap (assign (set_rsi 0x1111)) ;;
  unwrap (assign (set_rdi 0x2222)) ;;
  step_continues ;;
  assert_reg rsi 0x1111 ;;
  assert_reg rdi 0x2222 ;;
  assert_reg (fun r => wrap 64 (xmm_at 0 r)) 0x1122334455667788.

(** The test has -1 as the count, which it moves to [rcx] as a sign-extended
    32-bit number; the count is an argument here, to be evaluated with a number
    that can be written in unary. *)
Definition repne_scasb_consumes_rcx_until_null_match (count : Z) : CpuTest :=
  interpreter ([0x48; 0xc7; 0xc1] ++ to_le 4 count ++
    [0x48; 0xbf; 0x00; 0x81; 0x00; 0x00; 0x00; 0x00; 0x00; 0x00; 0x31; 0xc0; 0xf2; 0xae]) ;;
  unwrap (on_memory (write_bytes 0x8100 (text "abc" ++ [0]))) ;;
  times 4 step_continues ;;
  assert_reg rdi 0x8104 ;;
  assert_reg rcx (wrap 64 (signed 32 count) - 4) ;;
  z ← unwrap (reg (fun r => flag r FLAG_ZF));
  assert z.

Definition repe_cmpsb_stops_after_first_mismatch : CpuTest :=
  interpreter [0x48; 0xc7; 0xc1; 0x03; 0x00; 0x00; 0x00;
    0x48; 0xbe; 0x00; 0x81; 0x00; 0x00; 0x00; 0x00; 0x00; 0x00;
    0x48; 0xbf; 0x10; 0x81; 0x00; 0x00; 0x00; 0x00; 0x00; 0x00; 0xf3; 0xa6] ;;
  unwrap (on_memory (write_bytes 0x8100 (text "abz"))) ;;
  unwrap (on_memory (write_bytes 0x8110 (text "abc"))) ;;
  times 4 step_continues ;;
  assert_reg rsi 0x8103 ;;
  assert_reg rdi 0x8113 ;;
  assert_reg rcx 0 ;;
  z ← unwrap (reg (fun r => flag r FLAG_ZF));
  assert (negb z).

Definition movlpd_updates_only_the_low_qword : CpuTest :=
  interpreter [0x66; 0x0f; 0x12; 0x04; 0x24] ;;
  unwrap (on_memory (write_u64 (STACK + 0x800) 0x1122334455667788)) ;;
  unwrap (assign (set_xmm_at 0 (Z.lor (Z.shiftl 0xaabbccddeeff0011 64) 0xdeadbeefdeadbeef))) ;;
  step_continues ;;
  assert_reg (xmm_at 0) (Z.lor (Z.shiftl 0xaabbccddeeff0011 64) 0x1122334455667788).

Definition psubb_wraps_each_byte_lane : CpuTest :=
  interpreter [0x66; 0x0f; 0xf8; 0xc8] ;;
  unwrap (assign (set_xmm_at 0 0x0102030405060708)) ;;
  unwrap (assign (set_xmm_at 1 0x0807060504030201)) ;;
  step_continues ;;
  assert_reg (fun r => wrap 64 (xmm_at 1 r)) 0x07050301fffdfbf9.

Definition pslldq_shifts_the_full_register_by_bytes : CpuTest :=
  interpreter [0x66; 0x0f; 0x73; 0xfa; 0x02] ;;
  unwrap (assign (set_xmm_at 2 0x1122334455667788)) ;;
  step_continues ;;
  assert_reg (xmm_at 2) (Z.shiftl 0x1122334455667788 16).

Definition bts_sets_the_selected_bit_and_cf : CpuTest :=
  interpreter [0x48; 0x0f; 0xab; 0xf2] ;;
  unwrap (assign (set_rdx 2)) ;;
  unwrap (assign (set_rsi 0)) ;;
  step_continues ;;
  assert_reg rdx 3 ;;
  c ← unwrap (reg (fun r => flag r FLAG_CF));
  assert (negb c).

Definition xadd_swaps_source_and_writes_sum : CpuTest :=
  interpreter [0x48; 0x0f; 0xc1; 0xd1] ;;
  unwrap (assign (set_rcx 5)) ;;
  unwrap (assign (set_rdx 7)) ;;
  step_continues ;;
  assert_reg rcx 12 ;;
  assert_reg rdx 5.

Definition executes_call_ret_and_conditional_branch : CpuTest :=
  interpreter [0xe8; 0x12; 0x00; 0x00; 0x00; 0x48; 0x83; 0xf8; 0x07; 0x74; 0x05;
    0xbf; 0x01; 0x00; 0x00; 0x00; 0xb8; 0x3c; 0x00; 0x00; 0x00; 0x0f; 0x05;
    0x48; 0xc7; 0xc0; 0x07; 0x00; 0x00; 0x00; 0xc3] ;;
  run_exits 32 0.

Definition records_trace : CpuTest :=
  interpreter [0xb8; 0x3c; 0x00; 0x00; 0x00; 0x31; 0xff; 0x0f; 0x05] ;;
  modify (set_trace_enabled true) ;;
  run_exits 8 0 ;;
  tr ← gets trace;
  assert_eq (len tr) 3 ;;
  first ← some (tr !! 0%nat);
  assert (has_infix (text "mov") (t_instruction first)).

Definition cached_blocks_are_reused_by_rip : CpuTest :=
  interpreter [0x90; 0xeb; 0xfd] ;;
  block_continues ;;
  block_continues ;;
  st ← gets (fun s => cache_stats (cache s));
  assert_eq (s_blocks st) 1 ;;
  assert_eq (s_misses st) 1 ;;
  assert_eq (s_hits st) 1.

Definition writes_to_executable_memory_invalidate_cached_blocks : CpuTest :=
  start (Z.lor (Z.lor READ WRITE) EXECUTE) (text "rwx-code")
    [0xc6; 0x05; 0x00; 0x00; 0x00; 0x00; 0x90; 0xb8; 0x3c; 0x00; 0x00; 0x00; 0x31; 0xff;
     0x0f; 0x05] ;;
  run_exits 4 0 ;;
  st ← gets (fun s => cache_stats (cache s));
  assert_eq (s_invalidations st) 1.

(** An interpreter on an empty memory; each test starts by replacing it. *)
Definition empty : Interpreter := interpreter_new new default_registers.

Example cpu_tests_pass : forallb (fun t => passes t empty)
  [executes_integer_ops_until_exit_syscall; executes_memory_operands_with_sib;
   movsd_scalar_does_not_run_string_move_path; repne_scasb_consumes_rcx_until_null_match 1000;
   repe_cmpsb_stops_after_first_mismatch; movlpd_updates_only_the_low_qword;
   psubb_wraps_each_byte_lane; pslldq_shifts_the_full_register_by_bytes;
   bts_sets_the_selected_bit_and_cf; xadd_swaps_source_and_writes_sum;
   executes_call_ret_and_conditional_branch; records_trace; cached_blocks_are_reused_by_rip;
   writes_to_executable_memory_invalidate_cached_blocks] = true.
Proof. vm_compute. reflexivity. Qed.
End CpuTests.
