(* ===== verification/TestsLinux.v ===== *)
(** * Tests of the file system, the system calls and the processes

    The unit tests of ruxeon-fs/src/lib.rs and ruxeon-linux/src/lib.rs, and the
    test of the interpreter with the dispatcher of ruxeon-tests/src/lib.rs.  They
    run on the small host of ExampleHost.v, those of the file system on both
    platforms: the directory a test makes for itself is /tmp/root, on Windows
    C:\Temp\test. *)

From Stdlib Require Import String.
From S2P Require Import Prelude Testing Memory Registers Ir Iced Cpu Interp Elf HostPath Host ExampleHost Fs LinuxAbi Terminal Fd Process Syscalls TestsCore TestsCpu.

Open Scope Z_scope.
Import MemoryTests.

(** A host with the given files. *)
Definition host_with (files : list (list Z * node)) : ExampleHost.world :=
  mkWorld (list_to_map files) [] [] [] [] 1700000000 false false.

Definition bare_host : ExampleHost.world := host_with [].

(** ** ruxeon-fs/src/lib.rs *)
Module FsTests.

Definition FsTest : Type := Test ExampleHost.world unit.

#[export] Instance FsError_eq_dec : EqDecision FsError.
Proof. solve_decision. Defined.

(** The tests on either platform; paths are compared as [Path] compares them. *)
Section OnHost.
Context (pf : HostPlatform).
#[local] Instance test_host : Host := host_on pf.

Definition assert_path (a b : PathBuf) : FsTest := assert (path_eq pf a b).

(** [root.join(a).join(b)...]. *)
Definition joined (p : PathBuf) (names : list string) : PathBuf :=
  foldl path_push p (text <$> names).

Definition normalizes_guest_paths_without_escaping_root : FsTest :=
  let root := mkRootFs (text "C:/rootfs") in
  cwd ← unwrap (lift (parse_path (text "/usr/bin")));
  resolved ← unwrap (reads (resolve root cwd (text "../../etc/passwd")));
  assert_eq (raw (resolved_guest resolved)) (text "/etc/passwd") ;;
  host ← some (resolved_host resolved);
  assert_path host (text "C:/rootfs/etc/passwd").

Definition is_cpuinfo (v : option VirtualFile) : bool :=
  match v with Some ProcCpuInfo => true | _ => false end.

Definition resolves_virtual_linux_files : FsTest :=
  let fs := mkRootFs (text "C:/rootfs") in
  resolved ← unwrap (reads (resolve fs root (text "/proc/cpuinfo")));
  assert (is_cpuinfo (resolved_file resolved)).

Definition rejects_windows_prefixes : FsTest :=
  err ← unwrap_err (lift (parse_path (text "C:/Windows")));
  assert_eq err WindowsPrefix.

(** The directory a test makes for itself. *)
Definition temp : PathBuf :=
  match pf with Windows => text "C:\Temp\test" | Other => text "/tmp/root" end.

Definition resolves_relative_symlink_targets_inside_rootfs : FsTest :=
  modify (fun _ => host_with
    [(joined temp ["lib"], NDir); (joined temp ["lib64"], NDir);
     (joined temp ["lib"; "ld-musl-x86_64.so.1"], NFile (text "loader"));
     (joined temp ["lib64"; "ld-linux-x86-64.so.2"],
      NLink (text "../lib/ld-musl-x86_64.so.1"))]%string) ;;
  resolved ← unwrap (reads (resolve (mkRootFs temp) root (text "/lib64/ld-linux-x86-64.so.2")));
  assert_eq (raw (resolved_guest resolved)) (text "/lib/ld-musl-x86_64.so.1") ;;
  host ← some (resolved_host resolved);
  assert_path host (joined temp ["lib"; "ld-musl-x86_64.so.1"]%string).

Definition resolves_symlink_targets_into_virtual_files : FsTest :=
  modify (fun _ => host_with [(joined temp ["cpuinfo-link"%string], NLink (text "/proc/cpuinfo"))]) ;;
  resolved ← unwrap (reads (resolve (mkRootFs temp) root (text "/cpuinfo-link")));
  assert (is_cpuinfo (resolved_file resolved)).

(** Built on Windows only: a link to an absolute path beside the root. *)
Definition resolves_windows_absolute_symlink_targets_as_guest_absolute_paths : FsTest :=
  let root_dir := joined temp ["debian"%string] in
  let file := ["lib"; "x86_64-linux-gnu"; "ld-2.19.so"]%string in
  modify (fun _ => host_with
    [(joined root_dir ["lib64"%string], NDir); (joined temp ["lib"; "x86_64-linux-gnu"]%string, NDir);
     (joined temp file, NFile (text "loader"));
     (joined root_dir ["lib64"; "ld-linux-x86-64.so.2"]%string, NLink (joined temp file))]) ;;
  resolved ← unwrap (reads (resolve (mkRootFs root_dir) root (text "/lib64/ld-linux-x86-64.so.2")));
  assert_eq (raw (resolved_guest resolved)) (text "/lib/x86_64-linux-gnu/ld-2.19.so") ;;
  host ← some (resolved_host resolved);
  assert_path host (joined root_dir file).
End OnHost.

(** The prefixes in the documentation of [std::path::Prefix]. *)
Example documented_prefixes : parse_prefix Windows <$>
    (text <$> ["\\?\pictures\kittens"; "\\?\UNC\server\share"; "\\?\c:\"; "\\.\NUL";
               "\\server\share"; "C:\Users\Rust\Pictures\Ferris"; "/etc/passwd"; "a:b/c"]%string) =
  [Some (Verbatim (text "pictures")); Some (VerbatimUNC (text "server") (text "share"));
   Some (VerbatimDisk 67); Some (DeviceNS (text "NUL")); Some (UNC (text "server") (text "share"));
   Some (Disk 67); None; Some (Disk 65)].
Proof. vm_compute. reflexivity. Qed.

(** The tests that do not depend on the platform pass on both. *)
Example fs_tests_pass : forallb (fun pf => forallb (fun t => passes (t pf) bare_host)
  [normalizes_guest_paths_without_escaping_root; resolves_virtual_linux_files;
   resolves_relative_symlink_targets_inside_rootfs;
   resolves_symlink_targets_into_virtual_files]) [Windows; Other] = true.
Proof. vm_compute. reflexivity. Qed.

Example fs_windows_tests_pass : forallb (fun t => passes (t Windows) bare_host)
  [rejects_windows_prefixes;
   resolves_windows_absolute_symlink_targets_as_guest_absolute_paths] = true.
Proof. vm_compute. reflexivity. Qed.

(** The test of drive letters is not restricted to Windows, where alone a path
    has such a prefix: on a Unix host it fails, the path is accepted. *)
Example windows_prefix_test_fails : passes (rejects_windows_prefixes Other) bare_host = false /\
  parse_path (text "C:/Windows") = Ok (mkGuestPath (text "/C:/Windows")).
Proof. split; vm_compute; reflexivity. Qed.
End FsTests.

(** ** ruxeon-linux/src/lib.rs *)
Module LinuxTests.

Abbreviation HKernel := (Kernel (H:=example_host)).

Definition KTest : Type := Test HKernel unit.

#[export] Instance SyscallOutcome_return (o : SyscallOutcome) (v : Z) : Decision (o = Return v).
Proof.
  refine (match o with
          | Return x => match decide (x = v) with left e => left (f_equal Return e) | right n => right _ end
          | _ => right _
          end); congruence.
Defined.

Definition memory_with_data (addr : Z) (data : list Z) : Test GuestMemory unit :=
  unwrap (map_region 0x1000 0x4000 (Z.lor READ WRITE) (Some (text "test"))) ;;
  unwrap (write_bytes addr data).

(** The objects a test makes first: a process with a root directory or none, a
    memory, the files of the host; and, for the tests of processes, a table. *)
Definition given (rootfs : option PathBuf) (files : list (PathBuf * node))
    (m : Test GuestMemory unit) : KTest := fun _ =>
  let w := host_with files in
  let '(r, mem) := m new in
  (r, mkKernel (process_new (H:=example_host) rootfs w) mem (mkShared w []) None).

Definition no_memory : Test GuestMemory unit := mret tt.

(** [SyscallDispatcher::dispatch] of a call by its number. *)
Definition call (number : SyscallNumber) (args : list Z) : Test HKernel SyscallOutcome :=
  dispatch (mkInput (syscall_raw number) args).

Definition returns (number : SyscallNumber) (args : list Z) (value : Z) : KTest :=
  o ← call number args;
  assert (bool_decide (o = Return value)).

(** [let SyscallOutcome::Return(value) = ... else { panic!() }]. *)
Definition value_of (number : SyscallNumber) (args : list Z) : Test HKernel Z :=
  o ← call number args;
  match o with Return v => mret v | _ => panic end.

(** The guest's memory. *)
Definition mem {A} (m : ST GuestMemory GuestMemoryError A) : Test HKernel A :=
  unwrap (in_memory (on_mem m)).

Definition peek {A} (f : GuestMemory -> res GuestMemoryError A) : Test HKernel A :=
  unwrap (reads (fun k => f (k_memory k))).

Definition try_mem {A} (m : ST GuestMemory GuestMemoryError A) : Test HKernel (res GuestMemoryError A) :=
  fun k => let '(r, m') := m (k_memory k) in
           (Ok r, mkKernel (k_process k) m' (k_shared k) (k_table k)).

(** A shared buffer in a descriptor. *)
Definition with_buffer (fd : Z) : Test HKernel nat :=
  unwrap (in_fds (b ← new_buffer; install_buffer fd b ;; mret b)).

Definition buffer_is (b : nat) (bytes : list Z) : KTest :=
  bs ← gets (fun k => buffers (k_shared k) !! b);
  assert_eq bs (Some bytes).

Definition trace_name (i : nat) (name : list Z) : KTest :=
  t ← gets (fun k => p_trace (k_process k) !! i);
  assert_eq (st_name <$> t) (Some name).

Definition temp : PathBuf := text "/tmp/root".

Definition writes_stdout_to_buffer : KTest :=
  given None [] (memory_with_data 0x1000 (text "hello" ++ [10])) ;;
  buffer ← with_buffer 1;
  returns Sys_Write [1; 0x1000; 6; 0; 0; 0] 6 ;;
  buffer_is buffer (text "hello" ++ [10]) ;;
  trace_name 0 (text "write").

Definition maps_and_unmaps_memory : KTest :=
  given None [] no_memory ;;
  addr ← value_of Sys_Mmap [0; 4096; Z.lor PROT_READ PROT_WRITE; Z.lor MAP_PRIVATE MAP_ANONYMOUS; 0; 0];
  assert (0 <? addr) ;;
  mem (write_u8 (wrap 64 addr) 1) ;;
  returns Sys_Munmap [wrap 64 addr; 4096; 0; 0; 0; 0] 0 ;;
  r ← try_mem (reads (fun m => Memory.read_u8 m (wrap 64 addr)));
  assert (is_unmapped r).

Definition brk_is (requested : Z) : KTest :=
  b ← unwrap (process_brk requested);
  assert_eq b requested.

Definition brk_can_shrink_and_regrow_without_overlap_faults : KTest :=
  given None [] no_memory ;;
  brk_is 0x700000003000 ;;
  brk_is 0x700000001000 ;;
  brk_is 0x700000003000 ;;
  mem (write_u8 0x700000001000 0xaa) ;;
  v ← peek (fun m => Memory.read_u8 m 0x700000001000);
  assert_eq v 0xaa.

Definition mmap_loads_file_backed_contents : KTest :=
  given (Some temp) [(temp, NDir); (text "/tmp/root/blob", NFile (text "linux"))] no_memory ;;
  fd ← unwrap (open_guest_path None (text "/blob") 0);
  addr ← unwrap (mmap 0 5 PROT_READ MAP_PRIVATE (wrap 64 fd) 0);
  bs ← peek (fun m => read_bytes m addr 5);
  assert_eq bs (text "linux").

Definition mmap_fixed_replaces_existing_mapping : KTest :=
  given (Some temp) [(temp, NDir); (text "/tmp/root/blob", NFile (text "abcd"))] no_memory ;;
  initial ← unwrap (mmap 0x4000 PAGE_SIZE (Z.lor PROT_READ PROT_WRITE)
                      (Z.lor (Z.lor MAP_PRIVATE MAP_ANONYMOUS) MAP_FIXED) (wrap 64 (-1)) 0);
  mem (write_u8 initial 0xaa) ;;
  fd ← unwrap (open_guest_path None (text "/blob") 0);
  replaced ← unwrap (mmap 0x4000 4 PROT_READ (Z.lor MAP_PRIVATE MAP_FIXED) (wrap 64 fd) 0);
  assert_eq replaced initial ;;
  bs ← peek (fun m => read_bytes m replaced 4);
  assert_eq bs (text "abcd") ;;
  r ← try_mem (write_u8 replaced 0xbb);
  assert (is_permission r).

Definition returns_negative_errno_for_unknown_syscall : KTest :=
  given None [] no_memory ;;
  o ← dispatch (mkInput 9999 [0; 0; 0; 0; 0; 0]);
  assert (bool_decide (o = Return (linux_return NoSys))).

Definition opens_and_reads_virtual_proc_file : KTest :=
  given None [] (memory_with_data 0x1000 (text "/proc/cpuinfo" ++ [0])) ;;
  fd ← value_of Sys_Open [0x1000; 0; 0; 0; 0; 0];
  assert (3 <=? fd) ;;
  count ← value_of Sys_Read [wrap 64 fd; 0x1100; 64; 0; 0; 0];
  assert (0 <? count) ;;
  bs ← peek (fun m => read_bytes m 0x1100 count);
  assert (utf8_valid bs) ;;
  assert (has_infix (text "processor") bs).

(** A call with no argument but the first three. *)
Definition ioctl_succeeds (fd request arg : Z) : KTest :=
  returns Sys_Ioctl [fd; request; arg; 0; 0; 0] 0.

Definition zeros (n : nat) : list Z := replicate n 0.

Definition terminal_ioctls_round_trip_termios_and_winsize : KTest :=
  given None [] (memory_with_data 0x1000 (zeros 0x1000)) ;;
  ioctl_succeeds 0 TCGETS 0x1000 ;;
  lflag ← peek (fun m => Memory.read_u32 m (0x1000 + 12));
  assert_ne (Z.land lflag ICANON) 0 ;;
  assert_ne (Z.land lflag ECHO) 0 ;;
  termios ← peek (fun m => read_bytes m 0x1000 TERMIOS_SIZE);
  mem (write_bytes 0x1100 (ElfTests.copy_at 12 (to_le 4 (Z.land lflag (Z.lxor ECHO (2 ^ 32 - 1))))
    termios)) ;;
  ioctl_succeeds 0 TCSETS 0x1100 ;;
  ioctl_succeeds 0 TCGETS 0x1200 ;;
  updated_lflag ← peek (fun m => Memory.read_u32 m (0x1200 + 12));
  assert_eq (Z.land updated_lflag ECHO) 0 ;;
  assert_ne (Z.land updated_lflag ICANON) 0 ;;
  mem (write_u16 0x1300 40) ;;
  mem (write_u16 0x1302 120) ;;
  mem (write_u16 0x1304 1) ;;
  mem (write_u16 0x1306 2) ;;
  ioctl_succeeds 1 TIOCSWINSZ 0x1300 ;;
  ioctl_succeeds 1 TIOCGWINSZ 0x1400 ;;
  rows ← peek (fun m => Memory.read_u16 m 0x1400);
  assert_eq rows 40 ;;
  columns ← peek (fun m => Memory.read_u16 m 0x1402);
  assert_eq columns 120.

Definition terminal_ioctl_rejects_non_terminal_fds : KTest :=
  given None [] (memory_with_data 0x1000 (zeros 128)) ;;
  with_buffer 3 ;;
  returns Sys_Ioctl [3; TCGETS; 0x1000; 0; 0; 0] (linux_return NoTty).

Definition terminal_ioctl_accepts_duplicated_stdio_fds : KTest :=
  given None [] (memory_with_data 0x1000 (zeros 128)) ;;
  dup_fd ← unwrap (in_fds (duplicate 0 3 false));
  ioctl_succeeds (wrap 64 dup_fd) TCGETS 0x1000.

Definition pipe_dup_and_poll_round_trip_data : KTest :=
  given None [] (memory_with_data 0x1000 (zeros 128)) ;;
  mem (write_bytes 0x1080 (text "abc")) ;;
  returns Sys_Pipe [0x1000; 0; 0; 0; 0; 0] 0 ;;
  read_fd ← peek (fun m => Memory.read_u32 m 0x1000);
  write_fd ← peek (fun m => Memory.read_u32 m 0x1004);
  dup_fd ← value_of Sys_Dup [write_fd; 0; 0; 0; 0; 0];
  returns Sys_Write [wrap 64 dup_fd; 0x1080; 3; 0; 0; 0] 3 ;;
  mem (write_u32 0x1100 read_fd) ;;
  mem (write_u16 0x1104 POLLIN) ;;
  returns Sys_Poll [0x1100; 1; 0; 0; 0; 0] 1 ;;
  returns Sys_Read [read_fd; 0x1200; 3; 0; 0; 0] 3 ;;
  bs ← peek (fun m => read_bytes m 0x1200 3);
  assert_eq bs (text "abc").

Definition getdents64_returns_directory_entries : KTest :=
  given (Some temp) [(temp, NDir); (text "/tmp/root/file.txt", NFile (text "x"))]
    (memory_with_data 0x1000 (text "/" ++ [0])) ;;
  fd ← value_of Sys_Open [0x1000; O_DIRECTORY; 0; 0; 0; 0];
  count ← value_of Sys_Getdents64 [wrap 64 fd; 0x1100; 512; 0; 0; 0];
  assert (0 <? count) ;;
  bs ← peek (fun m => read_bytes m 0x1100 count);
  assert (has_infix (text "file.txt") bs).

Definition clock_gettime_writes_timespec : KTest :=
  given None [] (memory_with_data 0x1000 (zeros 32)) ;;
  returns Sys_ClockGettime [CLOCK_REALTIME; 0x1000; 0; 0; 0; 0] 0 ;;
  t ← peek (fun m => Memory.read_u64 m 0x1000);
  assert (0 <? t).

Definition execve_returns_load_request : KTest :=
  given (Some temp) [(temp, NDir); (text "/tmp/root/bin", NDir);
    (text "/tmp/root/bin/sh", NFile (text "fake"))] (memory_with_data 0x1000 (zeros 512)) ;;
  mem (write_bytes 0x1000 (text "/bin/sh" ++ [0])) ;;
  mem (write_u64 0x1100 0x1000) ;;
  mem (write_u64 0x1108 0) ;;
  mem (write_u64 0x1200 0) ;;
  o ← call Sys_Execve [0x1000; 0x1100; 0x1200; 0; 0; 0];
  match o with
  | Execve request =>
      assert_eq (ex_guest_path request) (text "/bin/sh") ;;
      assert_eq (ex_argv request) [text "/bin/sh"] ;;
      assert_eq (ex_host_path request) (text "/tmp/root/bin/sh")
  | _ => panic
  end.

(** [Path::is_dir] and [Path::exists] of the host. *)
Definition host_has (p : PathBuf) (dir : bool) : Test HKernel bool :=
  gets (fun k => let w := world (k_shared k) in if dir then path_is_dir p w else path_exists p w).

Definition mkdir_creates_directory_inside_rootfs : KTest :=
  given (Some temp) [(temp, NDir)] (memory_with_data 0x1000 (text "/demo" ++ [0])) ;;
  returns Sys_Mkdir [0x1000; 0x1ed; 0; 0; 0; 0] 0 ;;
  b ← host_has (text "/tmp/root/demo") true;
  assert b.

Definition unlink_removes_file_inside_rootfs : KTest :=
  given (Some temp) [(temp, NDir); (text "/tmp/root/demo.txt", NFile (text "hello"))]
    (memory_with_data 0x1000 (text "/demo.txt" ++ [0])) ;;
  returns Sys_Unlink [0x1000; 0; 0; 0; 0; 0] 0 ;;
  b ← host_has (text "/tmp/root/demo.txt") false;
  assert (negb b).

Definition rmdir_removes_directory_inside_rootfs : KTest :=
  given (Some temp) [(temp, NDir); (text "/tmp/root/demo", NDir)]
    (memory_with_data 0x1000 (text "/demo" ++ [0])) ;;
  returns Sys_Rmdir [0x1000; 0; 0; 0; 0; 0] 0 ;;
  b ← host_has (text "/tmp/root/demo") false;
  assert (negb b).

(** The state before a test has made its own. *)
Definition nothing : HKernel :=
  mkKernel (process_new (H:=example_host) None bare_host) new (mkShared bare_host []) None.

Example linux_tests_pass : forallb (fun t => passes t nothing)
  [writes_stdout_to_buffer; maps_and_unmaps_memory; brk_can_shrink_and_regrow_without_overlap_faults;
   mmap_loads_file_backed_contents; mmap_fixed_replaces_existing_mapping;
   returns_negative_errno_for_unknown_syscall; opens_and_reads_virtual_proc_file;
   terminal_ioctls_round_trip_termios_and_winsize; terminal_ioctl_rejects_non_terminal_fds;
   terminal_ioctl_accepts_duplicated_stdio_fds; pipe_dup_and_poll_round_trip_data;
   getdents64_returns_directory_entries; clock_gettime_writes_timespec; execve_returns_load_request;
   mkdir_creates_directory_inside_rootfs; unlink_removes_file_inside_rootfs;
   rmdir_removes_directory_inside_rootfs] = true.
Proof. vm_compute. reflexivity. Qed.
End LinuxTests.

(** ** The tests of processes *)
Module ProcessTests.
Import LinuxTests.

Abbreviation HTable := (ProcessTable (H:=example_host)).

(** The table of the state. *)
Definition the_table : Test HKernel HTable :=
  t ← gets k_table;
  some t.

Definition set_table (t : HTable) : KTest :=
  modify (fun k => mkKernel (k_process k) (k_memory k) (k_shared k) (Some t)).

Definition on_table {A} (f : HTable -> A * HTable) : Test HKernel A :=
  t ← the_table;
  let '(a, t) := f t in
  set_table t ;;
  mret a.

(** [ProcessTable::new] and [insert_initial] of a process like the first one. *)
Definition insert_first (regs : Registers) : Test HKernel Z :=
  p ← gets (fun k => process_new (H:=example_host) None (world (k_shared k)));
  m ← gets k_memory;
  start ← unwrap (lift (insert_initial p m regs table_new));
  set_table start.2 ;;
  mret start.1.

(** [fork_from_process] of the process of the state. *)
Definition fork_first (regs : Registers) : Test HKernel Z :=
  t ← the_table;
  k ← gets (fun k => k);
  let '(r, (t, sh)) := fork_from_process (k_process k) (k_memory k) regs (t, k_shared k) in
  modify (fun k => mkKernel (k_process k) (k_memory k) sh (Some t)) ;;
  unwrap (lift r).

Definition process_table_forks_snapshots_and_waits_for_exit : KTest :=
  given None [] (memory_with_data 0x1000 (text "parent")) ;;
  let registers := set_rax 123 (set_rip 0x4000 default_registers) in
  parent_pid ← insert_first registers;
  child_pid ← fork_first registers;
  t ← the_table;
  child ← some (table_get t child_pid);
  assert_eq (pr_parent child) (Some parent_pid) ;;
  bs ← unwrap (lift (read_bytes (pr_memory child) 0x1000 6));
  assert_eq bs (text "parent") ;;
  child_thread ← some (head (map_to_list (pr_threads child)));
  assert_eq (rax (t_registers child_thread.2)) 0 ;;
  on_table (fun t => (tt, exit_process child_pid 7 t)) ;;
  waited ← on_table (wait4 parent_pid (Some child_pid));
  waited ← some waited;
  assert_eq waited.1 child_pid ;;
  assert_eq (wait_status waited.2) (Z.shiftl 7 8).

Definition scheduler_round_robins_runnable_threads : KTest :=
  given None [] no_memory ;;
  pid ← insert_first default_registers;
  t ← the_table;
  r ← some (table_get t pid);
  let scheduler := enqueue_process r (mkScheduler []) in
  let '(next, scheduler) := next_thread t scheduler in
  next ← some next;
  assert_eq next.1 pid ;;
  on_table (fun t => (tt, exit_process pid 0 t)) ;;
  t ← the_table;
  assert_eq (next_thread t scheduler).1 None.

(** [dispatch_with_process_model] with the table of the state. *)
Definition call_with (number : SyscallNumber) (args : list Z) (regs : option Registers)
    : Test HKernel SyscallOutcome :=
  dispatch_with_process_model (mkInput (syscall_raw number) args) regs.

Definition process_registers : Registers := set_rsp 0x8000 (set_rip 0x401000 default_registers).

(** The beginning of two tests: the first process forks. *)
Definition forked : Test HKernel (Z * Z) :=
  given None [] (memory_with_data 0x1000 (zeros 16)) ;;
  parent_pid ← insert_first process_registers;
  self ← gets (fun k => p_pid (k_process k));
  assert_eq parent_pid self ;;
  o ← call_with Sys_Fork (zeros 6) (Some process_registers);
  match o with
  | Return child => mret (parent_pid, wrap 32 child)
  | _ => panic
  end.

Definition waits_for (child status : Z) (regs : option Registers) : KTest :=
  o ← call_with Sys_Wait4 [child; 0x1000; 0; 0; 0; 0] regs;
  assert (bool_decide (o = Return child)) ;;
  v ← peek (fun m => Memory.read_u32 m 0x1000);
  assert_eq v status.

Definition dispatch_fork_and_wait_use_process_table : KTest :=
  pids ← forked;
  t ← the_table;
  assert (bool_decide (is_Some (table_get t pids.2))) ;;
  on_table (fun t => (tt, exit_process pids.2 3 t)) ;;
  waits_for pids.2 (Z.shiftl 3 8) (Some process_registers).

Definition blocking_wait4_wakes_parent_when_child_exits : KTest :=
  pids ← forked;
  o ← call_with Sys_Wait4 [pids.2; 0x1000; 0; 0; 0; 0] None;
  assert (match o with Blocked => true | _ => false end) ;;
  on_table (fun t => (tt, set_records (alter (fun r =>
    set_pr_threads (set_t_state Waiting <$> pr_threads r) (set_pr_state Waiting r)) pids.1) t)) ;;
  on_table (fun t => (tt, record_exit pids.2 (Some pids.1) 9 t)) ;;
  t ← the_table;
  r ← some (table_get t pids.1);
  assert_eq (pr_state r) Runnable ;;
  assert (forallb (fun th => bool_decide (t_state th.2 = Runnable)) (map_to_list (pr_threads r))) ;;
  waits_for pids.2 (Z.shiftl 9 8) None.

Definition signal_state_queues_and_takes_signals : Test SignalState unit :=
  modify (signal_enqueue 2) ;;
  modify (signal_enqueue 15) ;;
  p ← gets pending;
  assert_eq p [2; 15] ;;
  a ← (fun s => let '(x, s) := signal_take_next s in (Ok x, s));
  assert_eq a (Some 2) ;;
  b ← (fun s => let '(x, s) := signal_take_next s in (Ok x, s));
  assert_eq b (Some 15) ;;
  c ← (fun s => let '(x, s) := signal_take_next s in (Ok x, s));
  assert_eq c None.

Example process_tests_pass : forallb (fun t => passes t nothing)
  [process_table_forks_snapshots_and_waits_for_exit; scheduler_round_robins_runnable_threads;
   dispatch_fork_and_wait_use_process_table; blocking_wait4_wakes_parent_when_child_exits] &&
  passes signal_state_queues_and_takes_signals (mkSignals []) = true.
Proof. vm_compute. reflexivity. Qed.
End ProcessTests.

(** ** ruxeon-tests/src/lib.rs *)
Module HarnessTests.
Import LinuxTests.

Definition BASE : Z := 0x1000.

Definition hello_code : list Z :=
  [0xb8; 0x01; 0x00; 0x00; 0x00; 0xbf; 0x01; 0x00; 0x00; 0x00;
   0x48; 0x8d; 0x35; 0x10; 0x00; 0x00; 0x00; 0xba; 0x06; 0x00; 0x00; 0x00; 0x0f; 0x05;
   0xb8; 0x3c; 0x00; 0x00; 0x00; 0x31; 0xff; 0x0f; 0x05] ++ text "hello" ++ [10].

(** The memory of the interpreter and the kernel's other state. *)
Definition Machine : Type := Interpreter * HKernel.

(** A dispatch on the memory of the interpreter. *)
Definition dispatch_on (input : SyscallInput) : Test Machine SyscallOutcome := fun '(i, k) =>
  let '(r, k) := dispatch input (mkKernel (k_process k) (memory i) (k_shared k) (k_table k)) in
  (r, (Cpu.set_memory (k_memory k) i, k)).

Definition step_on : Test Machine StepOutcome := fun '(i, k) =>
  let '(r, i) := unwrap step i in (r, (i, k)).

(** The loop of the test: the exit code, when one of the rounds exits. *)
Fixpoint harness (n : nat) : Test Machine (option Z) :=
  match n with
  | O => mret None
  | S n =>
      o ← step_on;
      match o with
      | Continue => harness n
      | Halted code => mret (Some code)
      | Syscall trap =>
          outcome ← dispatch_on (mkInput (number trap) (args trap));
          match outcome with
          | Return value =>
              modify (fun '(i, k) =>
                (set_registers (set_rax (wrap 64 value) (registers i)) i, k)) ;;
              harness n
          | ExitWith code => mret (Some code)
          | Execve _ => panic
          | Blocked => panic
          end
      end
  end.

(** A test of the kernel's part. *)
Definition on_kernel {A} (t : Test HKernel A) : Test Machine A := fun '(i, k) =>
  let '(r, k) := t k in (r, (i, k)).

Definition hello_interpreter : Test Machine unit := fun '(_, k) =>
  let '(r, m) := (unwrap (map_region BASE 0x1000 (Z.lor (Z.lor READ WRITE) EXECUTE)
                    (Some (text "code"))) ;;
                  unwrap (write_bytes BASE hello_code)) new in
  (r, (interpreter_new m (set_rsp 0x8000 (set_rip BASE default_registers)), k)).

Definition cpu_syscall_dispatcher_runs_write_then_exit : Test Machine unit :=
  hello_interpreter ;;
  output ← on_kernel (with_buffer 1);
  exit ← harness 16;
  assert_eq exit (Some 0) ;;
  on_kernel (buffer_is output (text "hello" ++ [10])) ;;
  on_kernel (trace_name 0 (text "write")) ;;
  on_kernel (trace_name 1 (text "exit")).

Example harness_test_passes :
  passes cpu_syscall_dispatcher_runs_write_then_exit (CpuTests.empty, nothing) = true.
Proof. vm_compute. reflexivity. Qed.
End HarnessTests.
